(** * Derecho view management: a shallow embedding of [view_manager.cpp]

    The development follows the group-membership part of Derecho: the
    shared status table (SST) rows that every member keeps a local copy
    of, the [View] and [SubView] snapshots, and the predicate triggers of
    [ViewManager] that propose, acknowledge and commit membership changes,
    compute the next view, lay subgroups out over it and trim the ragged
    edge of a dying view, and the handshake of a node that joins.

    Conventions.
    - C++ [int]/[int32_t] counters are unbounded [Z] here: signed overflow
      is undefined in the source and the counters stay far below 2^31.
      [uint32_t] arithmetic that can wrap is written with [u32].
    - A vector indexed by an [int] is a [list] read with [cell] and
      written with [set_cell].  Out of range the source has undefined
      behaviour; the model reads a default ([0], [false]) and writes nothing, and
      theorems that depend on a cell carry the in-range hypothesis.
    - A function that can throw returns an [outcome] carrying the state
      reached when the exception left the function. *)

From stdpp Require Import base numbers option list sorting strings gmap.

Local Open Scope Z_scope.

(** ** Basic types *)

Abbreviation node_id_t := Z (only parsing).
Definition subgroup_type_t := nat.

(** ip address and the gms, rpc, sst and rdmc ports *)
Definition endpoint : Type := Z * Z * Z * Z * Z.

Inductive Mode := ORDERED | UNORDERED.

Definition u32 (x : Z) : Z := x mod 2 ^ 32.

(** The messages of the [derecho_exception]s thrown by the view manager. *)
Inductive derecho_exception :=
| partitioning_event
| ran_out_of_room
| too_many_changes
| reported_failed
| id_already_in_use
| leader_crashed_id_exchange
| leader_crashed_restart_view
| leader_crashed_initial_view
| connect_failed
(** [std::out_of_range], thrown by [at] *)
| std_out_of_range.

Inductive outcome (A : Type) :=
| Done (a : A)
| Throws (e : derecho_exception) (a : A).
Arguments Done {A} a.
Arguments Throws {A} e a.

(** The result of a function that throws without leaving a state behind. *)
Inductive result (A : Type) :=
| Returns (a : A)
| Raises (e : derecho_exception).
Arguments Returns {A} a.
Arguments Raises {A} e.



(** ** Vectors indexed by C++ integers *)

Definition at_index {A} (l : list A) (i : Z) : option A :=
  if bool_decide (0 ≤ i) then l !! Z.to_nat i else None.

Definition cell {A} (d : A) (l : list A) (i : Z) : A :=
  default d (at_index l i).

Definition set_cell {A} (l : list A) (i : Z) (x : A) : list A :=
  if bool_decide (0 ≤ i) then <[Z.to_nat i := x]> l else l.

Definition size {A} (l : list A) : Z := Z.of_nat (length l).

(** [for (i = from; i < from + n; ++i) body], threading the state. *)
Fixpoint loop_from {S} (n : nat) (from : Z) (body : Z → S → S) (s : S) : S :=
  match n with
  | O => s
  | Datatypes.S n' => loop_from n' (from + 1) body (body from s)
  end.

Definition for_loop {S} (bound : Z) (body : Z → S → S) (s : S) : S :=
  loop_from (Z.to_nat bound) 0 body s.

(** The same loop when the body can throw: the first exception ends it. *)
Fixpoint loop_from_throwing {S} (n : nat) (from : Z)
    (body : Z → S → outcome S) (s : S) : outcome S :=
  match n with
  | O => Done s
  | Datatypes.S n' =>
      match body from s with
      | Done s' => loop_from_throwing n' (from + 1) body s'
      | Throws e s' => Throws e s'
      end
  end.

Definition for_loop_throwing {S} (bound : Z)
    (body : Z → S → outcome S) (s : S) : outcome S :=
  loop_from_throwing (Z.to_nat bound) 0 body s.

(** [gmssst::set(dst, src, n)]: copy [n] cells of [src], starting at
    [offset] in both vectors. *)
Definition copy_cells {A} (d : A) (dst src : list A) (offset n : Z) : list A :=
  for_loop n (λ i dst, set_cell dst (offset + i) (cell d src (offset + i))) dst.

(** ** The shared status table *)

Module SST.

(** Modelled from the spec: the columns of a [DerechoSST] row that the
    view manager reads and writes ([derecho_sst.h] is not part of the
    sources).  The receive counters of the small-message transport, the
    sequence and persistence counters and the stability frontier belong
    to the multicast engine and are left out. *)
Record Row := mkRow {
  suspected : list bool;
  rip : bool;
  wedged : bool;
  changes : list node_id_t;
  joiner_ips : list Z;
  joiner_gms_ports : list Z;
  joiner_rpc_ports : list Z;
  joiner_sst_ports : list Z;
  joiner_rdmc_ports : list Z;
  num_changes : Z;
  num_committed : Z;
  num_acked : Z;
  num_installed : Z;
  num_received : list Z;
  delivered_num : list Z;
  global_min : list Z;
  global_min_ready : list bool
}.

Definition set_suspected (x : list bool) (r : Row) : Row :=
  mkRow x (rip r) (wedged r) (changes r) (joiner_ips r) (joiner_gms_ports r)
    (joiner_rpc_ports r) (joiner_sst_ports r) (joiner_rdmc_ports r)
    (num_changes r) (num_committed r) (num_acked r) (num_installed r)
    (num_received r) (delivered_num r) (global_min r) (global_min_ready r).
Definition set_wedged (x : bool) (r : Row) : Row :=
  mkRow (suspected r) (rip r) x (changes r) (joiner_ips r)
    (joiner_gms_ports r) (joiner_rpc_ports r) (joiner_sst_ports r)
    (joiner_rdmc_ports r) (num_changes r) (num_committed r) (num_acked r)
    (num_installed r) (num_received r) (delivered_num r) (global_min r)
    (global_min_ready r).
Definition set_changes (x : list node_id_t) (r : Row) : Row :=
  mkRow (suspected r) (rip r) (wedged r) x (joiner_ips r) (joiner_gms_ports r)
    (joiner_rpc_ports r) (joiner_sst_ports r) (joiner_rdmc_ports r)
    (num_changes r) (num_committed r) (num_acked r) (num_installed r)
    (num_received r) (delivered_num r) (global_min r) (global_min_ready r).
Definition set_joiner_ips (x : list Z) (r : Row) : Row :=
  mkRow (suspected r) (rip r) (wedged r) (changes r) x (joiner_gms_ports r)
    (joiner_rpc_ports r) (joiner_sst_ports r) (joiner_rdmc_ports r)
    (num_changes r) (num_committed r) (num_acked r) (num_installed r)
    (num_received r) (delivered_num r) (global_min r) (global_min_ready r).
Definition set_joiner_gms_ports (x : list Z) (r : Row) : Row :=
  mkRow (suspected r) (rip r) (wedged r) (changes r) (joiner_ips r) x
    (joiner_rpc_ports r) (joiner_sst_ports r) (joiner_rdmc_ports r)
    (num_changes r) (num_committed r) (num_acked r) (num_installed r)
    (num_received r) (delivered_num r) (global_min r) (global_min_ready r).
Definition set_joiner_rpc_ports (x : list Z) (r : Row) : Row :=
  mkRow (suspected r) (rip r) (wedged r) (changes r) (joiner_ips r)
    (joiner_gms_ports r) x (joiner_sst_ports r) (joiner_rdmc_ports r)
    (num_changes r) (num_committed r) (num_acked r) (num_installed r)
    (num_received r) (delivered_num r) (global_min r) (global_min_ready r).
Definition set_joiner_sst_ports (x : list Z) (r : Row) : Row :=
  mkRow (suspected r) (rip r) (wedged r) (changes r) (joiner_ips r)
    (joiner_gms_ports r) (joiner_rpc_ports r) x (joiner_rdmc_ports r)
    (num_changes r) (num_committed r) (num_acked r) (num_installed r)
    (num_received r) (delivered_num r) (global_min r) (global_min_ready r).
Definition set_joiner_rdmc_ports (x : list Z) (r : Row) : Row :=
  mkRow (suspected r) (rip r) (wedged r) (changes r) (joiner_ips r)
    (joiner_gms_ports r) (joiner_rpc_ports r) (joiner_sst_ports r) x
    (num_changes r) (num_committed r) (num_acked r) (num_installed r)
    (num_received r) (delivered_num r) (global_min r) (global_min_ready r).
Definition set_num_changes (x : Z) (r : Row) : Row :=
  mkRow (suspected r) (rip r) (wedged r) (changes r) (joiner_ips r)
    (joiner_gms_ports r) (joiner_rpc_ports r) (joiner_sst_ports r)
    (joiner_rdmc_ports r) x (num_committed r) (num_acked r) (num_installed r)
    (num_received r) (delivered_num r) (global_min r) (global_min_ready r).
Definition set_num_committed (x : Z) (r : Row) : Row :=
  mkRow (suspected r) (rip r) (wedged r) (changes r) (joiner_ips r)
    (joiner_gms_ports r) (joiner_rpc_ports r) (joiner_sst_ports r)
    (joiner_rdmc_ports r) (num_changes r) x (num_acked r) (num_installed r)
    (num_received r) (delivered_num r) (global_min r) (global_min_ready r).
Definition set_num_acked (x : Z) (r : Row) : Row :=
  mkRow (suspected r) (rip r) (wedged r) (changes r) (joiner_ips r)
    (joiner_gms_ports r) (joiner_rpc_ports r) (joiner_sst_ports r)
    (joiner_rdmc_ports r) (num_changes r) (num_committed r) x
    (num_installed r) (num_received r) (delivered_num r) (global_min r)
    (global_min_ready r).
Definition set_delivered_num (x : list Z) (r : Row) : Row :=
  mkRow (suspected r) (rip r) (wedged r) (changes r) (joiner_ips r)
    (joiner_gms_ports r) (joiner_rpc_ports r) (joiner_sst_ports r)
    (joiner_rdmc_ports r) (num_changes r) (num_committed r) (num_acked r)
    (num_installed r) (num_received r) x (global_min r) (global_min_ready r).
Definition set_global_min (x : list Z) (r : Row) : Row :=
  mkRow (suspected r) (rip r) (wedged r) (changes r) (joiner_ips r)
    (joiner_gms_ports r) (joiner_rpc_ports r) (joiner_sst_ports r)
    (joiner_rdmc_ports r) (num_changes r) (num_committed r) (num_acked r)
    (num_installed r) (num_received r) (delivered_num r) x
    (global_min_ready r).
Definition set_global_min_ready (x : list bool) (r : Row) : Row :=
  mkRow (suspected r) (rip r) (wedged r) (changes r) (joiner_ips r)
    (joiner_gms_ports r) (joiner_rpc_ports r) (joiner_sst_ports r)
    (joiner_rdmc_ports r) (num_changes r) (num_committed r) (num_acked r)
    (num_installed r) (num_received r) (delivered_num r) (global_min r) x.

Definition zero_row : Row :=
  mkRow [] false false [] [] [] [] [] [] 0 0 0 0 [] [] [] [].

(** [sst.column[r]] *)
Definition row (sst : list Row) (r : Z) : Row := cell zero_row sst r.

(** A write [sst.column[r] = x] or [gmssst::set(sst.column[r], x)]. *)
Definition update (sst : list Row) (r : Z) (f : Row → Row) : list Row :=
  if bool_decide (0 ≤ r) then alter f (Z.to_nat r) sst else sst.

Definition get_num_rows (sst : list Row) : Z := size sst.

End SST.

(** The columns named in [put] calls, and the byte ranges published. *)
Inductive Column :=
| c_suspected | c_wedged | c_changes | c_joiner_ips
| c_num_changes | c_num_committed | c_num_acked | c_num_installed
| c_num_received | c_delivered_num | c_global_min | c_global_min_ready.

Inductive Put :=
(** [put(a.get_base() - base, b.get_base() - a.get_base())] *)
| put_columns (first until : Column)
(** [put(c.get_base() - base, sizeof(c[0]))] *)
| put_column (c : Column)
(** [put(addressof(c[0][i]) - base, sizeof(c[0][i]) * n)] *)
| put_cells (c : Column) (i n : Z)
(** the same, restricted to the rows of the shard of a subgroup *)
| put_shard_cells (subgroup : nat) (c : Column) (i n : Z).

(** ** Views *)

(** Index of the first occurrence of [who] in a member list, counted from
    [i]; -1 when there is none. *)
Fixpoint find_rank (who : node_id_t) (l : list node_id_t) (i : Z) : Z :=
  match l with
  | [] => -1
  | m :: l' => if bool_decide (m = who) then i else find_rank who l' (i + 1)
  end.

Module SubView.

(** Modelled from the spec: the [SubView] of one shard ([view.h] is not
    part of the sources). *)
Record t := mk {
  members : list node_id_t;
  is_sender : list bool;
  mode : Mode;
  my_rank : Z;
  joined : list node_id_t;
  departed : list node_id_t
}.

Definition set_my_rank (x : Z) (r : t) : t :=
  mk (members r) (is_sender r) (mode r) x (joined r) (departed r).
Definition set_joined (x : list node_id_t) (r : t) : t :=
  mk (members r) (is_sender r) (mode r) (my_rank r) x (departed r).
Definition set_departed (x : list node_id_t) (r : t) : t :=
  mk (members r) (is_sender r) (mode r) (my_rank r) (joined r) x.

(** Modelled from the spec: rank of a node within the shard, -1 if it is
    not a member. *)
Definition rank_of (sv : t) (who : node_id_t) : Z := find_rank who (members sv) 0.

(** Modelled from the spec: the number of members flagged as senders. *)
Definition num_senders (sv : t) : Z := size (filter (λ b, b = true) (is_sender sv)).

(** Modelled from the spec: the sender rank of the member at [rank], that
    is the number of senders ranked below it, or -1 if it is not a sender. *)
Definition sender_rank_of (sv : t) (rank : Z) : Z :=
  if cell false (is_sender sv) rank
  then size (filter (λ b, b = true) (take (Z.to_nat rank) (is_sender sv)))
  else -1.

End SubView.

Module View.

(** Modelled from the spec: the [View] record ([view.h] is not part of the
    sources). *)
Record t := mk {
  vid : Z;
  members : list node_id_t;
  member_ips_and_ports : list endpoint;
  failed : list bool;
  num_failed : Z;
  joined : list node_id_t;
  departed : list node_id_t;
  num_members : Z;
  my_rank : Z;
  next_unassigned_rank : Z;
  subgroup_type_order : list subgroup_type_t;
  subgroup_shard_views : list (list SubView.t);
  subgroup_ids_by_type_id : gmap nat (list nat);
  my_subgroups : gmap nat nat;
  is_adequately_provisioned : bool;
  i_know_i_am_leader : bool
}.

Definition set_failed (x : list bool) (r : t) : t :=
  mk (vid r) (members r) (member_ips_and_ports r) x (num_failed r) (joined r)
    (departed r) (num_members r) (my_rank r) (next_unassigned_rank r)
    (subgroup_type_order r) (subgroup_shard_views r)
    (subgroup_ids_by_type_id r) (my_subgroups r) (is_adequately_provisioned r)
    (i_know_i_am_leader r).
Definition set_num_failed (x : Z) (r : t) : t :=
  mk (vid r) (members r) (member_ips_and_ports r) (failed r) x (joined r)
    (departed r) (num_members r) (my_rank r) (next_unassigned_rank r)
    (subgroup_type_order r) (subgroup_shard_views r)
    (subgroup_ids_by_type_id r) (my_subgroups r) (is_adequately_provisioned r)
    (i_know_i_am_leader r).
Definition set_next_unassigned_rank (x : Z) (r : t) : t :=
  mk (vid r) (members r) (member_ips_and_ports r) (failed r) (num_failed r)
    (joined r) (departed r) (num_members r) (my_rank r) x
    (subgroup_type_order r) (subgroup_shard_views r)
    (subgroup_ids_by_type_id r) (my_subgroups r) (is_adequately_provisioned r)
    (i_know_i_am_leader r).
Definition set_subgroup_type_order (x : list subgroup_type_t) (r : t) : t :=
  mk (vid r) (members r) (member_ips_and_ports r) (failed r) (num_failed r)
    (joined r) (departed r) (num_members r) (my_rank r)
    (next_unassigned_rank r) x (subgroup_shard_views r)
    (subgroup_ids_by_type_id r) (my_subgroups r) (is_adequately_provisioned r)
    (i_know_i_am_leader r).
Definition set_subgroup_shard_views (x : list (list SubView.t)) (r : t) : t :=
  mk (vid r) (members r) (member_ips_and_ports r) (failed r) (num_failed r)
    (joined r) (departed r) (num_members r) (my_rank r)
    (next_unassigned_rank r) (subgroup_type_order r) x
    (subgroup_ids_by_type_id r) (my_subgroups r) (is_adequately_provisioned r)
    (i_know_i_am_leader r).
Definition set_subgroup_ids_by_type_id (x : gmap nat (list nat)) (r : t) : t :=
  mk (vid r) (members r) (member_ips_and_ports r) (failed r) (num_failed r)
    (joined r) (departed r) (num_members r) (my_rank r)
    (next_unassigned_rank r) (subgroup_type_order r) (subgroup_shard_views r)
    x (my_subgroups r) (is_adequately_provisioned r) (i_know_i_am_leader r).
Definition set_my_subgroups (x : gmap nat nat) (r : t) : t :=
  mk (vid r) (members r) (member_ips_and_ports r) (failed r) (num_failed r)
    (joined r) (departed r) (num_members r) (my_rank r)
    (next_unassigned_rank r) (subgroup_type_order r) (subgroup_shard_views r)
    (subgroup_ids_by_type_id r) x (is_adequately_provisioned r)
    (i_know_i_am_leader r).
Definition set_is_adequately_provisioned (x : bool) (r : t) : t :=
  mk (vid r) (members r) (member_ips_and_ports r) (failed r) (num_failed r)
    (joined r) (departed r) (num_members r) (my_rank r)
    (next_unassigned_rank r) (subgroup_type_order r) (subgroup_shard_views r)
    (subgroup_ids_by_type_id r) (my_subgroups r) x (i_know_i_am_leader r).
Definition set_i_know_i_am_leader (x : bool) (r : t) : t :=
  mk (vid r) (members r) (member_ips_and_ports r) (failed r) (num_failed r)
    (joined r) (departed r) (num_members r) (my_rank r)
    (next_unassigned_rank r) (subgroup_type_order r) (subgroup_shard_views r)
    (subgroup_ids_by_type_id r) (my_subgroups r) (is_adequately_provisioned r)
    x.

(** Modelled from the spec: the [View] constructor, which derives
    [num_members] and [num_failed] from the vectors it is given and
    starts with no subgroup layout. *)
Definition make (vid : Z) (members : list node_id_t)
    (member_ips_and_ports : list endpoint) (failed : list bool)
    (joined departed : list node_id_t) (my_rank next_unassigned_rank : Z)
    (subgroup_type_order : list subgroup_type_t) : t :=
  mk vid members member_ips_and_ports failed
     (size (filter (λ b, b = true) failed))
     joined departed (size members) my_rank next_unassigned_rank
     subgroup_type_order [] ∅ ∅ true false.

(** Modelled from the spec: [rank_of(node_id)], -1 for a node that is not
    in the view. *)
Definition rank_of (v : t) (who : node_id_t) : Z := find_rank who (members v) 0.

Fixpoint first_not_failed (failed : list bool) (r : Z) : Z :=
  match failed with
  | [] => -1
  | f :: failed' => if f then first_not_failed failed' (r + 1) else r
  end.

(** Modelled from the spec: [rank_of_leader()], the lowest-ranked
    non-failed member. *)
Definition rank_of_leader (v : t) : Z := first_not_failed (failed v) 0.

Definition i_am_leader (v : t) : bool :=
  bool_decide (rank_of_leader v = my_rank v).

Fixpoint first_live_member (v : t) (shard_members : list node_id_t) (r : Z) : Z :=
  match shard_members with
  | [] => -1
  | m :: rest =>
      if cell false (failed v) (rank_of v m)
      then first_live_member v rest (r + 1)
      else r
  end.

(** Modelled from the spec: [subview_rank_of_shard_leader(sg, sh)], the
    lowest-ranked non-failed member of that shard. *)
Definition subview_rank_of_shard_leader (v : t) (subgroup : nat) (shard : nat) : Z :=
  match subgroup_shard_views v !! subgroup with
  | Some shards =>
      match shards !! shard with
      | Some sv => first_live_member v (SubView.members sv) 0
      | None => -1
      end
  | None => -1
  end.

End View.

(** ** The view manager *)

(** The predicates that the view manager inserts into the SST's
    predicate list. *)
Inductive Predicate :=
| P_suspected_changed
| P_start_join_pred
| P_reject_join_pred
| P_change_commit_ready
| P_leader_proposed_change
| P_leader_committed_changes
| P_is_meta_wedged
(** waits for [num_committed[leader] > curr_num_committed], then retries
    [terminate_epoch] *)
| P_leader_committed_change (curr_num_committed : Z)
| P_leader_global_mins_are_ready (follower_subgroups_and_shards : list (nat * nat)).

#[global] Instance Predicate_eq_dec : EqDecision Predicate.
Proof. solve_decision. Defined.

(** The [pred_handle] members of [ViewManager]: [true] is a valid handle. *)
Record Handles := mkHandles {
  suspected_changed_handle : bool;
  start_join_handle : bool;
  reject_join_handle : bool;
  change_commit_ready_handle : bool;
  leader_proposed_handle : bool;
  leader_committed_handle : bool
}.

(** The [RaggedTrim] record that [deliver_in_order] logs to disk. *)
Record RaggedTrim := mkRaggedTrim {
  trim_subgroup_id : nat;
  trim_shard_num : nat;
  trim_vid : Z;
  trim_leader_id : Z;
  max_received_by_sender : list Z
}.

(** The state of a [ViewManager] and of the objects it owns that the
    embedded functions touch: the current and next view, the local copy
    of the SST ([curr_view->gmsSST]) with the rows it froze and the
    ranges it published, whether the multicast group was wedged, the
    predicate list of the SST, the ragged trims saved to disk and the
    sequence numbers delivered by [deliver_messages_upto]. *)
Record ViewManager := mkViewManager {
  curr_view : View.t;
  next_view : option View.t;
  gmsSST : list SST.Row;
  last_suspected : list bool;
  frozen : list Z;
  multicast_wedged : bool;
  published : list Put;
  predicates : list Predicate;
  handles : Handles;
  any_persistent_objects : bool;
  saved_ragged_trims : list RaggedTrim;
  delivered : list (nat * Z)
}.

Definition with_curr_view (x : View.t) (r : ViewManager) : ViewManager :=
  mkViewManager x (next_view r) (gmsSST r) (last_suspected r) (frozen r)
    (multicast_wedged r) (published r) (predicates r) (handles r)
    (any_persistent_objects r) (saved_ragged_trims r) (delivered r).
Definition with_next_view (x : option View.t) (r : ViewManager) : ViewManager :=
  mkViewManager (curr_view r) x (gmsSST r) (last_suspected r) (frozen r)
    (multicast_wedged r) (published r) (predicates r) (handles r)
    (any_persistent_objects r) (saved_ragged_trims r) (delivered r).
Definition with_gmsSST (x : list SST.Row) (r : ViewManager) : ViewManager :=
  mkViewManager (curr_view r) (next_view r) x (last_suspected r) (frozen r)
    (multicast_wedged r) (published r) (predicates r) (handles r)
    (any_persistent_objects r) (saved_ragged_trims r) (delivered r).
Definition with_last_suspected (x : list bool) (r : ViewManager) : ViewManager :=
  mkViewManager (curr_view r) (next_view r) (gmsSST r) x (frozen r)
    (multicast_wedged r) (published r) (predicates r) (handles r)
    (any_persistent_objects r) (saved_ragged_trims r) (delivered r).
Definition with_frozen (x : list Z) (r : ViewManager) : ViewManager :=
  mkViewManager (curr_view r) (next_view r) (gmsSST r) (last_suspected r) x
    (multicast_wedged r) (published r) (predicates r) (handles r)
    (any_persistent_objects r) (saved_ragged_trims r) (delivered r).
Definition with_multicast_wedged (x : bool) (r : ViewManager) : ViewManager :=
  mkViewManager (curr_view r) (next_view r) (gmsSST r) (last_suspected r)
    (frozen r) x (published r) (predicates r) (handles r)
    (any_persistent_objects r) (saved_ragged_trims r) (delivered r).
Definition with_published (x : list Put) (r : ViewManager) : ViewManager :=
  mkViewManager (curr_view r) (next_view r) (gmsSST r) (last_suspected r)
    (frozen r) (multicast_wedged r) x (predicates r) (handles r)
    (any_persistent_objects r) (saved_ragged_trims r) (delivered r).
Definition with_predicates (x : list Predicate) (r : ViewManager) : ViewManager :=
  mkViewManager (curr_view r) (next_view r) (gmsSST r) (last_suspected r)
    (frozen r) (multicast_wedged r) (published r) x (handles r)
    (any_persistent_objects r) (saved_ragged_trims r) (delivered r).
Definition with_handles (x : Handles) (r : ViewManager) : ViewManager :=
  mkViewManager (curr_view r) (next_view r) (gmsSST r) (last_suspected r)
    (frozen r) (multicast_wedged r) (published r) (predicates r) x
    (any_persistent_objects r) (saved_ragged_trims r) (delivered r).
Definition with_any_persistent_objects (x : bool) (r : ViewManager) : ViewManager :=
  mkViewManager (curr_view r) (next_view r) (gmsSST r) (last_suspected r)
    (frozen r) (multicast_wedged r) (published r) (predicates r) (handles r) x
    (saved_ragged_trims r) (delivered r).
Definition with_saved_ragged_trims (x : list RaggedTrim) (r : ViewManager) : ViewManager :=
  mkViewManager (curr_view r) (next_view r) (gmsSST r) (last_suspected r)
    (frozen r) (multicast_wedged r) (published r) (predicates r) (handles r)
    (any_persistent_objects r) x (delivered r).
Definition with_delivered (x : list (nat * Z)) (r : ViewManager) : ViewManager :=
  mkViewManager (curr_view r) (next_view r) (gmsSST r) (last_suspected r)
    (frozen r) (multicast_wedged r) (published r) (predicates r) (handles r)
    (any_persistent_objects r) (saved_ragged_trims r) x.

(** [gmsSST.get_local_index()]: the table is built from the members of the
    current view, so the local row is the one of [my_rank]. *)
Definition get_local_index (vm : ViewManager) : Z := View.my_rank (curr_view vm).

Definition my_row (vm : ViewManager) : SST.Row :=
  SST.row (gmsSST vm) (get_local_index vm).

Definition write_row (r : Z) (f : SST.Row → SST.Row) (vm : ViewManager) : ViewManager :=
  with_gmsSST (SST.update (gmsSST vm) r f) vm.

Definition put (p : Put) (vm : ViewManager) : ViewManager :=
  with_published (published vm ++ [p]) vm.

(** Modelled from the spec: [View::wedge()], which halts the multicast
    engine, sets the local wedged flag and publishes it. *)
Definition wedge (vm : ViewManager) : ViewManager :=
  put (put_column c_wedged)
    (write_row (get_local_index vm) (SST.set_wedged true)
       (with_multicast_wedged true vm)).

(** *** Helper functions for predicates and triggers *)

Definition min_acked (gmsSST : list SST.Row) (local_index : Z) (failed : list bool) : Z :=
  let myRank := local_index in
  for_loop (size failed)
    (λ n min,
       if negb (cell false failed n)
          && bool_decide (SST.num_acked (SST.row gmsSST n) < min)
       then SST.num_acked (SST.row gmsSST n)
       else min)
    (SST.num_acked (SST.row gmsSST myRank)).

Definition changes_contains (vm : ViewManager) (q : node_id_t) : bool :=
  let myRow := my_row vm in
  for_loop (SST.num_changes myRow - SST.num_installed myRow)
    (λ p_index found,
       found || bool_decide (cell 0 (SST.changes myRow) p_index = q))
    false.

Definition suspected_not_equal (gmsSST : list SST.Row) (suspected_size : Z)
    (old : list bool) : bool :=
  for_loop (SST.get_num_rows gmsSST)
    (λ r found,
       for_loop suspected_size
         (λ who found,
            found || (cell false (SST.suspected (SST.row gmsSST r)) who
                      && negb (cell false old who)))
         found)
    false.

(** *** The predicates of [register_predicates] *)

Definition suspected_changed (vm : ViewManager) : bool :=
  suspected_not_equal (gmsSST vm) (size (SST.suspected (my_row vm)))
    (last_suspected vm).

Definition change_commit_ready (vm : ViewManager) : bool :=
  View.i_am_leader (curr_view vm)
  && bool_decide (min_acked (gmsSST vm) (get_local_index vm) (View.failed (curr_view vm))
                  > SST.num_committed (my_row vm)).

Definition leader_proposed_change (vm : ViewManager) : bool :=
  bool_decide (SST.num_changes (SST.row (gmsSST vm) (View.rank_of_leader (curr_view vm)))
               > SST.num_acked (my_row vm)).

Definition leader_committed_changes (vm : ViewManager) : bool :=
  bool_decide (SST.num_committed (SST.row (gmsSST vm) (View.rank_of_leader (curr_view vm)))
               > SST.num_installed (SST.row (gmsSST vm) (View.my_rank (curr_view vm)))).

(** *** Predicate triggers *)

Definition leader_commit_change (vm : ViewManager) : ViewManager :=
  put (put_column c_num_committed)
    (write_row (get_local_index vm)
       (SST.set_num_committed
          (min_acked (gmsSST vm) (get_local_index vm) (View.failed (curr_view vm))))
       vm).

Definition acknowledge_proposed_change (vm : ViewManager) : ViewManager :=
  let myRank := get_local_index vm in
  let leader := View.rank_of_leader (curr_view vm) in
  let vm :=
    if bool_decide (myRank ≠ leader) then
      let L := SST.row (gmsSST vm) leader in
      let echo (d : Z) (mine theirs : list Z) := copy_cells d mine theirs 0 (size mine) in
      (* Echo the count, the vector of changes, the joiners' addresses and
         ports, and the commit count *)
      write_row myRank
        (λ r,
           SST.set_num_committed (SST.num_committed L)
             (SST.set_joiner_rdmc_ports
                (echo 0 (SST.joiner_rdmc_ports r) (SST.joiner_rdmc_ports L))
                (SST.set_joiner_sst_ports
                   (echo 0 (SST.joiner_sst_ports r) (SST.joiner_sst_ports L))
                   (SST.set_joiner_rpc_ports
                      (echo 0 (SST.joiner_rpc_ports r) (SST.joiner_rpc_ports L))
                      (SST.set_joiner_gms_ports
                         (echo 0 (SST.joiner_gms_ports r) (SST.joiner_gms_ports L))
                         (SST.set_joiner_ips
                            (echo 0 (SST.joiner_ips r) (SST.joiner_ips L))
                            (SST.set_changes
                               (echo 0 (SST.changes r) (SST.changes L))
                               (SST.set_num_changes (SST.num_changes L) r))))))))
        vm
    else vm in
  (* Notice a new request, acknowledge it *)
  let vm := write_row myRank (λ r, SST.set_num_acked (SST.num_changes r) r) vm in
  let vm := put (put_columns c_changes c_joiner_ips) vm in
  let vm := put (put_columns c_joiner_ips c_num_changes) vm in
  let vm := put (put_columns c_num_changes c_num_committed) vm in
  let vm := put (put_columns c_num_committed c_num_acked) vm in
  let vm := put (put_columns c_num_acked c_num_installed) vm in
  let vm := put (put_columns c_num_installed c_num_received) vm in
  wedge vm.

(** The test that guards both [throw]s of [new_suspicion]; [/] on C++
    [int]s truncates, which is [Z.quot]. *)
Definition not_in_majority (vm : ViewManager) (num_left : Z) : bool :=
  let Vc := curr_view vm in
  negb (SST.rip (my_row vm))
  && negb (bool_decide (View.num_failed Vc = 0))
  && bool_decide (View.num_failed Vc - num_left
                  >= (View.num_members Vc - num_left + 1) `quot` 2).

(** The first loop of [new_suspicion]: aggregate the suspicions of every
    row into the local one and count the members that left. *)
Definition aggregate_suspicions (vm : ViewManager) : ViewManager * Z :=
  let myRank := View.my_rank (curr_view vm) in
  for_loop (View.num_members (curr_view vm))
    (λ r '(vm, num_left),
       let vm :=
         for_loop (View.num_members (curr_view vm))
           (λ who vm,
              write_row myRank
                (λ row,
                   SST.set_suspected
                     (set_cell (SST.suspected row) who
                        (cell false (SST.suspected row) who
                         || cell false (SST.suspected (SST.row (gmsSST vm) r)) who))
                     row)
                vm)
           vm in
       (vm, if SST.rip (SST.row (gmsSST vm) r) then num_left + 1 else num_left))
    (vm, 0).

(** The body of the second loop of [new_suspicion], for one rank [q]. *)
Definition new_suspicion_body (num_left : Z) (q : Z) (vm : ViewManager)
    : outcome ViewManager :=
  let myRank := View.my_rank (curr_view vm) in
  if cell false (SST.suspected (SST.row (gmsSST vm) myRank)) q
     && negb (cell false (last_suspected vm) q)
  then
    let vm :=
      with_last_suspected
        (set_cell (last_suspected vm) q
           (cell false (SST.suspected (SST.row (gmsSST vm) myRank)) q))
        vm in
    if not_in_majority vm num_left then Throws partitioning_event vm else
    (* Cease to accept new updates from q *)
    let vm := with_frozen (frozen vm ++ [q]) vm in
    let vm := with_multicast_wedged true vm in
    let vm := write_row myRank (SST.set_wedged true) vm in
    let vm :=
      with_curr_view
        (View.set_num_failed (View.num_failed (curr_view vm) + 1)
           (View.set_failed (set_cell (View.failed (curr_view vm)) q true)
              (curr_view vm)))
        vm in
    if not_in_majority vm num_left then Throws partitioning_event vm else
    let vm := put (put_columns c_suspected c_changes) vm in
    let vm := put (put_column c_wedged) vm in
    if View.i_am_leader (curr_view vm)
       && negb (changes_contains vm (cell 0 (View.members (curr_view vm)) q))
    then
      let next_change_index :=
        SST.num_changes (SST.row (gmsSST vm) myRank)
        - SST.num_installed (SST.row (gmsSST vm) myRank) in
      if bool_decide (next_change_index = size (SST.changes (SST.row (gmsSST vm) myRank)))
      then Throws ran_out_of_room vm
      else
        (* Reports the failure *)
        let vm :=
          write_row myRank
            (λ row,
               SST.set_num_changes (SST.num_changes row + 1)
                 (SST.set_changes
                    (set_cell (SST.changes row) next_change_index
                       (cell 0 (View.members (curr_view vm)) q))
                    row))
            vm in
        let vm := put (put_cells c_changes next_change_index 1) vm in
        let vm := put (put_column c_num_changes) vm in
        Done vm
    else Done vm
  else Done vm.

Definition new_suspicion (vm : ViewManager) : outcome ViewManager :=
  let '(vm, num_left) := aggregate_suspicions vm in
  for_loop_throwing (View.num_members (curr_view vm))
    (new_suspicion_body num_left) vm.

(** [report_failure(who)], called by the SST when it loses a peer. *)
Definition report_failure (who : node_id_t) (vm : ViewManager) : outcome ViewManager :=
  let my_rank := View.my_rank (curr_view vm) in
  let r := View.rank_of (curr_view vm) who in
  let vm :=
    write_row my_rank
      (λ row, SST.set_suspected (set_cell (SST.suspected row) r true) row) vm in
  let suspected_size := size (SST.suspected (SST.row (gmsSST vm) my_rank)) in
  let '(failed_cnt, rip_cnt) :=
    for_loop suspected_size
      (λ r '(failed_cnt, rip_cnt),
         if SST.rip (SST.row (gmsSST vm) r) then (failed_cnt, rip_cnt + 1)
         else if cell false (SST.suspected (SST.row (gmsSST vm) my_rank)) r
              then (failed_cnt + 1, rip_cnt)
              else (failed_cnt, rip_cnt))
      (0, 0) in
  if negb (SST.rip (SST.row (gmsSST vm) my_rank))
     && negb (bool_decide (failed_cnt = 0))
     && bool_decide (failed_cnt
                     >= (View.num_members (curr_view vm) - rip_cnt + 1) `quot` 2)
  then Throws partitioning_event vm
  else
    (* [r] has run to the end of the loop by now *)
    Done (put (put_cells c_suspected suspected_size 1) vm).

(** What [receive_join] reads from the client socket: the remote address
    packed by [inet_aton], the joiner's id and its four ports. *)
Record JoinRequest := mkJoinRequest {
  joiner_ip_packed : Z;
  joining_client_id : node_id_t;
  joiner_gms_port : Z;
  joiner_rpc_port : Z;
  joiner_sst_port : Z;
  joiner_rdmc_port : Z
}.

Inductive JoinResponseCode := OK | TOTAL_RESTART | ID_IN_USE | LEADER_REDIRECT.

(** The response is the code and the id of the responding node. *)
Definition JoinResponse : Type := JoinResponseCode * node_id_t.

(** [receive_join] returns whether the join was proposed, together with
    what it wrote to the client socket. *)
Definition receive_join (client_socket : JoinRequest) (vm : ViewManager)
    : outcome (ViewManager * list JoinResponse * bool) :=
  let my_rank := View.my_rank (curr_view vm) in
  let my_id := cell 0 (View.members (curr_view vm)) my_rank in
  if bool_decide (SST.num_changes (SST.row (gmsSST vm) my_rank)
                  - SST.num_committed (SST.row (gmsSST vm) my_rank)
                  = size (SST.changes (SST.row (gmsSST vm) my_rank)))
  then Throws too_many_changes (vm, [], false)
  else if bool_decide (View.rank_of (curr_view vm) (joining_client_id client_socket) ≠ -1)
  then Done (vm, [(ID_IN_USE, my_id)], false)
  else
    let next_change :=
      SST.num_changes (SST.row (gmsSST vm) my_rank)
      - SST.num_installed (SST.row (gmsSST vm) my_rank) in
    let vm :=
      write_row my_rank
        (λ row,
           SST.set_num_changes (SST.num_changes row + 1)
             (SST.set_joiner_rdmc_ports
                (set_cell (SST.joiner_rdmc_ports row) next_change
                   (joiner_rdmc_port client_socket))
                (SST.set_joiner_sst_ports
                   (set_cell (SST.joiner_sst_ports row) next_change
                      (joiner_sst_port client_socket))
                   (SST.set_joiner_rpc_ports
                      (set_cell (SST.joiner_rpc_ports row) next_change
                         (joiner_rpc_port client_socket))
                      (SST.set_joiner_gms_ports
                         (set_cell (SST.joiner_gms_ports row) next_change
                            (joiner_gms_port client_socket))
                         (SST.set_joiner_ips
                            (set_cell (SST.joiner_ips row) next_change
                               (joiner_ip_packed client_socket))
                            (SST.set_changes
                               (set_cell (SST.changes row) next_change
                                  (joining_client_id client_socket))
                               row)))))))
        vm in
    let vm := wedge vm in
    let vm := put (put_columns c_changes c_joiner_ips) vm in
    let vm := put (put_columns c_joiner_ips c_num_changes) vm in
    let vm := put (put_columns c_num_changes c_num_committed) vm in
    Done (vm, [(OK, my_id)], true).

(** *** Runs of the membership triggers

    One step of the predicate thread of a member: a trigger of
    [register_predicates] fires when its predicate holds, the leader
    handles a join request, or a row owned by another member changes
    under the local copy.  A row written by its owner arrives cell by
    cell, in the order of the owner's [put]s, so the counters of a remote
    row are only known to keep [num_committed ≤ num_changes]. *)

Definition commit_within_changes (r : SST.Row) : Prop :=
  SST.num_committed r ≤ SST.num_changes r.


Definition counters_ordered (r : SST.Row) : Prop :=
  SST.num_committed r ≤ SST.num_acked r ∧ SST.num_acked r ≤ SST.num_changes r.

Definition gms_invariant (vm : ViewManager) : Prop :=
  counters_ordered (my_row vm)
  ∧ Forall commit_within_changes (gmsSST vm).

(** *** Specification vocabulary for the commit rule *)

Definition not_failed (failed : list bool) (n : Z) : Prop :=
  0 ≤ n < size failed ∧ cell false failed n = false.

(** [m] is the least [num_acked] over the rows of the non-failed members. *)
Definition least_ack (gmsSST : list SST.Row) (failed : list bool) (m : Z) : Prop :=
  (∀ n, not_failed failed n → m ≤ SST.num_acked (SST.row gmsSST n))
  ∧ ∃ n, not_failed failed n ∧ m = SST.num_acked (SST.row gmsSST n).



(** *** Specification vocabulary for the partition rule *)

(** The number of ranks [r < n] at which [p] holds. *)
Fixpoint count_upto (p : Z → bool) (n : nat) : Z :=
  match n with
  | O => 0
  | S n' => count_upto p n' + (if p (Z.of_nat n') then 1 else 0)
  end.






(** *** Computing the next view *)

(** [std::set<int>::emplace]: the set is kept as an ascending list without
    repetitions, which is also the order in which it is iterated. *)
Fixpoint emplace (x : Z) (s : list Z) : list Z :=
  match s with
  | [] => [x]
  | y :: s' =>
      if bool_decide (x < y) then x :: s
      else if bool_decide (x = y) then s
      else y :: emplace x s'
  end.

(** [s.find(x) != s.end()] *)
Definition set_contains (s : list Z) (x : Z) : bool := bool_decide (x ∈ s).

(** The vectors of the next view while [make_next_view] fills them. *)
Record NextMembers := mkNextMembers {
  nm_members : list node_id_t;
  nm_member_ips_and_ports : list endpoint;
  nm_failed : list bool;
  nm_joined : list node_id_t;
  nm_departed : list node_id_t;
  nm_next_unassigned_rank : Z;
  nm_new_rank : Z
}.

Definition no_endpoint : endpoint := (0, 0, 0, 0, 0).

(** The first loop of [make_next_view]: sort the committed changes into
    the ranks that leave and the indexes of the changes that are joins. *)
Definition filter_changes (curr_view : View.t) (gmsSST : list SST.Row)
    (committed_count : Z) : list Z * list Z :=
  let myRank := View.my_rank curr_view in
  for_loop committed_count
    (λ change_index '(leave_ranks, join_indexes),
       let change_id := cell 0 (SST.changes (SST.row gmsSST myRank)) change_index in
       let change_rank := View.rank_of curr_view change_id in
       if bool_decide (change_rank ≠ -1)
       then (emplace change_rank leave_ranks, join_indexes)
       else (leave_ranks, join_indexes ++ [change_index]))
    ([], []).

(** The second loop: the joiners go to the end of the member list. *)
Definition add_joiners (curr_view : View.t) (gmsSST : list SST.Row)
    (leave_ranks join_indexes : list Z) (nm : NextMembers) : NextMembers :=
  let myRank := View.my_rank curr_view in
  for_loop (size join_indexes)
    (λ i nm,
       let join_index := cell 0 join_indexes i in
       let mine := SST.row gmsSST myRank in
       let joiner_id := cell 0 (SST.changes mine) join_index in
       (* New members go at the end of the members list, but it may
          shrink in the new view *)
       let new_member_rank := View.num_members curr_view - size leave_ranks + i in
       mkNextMembers
         (set_cell (nm_members nm) new_member_rank joiner_id)
         (set_cell (nm_member_ips_and_ports nm) new_member_rank
            (cell 0 (SST.joiner_ips mine) join_index,
             cell 0 (SST.joiner_gms_ports mine) join_index,
             cell 0 (SST.joiner_rpc_ports mine) join_index,
             cell 0 (SST.joiner_sst_ports mine) join_index,
             cell 0 (SST.joiner_rdmc_ports mine) join_index))
         (nm_failed nm)
         (nm_joined nm ++ [joiner_id])
         (nm_departed nm) (nm_next_unassigned_rank nm) (nm_new_rank nm))
    nm.

(** The third loop: the leavers, in the order of their ranks. *)
Definition add_departed (curr_view : View.t) (leave_ranks : list Z)
    (nm : NextMembers) : NextMembers :=
  foldl
    (λ nm leaver_rank,
       mkNextMembers (nm_members nm) (nm_member_ips_and_ports nm) (nm_failed nm)
         (nm_joined nm)
         (nm_departed nm ++ [cell 0 (View.members curr_view) leaver_rank])
         (* Decrement next_unassigned_rank for every failure, unless the
            failed node wasn't assigned to a subgroup anyway *)
         (if bool_decide (leaver_rank ≤ View.next_unassigned_rank curr_view)
          then nm_next_unassigned_rank nm - 1
          else nm_next_unassigned_rank nm)
         (nm_new_rank nm))
    nm leave_ranks.

(** The fourth loop: copy member information, excluding the members that
    have failed. *)
Definition copy_survivors (curr_view : View.t) (leave_ranks : list Z)
    (nm : NextMembers) : NextMembers :=
  for_loop (View.num_members curr_view)
    (λ old_rank nm,
       if negb (set_contains leave_ranks old_rank)
       then
         let new_rank := nm_new_rank nm in
         mkNextMembers
           (set_cell (nm_members nm) new_rank
              (cell 0 (View.members curr_view) old_rank))
           (set_cell (nm_member_ips_and_ports nm) new_rank
              (cell no_endpoint (View.member_ips_and_ports curr_view) old_rank))
           (set_cell (nm_failed nm) new_rank
              (cell false (View.failed curr_view) old_rank))
           (nm_joined nm) (nm_departed nm) (nm_next_unassigned_rank nm)
           (new_rank + 1)
       else nm)
    nm.

(** The last loop: the first rank of [myID] among the new members, -1 if
    there is none. *)
Definition find_my_new_rank (members : list node_id_t) (next_num_members : Z)
    (myID : node_id_t) : Z :=
  for_loop next_num_members
    (λ i my_new_rank,
       if bool_decide (my_new_rank = -1)
          && bool_decide (cell 0 members i = myID)
       then i else my_new_rank)
    (-1).

Definition make_next_view (curr_view : View.t) (gmsSST : list SST.Row)
    : result View.t :=
  let myRank := View.my_rank curr_view in
  let leader := View.rank_of_leader curr_view in
  (* Look through pending changes up to num_committed and filter the joins
     and leaves *)
  let committed_count :=
    SST.num_committed (SST.row gmsSST leader)
    - SST.num_installed (SST.row gmsSST leader) in
  let '(leave_ranks, join_indexes) :=
    filter_changes curr_view gmsSST committed_count in
  let next_num_members :=
    View.num_members curr_view - size leave_ranks + size join_indexes in
  (* Initialize the next view *)
  let nm :=
    mkNextMembers (replicate (Z.to_nat next_num_members) 0)
      (replicate (Z.to_nat next_num_members) no_endpoint)
      (replicate (Z.to_nat next_num_members) false)
      [] [] (View.next_unassigned_rank curr_view) 0 in
  let nm := add_joiners curr_view gmsSST leave_ranks join_indexes nm in
  let nm := add_departed curr_view leave_ranks nm in
  let nm := copy_survivors curr_view leave_ranks nm in
  (* Initialize my_rank in next_view *)
  let myID := cell 0 (View.members curr_view) myRank in
  let my_new_rank := find_my_new_rank (nm_members nm) next_num_members myID in
  if bool_decide (my_new_rank = -1) then Raises reported_failed
  else
    let next_view :=
      View.make (View.vid curr_view + 1) (nm_members nm)
        (nm_member_ips_and_ports nm) (nm_failed nm) (nm_joined nm)
        (nm_departed nm) my_new_rank (nm_next_unassigned_rank nm)
        (View.subgroup_type_order curr_view) in
    Returns (View.set_i_know_i_am_leader
               (View.i_know_i_am_leader curr_view) next_view).

(** The committed changes that [make_next_view] reads from the local row:
    the cells [changes[0 .. num_committed - num_installed)], counted on
    the leader's row. *)
Definition committed_changes (curr_view : View.t) (gmsSST : list SST.Row)
    : list node_id_t :=
  let leader := View.rank_of_leader curr_view in
  (λ i, cell 0 (SST.changes (SST.row gmsSST (View.my_rank curr_view))) i)
  <$> seqZ 0 (SST.num_committed (SST.row gmsSST leader)
              - SST.num_installed (SST.row gmsSST leader)).

Definition is_member (members : list node_id_t) (id : node_id_t) : bool :=
  bool_decide (id ∈ members).

(** The committed changes that name a member of the view remove it; the
    others are joins. *)
Definition committed_leavers (curr_view : View.t) (gmsSST : list SST.Row)
    : list node_id_t :=
  filter (λ id, is_member (View.members curr_view) id = true)
    (committed_changes curr_view gmsSST).

Definition committed_joiners (curr_view : View.t) (gmsSST : list SST.Row)
    : list node_id_t :=
  filter (λ id, is_member (View.members curr_view) id = false)
    (committed_changes curr_view gmsSST).

(** *** Laying subgroups out over a view *)

(** [struct SubgroupSettings] of [multicast_group.h]. *)
Module SubgroupSettings.
Record t := mk {
  shard_num : nat;
  shard_rank : Z;
  members : list node_id_t;
  senders : list bool;
  sender_rank : Z;
  num_received_offset : Z;
  mode : Mode
}.
End SubgroupSettings.

(** The shards of every subgroup of one subgroup type. *)
Definition subgroup_shard_layout_t : Type := list (list SubView.t).

(** Modelled from the spec: the user-supplied membership function of
    [SubgroupInfo], a pure function of the subgroup type, the previous
    view (if any) and the current view, but for the allocation cursor
    [next_unassigned_rank] of the current view, which it may advance.  It
    returns the new cursor and the layout, or [None] when it throws
    [subgroup_provisioning_exception]. *)
Definition shard_view_generator_t : Type :=
  subgroup_type_t → option View.t → View.t → Z * option subgroup_shard_layout_t.

(** A [std::set<node_id_t>] built from a vector, as an ascending list. *)
Definition to_set (l : list node_id_t) : list node_id_t := foldr emplace [] l.

(** [std::set_difference] of two ascending ranges. *)
Definition set_difference (a b : list node_id_t) : list node_id_t :=
  filter (λ x, x ∉ b) a.

(** [for (i = start; i < start + v.size(); ++i)] over the elements of a
    vector, threading a state; the throwing form stops at the first
    exception. *)
Fixpoint fold_indexed {A St} (body : nat → A → St → St) (i : nat)
    (l : list A) (s : St) : St :=
  match l with
  | [] => s
  | x :: l' => fold_indexed body (S i) l' (body i x s)
  end.

Fixpoint fold_indexed_raising {A St} (body : nat → A → St → result St) (i : nat)
    (l : list A) (s : St) : result St :=
  match l with
  | [] => Returns s
  | x :: l' =>
      match body i x s with
      | Returns s' => fold_indexed_raising body (S i) l' s'
      | Raises e => Raises e
      end
  end.

(** What the loop over the shards of one subgroup updates: the widest
    shard seen, the subgroups of the local node, its settings, and the
    shards with [my_rank] (and, when building, [joined] and [departed])
    filled in. *)
Record ShardLoop := mkShardLoop {
  max_shard_senders : Z;
  loop_my_subgroups : gmap nat nat;
  loop_settings : gmap nat SubgroupSettings.t;
  loop_shards : list SubView.t
}.

Definition empty_subview : SubView.t := SubView.mk [] [] ORDERED (-1) [] [].

(** The body of the loop over the shards in [make_subgroup_maps]. *)
Definition make_shard (prev_view : option View.t) (my_id : node_id_t)
    (subgroup_type_id subgroup_index curr_subgroup_num : nat)
    (num_received_offset : Z)
    (shard_num : nat) (shard_view : SubView.t) (st : ShardLoop) : result ShardLoop :=
  let shard_size := size (SubView.members shard_view) in
  let num_shard_senders := SubView.num_senders shard_view in
  let max_shard_senders :=
    if bool_decide (num_shard_senders > max_shard_senders st)
    then u32 shard_size else max_shard_senders st in
  (* Initialize my_rank in the SubView for this node's ID *)
  let shard_view := SubView.set_my_rank (SubView.rank_of shard_view my_id) shard_view in
  let '(my_subgroups, settings) :=
    if bool_decide (SubView.my_rank shard_view ≠ -1)
    then
      (<[curr_subgroup_num := shard_num]> (loop_my_subgroups st),
       <[curr_subgroup_num :=
           SubgroupSettings.mk shard_num (u32 (SubView.my_rank shard_view))
             (SubView.members shard_view) (SubView.is_sender shard_view)
             (SubView.sender_rank_of shard_view (SubView.my_rank shard_view))
             num_received_offset (SubView.mode shard_view)]>
         (loop_settings st))
    else (loop_my_subgroups st, loop_settings st) in
  match prev_view with
  | Some prev_view =>
      (* Initialize this shard's SubView.joined and SubView.departed;
         both [at] calls throw when the index is missing *)
      match View.subgroup_ids_by_type_id prev_view !! subgroup_type_id with
      | None => Raises std_out_of_range
      | Some ids =>
          match ids !! subgroup_index with
          | None => Raises std_out_of_range
          | Some prev_subgroup_id =>
              let prev_shard_view :=
                default empty_subview
                  (default [] (View.subgroup_shard_views prev_view !! prev_subgroup_id)
                     !! shard_num) in
              let prev_members := to_set (SubView.members prev_shard_view) in
              let curr_members := to_set (SubView.members shard_view) in
              let shard_view :=
                SubView.set_departed
                  (SubView.departed shard_view
                   ++ set_difference prev_members curr_members)
                  (SubView.set_joined
                     (SubView.joined shard_view
                      ++ set_difference curr_members prev_members)
                     shard_view) in
              Returns (mkShardLoop max_shard_senders my_subgroups settings
                         (loop_shards st ++ [shard_view]))
          end
      end
  | None =>
      Returns (mkShardLoop max_shard_senders my_subgroups settings
                 (loop_shards st ++ [shard_view]))
  end.

(** What [make_subgroup_maps] and [derive_subgroup_settings] thread
    through their loops: the running [num_received_offset], the view being
    filled in and the settings map. *)
Definition Layout : Type := Z * View.t * gmap nat SubgroupSettings.t.

(** The body of the loop over the subgroups of one type. *)
Definition make_subgroup (prev_view : option View.t) (subgroup_type_id : nat)
    (subgroup_index : nat) (shards : list SubView.t) (st : Layout) : result Layout :=
  let '(num_received_offset, curr_view, subgroup_settings) := st in
  (* Assign this (type, index) pair a new unique subgroup ID *)
  let curr_subgroup_num := length (View.subgroup_shard_views curr_view) in
  let curr_view :=
    View.set_subgroup_ids_by_type_id
      (alter (λ ids, <[subgroup_index := curr_subgroup_num]> ids) subgroup_type_id
         (View.subgroup_ids_by_type_id curr_view))
      curr_view in
  let my_id := cell 0 (View.members curr_view) (View.my_rank curr_view) in
  match
    fold_indexed_raising
      (make_shard prev_view my_id subgroup_type_id subgroup_index curr_subgroup_num
         num_received_offset)
      0 shards
      (mkShardLoop 0 (View.my_subgroups curr_view) subgroup_settings [])
  with
  | Raises e => Raises e
  | Returns loop =>
      (* Pull the shard->SubView mapping out of the subgroup membership
         list and save it under its subgroup ID *)
      let curr_view :=
        View.set_subgroup_shard_views
          (View.subgroup_shard_views curr_view ++ [loop_shards loop])
          (View.set_my_subgroups (loop_my_subgroups loop) curr_view) in
      Returns (u32 (num_received_offset + max_shard_senders loop), curr_view,
               loop_settings loop)
  end.

Section Provisioning.

Variable subgroup_membership_function : shard_view_generator_t.

(** The loop of [make_subgroup_maps] over the subgroup types that remain,
    [subgroup_type_id] being the index of the first of them. *)
Fixpoint make_subgroup_types (prev_view : option View.t)
    (initial_next_unassigned_rank : Z) (subgroup_type_id : nat)
    (subgroup_types : list subgroup_type_t) (st : Layout) : result Layout :=
  match subgroup_types with
  | [] => Returns st
  | subgroup_type :: rest =>
      let '(num_received_offset, curr_view, subgroup_settings) := st in
      match subgroup_membership_function subgroup_type prev_view curr_view with
      | (_, None) =>
          (* Mark the view as inadequate and roll back everything done by
             previous allocation functions *)
          Returns
            (0,
             View.set_subgroup_ids_by_type_id ∅
               (View.set_subgroup_shard_views []
                  (View.set_next_unassigned_rank initial_next_unassigned_rank
                     (View.set_is_adequately_provisioned false curr_view))),
             ∅)
      | (next_unassigned_rank, Some curr_type_subviews) =>
          let curr_view := View.set_next_unassigned_rank next_unassigned_rank curr_view in
          let num_subgroups := length curr_type_subviews in
          let curr_view :=
            View.set_subgroup_ids_by_type_id
              (<[subgroup_type_id := replicate num_subgroups 0%nat]>
                 (View.subgroup_ids_by_type_id curr_view))
              curr_view in
          match
            fold_indexed_raising (make_subgroup prev_view subgroup_type_id)
              0 curr_type_subviews
              (num_received_offset, curr_view, subgroup_settings)
          with
          | Raises e => Raises e
          | Returns st =>
              make_subgroup_types prev_view initial_next_unassigned_rank
                (S subgroup_type_id) rest st
          end
      end
  end.

(** [make_subgroup_maps] returns the size of [num_received]; the view and
    the settings map, passed by reference, are returned with it. *)
Definition make_subgroup_maps (prev_view : option View.t) (curr_view : View.t)
    (subgroup_settings : gmap nat SubgroupSettings.t) : result Layout :=
  let num_received_offset := 0 in
  let initial_next_unassigned_rank := View.next_unassigned_rank curr_view in
  let curr_view :=
    View.set_subgroup_ids_by_type_id ∅
      (View.set_subgroup_shard_views [] curr_view) in
  (* A subgroup's type ID is just its index in the ordered list of
     subgroup types *)
  make_subgroup_types prev_view initial_next_unassigned_rank 0
    (View.subgroup_type_order curr_view)
    (num_received_offset, curr_view, subgroup_settings).

End Provisioning.

(** The body of the loop over the shards in [derive_subgroup_settings]. *)
Definition derive_shard (my_id : node_id_t) (subgroup_id : nat)
    (num_received_offset : Z)
    (shard_num : nat) (shard_view : SubView.t) (st : ShardLoop) : ShardLoop :=
  let shard_size := size (SubView.members shard_view) in
  let num_shard_senders := SubView.num_senders shard_view in
  let max_shard_senders :=
    if bool_decide (num_shard_senders > max_shard_senders st)
    then u32 shard_size else max_shard_senders st in
  (* Initialize my_rank in the SubView for this node's ID *)
  let shard_view := SubView.set_my_rank (SubView.rank_of shard_view my_id) shard_view in
  if bool_decide (SubView.my_rank shard_view ≠ -1)
  then
    mkShardLoop max_shard_senders
      (<[subgroup_id := shard_num]> (loop_my_subgroups st))
      (<[subgroup_id :=
           SubgroupSettings.mk shard_num (u32 (SubView.my_rank shard_view))
             (SubView.members shard_view) (SubView.is_sender shard_view)
             (SubView.sender_rank_of shard_view (SubView.my_rank shard_view))
             num_received_offset (SubView.mode shard_view)]>
         (loop_settings st))
      (loop_shards st ++ [shard_view])
  else
    mkShardLoop max_shard_senders (loop_my_subgroups st) (loop_settings st)
      (loop_shards st ++ [shard_view]).

(** The body of the loop of [derive_subgroup_settings] over the
    subgroups; the shards are written back in place. *)
Definition derive_subgroup (subgroup_id : nat) (shards : list SubView.t)
    (st : Layout) : Layout :=
  let '(num_received_offset, curr_view, subgroup_settings) := st in
  let my_id := cell 0 (View.members curr_view) (View.my_rank curr_view) in
  let loop :=
    fold_indexed (derive_shard my_id subgroup_id num_received_offset) 0 shards
      (mkShardLoop 0 (View.my_subgroups curr_view) subgroup_settings []) in
  let curr_view :=
    View.set_subgroup_shard_views
      (<[subgroup_id := loop_shards loop]> (View.subgroup_shard_views curr_view))
      (View.set_my_subgroups (loop_my_subgroups loop) curr_view) in
  (u32 (num_received_offset + max_shard_senders loop), curr_view, loop_settings loop).

Definition derive_subgroup_settings (curr_view : View.t)
    (subgroup_settings : gmap nat SubgroupSettings.t) : Layout :=
  let num_received_offset := 0 in
  let curr_view := View.set_my_subgroups ∅ curr_view in
  fold_indexed derive_subgroup 0 (View.subgroup_shard_views curr_view)
    (num_received_offset, curr_view, subgroup_settings).

(** *** The first phase of epoch termination *)

(** Modelled from the spec: [predicates.insert] adds a predicate to the
    list that the SST evaluates and returns a valid handle;
    [predicates.remove] takes the predicate of a valid handle off the
    list and invalidates the handle ([predicates.h] is not part of the
    sources). *)
Definition insert_predicate (p : Predicate) (vm : ViewManager) : ViewManager :=
  with_predicates (predicates vm ++ [p]) vm.

Definition remove_predicate (p : Predicate) (vm : ViewManager) : ViewManager :=
  with_predicates (filter (λ q, q ≠ p) (predicates vm)) vm.

Definition register_predicates (vm : ViewManager) : ViewManager :=
  let vm :=
    if negb (suspected_changed_handle (handles vm))
    then insert_predicate P_suspected_changed
           (with_handles
              (mkHandles true (start_join_handle (handles vm))
                 (reject_join_handle (handles vm))
                 (change_commit_ready_handle (handles vm))
                 (leader_proposed_handle (handles vm))
                 (leader_committed_handle (handles vm))) vm)
    else vm in
  let vm :=
    if negb (start_join_handle (handles vm))
    then insert_predicate P_start_join_pred
           (with_handles
              (mkHandles (suspected_changed_handle (handles vm)) true
                 (reject_join_handle (handles vm))
                 (change_commit_ready_handle (handles vm))
                 (leader_proposed_handle (handles vm))
                 (leader_committed_handle (handles vm))) vm)
    else vm in
  let vm :=
    if negb (reject_join_handle (handles vm))
    then insert_predicate P_reject_join_pred
           (with_handles
              (mkHandles (suspected_changed_handle (handles vm))
                 (start_join_handle (handles vm)) true
                 (change_commit_ready_handle (handles vm))
                 (leader_proposed_handle (handles vm))
                 (leader_committed_handle (handles vm))) vm)
    else vm in
  let vm :=
    if negb (change_commit_ready_handle (handles vm))
    then insert_predicate P_change_commit_ready
           (with_handles
              (mkHandles (suspected_changed_handle (handles vm))
                 (start_join_handle (handles vm))
                 (reject_join_handle (handles vm)) true
                 (leader_proposed_handle (handles vm))
                 (leader_committed_handle (handles vm))) vm)
    else vm in
  let vm :=
    if negb (leader_proposed_handle (handles vm))
    then insert_predicate P_leader_proposed_change
           (with_handles
              (mkHandles (suspected_changed_handle (handles vm))
                 (start_join_handle (handles vm))
                 (reject_join_handle (handles vm))
                 (change_commit_ready_handle (handles vm)) true
                 (leader_committed_handle (handles vm))) vm)
    else vm in
  if negb (leader_committed_handle (handles vm))
  then insert_predicate P_leader_committed_changes
         (with_handles
            (mkHandles (suspected_changed_handle (handles vm))
               (start_join_handle (handles vm))
               (reject_join_handle (handles vm))
               (change_commit_ready_handle (handles vm))
               (leader_proposed_handle (handles vm)) true) vm)
  else vm.

(** [gmsSST.predicates.remove(leader_committed_handle)] *)
Definition remove_leader_committed (vm : ViewManager) : ViewManager :=
  if leader_committed_handle (handles vm)
  then remove_predicate P_leader_committed_changes
         (with_handles
            (mkHandles (suspected_changed_handle (handles vm))
               (start_join_handle (handles vm))
               (reject_join_handle (handles vm))
               (change_commit_ready_handle (handles vm))
               (leader_proposed_handle (handles vm)) false) vm)
  else vm.

(** [start_meta_wedge] disables the other predicates, wedges the view and
    waits for every non-failed member to be wedged. *)
Definition start_meta_wedge (vm : ViewManager) : ViewManager :=
  let remove (valid : bool) (p : Predicate) (vm : ViewManager) :=
    if valid then remove_predicate p vm else vm in
  let vm := remove (start_join_handle (handles vm)) P_start_join_pred vm in
  let vm := remove (reject_join_handle (handles vm)) P_reject_join_pred vm in
  let vm := remove (change_commit_ready_handle (handles vm)) P_change_commit_ready vm in
  let vm := remove (leader_proposed_handle (handles vm)) P_leader_proposed_change vm in
  let vm :=
    with_handles
      (mkHandles (suspected_changed_handle (handles vm)) false false false false
         (leader_committed_handle (handles vm))) vm in
  let vm := wedge vm in
  insert_predicate P_is_meta_wedged vm.

(** How [terminate_epoch] leaves: it stalls on an inadequate next view, or
    goes on, with the settings and the size of [num_received] of the next
    view, to drain the small-message transport and to clean the ragged
    edge (below). *)
Inductive EpochStep :=
| epoch_stalled (vm : ViewManager)
| epoch_continues (vm : ViewManager)
    (next_subgroup_settings : gmap nat SubgroupSettings.t)
    (next_num_received_size : Z).

Section EpochTermination.

Variable subgroup_membership_function : shard_view_generator_t.

Definition terminate_epoch (vm : ViewManager) : result EpochStep :=
  (* If this is the first time terminate_epoch() was called, next_view
     will still be null *)
  let first_call := bool_decide (next_view vm = None) in
  match make_next_view (curr_view vm) (gmsSST vm) with
  | Raises e => Raises e
  | Returns made =>
      match
        make_subgroup_maps subgroup_membership_function (Some (curr_view vm)) made ∅
      with
      | Raises e => Raises e
      | Returns (next_num_received_size, made, next_subgroup_settings) =>
          let vm := with_next_view (Some made) vm in
          if negb (View.is_adequately_provisioned made)
          then
            let vm :=
              if first_call
              then
                (* Re-register the predicates for accepting and
                   acknowledging joins, but remove the one for
                   start_meta_wedge *)
                remove_leader_committed (register_predicates vm)
              else vm in
            (* Construct a predicate that watches for any new committed
               change that is a join *)
            let curr_num_committed :=
              SST.num_committed
                (SST.row (gmsSST vm) (View.rank_of_leader (curr_view vm))) in
            Returns
              (epoch_stalled
                 (insert_predicate (P_leader_committed_change curr_num_committed) vm))
          else
            (* If execution reached here, we have a valid next view *)
            Returns (epoch_continues vm next_subgroup_settings next_num_received_size)
      end
  end.

End EpochTermination.

(** *** Cleaning the ragged edge *)

(** Conversion to [int32_t]. *)
Definition i32 (x : Z) : Z := (x + 2 ^ 31) mod 2 ^ 32 - 2 ^ 31.

(** [MulticastGroup::deliver_messages_upto].  The model records the
    sequence numbers that are delivered; the messages themselves are in
    the stable-message maps of the multicast engine. *)
Definition deliver_messages_upto (max_indices_for_senders : list Z)
    (subgroup_num : nat) (num_shard_senders : Z) (vm : ViewManager) : ViewManager :=
  let member_index := get_local_index vm in
  let curr_seq_num :=
    cell 0 (SST.delivered_num (SST.row (gmsSST vm) member_index))
      (Z.of_nat subgroup_num) in
  let max_seq_num :=
    for_loop num_shard_senders
      (λ sender max_seq_num,
         Z.max max_seq_num
           (i32 (cell 0 max_indices_for_senders sender * num_shard_senders + sender)))
      curr_seq_num in
  let vm :=
    loop_from (Z.to_nat (max_seq_num - curr_seq_num)) (curr_seq_num + 1)
      (λ seq_num vm,
         (* determine if this sequence number should actually be skipped;
            the division is unsigned *)
         let index := i32 (u32 seq_num `div` num_shard_senders) in
         let sender_rank := u32 seq_num `mod` num_shard_senders in
         if bool_decide (index > cell 0 max_indices_for_senders sender_rank)
         then vm
         else with_delivered (delivered vm ++ [(subgroup_num, seq_num)]) vm)
      vm in
  let vm :=
    write_row member_index
      (λ row,
         SST.set_delivered_num
           (set_cell (SST.delivered_num row) (Z.of_nat subgroup_num) max_seq_num) row)
      vm in
  put (put_shard_cells subgroup_num c_delivered_num (Z.of_nat subgroup_num) 1) vm.

(** [deliver_in_order] also returns the vector [max_received_indices]
    that it logs and passes on.  [my_subgroups.at] finds the shard of
    every subgroup that [terminate_epoch] cleans. *)
Definition deliver_in_order (shard_leader_rank : Z) (subgroup_num : nat)
    (num_received_offset : Z) (shard_members : list node_id_t)
    (num_shard_senders : Z) (vm : ViewManager) : ViewManager * list Z :=
  let Vc := curr_view vm in
  let max_received_indices :=
    for_loop num_shard_senders
      (λ sender_rank max_received_indices,
         set_cell max_received_indices sender_rank
           (cell 0 (SST.global_min (SST.row (gmsSST vm) shard_leader_rank))
              (num_received_offset + sender_rank)))
      (replicate (Z.to_nat num_shard_senders) 0) in
  let vm :=
    if any_persistent_objects vm
    then
      let shard_num := default 0%nat (View.my_subgroups Vc !! subgroup_num) in
      let trim_log :=
        mkRaggedTrim subgroup_num shard_num (View.vid Vc)
          (i32 (cell 0 (View.members Vc) (View.rank_of_leader Vc)))
          max_received_indices in
      with_saved_ragged_trims (saved_ragged_trims vm ++ [trim_log]) vm
    else vm in
  (deliver_messages_upto max_received_indices subgroup_num num_shard_senders vm,
   max_received_indices).

(** The first loop of [leader_ragged_edge_cleanup]: look for a shard
    member whose [global_min_ready] flag is set and inherit its cells. *)
Definition inherit_global_min (subgroup_num : nat) (num_received_offset : Z)
    (shard_members : list node_id_t) (num_shard_senders : Z) (vm : ViewManager)
    : ViewManager * bool :=
  let Vc := curr_view vm in
  let myRank := View.my_rank Vc in
  for_loop (size shard_members)
    (λ n (st : ViewManager * bool),
       let '(vm, found) := st in
       if found then (vm, found)
       else
         let node_id := cell 0 shard_members n in
         let node_rank := View.rank_of Vc node_id in
         if cell false (SST.global_min_ready (SST.row (gmsSST vm) node_rank))
              (Z.of_nat subgroup_num)
         then
           (write_row myRank
              (λ row,
                 SST.set_global_min
                   (copy_cells 0 (SST.global_min row)
                      (SST.global_min (SST.row (gmsSST vm) node_rank))
                      num_received_offset num_shard_senders)
                   row)
              vm,
            true)
         else (vm, found))
    (vm, false).

(** The second loop: the least [num_received] of each sender over the
    local row and the rows of the non-failed shard members. *)
Definition compute_global_min (num_received_offset : Z)
    (shard_members : list node_id_t) (num_shard_senders : Z) (vm : ViewManager)
    : ViewManager :=
  let Vc := curr_view vm in
  let myRank := View.my_rank Vc in
  for_loop num_shard_senders
    (λ n vm,
       let min :=
         for_loop (size shard_members)
           (λ r min,
              let node_id := cell 0 shard_members r in
              let node_rank := View.rank_of Vc node_id in
              if negb (cell false (View.failed Vc) node_rank)
                 && bool_decide
                      (min > cell 0 (SST.num_received (SST.row (gmsSST vm) node_rank))
                               (num_received_offset + n))
              then cell 0 (SST.num_received (SST.row (gmsSST vm) node_rank))
                     (num_received_offset + n)
              else min)
           (cell 0 (SST.num_received (SST.row (gmsSST vm) myRank))
              (num_received_offset + n)) in
       write_row myRank
         (λ row,
            SST.set_global_min
              (set_cell (SST.global_min row) (num_received_offset + n) min) row)
         vm)
    vm.

Definition leader_ragged_edge_cleanup (subgroup_num : nat) (num_received_offset : Z)
    (shard_members : list node_id_t) (num_shard_senders : Z) (vm : ViewManager)
    : ViewManager * list Z :=
  let myRank := View.my_rank (curr_view vm) in
  let '(vm, found) :=
    inherit_global_min subgroup_num num_received_offset shard_members
      num_shard_senders vm in
  let vm :=
    if negb found
    then compute_global_min num_received_offset shard_members num_shard_senders vm
    else vm in
  let vm :=
    write_row myRank
      (λ row,
         SST.set_global_min_ready
           (set_cell (SST.global_min_ready row) (Z.of_nat subgroup_num) true) row)
      vm in
  let vm :=
    put (put_shard_cells subgroup_num c_global_min num_received_offset
           num_shard_senders) vm in
  let vm :=
    put (put_shard_cells subgroup_num c_global_min_ready (Z.of_nat subgroup_num) 1)
      vm in
  deliver_in_order myRank subgroup_num num_received_offset shard_members
    num_shard_senders vm.


(** ** Joining a group *)

(** The low-level parameters of a group ([multicast_group.h]). *)
Record DerechoParams := mkDerechoParams {
  max_payload_size : Z;
  max_smc_payload_size : Z;
  block_size : Z;
  window_size : Z;
  timeout_ms : Z;
  rdmc_send_algorithm : Z;
  rpc_port : Z
}.

(** What travels over the TCP connection of the join path, one item for
    each [read] or [write] of the source. *)
Inductive Wire :=
| w_id (id : node_id_t)
| w_response (r : JoinResponse)
| w_size (n : Z)
| w_ip (ip : string)
| w_port (p : Z)
| w_view (v : View.t)
| w_params (p : DerechoParams)
| w_trim (t : RaggedTrim)
| w_flag (b : bool).

(** Modelled from the spec: a [tcp::socket] ([tcp.h] is not part of the
    sources).  A [write] succeeds while the peer is up; a [read] takes
    the next item the peer sent and fails when there is none left or when
    the item is not of the kind that is read. *)
Record socket := mkSocket {
  remote_ip : string;
  remote_port : Z;
  incoming : list Wire;
  peer_is_up : bool;
  sent : list Wire
}.

(** Modelled from the spec: what the node that answers at an address
    sends over a new connection, and whether it stays up. *)
Record Peer := mkPeer {
  peer_sends : list Wire;
  peer_stays_up : bool
}.

(** [ragged_trim_map_t]: subgroup id to shard number to trim, in the key
    order of [std::map]. *)
Definition ragged_trim_map_t : Type := list (nat * list (nat * RaggedTrim)).

(** [m.emplace(k, v)]: nothing happens when the key is there. *)
Fixpoint map_emplace {A} (k : nat) (v : A) (m : list (nat * A)) : list (nat * A) :=
  match m with
  | [] => [(k, v)]
  | (k', v') :: m' =>
      if decide (k < k')%nat then (k, v) :: m
      else if decide (k = k') then m
      else (k', v') :: map_emplace k v m'
  end.

(** [f(m[k])]: [operator[]] makes an empty entry when the key is not
    there. *)
Fixpoint map_update_at {A} (d : A) (k : nat) (f : A → A) (m : list (nat * A))
    : list (nat * A) :=
  match m with
  | [] => [(k, f d)]
  | (k', v') :: m' =>
      if decide (k < k')%nat then (k, f d) :: m
      else if decide (k = k') then (k', f v') :: m'
      else (k', v') :: map_update_at d k f m'
  end.

(** What the node has on disk and in its configuration file, and the
    serializer's [mutils::bytes_size]. *)
Record Local := mkLocal {
  CONF_DERECHO_GMS_PORT : Z;
  CONF_DERECHO_RPC_PORT : Z;
  CONF_DERECHO_SST_PORT : Z;
  CONF_DERECHO_RDMC_PORT : Z;
  (** [persistent::loadObject<View>()] *)
  stored_view : View.t;
  (** what [RestartState::load_ragged_trim] finds *)
  stored_ragged_trim : ragged_trim_map_t;
  bytes_size : Wire → Z
}.

(** The members of the [ViewManager] that [receive_configuration] uses,
    with the connection it is given by reference.  [joining_view] is
    [curr_view], which is null until a view is loaded or received, and
    [restart_state] is null outside a restart. *)
Record Joining := mkJoining {
  leader_connection : socket;
  joining_view : option View.t;
  derecho_params : DerechoParams;
  restart_state : option ragged_trim_map_t;
  subgroup_type_order : list subgroup_type_t
}.

Definition with_leader_connection (c : socket) (j : Joining) : Joining :=
  mkJoining c (joining_view j) (derecho_params j) (restart_state j)
    (subgroup_type_order j).
Definition with_joining_view (v : option View.t) (j : Joining) : Joining :=
  mkJoining (leader_connection j) v (derecho_params j) (restart_state j)
    (subgroup_type_order j).
Definition with_derecho_params (p : DerechoParams) (j : Joining) : Joining :=
  mkJoining (leader_connection j) (joining_view j) p (restart_state j)
    (subgroup_type_order j).
Definition with_restart_state (r : option ragged_trim_map_t) (j : Joining) : Joining :=
  mkJoining (leader_connection j) (joining_view j) (derecho_params j) r
    (subgroup_type_order j).

(** Statements that read and write the members and can throw. *)
Definition M (A : Type) : Type := Joining → result (A * Joining).

#[global] Instance M_ret : MRet M := λ A x j, Returns (x, j).
#[global] Instance M_bind : MBind M :=
  λ A B f m j,
    match m j with
    | Returns (x, j') => f x j'
    | Raises e => Raises e
    end.

Definition throw {A} (e : derecho_exception) : M A := λ _, Raises e.
Definition modify (f : Joining → Joining) : M unit := λ j, Returns ((), f j).
Definition gets {A} (f : Joining → A) : M A := λ j, Returns (f j, j).

(** [leader_connection.write(x)] *)
Definition write (w : Wire) : M bool :=
  λ j,
    let c := leader_connection j in
    if peer_is_up c
    then
      Returns (true,
               with_leader_connection
                 (mkSocket (remote_ip c) (remote_port c) (incoming c) (peer_is_up c)
                    (sent c ++ [w]))
                 j)
    else Returns (false, j).

(** [leader_connection.read(x)], for an [x] of the kind that [decode]
    accepts: the value read when the read succeeded. *)
Definition read {A} (decode : Wire → option A) : M (option A) :=
  λ j,
    let c := leader_connection j in
    match incoming c with
    | [] => Returns (None, j)
    | w :: rest =>
        Returns (decode w,
                 with_leader_connection
                   (mkSocket (remote_ip c) (remote_port c) rest (peer_is_up c) (sent c))
                   j)
    end.

Definition as_response (w : Wire) : option JoinResponse :=
  match w with w_response r => Some r | _ => None end.
Definition as_size (w : Wire) : option Z :=
  match w with w_size n => Some n | _ => None end.
Definition as_ip (w : Wire) : option string :=
  match w with w_ip ip => Some ip | _ => None end.
Definition as_port (w : Wire) : option Z :=
  match w with w_port p => Some p | _ => None end.
Definition as_view (w : Wire) : option View.t :=
  match w with w_view v => Some v | _ => None end.
Definition as_params (w : Wire) : option DerechoParams :=
  match w with w_params p => Some p | _ => None end.
Definition as_trim (w : Wire) : option RaggedTrim :=
  match w with w_trim t => Some t | _ => None end.
Definition as_flag (w : Wire) : option bool :=
  match w with w_flag b => Some b | _ => None end.

#[global] Instance JoinResponseCode_eq_dec : EqDecision JoinResponseCode.
Proof. solve_decision. Defined.

(** The [do ... while(leader_redirect)] loop of [receive_configuration].
    [network] holds, in the order of the reconnections, the peers that
    the later [tcp::socket(leader_ip, leader_gms_port)] constructions
    reach; the constructor throws when nobody answers.  The reads of the
    redirection are not checked in the source: a value that was not read
    is taken as empty. *)
Fixpoint exchange_ids (network : list Peer) (my_id : node_id_t) : M JoinResponse :=
  success ← write (w_id my_id);
  if negb success then throw leader_crashed_id_exchange
  else
    success ← read as_response;
    match success with
    | None => throw leader_crashed_id_exchange
    | Some leader_response =>
        if decide (leader_response.1 = ID_IN_USE) then throw id_already_in_use
        else if decide (leader_response.1 = LEADER_REDIRECT) then
          ip_addr_size ← read as_size;
          leader_ip ← read as_ip;
          leader_gms_port ← read as_port;
          (* Use move-assignment to reconnect the socket to the given IP
             address, and try again *)
          match network with
          | [] => throw connect_failed
          | peer :: network =>
              modify
                (with_leader_connection
                   (mkSocket (default EmptyString leader_ip) (default 0 leader_gms_port)
                      (peer_sends peer) (peer_stays_up peer) []));;
              exchange_ids network my_id
          end
        else mret leader_response
    end.

(** [for(...) { body }] over the statements. *)
Fixpoint for_each {A} (l : list A) (body : A → M unit) : M unit :=
  match l with
  | [] => mret ()
  | x :: l => body x;; for_each l body
  end.

(** The branch [if(is_total_restart)] before the ports are sent: the
    node loads its view and sends it, then its ragged trims, to the
    restart leader.  The inner map of a subgroup has one entry; the
    model sends nothing for an inner map without one. *)
Definition send_restart_state (local : Local) : M unit :=
  modify (with_joining_view (Some (stored_view local)));;
  success ← write (w_size (bytes_size local (w_view (stored_view local))));
  if negb success then throw leader_crashed_restart_view
  else
    success ← write (w_view (stored_view local));
    if negb success then throw leader_crashed_restart_view
    else
      (* Restore this non-serializeable field to curr_view before using it *)
      modify (λ j, with_joining_view
                     (View.set_subgroup_type_order (subgroup_type_order j)
                      <$> joining_view j) j);;
      modify (with_restart_state (Some (stored_ragged_trim local)));;
      success ← write (w_size (size (stored_ragged_trim local)));
      if negb success then throw leader_crashed_restart_view
      else
        for_each (stored_ragged_trim local)
          (λ id_to_shard_map,
             match id_to_shard_map.2 with
             | [] => mret ()
             | (_, ragged_trim) :: _ =>
                 success ← write (w_size (bytes_size local (w_trim ragged_trim)));
                 if negb success then throw leader_crashed_restart_view
                 else
                   success ← write (w_trim ragged_trim);
                   if negb success then throw leader_crashed_restart_view
                   else mret ()
             end).

Definition no_trim : RaggedTrim := mkRaggedTrim 0 0 0 0 [].

(** In total restart mode, the leader also sends the ragged trims it has
    collected.  None of these reads is checked. *)
Definition receive_ragged_trims : M unit :=
  modify (with_restart_state (Some []));;
  num_of_ragged_trims ← read as_size;
  for_each (seq 0 (Z.to_nat (default 0 num_of_ragged_trims)))
    (λ _,
       size_of_ragged_trim ← read as_size;
       buffer ← read as_trim;
       let ragged_trim := default no_trim buffer in
       (* operator[] is intentional: Create an empty inner map at
          subgroup_id if one does not exist *)
       modify (λ j,
         with_restart_state
           (Some (map_update_at [] (trim_subgroup_id ragged_trim)
                    (map_emplace (trim_shard_num ragged_trim) ragged_trim)
                    (default [] (restart_state j))))
           j)).

(** The loop [while(!view_confirmed)].  Every round that goes on takes
    at least one item from the connection, and [fuel] is more than what
    the connection holds. *)
Fixpoint await_view (fuel : nat) (is_total_restart : bool) : M unit :=
  match fuel with
  | O => throw leader_crashed_initial_view
  | S fuel =>
      (* The leader will first send the size of the necessary buffer,
         then the serialized View *)
      size_of_view ← read as_size;
      if negb (bool_decide (is_Some size_of_view))
      then throw leader_crashed_initial_view
      else
        buffer ← read as_view;
        match buffer with
        | None => throw leader_crashed_initial_view
        | Some view =>
            modify (with_joining_view (Some view));;
            (* Next, the leader sends DerechoParams *)
            size_of_derecho_params ← read as_size;
            buffer2 ← read as_params;
            match buffer2 with
            | None => throw leader_crashed_initial_view
            | Some params =>
                modify (with_derecho_params params);;
                (if is_total_restart then receive_ragged_trims else mret ());;
                (* Next, the leader will send a single bool indicating
                   whether this View has been committed at all newly
                   joining members.  If not, we must go back to waiting
                   for a View. *)
                view_confirmed ← read as_flag;
                match view_confirmed with
                | None => throw leader_crashed_initial_view
                | Some true => mret ()
                | Some false => await_view fuel is_total_restart
                end
            end
        end
  end.

(** [ViewManager::receive_configuration]: whether the group is in a
    total restart. *)
Definition receive_configuration (local : Local) (network : list Peer)
    (my_id : node_id_t) : M bool :=
  leader_response ← exchange_ids network my_id;
  let is_total_restart := bool_decide (leader_response.1 = TOTAL_RESTART) in
  (if is_total_restart then send_restart_state local else mret ());;
  write (w_port (CONF_DERECHO_GMS_PORT local));;
  write (w_port (CONF_DERECHO_RPC_PORT local));;
  write (w_port (CONF_DERECHO_SST_PORT local));;
  write (w_port (CONF_DERECHO_RDMC_PORT local));;
  left ← gets (λ j, length (incoming (leader_connection j)));
  await_view (S left) is_total_restart;;
  (* This must be set up locally, since it's not serializable *)
  modify (λ j, with_joining_view
                 (View.set_subgroup_type_order (subgroup_type_order j)
                  <$> joining_view j) j);;
  mret is_total_restart.

(** ** Sample configurations

    A view of three members with ids 1, 2 and 3 and a table with one row
    per member, used to run the embedded functions on concrete inputs. *)

Definition sample_endpoint (id : Z) : endpoint := (id, 1000, 1001, 1002, 1003).

Definition sample_view (my_rank : Z) (failed : list bool) : View.t :=
  View.make 4 [1; 2; 3]
    [sample_endpoint 1; sample_endpoint 2; sample_endpoint 3]
    failed [] [] my_rank 3 [0%nat].

(** A row with two cells of pending changes. *)
Definition sample_row (changes : list node_id_t)
    (num_changes num_committed num_acked : Z) (suspected : list bool) : SST.Row :=
  SST.mkRow suspected false false changes [0; 0] [0; 0] [0; 0] [0; 0] [0; 0]
    num_changes num_committed num_acked 0 [5; 7] [-1] [0; 0] [false].

Definition no_handles : Handles := mkHandles false false false false false false.

Definition sample_manager (view : View.t) (rows : list SST.Row) : ViewManager :=
  mkViewManager view None rows [false; false; false] [] false [] [] no_handles
    false [] [].

Definition nobody : list bool := [false; false; false].

(** The leader (rank 0) with member 3 failed: it acknowledged two
    changes, member 2 one, and nothing is committed yet. *)
Definition committing_leader : ViewManager :=
  sample_manager (sample_view 0 [false; false; true])
    [sample_row [3; 8] 2 0 2 [false; false; true];
     sample_row [3; 0] 1 0 1 [false; false; true];
     sample_row [0; 0] 0 0 0 nobody].

(** Member 2 (rank 1) sees that the leader proposed a first change. *)
Definition follower_with_proposal : ViewManager :=
  sample_manager (sample_view 1 nobody)
    [sample_row [8; 0] 1 0 1 nobody;
     sample_row [0; 0] 0 0 0 nobody;
     sample_row [0; 0] 0 0 0 nobody].


(** The leader committed the removal of member 2 and the join of node 9. *)
Definition committed_table : list SST.Row :=
  [sample_row [2; 9] 2 2 2 nobody;
   sample_row [2; 9] 2 2 2 nobody;
   sample_row [2; 9] 2 2 2 nobody].

(** The leader proposed the joins of nodes 8 and 9, which fill the two
    cells of its list of changes and are not committed yet, when node 10
    asks to join. *)
Definition leader_at_capacity : ViewManager :=
  sample_manager (sample_view 0 nobody)
    [sample_row [8; 9] 2 0 2 nobody;
     sample_row [8; 9] 2 0 2 nobody;
     sample_row [8; 9] 2 0 2 nobody].

Definition join_request_of_node_10 : JoinRequest :=
  mkJoinRequest 167772170 10 1000 1001 1002 1003.

(** A membership function for the sample view: one subgroup of two
    shards, the first with members 1 and 2 (only member 1 sends), the
    second with member 3; it needs three members. *)
Definition sample_membership_function : shard_view_generator_t :=
  λ subgroup_type prev_view curr_view,
    if bool_decide (View.num_members curr_view < 3)
    then (View.next_unassigned_rank curr_view, None)
    else
      (3,
       Some [[SubView.mk [1; 2] [true; false] ORDERED (-1) [] [];
              SubView.mk [3] [true] ORDERED (-1) [] []]]).

(** Two shard views with the same members, sender flags and mode: what a
    view keeps of its shards when it is sent to another member, whose
    rank in each shard is filled in on arrival. *)
Definition same_shard (a b : SubView.t) : Prop :=
  SubView.members a = SubView.members b
  ∧ SubView.is_sender a = SubView.is_sender b
  ∧ SubView.mode a = SubView.mode b.

Definition same_shards (a b : list (list SubView.t)) : Prop :=
  Forall2 (Forall2 same_shard) a b.

(** What both loops over the shards compute from the members, the sender
    flags and the mode of a shard. *)
Definition widest (sv : SubView.t) (max : Z) : Z :=
  if bool_decide (SubView.num_senders sv > max)
  then u32 (size (SubView.members sv)) else max.

Definition with_settings_of (my_id : Z) (subgroup_num : nat) (offset : Z)
    (shard_num : nat) (sv : SubView.t) (settings : gmap nat SubgroupSettings.t)
    : gmap nat SubgroupSettings.t :=
  if bool_decide (SubView.rank_of sv my_id ≠ -1)
  then <[subgroup_num :=
           SubgroupSettings.mk shard_num (u32 (SubView.rank_of sv my_id))
             (SubView.members sv) (SubView.is_sender sv)
             (SubView.sender_rank_of sv (SubView.rank_of sv my_id))
             offset (SubView.mode sv)]> settings
  else settings.

(** Two copies of a view for the same local node. *)
Definition same_node (w v : View.t) : Prop :=
  View.members w = View.members v ∧ View.my_rank w = View.my_rank v.

(** The view as [make_subgroup_maps] leaves it after the membership
    function threw. *)
Definition rolled_back (initial_next_unassigned_rank : Z) (v : View.t) : Prop :=
  View.is_adequately_provisioned v = false
  ∧ View.next_unassigned_rank v = initial_next_unassigned_rank
  ∧ View.subgroup_shard_views v = []
  ∧ View.subgroup_ids_by_type_id v = ∅.

(** The leader after every member committed the removal of member 3 and
    the view was meta-wedged: the steady-state predicates are off. *)
Definition leader_removing_member_3 : ViewManager :=
  with_handles (mkHandles true false false false false true)
    (with_predicates [P_suspected_changed; P_leader_committed_changes]
       (sample_manager (sample_view 0 [false; false; true])
          [sample_row [3; 0] 1 1 1 [false; false; true];
           sample_row [3; 0] 1 1 1 [false; false; true];
           sample_row [0; 0] 0 0 0 nobody])).

(** A row of a member of a shard with two senders, at the end of a view:
    what it received from each sender, the trim it published if any, and
    the last sequence number it delivered. *)
Definition ragged_row (num_received global_min : list Z) (ready : bool)
    (delivered_num : Z) : SST.Row :=
  SST.mkRow nobody false true [0; 0] [0; 0] [0; 0] [0; 0] [0; 0] [0; 0]
    0 0 0 0 num_received [delivered_num] global_min [ready].

(** Member 2 (rank 1) leads the shard of members 1, 2 and 3 after member
    1 failed; member 1 had published its trim [3; 6] before, and more of
    the second sender's messages arrived since. *)
Definition new_shard_leader : ViewManager :=
  sample_manager (sample_view 1 [true; false; false])
    [ragged_row [5; 6] [3; 6] true 13;
     ragged_row [5; 7] [0; 0] false 7;
     ragged_row [3; 8] [0; 0] false 7].



(** *** Specification vocabulary for the ragged edge *)

(** The shard member's [global_min_ready] flag for the subgroup, as the
    local table shows it. *)
Definition ready_flag (vm : ViewManager) (subgroup_num : nat) (m : node_id_t) : bool :=
  cell false
    (SST.global_min_ready (SST.row (gmsSST vm) (View.rank_of (curr_view vm) m)))
    (Z.of_nat subgroup_num).

Definition is_live (vm : ViewManager) (m : node_id_t) : bool :=
  negb (cell false (View.failed (curr_view vm)) (View.rank_of (curr_view vm) m)).

(** What a member has received of a sender. *)
Definition received (vm : ViewManager) (column : Z) (rank : Z) : Z :=
  cell 0 (SST.num_received (SST.row (gmsSST vm) rank)) column.

(** [x] is the least count received, in [column], over the local row and
    the rows of the non-failed members of the shard. *)
Definition least_received (vm : ViewManager) (shard_members : list node_id_t)
    (column : Z) (x : Z) : Prop :=
  x ≤ received vm column (View.my_rank (curr_view vm))
  ∧ (∀ m, m ∈ shard_members → is_live vm m = true →
          x ≤ received vm column (View.rank_of (curr_view vm) m))
  ∧ (x = received vm column (View.my_rank (curr_view vm))
     ∨ ∃ m, m ∈ shard_members ∧ is_live vm m = true
            ∧ x = received vm column (View.rank_of (curr_view vm) m)).

(** The claim of the specification, in its words: the leader inherits the
    trim of a non-failed shard member whose flag is set, and only if
    there is none takes the least count over the non-failed members. *)
Definition claimed_global_min (vm : ViewManager) (subgroup_num : nat)
    (num_received_offset : Z) (shard_members : list node_id_t) (s : Z) : Z :=
  let live := filter (λ m, is_live vm m = true) shard_members in
  match list_find (λ m, ready_flag vm subgroup_num m = true) live with
  | Some (_, m) =>
      cell 0 (SST.global_min (SST.row (gmsSST vm) (View.rank_of (curr_view vm) m)))
        (num_received_offset + s)
  | None =>
      foldr Z.min
        (received vm (num_received_offset + s) (View.my_rank (curr_view vm)))
        ((λ m, received vm (num_received_offset + s) (View.rank_of (curr_view vm) m))
           <$> live)
  end.

(** Sequence number [seq] of a shard with [n] senders is within the cut
    [max_indices]. *)
Definition within_cut (max_indices : list Z) (n : Z) (seq : Z) : Prop :=
  0 ≤ seq ∧ seq `div` n ≤ cell 0 max_indices (seq `mod` n).

(** *** Specification vocabulary for the join handshake *)

(** What the leader sends for one proposed view: the view, the
    parameters, in a restart the ragged trims it collected, and at last
    whether the view was committed. *)
Record Proposal := mkProposal {
  proposed_view : View.t;
  proposed_params : DerechoParams;
  proposed_trims : list RaggedTrim;
  committed : bool
}.

Definition encode_trims (local : Local) (trims : list RaggedTrim) : list Wire :=
  w_size (size trims)
  :: flat_map (λ t, [w_size (bytes_size local (w_trim t)); w_trim t]) trims.

Definition encode_proposal (local : Local) (restart : bool) (p : Proposal) : list Wire :=
  [w_size (bytes_size local (w_view (proposed_view p)));
   w_view (proposed_view p);
   w_size (bytes_size local (w_params (proposed_params p)));
   w_params (proposed_params p)]
  ++ (if restart then encode_trims local (proposed_trims p) else [])
  ++ [w_flag (committed p)].

(** The trims filed by subgroup and shard, the first one received of a
    shard staying. *)
Definition file_trims (trims : list RaggedTrim) : ragged_trim_map_t :=
  foldl
    (λ m t,
       map_update_at [] (trim_subgroup_id t) (map_emplace (trim_shard_num t) t) m)
    [] trims.

(** What a restarting node sends of its stored trims: the first entry of
    each subgroup. *)
Definition stored_trims_sent (local : Local) : list Wire :=
  flat_map
    (λ id_to_shard_map : nat * list (nat * RaggedTrim),
       match id_to_shard_map.2 with
       | [] => []
       | (_, t) :: _ => [w_size (bytes_size local (w_trim t)); w_trim t]
       end)
    (stored_ragged_trim local).

Definition ports_sent (local : Local) : list Wire :=
  [w_port (CONF_DERECHO_GMS_PORT local); w_port (CONF_DERECHO_RPC_PORT local);
   w_port (CONF_DERECHO_SST_PORT local); w_port (CONF_DERECHO_RDMC_PORT local)].

(** The state in which [receive_configuration] returns after the
    proposal [final]: the rest of the connection is unread. *)
Definition configured (j : Joining) (written : list Wire) (unread : list Wire)
    (final : Proposal) (trims : option ragged_trim_map_t) : Joining :=
  let c := leader_connection j in
  mkJoining
    (mkSocket (remote_ip c) (remote_port c) unread (peer_is_up c) (sent c ++ written))
    (Some (View.set_subgroup_type_order (subgroup_type_order j) (proposed_view final)))
    (proposed_params final) trims (subgroup_type_order j).

(** The claim of the specification, in its words: three response codes,
    and after [OK] the ports and the wait for a committed view. *)
Definition claimed_receive_configuration (local : Local) (network : list Peer)
    (my_id : node_id_t) : M bool :=
  leader_response ← exchange_ids network my_id;
  write (w_port (CONF_DERECHO_GMS_PORT local));;
  write (w_port (CONF_DERECHO_RPC_PORT local));;
  write (w_port (CONF_DERECHO_SST_PORT local));;
  write (w_port (CONF_DERECHO_RDMC_PORT local));;
  left ← gets (λ j, length (incoming (leader_connection j)));
  await_view (S left) false;;
  modify (λ j, with_joining_view
                 (View.set_subgroup_type_order (subgroup_type_order j)
                  <$> joining_view j) j);;
  mret false.

(** *** A node that joins *)

Definition sample_params : DerechoParams := mkDerechoParams 10240 1024 1024 3 1 0 28366.

Definition sample_trim : RaggedTrim := mkRaggedTrim 0 0 4 1 [3; 7].

(** Node 4 with the view of an earlier run and one trim on disk. *)
Definition sample_local : Local :=
  mkLocal 23580 28366 37683 31675 (sample_view 2 nobody) [(0%nat, [(0%nat, sample_trim)])]
    (λ w, match w with w_view _ => 512 | w_params _ => 56 | _ => 40 end).

(** The node when it has connected to a peer that will send [incoming]. *)
Definition joiner_connected (incoming : list Wire) : Joining :=
  mkJoining (mkSocket "192.168.1.1" 23580 incoming true []) None
    (mkDerechoParams 0 0 0 0 0 0 0) None [0%nat].

(** The leader proposes a view, aborts it, and commits the next one. *)
Definition aborted_proposal : Proposal :=
  mkProposal (sample_view 2 nobody) sample_params [sample_trim] false.
Definition committed_proposal : Proposal :=
  mkProposal (View.set_num_failed 0 (sample_view 2 nobody)) sample_params
    [sample_trim] true.

(** ** The multicast engine: helpers of [multicast_group.cpp] *)

(** [index_of(container, elem)]: the index of the first element equal
    to [elem], or the size of the container. *)
Fixpoint index_of_from {A} `{EqDecision A} (it : list A) (elem : A) (n size : Z) : Z :=
  match it with
  | [] => size
  | x :: it => if decide (x = elem) then n else index_of_from it elem (n + 1) size
  end.

Definition index_of {A} `{EqDecision A} (container : list A) (elem : A) : Z :=
  index_of_from container elem 0 (size container).

(** Arithmetic on [long long unsigned int]. *)
Definition u64 (x : Z) : Z := x mod 2 ^ 64.

(** [sizeof(header)]: the packed struct of a [uint32_t], an [int32_t], a
    [uint64_t] and a [bool]. *)
Definition sizeof_header : Z := 4 + 4 + 8 + 1.

(** [MulticastGroup::compute_max_msg_size].  The source divides by
    [block_size], which must not be 0. *)
Definition compute_max_msg_size (max_payload_size block_size : Z) (using_rdmc : bool)
    : Z :=
  let max_msg_size := u64 (max_payload_size + sizeof_header) in
  if using_rdmc
  then
    if negb (bool_decide (max_msg_size `mod` block_size = 0))
    then u64 (u64 (max_msg_size `div` block_size + 1) * block_size)
    else max_msg_size
  else max_msg_size.

(** *** Intervals of received indices *)

(** [l.insert(pos, x)] and [l.erase(pos)] on a [std::list], the iterator
    being the position of its element. *)
Definition insert_at (pos : nat) (x : Z) (l : list Z) : list Z :=
  take pos l ++ x :: drop pos l.

Definition erase_at (pos : nat) (l : list Z) : list Z :=
  take pos l ++ drop (S pos) l.

(** The loop [while] that steps [it] down while [*it > index], from the
    position [it].  The source steps
    before [begin()] when every element is above [index]; the model stops
    at the first element. *)
Fixpoint scan_down (l : list Z) (index : Z) (it : nat) : nat :=
  match it with
  | O => O
  | S it' => if bool_decide (cell 0 l (Z.of_nat it) > index) then scan_down l index it' else it
  end.

(** [MulticastGroup::resolve_num_received] on the list
    [received_intervals[num_received_entry]], which holds the two ends of
    every interval of received indices in ascending order and starts as
    [{-1, -1}].  It returns the new list and [*std::next(begin())]. *)
Definition resolve_num_received (index : Z) (received_intervals : list Z)
    : list Z * Z :=
  let l := received_intervals in
  let it := scan_down l index (length l - 1) in
  let deref (pos : nat) := cell 0 l (Z.of_nat pos) in
  let l :=
    if bool_decide (S it = length l)
    then
      if bool_decide (deref it = index - 1)
      then <[it := index]> l
      else l ++ [index; index]
    else
      let next_it := S it in
      if bool_decide (deref it ≠ index - 1)
      then
        (* [next_it] moves one place up with the insertion before it *)
        let l1 := insert_at next_it index l in
        if bool_decide (deref next_it ≠ index + 1)
        then insert_at (S next_it) index l1
        else erase_at (S next_it) l1
      else
        let l1 :=
          if bool_decide (deref next_it ≠ index + 1)
          then insert_at next_it index l
          else erase_at next_it l in
        erase_at it l1 in
  (l, cell 0 l 1).

(** The indices that a list of interval ends covers, and the shape the
    list keeps: every interval is above [lo], not empty, and neither
    overlaps nor touches the next one. *)
Fixpoint covered (l : list Z) (x : Z) : Prop :=
  match l with
  | a :: b :: rest => a ≤ x ≤ b ∨ covered rest x
  | _ => False
  end.

Fixpoint intervals_above (lo : Z) (l : list Z) : Prop :=
  match l with
  | [] => True
  | a :: b :: rest => lo < a ∧ a ≤ b ∧ intervals_above (b + 1) rest
  | [_] => False
  end.

(** The bound that the intervals after the prefix [pre] must stay above. *)
Definition bound_after (lo : Z) (pre : list Z) : Z :=
  match last pre with
  | Some b => b + 1
  | None => lo
  end.

(** ** The leader's side of a join *)

(** [client_socket.write(x)] on a socket of the leader; the source does
    not look at the result. *)
Definition socket_write (w : Wire) (c : socket) : socket :=
  if peer_is_up c
  then mkSocket (remote_ip c) (remote_port c) (incoming c) (peer_is_up c) (sent c ++ [w])
  else c.

(** [ViewManager::commit_join]: the leader sends the new view and its
    parameters to a joiner, and [true] for the client to commit the
    view. *)
Definition commit_join (local : Local) (derecho_params : DerechoParams)
    (new_view : View.t) (client_socket : socket) : socket :=
  let size_of_view := bytes_size local (w_view new_view) in
  let client_socket := socket_write (w_size size_of_view) client_socket in
  let client_socket := socket_write (w_view new_view) client_socket in
  let size_of_derecho_params := bytes_size local (w_params derecho_params) in
  let client_socket := socket_write (w_size size_of_derecho_params) client_socket in
  let client_socket := socket_write (w_params derecho_params) client_socket in
  (* Send True to indicate that the client should commit this View *)
  socket_write (w_flag true) client_socket.

(** Two states of a joining node that differ in the connection at most. *)
Definition same_but_connection (j j' : Joining) : Prop :=
  j' = with_leader_connection (leader_connection j') j.

(** A leader with nothing pending, and the joiner's connection when that
    leader has accepted the join and sent the next view. *)
Definition idle_leader : ViewManager :=
  sample_manager (sample_view 0 nobody)
    [sample_row [0; 0] 0 0 0 nobody;
     sample_row [0; 0] 0 0 0 nobody;
     sample_row [0; 0] 0 0 0 nobody].

Definition client_socket_of_node_10 : socket :=
  mkSocket "10.0.0.10" 45000 [] true [w_response (OK, 1)].

(** *** Specification vocabulary for suspicions *)

(** Row [r] of the table suspects the member of rank [who]. *)
Definition suspects (sst : list SST.Row) (r who : Z) : bool :=
  cell false (SST.suspected (SST.row sst r)) who.

(** What the loops of [new_suspicion] keep of a state: the local rank,
    the number of members, the shape of the table and the rows of the
    other members; the suspicions of the local row and [last_suspected]
    only grow. *)
Definition suspicions_grow (vm vm' : ViewManager) : Prop :=
  let me := View.my_rank (curr_view vm) in
  View.my_rank (curr_view vm') = me
  ∧ View.num_members (curr_view vm') = View.num_members (curr_view vm)
  ∧ size (gmsSST vm') = size (gmsSST vm)
  ∧ (∀ r, r ≠ me → SST.row (gmsSST vm') r = SST.row (gmsSST vm) r)
  ∧ size (SST.suspected (SST.row (gmsSST vm') me))
    = size (SST.suspected (SST.row (gmsSST vm) me))
  ∧ (∀ who, suspects (gmsSST vm) me who = true → suspects (gmsSST vm') me who = true)
  ∧ size (last_suspected vm') = size (last_suspected vm)
  ∧ (∀ who, cell false (last_suspected vm) who = true →
            cell false (last_suspected vm') who = true).

(** The leader (rank 0) sees that member 2 suspects member 3. *)
Definition leader_hears_suspicion : ViewManager :=
  sample_manager (sample_view 0 nobody)
    [sample_row [0; 0] 0 0 0 nobody;
     sample_row [0; 0] 0 0 0 [false; false; true];
     sample_row [0; 0] 0 0 0 nobody].

(** ** Queries on the subgroup layout *)

(** [ViewManager::compute_num_received_size] *)
Definition compute_num_received_size (view : View.t) : Z :=
  fold_indexed
    (λ subgroup_num shards num_received_size,
       let max_shard_senders :=
         fold_indexed
           (λ shard_num shard_view max_shard_senders,
              let shard_size := size (SubView.members shard_view) in
              let num_shard_senders := SubView.num_senders shard_view in
              if bool_decide (num_shard_senders > max_shard_senders)
              then u32 shard_size else max_shard_senders)
           0 shards 0 in
       u32 (num_received_size + max_shard_senders))
    0 (View.subgroup_shard_views view) 0.

(** [ViewManager::get_subgroup_members]; the calls of [at] throw. *)
Definition get_subgroup_members (vm : ViewManager) (subgroup_type subgroup_index : nat)
    : result (list (list node_id_t)) :=
  match View.subgroup_ids_by_type_id (curr_view vm) !! subgroup_type with
  | None => Raises std_out_of_range
  | Some ids =>
      match ids !! subgroup_index with
      | None => Raises std_out_of_range
      | Some subgroup_id =>
          match View.subgroup_shard_views (curr_view vm) !! subgroup_id with
          | None => Raises std_out_of_range
          | Some shards => Returns (SubView.members <$> shards)
          end
      end
  end.

(** [ViewManager::get_my_shard]: the shard number as an [int32_t], -1
    when the node is in no shard of the subgroup. *)
Definition get_my_shard (vm : ViewManager) (subgroup_type subgroup_index : nat)
    : result Z :=
  match View.subgroup_ids_by_type_id (curr_view vm) !! subgroup_type with
  | None => Raises std_out_of_range
  | Some ids =>
      match ids !! subgroup_index with
      | None => Raises std_out_of_range
      | Some subgroup_id =>
          match View.my_subgroups (curr_view vm) !! subgroup_id with
          | None => Returns (-1)
          | Some shard_num => Returns (i32 (Z.of_nat shard_num))
          end
      end
  end.

(** The first column of [num_received] that belongs to a subgroup: the
    size that the subgroups before it take. *)
Definition offset_of (view : View.t) (subgroup_id : nat) : Z :=
  compute_num_received_size
    (View.set_subgroup_shard_views (take subgroup_id (View.subgroup_shard_views view))
       view).

(** The shard as [derive_subgroup_settings] leaves it for the node
    [my_id]. *)
Definition with_rank_of (my_id : node_id_t) (shard_view : SubView.t) : SubView.t :=
  SubView.set_my_rank (SubView.rank_of shard_view my_id) shard_view.

(** The settings that the node [my_id] gets for a shard of which it is a
    member. *)
Definition settings_of (my_id : node_id_t) (offset : Z) (shard_num : nat)
    (shard_view : SubView.t) : SubgroupSettings.t :=
  SubgroupSettings.mk shard_num (u32 (SubView.rank_of shard_view my_id))
    (SubView.members shard_view) (SubView.is_sender shard_view)
    (SubView.sender_rank_of shard_view (SubView.rank_of shard_view my_id))
    offset (SubView.mode shard_view).

(** The columns that a list of subgroups takes when nothing wraps. *)
Definition widest_shard (shards : list SubView.t) : nat :=
  max_list_with (λ sv, length (SubView.members sv)) shards.

Definition columns_needed (subgroups : list (list SubView.t)) : nat :=
  sum_list_with widest_shard subgroups.

(** The sample view at member 2 with two subgroups laid out: the first
    has the shards of members 1 and 2, where member 1 sends, and of
    member 3; the second has one shard of members 2 and 3, who both
    send. *)
Definition laid_out_view : View.t :=
  View.set_subgroup_ids_by_type_id {[0%nat := [0%nat; 1%nat]]}
    (View.set_subgroup_shard_views
       [[SubView.mk [1; 2] [true; false] ORDERED (-1) [] [];
         SubView.mk [3] [true] ORDERED (-1) [] []];
        [SubView.mk [2; 3] [true; true] ORDERED (-1) [] []]]
       (sample_view 1 nobody)).

(** *** Specification vocabulary for the vectors of the next view *)

(** The ranks that stay in the next view: those that no committed change
    names, in ascending order. *)
Definition surviving_ranks (curr_view : View.t) (gmsSST : list SST.Row) : list Z :=
  filter (λ r, r ∉ (View.rank_of curr_view <$> committed_changes curr_view gmsSST))
    (seqZ 0 (View.num_members curr_view)).

(** The indexes of the committed changes that name no member: the
    joins. *)
Definition joining_indexes (curr_view : View.t) (gmsSST : list SST.Row) : list Z :=
  let leader := View.rank_of_leader curr_view in
  filter
    (λ i, View.rank_of curr_view
            (cell 0 (SST.changes (SST.row gmsSST (View.my_rank curr_view))) i) = -1)
    (seqZ 0 (SST.num_committed (SST.row gmsSST leader)
             - SST.num_installed (SST.row gmsSST leader))).

(** The address and the ports that the local row holds for the change at
    an index. *)
Definition joiner_endpoint (curr_view : View.t) (gmsSST : list SST.Row)
    (join_index : Z) : endpoint :=
  let mine := SST.row gmsSST (View.my_rank curr_view) in
  (cell 0 (SST.joiner_ips mine) join_index,
   cell 0 (SST.joiner_gms_ports mine) join_index,
   cell 0 (SST.joiner_rpc_ports mine) join_index,
   cell 0 (SST.joiner_sst_ports mine) join_index,
   cell 0 (SST.joiner_rdmc_ports mine) join_index).

(** Every member holds the committed removal of member 2 and the join of
    node 9, with the joiner's address and ports; the view is the sample
    view of member 1 in which member 3 is marked failed. *)
Definition join_row : SST.Row :=
  SST.mkRow nobody false true [2; 9] [0; 167772169] [0; 23580] [0; 28366] [0; 37683]
    [0; 31675] 2 2 2 0 [5; 7] [-1] [0; 0] [false].

Definition join_table : list SST.Row := [join_row; join_row; join_row].

(** *** Specification vocabulary for the ragged trims of a restart *)

(** [m.find(k)] on a [std::map] kept as a list in key order. *)
Fixpoint map_find {A} (k : nat) (m : list (nat * A)) : option A :=
  match m with
  | [] => None
  | (k', v) :: m' => if decide (k = k') then Some v else map_find k m'
  end.

(** The keys of a [std::map] are in ascending order, each once. *)
Definition map_ordered {A} (m : list (nat * A)) : Prop :=
  StronglySorted lt (m.*1).

(** The trim that a [ragged_trim_map_t] holds for a shard of a
    subgroup. *)
Definition trim_of (m : ragged_trim_map_t) (subgroup_id shard_num : nat)
    : option RaggedTrim :=
  map_find subgroup_id m ≫= map_find shard_num.

(** * Properties *)

(** ** Loops and vectors *)

Lemma loop_from_invariant {St} (P : Z → St → Prop) (body : Z → St → St) n from s :
  P from s →
  (∀ i s, from ≤ i < from + Z.of_nat n → P i s → P (i + 1) (body i s)) →
  P (from + Z.of_nat n) (loop_from n from body s).
Proof.
  revert from s. induction n as [|n IH]; intros from s H0 Hstep; simpl.
  - by replace (from + Z.of_nat 0) with from by lia.
  - replace (from + Z.of_nat (S n)) with ((from + 1) + Z.of_nat n) by lia.
    apply IH.
    + apply Hstep; [lia | done].
    + intros i s' Hi. apply Hstep. lia.
Qed.

Lemma for_loop_invariant {St} (P : Z → St → Prop) (body : Z → St → St) bound s :
  P 0 s →
  (∀ i s, 0 ≤ i < bound → P i s → P (i + 1) (body i s)) →
  P (Z.max 0 bound) (for_loop bound body s).
Proof.
  intros H0 Hstep. unfold for_loop.
  replace (Z.max 0 bound) with (0 + Z.of_nat (Z.to_nat bound)) by lia.
  apply loop_from_invariant; [done |].
  intros i s' Hi. apply Hstep. lia.
Qed.

(** A property kept by every iteration holds at the end of the loop. *)
Lemma for_loop_preserves {St} (P : St → Prop) (body : Z → St → St) bound s :
  P s → (∀ i s, 0 ≤ i < bound → P s → P (body i s)) → P (for_loop bound body s).
Proof.
  intros H0 Hstep.
  apply (for_loop_invariant (λ _, P)); [done |]. intros i s' Hi. by apply Hstep.
Qed.



Lemma cell_lookup {A} (d : A) l i x :
  0 ≤ i → l !! Z.to_nat i = Some x → cell d l i = x.
Proof.
  intros Hi Hl. unfold cell, at_index. rewrite bool_decide_eq_true_2 by done.
  by rewrite Hl.
Qed.


Lemma cell_set_cell_eq {A} (d : A) l i x :
  0 ≤ i < size l → cell d (set_cell l i x) i = x.
Proof.
  intros Hi. unfold set_cell, size in *. rewrite bool_decide_eq_true_2 by lia.
  apply cell_lookup; [lia |]. apply list_lookup_insert_eq. lia.
Qed.

Lemma cell_set_cell_ne {A} (d : A) l i j x :
  i ≠ j → cell d (set_cell l i x) j = cell d l j.
Proof.
  intros Hne. unfold set_cell, cell, at_index.
  repeat case_bool_decide; try done.
  rewrite list_lookup_insert_ne; [done | lia].
Qed.

Lemma size_set_cell {A} (l : list A) i x : size (set_cell l i x) = size l.
Proof.
  unfold set_cell, size. case_bool_decide; [|done]. by rewrite length_insert.
Qed.

(** ** Rows of the table *)

Lemma row_update sst r f r' :
  SST.row (SST.update sst r f) r'
  = if bool_decide (r' = r ∧ 0 ≤ r < size sst) then f (SST.row sst r)
    else SST.row sst r'.
Proof.
  unfold SST.row, SST.update, cell, at_index, size.
  destruct (bool_decide (r' = r ∧ 0 ≤ r < Z.of_nat (length sst))) eqn:Hc.
  - apply bool_decide_eq_true_1 in Hc. destruct Hc as [-> [H0 Hlt]].
    rewrite !bool_decide_eq_true_2 by done.
    rewrite list_lookup_alter_eq.
    destruct (sst !! Z.to_nat r) eqn:E; [done |].
    apply lookup_ge_None_1 in E. lia.
  - apply bool_decide_eq_false_1 in Hc.
    destruct (bool_decide (0 ≤ r)) eqn:Hr; [|done].
    apply bool_decide_eq_true_1 in Hr.
    destruct (bool_decide (0 ≤ r')) eqn:Hr'; [|done].
    apply bool_decide_eq_true_1 in Hr'.
    destruct (decide (r' = r)) as [->|Hne].
    + rewrite list_lookup_alter_eq.
      destruct (sst !! Z.to_nat r) eqn:E; [|done].
      apply lookup_lt_Some in E. exfalso. apply Hc. lia.
    + rewrite list_lookup_alter_ne; [done | lia].
Qed.

Lemma size_update sst r f : size (SST.update sst r f) = size sst.
Proof.
  unfold SST.update, size. case_bool_decide; [|done]. by rewrite length_alter.
Qed.

(** ** The commit rule *)

Lemma min_acked_spec gmsSST my failed :
  let m := min_acked gmsSST my failed in
  m ≤ SST.num_acked (SST.row gmsSST my)
  ∧ (∀ n, not_failed failed n → m ≤ SST.num_acked (SST.row gmsSST n))
  ∧ (m = SST.num_acked (SST.row gmsSST my)
     ∨ ∃ n, not_failed failed n ∧ m = SST.num_acked (SST.row gmsSST n)).
Proof.
  unfold min_acked.
  pose (P := λ (i : Z) (min : Z),
    min ≤ SST.num_acked (SST.row gmsSST my)
    ∧ (∀ n, 0 ≤ n < i → cell false failed n = false →
            min ≤ SST.num_acked (SST.row gmsSST n))
    ∧ (min = SST.num_acked (SST.row gmsSST my)
       ∨ ∃ n, not_failed failed n ∧ min = SST.num_acked (SST.row gmsSST n))).
  assert (H : P (Z.max 0 (size failed))
                (for_loop (size failed)
                   (λ n min,
                      if negb (cell false failed n)
                         && bool_decide (SST.num_acked (SST.row gmsSST n) < min)
                      then SST.num_acked (SST.row gmsSST n) else min)
                   (SST.num_acked (SST.row gmsSST my)))).
  { apply for_loop_invariant.
    - repeat split; [lia | intros; lia | by left].
    - intros i min Hi (Hle & Hall & Hex).
      destruct (cell false failed i) eqn:Hf; simpl.
      + repeat split; [done | | done].
        intros n Hn Hnf. destruct (decide (n = i)) as [->|]; [congruence |].
        apply Hall; [lia | done].
      + case_bool_decide as Hlt.
        * repeat split; [lia | |].
          -- intros n Hn Hnf. destruct (decide (n = i)) as [->|]; [lia |].
             etrans; [|apply Hall; [lia | done]]. lia.
          -- right. exists i. by repeat split; try lia.
        * repeat split; [done | | done].
          intros n Hn Hnf. destruct (decide (n = i)) as [->|]; [lia |].
          apply Hall; [lia | done]. }
  destruct H as (Hle & Hall & Hex). repeat split; [done | | done].
  intros n [Hn Hnf]. apply Hall; [unfold size in *; lia | done].
Qed.

Lemma first_not_failed_spec failed r0 r :
  View.first_not_failed failed r0 = r → r ≠ -1 → 0 ≤ r0 →
  r0 ≤ r < r0 + size failed ∧ cell false failed (r - r0) = false.
Proof.
  revert r0. induction failed as [|f failed IH]; intros r0 Hr Hne H0; simpl in Hr.
  - congruence.
  - destruct f.
    + destruct (IH (r0 + 1) Hr Hne) as [Hrange Hcell]; [lia |].
      split; [unfold size in *; simpl; lia |].
      revert Hcell. unfold cell, at_index.
      rewrite !bool_decide_eq_true_2 by lia.
      replace (Z.to_nat (r - r0)) with (S (Z.to_nat (r - (r0 + 1)))) by lia.
      done.
    + subst r. split; [unfold size; simpl; lia |].
      by replace (r0 - r0) with 0 by lia.
Qed.

(** A member that knows itself to be the leader is not failed in its view. *)
Lemma leader_not_failed v :
  0 ≤ View.my_rank v → View.i_am_leader v = true →
  not_failed (View.failed v) (View.my_rank v).
Proof.
  intros H0 Hl. unfold View.i_am_leader in Hl. apply bool_decide_eq_true_1 in Hl.
  unfold View.rank_of_leader in Hl.
  destruct (first_not_failed_spec _ 0 _ Hl) as [Hr Hc]; [lia | lia |].
  replace (View.my_rank v - 0) with (View.my_rank v) in Hc by lia.
  split; [lia | done].
Qed.

Lemma least_ack_unique gmsSST failed m m' :
  least_ack gmsSST failed m → least_ack gmsSST failed m' → m = m'.
Proof.
  intros [Hall (n & Hn & ->)] [Hall' (n' & Hn' & ->)].
  specialize (Hall n' Hn'). specialize (Hall' n Hn). lia.
Qed.

Lemma min_acked_least vm :
  0 ≤ View.my_rank (curr_view vm) →
  View.i_am_leader (curr_view vm) = true →
  least_ack (gmsSST vm) (View.failed (curr_view vm))
    (min_acked (gmsSST vm) (get_local_index vm) (View.failed (curr_view vm))).
Proof.
  intros H0 Hl. pose proof (leader_not_failed _ H0 Hl) as Hme.
  destruct (min_acked_spec (gmsSST vm) (get_local_index vm)
              (View.failed (curr_view vm))) as (Hle & Hall & Hex).
  split; [done |].
  destruct Hex as [Heq | Hex]; [|done].
  exists (View.my_rank (curr_view vm)). split; [done |]. exact Heq.
Qed.

Lemma my_row_write_local f vm :
  0 ≤ get_local_index vm < size (gmsSST vm) →
  my_row (write_row (get_local_index vm) f vm) = f (my_row vm).
Proof.
  intros Hr. unfold my_row, write_row, get_local_index in *. simpl.
  rewrite row_update. by rewrite bool_decide_eq_true_2.
Qed.

(** C4. The commit-change predicate holds only at the leader, and there
    exactly when the least [num_acked] over the non-failed members
    exceeds the leader's [num_committed]; the trigger then sets the
    leader's [num_committed] to that least value, so that [k] is within
    the committed count exactly when every non-failed member has
    acknowledged at least [k]. *)
Theorem leader_commit_change_commits_least_ack vm :
  0 ≤ get_local_index vm < size (gmsSST vm) →
  (change_commit_ready vm = true → View.i_am_leader (curr_view vm) = true)
  ∧ (View.i_am_leader (curr_view vm) = true →
     ∃ m, least_ack (gmsSST vm) (View.failed (curr_view vm)) m
          ∧ (change_commit_ready vm = true ↔ SST.num_committed (my_row vm) < m)
          ∧ SST.num_committed (my_row (leader_commit_change vm)) = m
          ∧ ∀ k, k ≤ SST.num_committed (my_row (leader_commit_change vm))
                 ↔ ∀ n, not_failed (View.failed (curr_view vm)) n →
                        k ≤ SST.num_acked (SST.row (gmsSST vm) n)).
Proof.
  intros Hmy. split.
  - unfold change_commit_ready. intros H. by apply andb_true_iff in H as [H _].
  - intros Hl.
    pose proof (min_acked_least vm ltac:(unfold get_local_index in Hmy; lia) Hl) as Hleast.
    exists (min_acked (gmsSST vm) (get_local_index vm) (View.failed (curr_view vm))).
    assert (Hnew : SST.num_committed (my_row (leader_commit_change vm))
                   = min_acked (gmsSST vm) (get_local_index vm)
                       (View.failed (curr_view vm))).
    { unfold leader_commit_change, put, my_row. simpl.
      change (View.my_rank (curr_view vm)) with (get_local_index vm).
      rewrite row_update. by rewrite bool_decide_eq_true_2. }
    split; [done |]. split; [|split; [done |]].
    + unfold change_commit_ready. rewrite Hl. simpl.
      rewrite bool_decide_eq_true. lia.
    + intros k. rewrite Hnew. destruct Hleast as [Hall (n & Hn & Heq)]. split.
      * intros Hk n' Hn'. specialize (Hall n' Hn'). lia.
      * intros Hk. rewrite Heq. by apply Hk.
Qed.

(** ** The order of the change counters *)

(** Projections of a state rebuilt by the record setters. *)
Ltac vm_fields :=
  unfold wedge, put, write_row, get_local_index, my_row in *;
  cbn [curr_view next_view gmsSST last_suspected frozen multicast_wedged
       published predicates handles any_persistent_objects
       saved_ragged_trims delivered
       with_curr_view with_next_view with_gmsSST with_last_suspected
       with_frozen with_multicast_wedged with_published with_predicates
       with_handles with_any_persistent_objects with_saved_ragged_trims
       with_delivered] in *.

Lemma acknowledge_rows vm r :
  let my := get_local_index vm in
  let L := SST.row (gmsSST vm) (View.rank_of_leader (curr_view vm)) in
  let row' := SST.row (gmsSST (acknowledge_proposed_change vm)) r in
  if bool_decide (r = my ∧ 0 ≤ my < size (gmsSST vm))
  then SST.num_acked row' = SST.num_changes row'
       ∧ (if bool_decide (my ≠ View.rank_of_leader (curr_view vm))
          then SST.num_changes row' = SST.num_changes L
               ∧ SST.num_committed row' = SST.num_committed L
          else SST.num_changes row' = SST.num_changes (my_row vm)
               ∧ SST.num_committed row' = SST.num_committed (my_row vm))
  else row' = SST.row (gmsSST vm) r.
Proof.
  intros my L row'. subst my L row'. unfold acknowledge_proposed_change.
  destruct (bool_decide (View.my_rank (curr_view vm)
                         ≠ View.rank_of_leader (curr_view vm))) eqn:Hl;
    vm_fields; rewrite ?Hl; vm_fields;
    rewrite ?row_update, ?size_update;
    destruct (bool_decide (r = View.my_rank (curr_view vm)
                           ∧ 0 ≤ View.my_rank (curr_view vm) < size (gmsSST vm))) eqn:Hr.
  - apply bool_decide_eq_true_1 in Hr as [-> Hr].
    rewrite !bool_decide_eq_true_2 by done. simpl. done.
  - done.
  - apply bool_decide_eq_true_1 in Hr as [-> Hr].
    rewrite !bool_decide_eq_true_2 by done. simpl. done.
  - done.
Qed.

(** The rows of the table after a write to row [r]. *)
Lemma row_write_row r f vm r' :
  SST.row (gmsSST (write_row r f vm)) r'
  = if bool_decide (r' = r ∧ 0 ≤ r < size (gmsSST vm))
    then f (SST.row (gmsSST vm) r) else SST.row (gmsSST vm) r'.
Proof. unfold write_row. simpl. apply row_update. Qed.

Lemma size_write_row r f vm : size (gmsSST (write_row r f vm)) = size (gmsSST vm).
Proof. unfold write_row. simpl. apply size_update. Qed.



















Lemma acknowledge_keeps_view vm :
  curr_view (acknowledge_proposed_change vm) = curr_view vm.
Proof.
  unfold acknowledge_proposed_change. by case_bool_decide.
Qed.


Lemma commit_rows vm r :
  SST.row (gmsSST (leader_commit_change vm)) r
  = if bool_decide (r = get_local_index vm
                    ∧ 0 ≤ get_local_index vm < size (gmsSST vm))
    then SST.set_num_committed
           (min_acked (gmsSST vm) (get_local_index vm) (View.failed (curr_view vm)))
           (my_row vm)
    else SST.row (gmsSST vm) r.
Proof. unfold leader_commit_change. vm_fields. apply row_update. Qed.





(** ** The partition rule *)



Lemma my_row_write_wedged vm :
  SST.rip (my_row (write_row (get_local_index vm) (SST.set_wedged true) vm))
  = SST.rip (my_row vm).
Proof.
  unfold my_row.
  change (get_local_index (write_row _ _ vm)) with (get_local_index vm).
  rewrite row_write_row. by case_bool_decide.
Qed.




Lemma count_upto_ext p p' n :
  (∀ r, 0 ≤ r < Z.of_nat n → p r = p' r) → count_upto p n = count_upto p' n.
Proof.
  induction n as [|n IH]; intros H; simpl; [done |].
  rewrite IH by (intros; apply H; lia). rewrite H by lia. done.
Qed.










(** ** Ranks *)

Lemma find_rank_absent who l i : who ∉ l → find_rank who l i = -1.
Proof.
  revert i. induction l as [|m l IH]; intros i Hin; simpl; [done |].
  apply not_elem_of_cons in Hin as [Hne Hin].
  rewrite bool_decide_eq_false_2 by congruence. by apply IH.
Qed.

Lemma find_rank_present who l i :
  who ∈ l → 0 ≤ i →
  i ≤ find_rank who l i < i + size l
  ∧ l !! Z.to_nat (find_rank who l i - i) = Some who.
Proof.
  revert i. induction l as [|m l IH]; intros i Hin Hi; simpl.
  { by apply elem_of_nil in Hin. }
  unfold size. simpl. case_bool_decide as Hm.
  - subst m. replace (i - i) with 0 by lia. split; [lia | done].
  - apply elem_of_cons in Hin as [-> | Hin]; [done |].
    destruct (IH (i + 1) Hin ltac:(lia)) as [Hr Hl]. unfold size in Hr.
    split; [lia |].
    replace (Z.to_nat (find_rank who l (i + 1) - i))
      with (S (Z.to_nat (find_rank who l (i + 1) - (i + 1)))) by lia.
    done.
Qed.

Lemma find_rank_member who l : find_rank who l 0 ≠ -1 ↔ who ∈ l.
Proof.
  split.
  - intros Hr. destruct (decide (who ∈ l)) as [|Hn]; [done |].
    by rewrite find_rank_absent in Hr.
  - intros Hin. destruct (find_rank_present who l 0 Hin) as [Hr _]; lia.
Qed.

(** In a list without repetitions the rank of the member at [r] is [r]. *)
Lemma find_rank_cell l r :
  NoDup l → 0 ≤ r < size l → find_rank (cell 0 l r) l 0 = r.
Proof.
  intros Hnd Hr. unfold size in Hr.
  destruct (lookup_lt_is_Some_2 l (Z.to_nat r)) as [x Hx]; [lia |].
  rewrite (cell_lookup 0 l r x) by (done || lia).
  destruct (find_rank_present x l 0) as [Hrange Hl];
    [by eapply list_elem_of_lookup_2 | lia |].
  rewrite Z.sub_0_r in Hl.
  pose proof (NoDup_lookup _ _ _ _ Hnd Hl Hx). lia.
Qed.

Lemma cell_elem_of l r : 0 ≤ r < size l → cell 0 l r ∈ l.
Proof.
  intros Hr. unfold size in Hr.
  destruct (lookup_lt_is_Some_2 l (Z.to_nat r)) as [x Hx]; [lia |].
  rewrite (cell_lookup 0 l r x) by (done || lia).
  by eapply list_elem_of_lookup_2.
Qed.

(** A vector is the list of its cells. *)
Lemma cells_seqZ {A} (d : A) l : (λ i, cell d l i) <$> seqZ 0 (size l) = l.
Proof.
  apply list_eq. intros i. rewrite list_lookup_fmap. unfold size.
  destruct (l !! i) as [x|] eqn:E.
  - rewrite lookup_seqZ_lt by (apply lookup_lt_Some in E; lia). simpl.
    f_equal. apply cell_lookup; [lia |]. by rewrite Z.add_0_l, Nat2Z.id.
  - rewrite lookup_seqZ_ge; [done |]. apply lookup_ge_None in E. lia.
Qed.

Lemma seqZ_snoc i : 0 ≤ i → seqZ 0 (i + 1) = seqZ 0 i ++ [i].
Proof.
  intros Hi. rewrite seqZ_app by lia. f_equal.
Qed.

Lemma seqZ_max n : seqZ 0 (Z.max 0 n) = seqZ 0 n.
Proof.
  destruct (decide (0 ≤ n)); [by rewrite Z.max_r by lia |].
  rewrite Z.max_l by lia. by rewrite !seqZ_nil by lia.
Qed.

(** ** Ordered sets of ranks *)

Lemma emplace_spec x s :
  StronglySorted Z.lt s →
  StronglySorted Z.lt (emplace x s) ∧ ∀ y, y ∈ emplace x s ↔ y = x ∨ y ∈ s.
Proof.
  induction s as [|z s IH]; intros Hs; simpl.
  - split; [repeat constructor |]. intros y. by rewrite elem_of_cons.
  - apply StronglySorted_cons in Hs as [Hz Hs]. destruct (IH Hs) as [IHs IHe].
    case_bool_decide as Hlt; [|case_bool_decide as Heq].
    + split; [|intros y; by rewrite elem_of_cons].
      apply StronglySorted_cons. split; [|by apply StronglySorted_cons].
      constructor; [done |]. eapply Forall_impl; [exact Hz |]. simpl. lia.
    + subst. split; [by apply StronglySorted_cons |].
      intros y. rewrite elem_of_cons. tauto.
    + split.
      * apply StronglySorted_cons. split; [|done].
        apply Forall_forall. intros y Hy. apply IHe in Hy as [-> | Hy]; [lia |].
        rewrite Forall_forall in Hz. by apply Hz.
      * intros y. rewrite !elem_of_cons, IHe. tauto.
Qed.

Lemma sorted_lt_NoDup s : StronglySorted Z.lt s → NoDup s.
Proof.
  induction s as [|x s IH]; intros Hs; [constructor |].
  apply StronglySorted_cons in Hs as [Hx Hs]. constructor; [|by apply IH].
  intros Hin. rewrite Forall_forall in Hx. specialize (Hx x Hin). lia.
Qed.

Lemma sorted_lt_unique s1 s2 :
  StronglySorted Z.lt s1 → StronglySorted Z.lt s2 →
  (∀ x, x ∈ s1 ↔ x ∈ s2) → s1 = s2.
Proof.
  intros H1 H2 Hel. apply (StronglySorted_unique_strong Z.lt); [|done | done |].
  - intros x1 x2 _ _ Ha Hb. lia.
  - apply NoDup_Permutation; [by apply sorted_lt_NoDup | by apply sorted_lt_NoDup | done].
Qed.

Lemma seqZ_sorted m n : StronglySorted Z.lt (seqZ m n).
Proof.
  remember (Z.to_nat n) as k eqn:Hk. revert m n Hk.
  induction k as [|k IH]; intros m n Hk.
  - rewrite seqZ_nil by lia. constructor.
  - rewrite seqZ_cons by lia. apply StronglySorted_cons. split; [|apply IH; lia].
    apply Forall_forall. intros x Hx. apply elem_of_seqZ in Hx. lia.
Qed.

Lemma filter_sorted (P : Z → Prop) `{!∀ x, Decision (P x)} s :
  StronglySorted Z.lt s → StronglySorted Z.lt (filter P s).
Proof.
  induction s as [|x s IH]; intros Hs; [constructor |].
  apply StronglySorted_cons in Hs as [Hx Hs]. rewrite filter_cons.
  case_decide; [|by apply IH].
  apply StronglySorted_cons. split; [|by apply IH].
  apply Forall_forall. intros y Hy. apply list_elem_of_filter in Hy as [_ Hy].
  rewrite Forall_forall in Hx. by apply Hx.
Qed.

(** ** The next view *)

Section NextView.

Variable curr_view : View.t.
Variable gmsSST : list SST.Row.

Let members := View.members curr_view.
Let changes := SST.changes (SST.row gmsSST (View.my_rank curr_view)).
Let change_at := λ i : Z, cell 0 changes i.

Lemma rank_of_member c : View.rank_of curr_view c ≠ -1 ↔ c ∈ members.
Proof. apply find_rank_member. Qed.

Lemma filter_changes_spec committed_count leave_ranks join_indexes :
  filter_changes curr_view gmsSST committed_count = (leave_ranks, join_indexes) →
  let cs := change_at <$> seqZ 0 committed_count in
  StronglySorted Z.lt leave_ranks
  ∧ (∀ r, r ∈ leave_ranks ↔ ∃ c, c ∈ cs ∧ View.rank_of curr_view c = r ∧ r ≠ -1)
  ∧ change_at <$> join_indexes = filter (λ id, is_member members id = false) cs.
Proof.
  intros Hf cs. subst cs. rewrite <- seqZ_max.
  unfold filter_changes in Hf.
  set (body := λ (i : Z) (p : list Z * list Z), _) in Hf.
  pose (P := λ (i : Z) (p : list Z * list Z),
    StronglySorted Z.lt p.1
    ∧ (∀ r, r ∈ p.1 ↔ ∃ c, c ∈ change_at <$> seqZ 0 i
                          ∧ View.rank_of curr_view c = r ∧ r ≠ -1)
    ∧ change_at <$> p.2
      = filter (λ id, is_member members id = false) (change_at <$> seqZ 0 i)).
  assert (H : P (Z.max 0 committed_count) (for_loop committed_count body ([], []))).
  { apply for_loop_invariant.
    - subst P. cbn. split; [apply SSorted_nil |]. split; [|done].
      intros r. split.
      + intros Hr. by apply elem_of_nil in Hr.
      + intros (c & Hc & _). by apply elem_of_nil in Hc.
    - intros i [lr ji] Hi (Hs & He & Hj). subst body P. cbn [fst snd] in *.
      fold changes. fold (change_at i).
      rewrite seqZ_snoc by lia. rewrite fmap_app, filter_app. cbn [fmap list_fmap].
      case_bool_decide as Hrank; cbn [fst snd].
      + destruct (emplace_spec (View.rank_of curr_view (change_at i)) lr Hs)
          as [Hs' He'].
        split; [done |]. split.
        * intros r. rewrite He', He. split.
          -- intros [-> | (c & Hc & Hr)].
             ++ exists (change_at i). split; [|done].
                apply elem_of_app. right. by apply list_elem_of_singleton.
             ++ exists c. split; [|done]. apply elem_of_app. by left.
          -- intros (c & Hc & Hr). apply elem_of_app in Hc as [Hc | Hc].
             ++ right. by exists c.
             ++ apply list_elem_of_singleton in Hc. subst c. left. by destruct Hr.
        * rewrite Hj. rewrite filter_cons.
          rewrite decide_False; [by rewrite filter_nil, app_nil_r |].
          apply rank_of_member in Hrank. unfold is_member.
          by rewrite bool_decide_eq_true_2.
      + split; [done |]. split.
        * intros r. rewrite He. split.
          -- intros (c & Hc & Hr). exists c. split; [|done].
             apply elem_of_app. by left.
          -- intros (c & Hc & Hr). apply elem_of_app in Hc as [Hc | Hc].
             ++ by exists c.
             ++ apply list_elem_of_singleton in Hc. subst c.
                destruct Hr as [Hr Hne]. congruence.
        * rewrite fmap_app, Hj. f_equal. cbn [fmap list_fmap].
          rewrite filter_cons.
          rewrite decide_True; [by rewrite filter_nil |].
          apply bool_decide_eq_false_2. intros Hin.
          by apply rank_of_member in Hin. }
  rewrite Hf in H. exact H.
Qed.


Hypothesis members_size : View.num_members curr_view = size members.
Hypothesis members_NoDup : NoDup members.

(** The ranks that leave are the ranks of the members named by a
    committed change, in ascending order. *)
Lemma leave_ranks_filter committed_count leave_ranks join_indexes :
  filter_changes curr_view gmsSST committed_count = (leave_ranks, join_indexes) →
  let cs := change_at <$> seqZ 0 committed_count in
  leave_ranks
  = filter (λ r, is_member cs (cell 0 members r) = true) (seqZ 0 (size members)).
Proof.
  intros Hf cs. destruct (filter_changes_spec _ _ _ Hf) as (Hs & He & _).
  fold cs in He.
  apply sorted_lt_unique; [done | apply filter_sorted, seqZ_sorted |].
  intros r. rewrite He, list_elem_of_filter, elem_of_seqZ.
  unfold is_member. rewrite bool_decide_eq_true. split.
  - intros (c & Hc & Hr & Hne). subst r.
    assert (Hm : c ∈ members) by (by apply rank_of_member).
    destruct (find_rank_present c members 0 Hm) as [Hrange Hl]; [lia |].
    rewrite Z.sub_0_r in Hl. unfold View.rank_of. fold members.
    split; [|lia].
    by rewrite (cell_lookup 0 members _ c) by (done || lia).
  - intros [Hc Hr]. exists (cell 0 members r). split; [done |].
    unfold View.rank_of. fold members. rewrite find_rank_cell by (done || lia).
    split; [done | lia].
Qed.

Lemma filter_cells (P : node_id_t → Prop) `{!∀ x, Decision (P x)} :
  (λ r, cell 0 members r) <$> filter (λ r, P (cell 0 members r)) (seqZ 0 (size members))
  = filter P members.
Proof.
  assert (Hl : ∀ l : list Z,
    (λ r, cell 0 members r) <$> filter (λ r, P (cell 0 members r)) l
    = filter P ((λ r, cell 0 members r) <$> l)).
  { induction l as [|r l IH]; [done |].
    rewrite fmap_cons, !filter_cons. case_decide; [|done].
    by rewrite fmap_cons, IH. }
  by rewrite Hl, cells_seqZ.
Qed.

Lemma add_departed_spec leave_ranks nm :
  let nm' := add_departed curr_view leave_ranks nm in
  nm_members nm' = nm_members nm
  ∧ nm_joined nm' = nm_joined nm
  ∧ nm_new_rank nm' = nm_new_rank nm
  ∧ nm_departed nm' = nm_departed nm ++ ((λ r, cell 0 members r) <$> leave_ranks).
Proof.
  unfold add_departed. revert nm.
  induction leave_ranks as [|r lr IH]; intros nm; simpl.
  - by rewrite app_nil_r.
  - destruct (IH (mkNextMembers (nm_members nm) (nm_member_ips_and_ports nm)
                   (nm_failed nm) (nm_joined nm)
                   (nm_departed nm ++ [cell 0 (View.members curr_view) r])
                   (if bool_decide (r ≤ View.next_unassigned_rank curr_view)
                    then nm_next_unassigned_rank nm - 1
                    else nm_next_unassigned_rank nm)
                   (nm_new_rank nm))) as (-> & -> & -> & ->).
    simpl. by rewrite <- app_assoc.
Qed.

Lemma set_cell_middle {A} (pre post : list A) x y i :
  i = size pre → set_cell (pre ++ x :: post) i y = pre ++ y :: post.
Proof.
  intros ->. unfold set_cell, size. rewrite bool_decide_eq_true_2 by lia.
  rewrite Nat2Z.id. replace (length pre) with (length pre + 0)%nat at 1 by lia.
  by rewrite insert_app_r.
Qed.

Lemma add_joiners_spec leave_ranks join_indexes nm base :
  let joiners := change_at <$> join_indexes in
  View.num_members curr_view - size leave_ranks = Z.of_nat base →
  nm_members nm = replicate base 0 ++ replicate (length join_indexes) 0 →
  nm_joined nm = [] →
  let nm' := add_joiners curr_view gmsSST leave_ranks join_indexes nm in
  nm_members nm' = replicate base 0 ++ joiners
  ∧ nm_joined nm' = joiners
  ∧ nm_departed nm' = nm_departed nm
  ∧ nm_new_rank nm' = nm_new_rank nm.
Proof.
  intros joiners Hbase Hm Hj nm'. subst nm'. unfold add_joiners.
  set (body := λ (i : Z) (nm : NextMembers), _).
  pose (P := λ (i : Z) (nm1 : NextMembers),
    nm_members nm1
    = replicate base 0 ++ take (Z.to_nat i) joiners
      ++ replicate (length join_indexes - Z.to_nat i) 0
    ∧ nm_joined nm1 = take (Z.to_nat i) joiners
    ∧ nm_departed nm1 = nm_departed nm
    ∧ nm_new_rank nm1 = nm_new_rank nm).
  assert (H : P (Z.max 0 (size join_indexes))
                (for_loop (size join_indexes) body nm)).
  { apply for_loop_invariant.
    - subst P. cbn. by rewrite Nat.sub_0_r.
    - intros i nm1 Hi (Hm1 & Hj1 & Hd1 & Hr1). subst P body. cbn.
      unfold size in Hi.
      assert (Hlook : joiners !! Z.to_nat i = Some (change_at (cell 0 join_indexes i))).
      { subst joiners. rewrite list_lookup_fmap.
        destruct (lookup_lt_is_Some_2 join_indexes (Z.to_nat i)) as [x Hx]; [lia |].
        rewrite Hx. simpl. f_equal. f_equal. symmetry. apply cell_lookup; [lia | done]. }
      replace (Z.to_nat (i + 1)) with (S (Z.to_nat i)) by lia.
      rewrite (take_S_r _ _ _ Hlook).
      repeat split; [| by rewrite Hj1 | done | done].
      rewrite Hm1.
      replace (length join_indexes - Z.to_nat i)%nat
        with (S (length join_indexes - S (Z.to_nat i))) by lia.
      rewrite replicate_S. rewrite !app_assoc.
      rewrite (set_cell_middle _ _ 0); [by rewrite <- !app_assoc |].
      unfold size. rewrite length_app, length_replicate, length_take.
      assert (length joiners = length join_indexes) by (subst joiners; apply length_fmap).
      unfold size in Hbase. lia. }
  destruct H as (Hm' & Hj' & Hd' & Hr').
  assert (Hlen : Z.to_nat (Z.max 0 (size join_indexes)) = length joiners).
  { subst joiners. rewrite length_fmap. unfold size. lia. }
  rewrite Hlen in Hm', Hj'. rewrite firstn_all in Hm', Hj'.
  repeat split; [|done | done | done].
  rewrite Hm'. subst joiners. rewrite length_fmap, Nat.sub_diag. simpl.
  by rewrite app_nil_r.
Qed.


Lemma filter_take_length (P : node_id_t → Prop) `{!∀ x, Decision (P x)} k (l : list node_id_t) :
  (length (filter P (take k l)) ≤ length (filter P l))%nat.
Proof.
  rewrite <- (take_drop k l) at 2. rewrite filter_app, length_app. lia.
Qed.

Lemma copy_survivors_spec (keep : node_id_t → Prop) `{!∀ x, Decision (keep x)}
    leave_ranks joiners nm :
  (∀ r, 0 ≤ r < size members →
        set_contains leave_ranks r = false ↔ keep (cell 0 members r)) →
  nm_members nm = replicate (length (filter keep members)) 0 ++ joiners →
  nm_new_rank nm = 0 →
  let nm' := copy_survivors curr_view leave_ranks nm in
  nm_members nm' = filter keep members ++ joiners
  ∧ nm_joined nm' = nm_joined nm
  ∧ nm_departed nm' = nm_departed nm.
Proof.
  intros Hkeep Hm Hr nm'. subst nm'. unfold copy_survivors.
  set (base := length (filter keep members)) in *.
  set (body := λ (i : Z) (nm : NextMembers), _).
  pose (P := λ (i : Z) (nm1 : NextMembers),
    let kept := filter keep (take (Z.to_nat i) members) in
    nm_members nm1 = kept ++ replicate (base - length kept) 0 ++ joiners
    ∧ nm_new_rank nm1 = size kept
    ∧ nm_joined nm1 = nm_joined nm
    ∧ nm_departed nm1 = nm_departed nm).
  assert (Hinv : P (Z.max 0 (View.num_members curr_view))
                (for_loop (View.num_members curr_view) body nm)).
  { apply for_loop_invariant.
    - subst P. cbn. by rewrite Nat.sub_0_r.
    - intros i nm1 Hi (Hm1 & Hr1 & Hj1 & Hd1). subst P body. cbn zeta beta.
      rewrite members_size in Hi. unfold size in Hi.
      destruct (lookup_lt_is_Some_2 members (Z.to_nat i)) as [m Hlook]; [lia |].
      replace (Z.to_nat (i + 1)) with (S (Z.to_nat i)) by lia.
      rewrite (take_S_r _ _ _ Hlook), filter_app, filter_cons, filter_nil.
      fold members. rewrite (cell_lookup 0 members i m) by (done || lia).
      specialize (Hkeep i ltac:(unfold size; lia)).
      rewrite (cell_lookup 0 members i m) in Hkeep by (done || lia).
      destruct (set_contains leave_ranks i) eqn:Hc; cbn [negb].
      + rewrite decide_False by (intros Hk; apply Hkeep in Hk; done).
        by rewrite app_nil_r.
      + rewrite decide_True by (by apply Hkeep). cbn.
        pose proof (filter_take_length keep (S (Z.to_nat i)) members) as Hle.
        rewrite (take_S_r _ _ _ Hlook), filter_app, filter_cons, filter_nil in Hle.
        rewrite decide_True in Hle by (by apply Hkeep).
        rewrite length_app in Hle. simpl in Hle. fold base in Hle.
        split; [|split; [|done]].
        * rewrite Hm1, Hr1.
          replace (base - length (filter keep (take (Z.to_nat i) members)))%nat
            with (S (base - length (filter keep (take (Z.to_nat i) members) ++ [m])))
            by (rewrite length_app; simpl; lia).
          rewrite replicate_S. cbn [app].
          rewrite (set_cell_middle _ _ 0) by done. by rewrite <- app_assoc.
        * rewrite Hr1. unfold size. rewrite length_app. simpl. lia. }
  destruct Hinv as (Hm' & _ & Hj' & Hd').
  replace (Z.to_nat (Z.max 0 (View.num_members curr_view))) with (length members)
    in Hm' by (rewrite members_size; unfold size; lia).
  rewrite firstn_all in Hm'. fold base in Hm'. rewrite Nat.sub_diag in Hm'.
  done.
Qed.

Lemma find_rank_app who l1 l2 i :
  find_rank who (l1 ++ l2) i
  = if bool_decide (who ∈ l1) then find_rank who l1 i
    else find_rank who l2 (i + size l1).
Proof.
  revert i. induction l1 as [|m l1 IH]; intros i; cbn [app find_rank].
  - rewrite bool_decide_eq_false_2 by apply not_elem_of_nil.
    unfold size. cbn [length]. by rewrite Z.add_0_r.
  - destruct (decide (m = who)) as [-> | Hm].
    + rewrite bool_decide_eq_true_2 by done.
      by rewrite bool_decide_eq_true_2 by apply list_elem_of_here.
    + rewrite (bool_decide_eq_false_2 (m = who)) by done.
      rewrite IH. unfold size. cbn [length].
      replace (i + 1 + Z.of_nat (length l1)) with (i + Z.of_nat (S (length l1))) by lia.
      destruct (decide (who ∈ l1)) as [Hin | Hin].
      * rewrite !bool_decide_eq_true_2; [done | by apply list_elem_of_further | done].
      * rewrite !bool_decide_eq_false_2; [done | | done].
        intros Hc. apply elem_of_cons in Hc as [-> | Hc]; done.
Qed.

(** The search for the local node among the new members finds its first
    rank. *)
Lemma find_my_new_rank_spec (ms : list node_id_t) myID :
  find_my_new_rank ms (size ms) myID = find_rank myID ms 0.
Proof.
  unfold find_my_new_rank.
  pose (P := λ (i : Z) (r : Z), r = find_rank myID (take (Z.to_nat i) ms) 0).
  assert (H : P (Z.max 0 (size ms))
                (for_loop (size ms)
                   (λ i my_new_rank,
                      if bool_decide (my_new_rank = -1)
                         && bool_decide (cell 0 ms i = myID)
                      then i else my_new_rank) (-1))).
  { apply for_loop_invariant; [done |].
    intros i r Hi Hr. subst P. cbn beta in *. unfold size in Hi.
    destruct (lookup_lt_is_Some_2 ms (Z.to_nat i)) as [m Hlook]; [lia |].
    replace (Z.to_nat (i + 1)) with (S (Z.to_nat i)) by lia.
    rewrite (take_S_r _ _ _ Hlook), find_rank_app.
    rewrite (cell_lookup 0 ms i m) by (done || lia).
    assert (Hlen : size (take (Z.to_nat i) ms) = i).
    { unfold size. rewrite length_take. lia. }
    rewrite Hlen, Z.add_0_l. simpl.
    destruct (decide (myID ∈ take (Z.to_nat i) ms)) as [Hin | Hin].
    - rewrite (bool_decide_eq_true_2 (myID ∈ _)) by done.
      apply find_rank_member in Hin. rewrite <- Hr in Hin.
      rewrite <- Hr. by rewrite bool_decide_eq_false_2.
    - rewrite (bool_decide_eq_false_2 (myID ∈ _)) by done.
      rewrite find_rank_absent in Hr by done. subst r.
      rewrite bool_decide_eq_true_2 by done. simpl. done. }
  red in H. rewrite H. f_equal.
  replace (Z.to_nat (Z.max 0 (size ms))) with (length ms) by (unfold size; lia).
  apply firstn_all.
Qed.

End NextView.

Lemma filter_ext_elem {A} (P Q : A → Prop) `{!∀ x, Decision (P x)} `{!∀ x, Decision (Q x)}
    (l : list A) :
  (∀ x, x ∈ l → P x ↔ Q x) → filter P l = filter Q l.
Proof.
  induction l as [|x l IH]; intros Hext; [done |].
  rewrite !filter_cons.
  rewrite IH by (intros y Hy; apply Hext; by apply list_elem_of_further).
  pose proof (Hext x (list_elem_of_here x l)) as Hx.
  destruct (decide (P x)), (decide (Q x)); tauto || done.
Qed.

Lemma filter_complement_length {A} (P : A → Prop) `{!∀ x, Decision (P x)} (l : list A) :
  (length (filter P l) + length (filter (λ x, ¬ P x) l))%nat = length l.
Proof.
  rewrite <- length_app. by rewrite (filter_app_complement P l).
Qed.

Lemma committed_leavers_elem v sst m :
  m ∈ committed_leavers v sst
  ↔ m ∈ committed_changes v sst ∧ m ∈ View.members v.
Proof.
  unfold committed_leavers, is_member. rewrite list_elem_of_filter.
  rewrite bool_decide_eq_true. tauto.
Qed.

Lemma committed_joiners_elem v sst m :
  m ∈ committed_joiners v sst
  ↔ m ∈ committed_changes v sst ∧ m ∉ View.members v.
Proof.
  unfold committed_joiners, is_member. rewrite list_elem_of_filter.
  rewrite bool_decide_eq_false. tauto.
Qed.

(** C6. [make_next_view] applies the committed changes to a view whose
    members are distinct: the next view has the following view id, the
    old members that no committed change names, in their old order,
    followed by the committed joiners, and its [joined] and [departed]
    lists are the committed joiners and the committed leavers; when the
    local node is among the leavers it throws instead. *)
Theorem make_next_view_applies_committed_changes v sst :
  View.num_members v = size (View.members v) →
  NoDup (View.members v) →
  0 ≤ View.my_rank v < View.num_members v →
  let myID := cell 0 (View.members v) (View.my_rank v) in
  let leavers := committed_leavers v sst in
  let joiners := committed_joiners v sst in
  (myID ∈ leavers → make_next_view v sst = Raises reported_failed)
  ∧ (myID ∉ leavers →
     ∃ v', make_next_view v sst = Returns v'
           ∧ View.vid v' = View.vid v + 1
           ∧ View.members v' = filter (λ m, m ∉ leavers) (View.members v) ++ joiners
           ∧ View.joined v' = joiners
           ∧ View.departed v' = filter (λ m, m ∈ leavers) (View.members v)).
Proof.
  intros Hsize Hnd Hmy myID leavers joiners.
  set (cs := committed_changes v sst).
  unfold make_next_view.
  set (cc := SST.num_committed _ - SST.num_installed _).
  destruct (filter_changes v sst cc) as [lr ji] eqn:Hf.
  destruct (filter_changes_spec _ _ _ _ _ Hf) as (Hs & He & Hj).
  pose proof (leave_ranks_filter v sst Hnd _ _ _ Hf) as Hlr.
  cbn zeta in Hj, Hlr.
  change ((λ i, cell 0 (SST.changes (SST.row sst (View.my_rank v))) i) <$> seqZ 0 cc)
    with cs in Hlr, Hj.
  change (filter (λ id, is_member (View.members v) id = false) cs) with joiners in Hj.
  (* membership in the leave ranks, and the departed (View.members v) *)
  assert (Hleave : ∀ m, m ∈ (View.members v) → m ∈ leavers ↔ is_member cs m = true).
  { intros m Hm. subst leavers. rewrite committed_leavers_elem.
    unfold is_member. rewrite bool_decide_eq_true. fold cs. tauto. }
  assert (Hdep : (λ r, cell 0 (View.members v) r) <$> lr = filter (λ m, m ∈ leavers) (View.members v)).
  { rewrite Hlr. etrans; [exact (filter_cells v (λ m, is_member cs m = true)) |].
    apply filter_ext_elem. intros m Hm. symmetry. by apply Hleave. }
  set (keep := λ m : node_id_t, m ∉ leavers).
  assert (Hbase : View.num_members v - size lr
                  = Z.of_nat (length (filter keep (View.members v)))).
  { pose proof (filter_complement_length (λ m, m ∈ leavers) (View.members v)) as Hc.
    assert (Hl : length lr = length (filter (λ m, m ∈ leavers) (View.members v))).
    { by rewrite <- Hdep, length_fmap. }
    rewrite Hsize. unfold size. rewrite Hl, <- Hc, Nat2Z.inj_add, Z.add_simpl_l.
    reflexivity. }
  set (base := length (filter keep (View.members v))) in *.
  assert (Hnext : Z.to_nat (View.num_members v - size lr + size ji)
                  = (base + length ji)%nat).
  { unfold size in *. lia. }
  rewrite Hnext.
  set (nm0 := mkNextMembers _ _ _ _ _ _ _).
  destruct (add_joiners_spec v sst lr ji nm0 base Hbase) as (Hm1 & Hj1 & Hd1 & Hr1);
    [subst nm0; cbn; apply replicate_add | done |].
  rewrite Hj in Hm1, Hj1.
  set (nm1 := add_joiners v sst lr ji nm0) in *.
  destruct (add_departed_spec v lr nm1) as (Hm2 & Hj2 & Hr2 & Hd2).
  rewrite Hdep, Hd1 in Hd2. cbn in Hd2.
  set (nm2 := add_departed v lr nm1) in *.
  destruct (copy_survivors_spec v Hsize keep lr joiners nm2) as (Hm3 & Hj3 & Hd3).
  { intros r Hr. unfold set_contains.
    rewrite bool_decide_eq_false. subst keep. cbn beta.
    rewrite (Hleave _ (cell_elem_of _ _ Hr)).
    rewrite Hlr, list_elem_of_filter, elem_of_seqZ. split.
    - intros Hn Hc. apply Hn. split; [done | lia].
    - intros Hn [Hc _]. done. }
  { by rewrite Hm2, Hm1. }
  { rewrite Hr2, Hr1. done. }
  set (nm3 := copy_survivors v lr nm2) in *.
  assert (Hlen : View.num_members v - size lr + size ji = size (nm_members nm3)).
  { rewrite Hm3. unfold size in *. rewrite length_app.
    assert (length joiners = length ji) by (by rewrite <- Hj, length_fmap).
    fold base. lia. }
  rewrite Hlen, find_my_new_rank_spec. fold myID.
  assert (HmyID : myID ∈ (View.members v)).
  { apply cell_elem_of. rewrite Hsize in Hmy. exact Hmy. }
  assert (Hfound : find_rank myID (nm_members nm3) 0 ≠ -1 ↔ myID ∉ leavers).
  { rewrite find_rank_member, Hm3, elem_of_app, list_elem_of_filter. split.
    - intros [[Hk _] | Hjn]; [done |].
      apply committed_joiners_elem in Hjn as [_ Hn]. done.
    - intros Hk. left. done. }
  split.
  - intros Hin. rewrite bool_decide_eq_true_2; [done |].
    destruct (decide (find_rank myID (nm_members nm3) 0 = -1)) as [|Hne]; [done |].
    apply Hfound in Hne. done.
  - intros Hnin. rewrite bool_decide_eq_false_2 by (by apply Hfound).
    eexists. split; [reflexivity |]. cbn.
    by rewrite Hm3, Hj3, Hj2, Hj1, Hd3, Hd2.
Qed.

(** ** Join requests *)

Lemma receive_join_at_capacity client_socket vm :
  SST.num_changes (my_row vm) - SST.num_committed (my_row vm)
  = size (SST.changes (my_row vm)) →
  receive_join client_socket vm = Throws too_many_changes (vm, [], false).
Proof.
  intros Hfull. unfold receive_join. unfold my_row, get_local_index in Hfull.
  by rewrite bool_decide_eq_true_2.
Qed.

(** A join of a fresh id below capacity is written to the next free cell
    of the list of changes and counted once. *)
Lemma receive_join_proposes client_socket vm :
  let next_change := SST.num_changes (my_row vm) - SST.num_installed (my_row vm) in
  0 ≤ get_local_index vm < size (gmsSST vm) →
  SST.num_changes (my_row vm) - SST.num_committed (my_row vm)
  ≠ size (SST.changes (my_row vm)) →
  View.rank_of (curr_view vm) (joining_client_id client_socket) = -1 →
  0 ≤ next_change < size (SST.changes (my_row vm)) →
  ∃ vm' response,
    receive_join client_socket vm = Done (vm', response, true)
    ∧ cell 0 (SST.changes (my_row vm')) next_change = joining_client_id client_socket
    ∧ SST.num_changes (my_row vm') = SST.num_changes (my_row vm) + 1.
Proof.
  intros next_change Hmy Hroom Hfresh Hcell. unfold receive_join.
  unfold my_row, get_local_index in *.
  rewrite bool_decide_eq_false_2 by done.
  rewrite bool_decide_eq_false_2 by (intros H; by apply H).
  eexists _, _. split; [reflexivity |].
  vm_fields. rewrite !row_update, !size_update.
  rewrite !bool_decide_eq_true_2 by done. cbn.
  split; [|done]. by apply cell_set_cell_eq.
Qed.

(** C7 (the code departs from it). With the list of changes full, the
    leader does not hold the join request back: [receive_join] throws
    "Too many changes to allow a Join right now", where the source itself
    notes that it should block the client until the group stabilizes. *)
Theorem receive_join_throws_at_capacity :
  SST.num_changes (my_row leader_at_capacity)
  - SST.num_committed (my_row leader_at_capacity)
  = size (SST.changes (my_row leader_at_capacity))
  ∧ View.i_am_leader (curr_view leader_at_capacity) = true
  ∧ gms_invariant leader_at_capacity
  ∧ receive_join join_request_of_node_10 leader_at_capacity
    = Throws too_many_changes (leader_at_capacity, [], false).
Proof.
  split; [reflexivity |]. split; [reflexivity |]. split; [|reflexivity].
  split; [split; vm_compute; discriminate |].
  repeat constructor; vm_compute; discriminate.
Qed.

(** ** Runs on the sample configurations *)

Lemma leader_commit_change_commits_least_ack_witness :
  let vm := committing_leader in
  0 ≤ get_local_index vm < size (gmsSST vm)
  ∧ (change_commit_ready vm = true → View.i_am_leader (curr_view vm) = true)
  ∧ (View.i_am_leader (curr_view vm) = true →
     ∃ m, least_ack (gmsSST vm) (View.failed (curr_view vm)) m
          ∧ (change_commit_ready vm = true ↔ SST.num_committed (my_row vm) < m)
          ∧ SST.num_committed (my_row (leader_commit_change vm)) = m
          ∧ ∀ k, k ≤ SST.num_committed (my_row (leader_commit_change vm))
                 ↔ ∀ n, not_failed (View.failed (curr_view vm)) n →
                        k ≤ SST.num_acked (SST.row (gmsSST vm) n)).
Proof.
  intros vm.
  assert (H : 0 ≤ get_local_index vm < size (gmsSST vm)) by (vm_compute; split; discriminate || reflexivity).
  split; [exact H |]. exact (leader_commit_change_commits_least_ack vm H).
Defined.



Lemma make_next_view_applies_committed_changes_witness :
  let v := sample_view 0 nobody in
  let sst := committed_table in
  let myID := cell 0 (View.members v) (View.my_rank v) in
  let leavers := committed_leavers v sst in
  let joiners := committed_joiners v sst in
  View.num_members v = size (View.members v)
  ∧ NoDup (View.members v)
  ∧ 0 ≤ View.my_rank v < View.num_members v
  ∧ (myID ∈ leavers → make_next_view v sst = Raises reported_failed)
  ∧ (myID ∉ leavers →
     ∃ v', make_next_view v sst = Returns v'
           ∧ View.vid v' = View.vid v + 1
           ∧ View.members v' = filter (λ m, m ∉ leavers) (View.members v) ++ joiners
           ∧ View.joined v' = joiners
           ∧ View.departed v' = filter (λ m, m ∈ leavers) (View.members v)).
Proof.
  intros v sst myID leavers joiners.
  assert (H1 : View.num_members v = size (View.members v)) by reflexivity.
  assert (H2 : NoDup (View.members v)) by (apply (bool_decide_unpack _); vm_compute; exact I).
  assert (H3 : 0 ≤ View.my_rank v < View.num_members v) by (vm_compute; split; discriminate || reflexivity).
  split; [exact H1 |]. split; [exact H2 |]. split; [exact H3 |].
  exact (make_next_view_applies_committed_changes v sst H1 H2 H3).
Defined.

(** ** Subgroup settings: building a view and deriving from it *)

Lemma same_shard_refl sv : same_shard sv sv.
Proof. done. Qed.

Lemma same_shard_widest a b max : same_shard a b → widest a max = widest b max.
Proof.
  intros (Hm & Hs & _). unfold widest, SubView.num_senders. by rewrite Hm, Hs.
Qed.

Lemma same_shard_settings my_id sn off shard_num a b settings :
  same_shard a b →
  with_settings_of my_id sn off shard_num a settings
  = with_settings_of my_id sn off shard_num b settings.
Proof.
  intros (Hm & Hs & Hmode).
  unfold with_settings_of, SubView.rank_of, SubView.sender_rank_of.
  by rewrite Hm, Hs, Hmode.
Qed.

Lemma make_shard_core prev my_id t si sn off shard_num sv st st' :
  make_shard prev my_id t si sn off shard_num sv st = Returns st' →
  max_shard_senders st' = widest sv (max_shard_senders st)
  ∧ loop_settings st' = with_settings_of my_id sn off shard_num sv (loop_settings st)
  ∧ ∃ sv', loop_shards st' = loop_shards st ++ [sv'] ∧ same_shard sv sv'.
Proof.
  unfold make_shard, widest, with_settings_of. cbn [SubView.my_rank SubView.set_my_rank].
  intros H.
  destruct (bool_decide (SubView.rank_of sv my_id ≠ -1)) eqn:Hr;
    destruct prev as [pv|];
    repeat match type of H with
           | context [match ?x with _ => _ end] => destruct x
           end;
    try discriminate; injection H as <-; cbn;
    (split; [done |]; split; [done |]; eexists; split; [reflexivity | done]).
Qed.

Lemma derive_shard_core my_id sn off shard_num sv st :
  let st' := derive_shard my_id sn off shard_num sv st in
  max_shard_senders st' = widest sv (max_shard_senders st)
  ∧ loop_settings st' = with_settings_of my_id sn off shard_num sv (loop_settings st)
  ∧ ∃ sv', loop_shards st' = loop_shards st ++ [sv'] ∧ same_shard sv sv'.
Proof.
  unfold derive_shard, widest, with_settings_of. cbn [SubView.my_rank SubView.set_my_rank].
  destruct (bool_decide (SubView.rank_of sv my_id ≠ -1)); cbn;
    (split; [done |]; split; [done |]; eexists; split; [reflexivity | done]).
Qed.

(** The loops over the shards of a subgroup agree on the widest shard and
    on the settings. *)
Lemma shard_loops_agree prev my_id t si sn off shards shards2 :
  Forall2 same_shard shards shards2 →
  ∀ i st st' st2,
    fold_indexed_raising (make_shard prev my_id t si sn off) i shards st = Returns st' →
    max_shard_senders st2 = max_shard_senders st →
    loop_settings st2 = loop_settings st →
    let st2' := fold_indexed (derive_shard my_id sn off) i shards2 st2 in
    max_shard_senders st2' = max_shard_senders st'
    ∧ loop_settings st2' = loop_settings st'.
Proof.
  induction 1 as [|sv sv2 shards shards2 Hsv Hrest IH]; intros i st st' st2 H Hmax Hset.
  - simpl in *. by injection H as <-.
  - simpl in H. destruct (make_shard _ _ _ _ _ _ _ _ _) as [st1|] eqn:E; [|done].
    apply make_shard_core in E as (Hm1 & Hs1 & _).
    destruct (derive_shard_core my_id sn off i sv2 st2) as (Hm2 & Hs2 & _).
    simpl. apply (IH _ _ _ _ H).
    + rewrite Hm2, Hm1, Hmax. symmetry. by apply same_shard_widest.
    + rewrite Hs2, Hs1, Hset. symmetry. by apply same_shard_settings.
Qed.

Lemma make_shards_shards prev my_id t si sn off shards :
  ∀ i st st',
    fold_indexed_raising (make_shard prev my_id t si sn off) i shards st = Returns st' →
    ∃ processed, loop_shards st' = loop_shards st ++ processed
                 ∧ Forall2 same_shard shards processed.
Proof.
  induction shards as [|sv shards IH]; intros i st st' H; simpl in H.
  - injection H as <-. exists []. by rewrite app_nil_r.
  - destruct (make_shard _ _ _ _ _ _ _ _ _) as [st1|] eqn:E; [|done].
    apply make_shard_core in E as (_ & _ & sv' & Hsh & Hsame).
    destruct (IH _ _ _ H) as (processed & Hp & Hall).
    exists (sv' :: processed). split; [|by constructor].
    rewrite Hp, Hsh. by rewrite <- app_assoc.
Qed.

Lemma same_shard_sym a b : same_shard a b → same_shard b a.
Proof. intros (? & ? & ?). by repeat split. Qed.

Lemma same_shard_trans a b c : same_shard a b → same_shard b c → same_shard a c.
Proof. intros (? & ? & ?) (? & ? & ?). repeat split; congruence. Qed.

Lemma Forall2_trans_rel {A} (R : A → A → Prop) l1 l2 l3 :
  (∀ a b c, R a b → R b c → R a c) →
  Forall2 R l1 l2 → Forall2 R l2 l3 → Forall2 R l1 l3.
Proof.
  intros Htr H12. revert l3. induction H12 as [|a b l1 l2 Hab _ IH]; intros l3 H23.
  - by apply Forall2_nil_inv_l in H23 as ->.
  - apply Forall2_cons_inv_l in H23 as (c & l3' & Hbc & H23 & ->).
    constructor; [by eapply Htr | by apply IH].
Qed.

Lemma same_shards_trans a b c : same_shards a b → same_shards b c → same_shards a c.
Proof.
  apply Forall2_trans_rel. intros x y z. apply Forall2_trans_rel.
  apply same_shard_trans.
Qed.

Lemma fold_indexed_app {A St} (body : nat → A → St → St) l1 l2 i s :
  fold_indexed body i (l1 ++ l2) s
  = fold_indexed body (i + length l1) l2 (fold_indexed body i l1 s).
Proof.
  revert i s. induction l1 as [|x l1 IH]; intros i s; simpl.
  - by rewrite Nat.add_0_r.
  - rewrite IH. f_equal. lia.
Qed.

(** One subgroup: building it appends its shards to the view, and
    deriving the settings from shards with the same members and senders,
    at the same subgroup id and offset, gives the same offset and
    settings. *)
Lemma make_subgroup_agrees prev t si shards off view settings off' view' settings' :
  make_subgroup prev t si shards (off, view, settings)
  = Returns (off', view', settings') →
  (∃ processed,
     View.subgroup_shard_views view' = View.subgroup_shard_views view ++ [processed]
     ∧ Forall2 same_shard shards processed)
  ∧ same_node view' view
  ∧ View.is_adequately_provisioned view' = View.is_adequately_provisioned view
  ∧ ∀ w shards2,
      same_node w view → Forall2 same_shard shards shards2 →
      let r := derive_subgroup (length (View.subgroup_shard_views view)) shards2
                 (off, w, settings) in
      r.1.1 = off' ∧ r.2 = settings' ∧ same_node r.1.2 w.
Proof.
  unfold make_subgroup. cbn [View.members View.my_rank View.set_subgroup_ids_by_type_id
    View.subgroup_shard_views View.my_subgroups].
  intros H.
  destruct (fold_indexed_raising _ _ _ _) as [loop|] eqn:E; [|done].
  injection H as <- <- <-. cbn.
  destruct (make_shards_shards _ _ _ _ _ _ _ _ _ _ E) as (processed & Hp & Hall).
  cbn in Hp. split; [exists processed; by rewrite Hp |].
  split; [done |]. split; [done |].
  intros w shards2 [Hwm Hwr] Hsame. unfold derive_subgroup. rewrite Hwm, Hwr.
  set (st2 := mkShardLoop 0 (View.my_subgroups w) settings []).
  destruct (shard_loops_agree _ _ _ _ _ _ _ _ Hsame _ _ _ st2 E) as [Hmax Hset];
    [done | done |].
  cbn. rewrite Hmax, Hset. done.
Qed.

Lemma make_subgroups_agree prev t subgroups :
  ∀ si off view settings off' view' settings',
    fold_indexed_raising (make_subgroup prev t) si subgroups (off, view, settings)
    = Returns (off', view', settings') →
    (∃ processed,
       View.subgroup_shard_views view' = View.subgroup_shard_views view ++ processed
       ∧ same_shards subgroups processed)
    ∧ same_node view' view
    ∧ View.is_adequately_provisioned view' = View.is_adequately_provisioned view
    ∧ ∀ w subgroups2,
        same_node w view → same_shards subgroups subgroups2 →
        let r := fold_indexed derive_subgroup (length (View.subgroup_shard_views view))
                   subgroups2 (off, w, settings) in
        r.1.1 = off' ∧ r.2 = settings' ∧ same_node r.1.2 w.
Proof.
  induction subgroups as [|shards subgroups IH];
    intros si off view settings off' view' settings' H;
    cbn [fold_indexed_raising] in H.
  - injection H as <- <- <-. split.
    { exists []. split; [by rewrite app_nil_r | constructor]. }
    split; [done |]. split; [done |].
    intros w subgroups2 Hw Hsame. apply Forall2_nil_inv_l in Hsame as ->. done.
  - destruct (make_subgroup prev t si shards (off, view, settings))
      as [[[off1 view1] settings1]|] eqn:E; [|discriminate].
    apply make_subgroup_agrees in E as ((p1 & Hp1 & Hs1) & Hn1 & Ha1 & Hd1).
    apply IH in H as ((ps & Hps & Hss) & Hn & Ha & Hd).
    split; [exists (p1 :: ps); split; [|by constructor] |].
    { rewrite Hps, Hp1. by rewrite <- app_assoc. }
    split; [destruct Hn, Hn1; split; congruence |]. split; [congruence |].
    intros w subgroups2 Hw Hsame.
    apply Forall2_cons_inv_l in Hsame as (shards2 & rest2 & Hsh & Hrest & ->).
    cbn [fold_indexed].
    specialize (Hd1 w shards2 Hw Hsh). cbn zeta in Hd1.
    destruct (derive_subgroup _ shards2 _) as [[o1 w1] s1].
    cbn [fst snd] in Hd1. destruct Hd1 as (-> & -> & Hw1).
    assert (Hw1' : same_node w1 view1).
    { destruct Hw1, Hw, Hn1. split; congruence. }
    specialize (Hd w1 rest2 Hw1' Hrest). cbn zeta in Hd.
    rewrite Hp1, length_app in Hd. cbn [length] in Hd.
    replace (S (length (View.subgroup_shard_views view)))
      with (length (View.subgroup_shard_views view) + 1)%nat by lia.
    destruct Hd as (Ho & Hs & Hn2). split; [done |]. split; [done |].
    destruct Hn2, Hw1. split; congruence.
Qed.

Lemma make_subgroup_types_agree f prev initial types :
  ∀ t off view settings off' view' settings',
    make_subgroup_types f prev initial t types (off, view, settings)
    = Returns (off', view', settings') →
    View.is_adequately_provisioned view' = true →
    same_node view' view
    ∧ ∃ processed,
        View.subgroup_shard_views view' = View.subgroup_shard_views view ++ processed
        ∧ ∀ w processed2,
            same_node w view → same_shards processed processed2 →
            let r := fold_indexed derive_subgroup
                       (length (View.subgroup_shard_views view)) processed2
                       (off, w, settings) in
            r.1.1 = off' ∧ r.2 = settings' ∧ same_node r.1.2 w.
Proof.
  induction types as [|type types IH];
    intros t off view settings off' view' settings' H Hok;
    cbn [make_subgroup_types] in H.
  - injection H as <- <- <-. split; [done |]. exists []. split; [by rewrite app_nil_r |].
    intros w processed2 Hw Hsame. apply Forall2_nil_inv_l in Hsame as ->. done.
  - destruct (f type prev view) as [nur [layout|]]; cycle 1.
    { injection H as <- <- <-. discriminate. }
    set (view1 := View.set_subgroup_ids_by_type_id _ _) in H.
    destruct (fold_indexed_raising (make_subgroup prev t) 0 layout (off, view1, settings))
      as [[[off1 view2] settings1]|] eqn:E; [|discriminate].
    apply make_subgroups_agree in E as ((p1 & Hp1 & Hs1) & Hn1 & Ha1 & Hd1).
    apply IH in H as (Hn2 & p2 & Hp2 & Hd2); [|done].
    assert (Hnode : same_node view2 view).
    { destruct Hn1 as [Hm Hr]. split; [rewrite Hm | rewrite Hr]; done. }
    split; [destruct Hn2, Hnode; split; congruence |].
    exists (p1 ++ p2). split.
    { rewrite Hp2, Hp1. subst view1. cbn. by rewrite <- app_assoc. }
    intros w processed2 Hw Hsame.
    apply Forall2_app_inv_l in Hsame as (q1 & q2 & Hq1 & Hq2 & ->).
    rewrite fold_indexed_app.
    assert (Hw1 : same_node w view1) by (destruct Hw; split; done).
    specialize (Hd1 w q1 Hw1 (same_shards_trans _ _ _ Hs1 Hq1)). cbn zeta in Hd1.
    change (View.subgroup_shard_views view1) with (View.subgroup_shard_views view)
      in Hd1, Hp1.
    destruct (fold_indexed derive_subgroup _ q1 _) as [[o1 w1] s1].
    cbn [fst snd] in Hd1. destruct Hd1 as (-> & -> & Hnw1).
    assert (Hw2 : same_node w1 view2).
    { destruct Hnw1, Hw, Hnode. split; congruence. }
    specialize (Hd2 w1 q2 Hw2 Hq2). cbn zeta in Hd2.
    rewrite Hp1, length_app in Hd2.
    rewrite <- (Forall2_length _ _ _ Hq1).
    destruct Hd2 as (Ho & Hs & Hn3). split; [done |]. split; [done |].
    destruct Hn3, Hnw1. split; congruence.
Qed.

(** C10. When [make_subgroup_maps] leaves the view adequately
    provisioned, [derive_subgroup_settings], run for the same local node
    on that view or on a copy of it that keeps the members, the sender
    flags and the mode of every shard, returns the same size of
    [num_received] and the same settings map, and so the same shard,
    ranks, members, senders, offset and mode for every subgroup of the
    local node. *)
Theorem derive_subgroup_settings_agrees f prev view settings n view' settings' w :
  make_subgroup_maps f prev view settings = Returns (n, view', settings') →
  View.is_adequately_provisioned view' = true →
  same_node w view' →
  same_shards (View.subgroup_shard_views view') (View.subgroup_shard_views w) →
  (derive_subgroup_settings w settings).1.1 = n
  ∧ (derive_subgroup_settings w settings).2 = settings'
  ∧ ∀ subgroup_id,
      (derive_subgroup_settings w settings).2 !! subgroup_id = settings' !! subgroup_id.
Proof.
  unfold make_subgroup_maps. intros H Hok Hw Hsame.
  apply make_subgroup_types_agree in H as (Hn & processed & Hp & Hd); [|done].
  cbn in Hp. rewrite Hp in Hsame.
  unfold derive_subgroup_settings.
  cbn [View.subgroup_shard_views View.set_my_subgroups].
  specialize (Hd (View.set_my_subgroups ∅ w) (View.subgroup_shard_views w)).
  cbn in Hd. destruct Hd as (Ho & Hs & _); [| done |].
  { unfold same_node in *. cbn in *. destruct Hw, Hn. split; congruence. }
  split; [done |]. split; [done |]. intros sg. by rewrite Hs.
Qed.

(** ** Inadequate provisioning *)

Lemma make_subgroup_types_rolls_back f prev initial type l2 l1 :
  ∀ t st off1 view1 s1,
    make_subgroup_types f prev initial t l1 st = Returns (off1, view1, s1) →
    (f type prev view1).2 = None →
    ∃ v', make_subgroup_types f prev initial t (l1 ++ type :: l2) st
          = Returns (0, v', ∅)
          ∧ rolled_back initial v'.
Proof.
  induction l1 as [|ty l1 IH]; intros t [[off view] settings] off1 view1 s1 H Hthrow.
  - cbn in H. injection H as -> -> ->. cbn.
    destruct (f type prev view1) as [nur [layout|]]; [done |].
    eexists. split; [reflexivity | done].
  - cbn [app make_subgroup_types] in *.
    destruct (f ty prev view) as [nur [layout|]].
    + destruct (fold_indexed_raising _ _ _ _) as [st1|]; [|discriminate].
      by eapply IH.
    + injection H as <- <- <-. eexists. split; [reflexivity | done].
Qed.

Lemma make_subgroup_maps_rolls_back f prev view settings l1 type l2 off1 view1 s1 :
  View.subgroup_type_order view = l1 ++ type :: l2 →
  make_subgroup_types f prev (View.next_unassigned_rank view) 0 l1
    (0, View.set_subgroup_ids_by_type_id ∅ (View.set_subgroup_shard_views [] view),
     settings)
  = Returns (off1, view1, s1) →
  (f type prev view1).2 = None →
  ∃ v', make_subgroup_maps f prev view settings = Returns (0, v', ∅)
        ∧ rolled_back (View.next_unassigned_rank view) v'.
Proof.
  intros Horder Hrun Hthrow. unfold make_subgroup_maps.
  cbn [View.subgroup_type_order View.set_subgroup_ids_by_type_id
       View.set_subgroup_shard_views View.next_unassigned_rank].
  rewrite Horder. by eapply make_subgroup_types_rolls_back.
Qed.

Lemma register_predicates_spec vm :
  let vm' := register_predicates vm in
  handles vm' = mkHandles true true true true true true
  ∧ curr_view vm' = curr_view vm
  ∧ gmsSST vm' = gmsSST vm
  ∧ next_view vm' = next_view vm
  ∧ (start_join_handle (handles vm) = false → P_start_join_pred ∈ predicates vm')
  ∧ (reject_join_handle (handles vm) = false → P_reject_join_pred ∈ predicates vm')
  ∧ (change_commit_ready_handle (handles vm) = false →
     P_change_commit_ready ∈ predicates vm')
  ∧ (leader_proposed_handle (handles vm) = false →
     P_leader_proposed_change ∈ predicates vm').
Proof.
  destruct vm as [cv nv sst ls fr mw pub preds [[] [] [] [] [] []] apo trims del];
    cbn; repeat split; try done; intros _;
    rewrite ?elem_of_app, ?list_elem_of_singleton; tauto.
Qed.

(** C8. When the membership function throws the provisioning exception
    for a subgroup type that [make_subgroup_maps] reaches, the view is
    marked not adequately provisioned, its [next_unassigned_rank] is
    restored, its shard views and subgroup ids and the settings map are
    left empty and 0 is returned; [terminate_epoch] then stalls: the
    current view and table stay, the predicates are registered again on
    the first call, and a one-time predicate waits for the leader's
    [num_committed] to pass its present value. *)
Theorem inadequate_provisioning_rolls_back_and_stalls
    f prev view settings l1 type l2 off1 view1 s1 :
  View.subgroup_type_order view = l1 ++ type :: l2 →
  make_subgroup_types f prev (View.next_unassigned_rank view) 0 l1
    (0, View.set_subgroup_ids_by_type_id ∅ (View.set_subgroup_shard_views [] view),
     settings)
  = Returns (off1, view1, s1) →
  (f type prev view1).2 = None →
  ∃ v',
    make_subgroup_maps f prev view settings = Returns (0, v', ∅)
    ∧ View.is_adequately_provisioned v' = false
    ∧ View.next_unassigned_rank v' = View.next_unassigned_rank view
    ∧ View.subgroup_shard_views v' = []
    ∧ View.subgroup_ids_by_type_id v' = ∅
    ∧ ∀ vm,
        prev = Some (curr_view vm) → settings = ∅ →
        make_next_view (curr_view vm) (gmsSST vm) = Returns view →
        ∃ vm',
          terminate_epoch f vm = Returns (epoch_stalled vm')
          ∧ curr_view vm' = curr_view vm
          ∧ gmsSST vm' = gmsSST vm
          ∧ next_view vm' = Some v'
          ∧ P_leader_committed_change
              (SST.num_committed
                 (SST.row (gmsSST vm) (View.rank_of_leader (curr_view vm))))
            ∈ predicates vm'
          ∧ (next_view vm = None →
             handles vm' = mkHandles true true true true true false
             ∧ (start_join_handle (handles vm) = false →
                P_start_join_pred ∈ predicates vm')
             ∧ (reject_join_handle (handles vm) = false →
                P_reject_join_pred ∈ predicates vm')
             ∧ (change_commit_ready_handle (handles vm) = false →
                P_change_commit_ready ∈ predicates vm')
             ∧ (leader_proposed_handle (handles vm) = false →
                P_leader_proposed_change ∈ predicates vm')).
Proof.
  intros Horder Hrun Hthrow.
  destruct (make_subgroup_maps_rolls_back _ _ _ _ _ _ _ _ _ _ Horder Hrun Hthrow)
    as (v' & Hmake & Hflag & Hnur & Hviews & Hids).
  exists v'. repeat (split; [done |]).
  intros vm -> -> Hnext. unfold terminate_epoch. rewrite Hnext, Hmake.
  cbn [View.is_adequately_provisioned]. rewrite Hflag. cbn [negb].
  eexists. split; [reflexivity |].
  destruct (register_predicates_spec (with_next_view (Some v') vm))
    as (Hh & Hcv & Hsst & Hnv & Hp1 & Hp2 & Hp3 & Hp4).
  cbn zeta in Hh, Hcv, Hsst, Hnv, Hp1, Hp2, Hp3, Hp4.
  set (vm1 := register_predicates (with_next_view (Some v') vm)) in *.
  assert (Hrm : handles (remove_leader_committed vm1)
                = mkHandles true true true true true false
                ∧ curr_view (remove_leader_committed vm1) = curr_view vm
                ∧ gmsSST (remove_leader_committed vm1) = gmsSST vm
                ∧ next_view (remove_leader_committed vm1) = Some v'
                ∧ ∀ p, p ≠ P_leader_committed_changes → p ∈ predicates vm1 →
                       p ∈ predicates (remove_leader_committed vm1)).
  { unfold remove_leader_committed. rewrite Hh. cbn.
    repeat (split; [done |]). intros p Hne Hin.
    apply list_elem_of_filter. done. }
  destruct Hrm as (Hh' & Hcv' & Hsst' & Hnv' & Hkeep).
  case_bool_decide as Hfirst; cbn.
  - rewrite Hcv', Hsst', Hnv'. repeat (split; [done |]).
    split; [apply elem_of_app; right; by apply list_elem_of_singleton |].
    intros _. split; [done |].
    repeat split; intros Hv; apply elem_of_app; left; apply Hkeep; try done;
      [by apply Hp1 | by apply Hp2 | by apply Hp3 | by apply Hp4].
  - repeat (split; [done |]).
    split; [apply elem_of_app; right; by apply list_elem_of_singleton |].
    intros Hn. done.
Qed.

Lemma same_shards_refl a : same_shards a a.
Proof.
  induction a as [|x a IH]; constructor; [|done].
  induction x as [|sv x IHx]; constructor; done.
Qed.

Lemma derive_subgroup_settings_agrees_witness :
  ∃ n view' settings',
    make_subgroup_maps sample_membership_function None (sample_view 1 nobody) ∅
    = Returns (n, view', settings')
    ∧ View.is_adequately_provisioned view' = true
    ∧ same_node view' view'
    ∧ same_shards (View.subgroup_shard_views view') (View.subgroup_shard_views view')
    ∧ (derive_subgroup_settings view' ∅).1.1 = n
    ∧ (derive_subgroup_settings view' ∅).2 = settings'
    ∧ ∀ subgroup_id,
        (derive_subgroup_settings view' ∅).2 !! subgroup_id = settings' !! subgroup_id.
Proof.
  destruct (make_subgroup_maps sample_membership_function None (sample_view 1 nobody) ∅)
    as [[[n view'] settings']|e] eqn:E; [|vm_compute in E; discriminate].
  exists n, view', settings'.
  assert (Hok : View.is_adequately_provisioned view' = true).
  { pose proof E as E'. vm_compute in E'. injection E' as <- <- <-. reflexivity. }
  assert (Hnode : same_node view' view') by (split; reflexivity).
  pose proof (same_shards_refl (View.subgroup_shard_views view')) as Hsame.
  split; [reflexivity |]. split; [exact Hok |]. split; [exact Hnode |].
  split; [exact Hsame |].
  exact (derive_subgroup_settings_agrees sample_membership_function None
           (sample_view 1 nobody) ∅ n view' settings' view' E Hok Hnode Hsame).
Defined.

Lemma inadequate_provisioning_rolls_back_and_stalls_witness :
  let vm := leader_removing_member_3 in
  let f := sample_membership_function in
  ∃ view,
    make_next_view (curr_view vm) (gmsSST vm) = Returns view
    ∧ View.subgroup_type_order view = [] ++ 0%nat :: []
    ∧ (f 0%nat (Some (curr_view vm))
         (View.set_subgroup_ids_by_type_id ∅
            (View.set_subgroup_shard_views [] view))).2 = None
    ∧ ∃ v' vm',
        make_subgroup_maps f (Some (curr_view vm)) view ∅ = Returns (0, v', ∅)
        ∧ View.is_adequately_provisioned v' = false
        ∧ View.next_unassigned_rank v' = View.next_unassigned_rank view
        ∧ terminate_epoch f vm = Returns (epoch_stalled vm')
        ∧ curr_view vm' = curr_view vm
        ∧ next_view vm' = Some v'
        ∧ handles vm' = mkHandles true true true true true false
        ∧ P_leader_committed_change 1 ∈ predicates vm'.
Proof.
  intros vm f.
  destruct (make_next_view (curr_view vm) (gmsSST vm)) as [view|e] eqn:E;
    [|vm_compute in E; discriminate].
  exists view.
  assert (Horder : View.subgroup_type_order view = [] ++ 0%nat :: []).
  { pose proof E as E'. vm_compute in E'. injection E' as <-. reflexivity. }
  assert (Hthrow : (f 0%nat (Some (curr_view vm))
                      (View.set_subgroup_ids_by_type_id ∅
                         (View.set_subgroup_shard_views [] view))).2 = None).
  { pose proof E as E'. vm_compute in E'. injection E' as <-. reflexivity. }
  split; [reflexivity |]. split; [exact Horder |]. split; [exact Hthrow |].
  destruct (inadequate_provisioning_rolls_back_and_stalls f (Some (curr_view vm))
              view ∅ [] 0%nat [] 0 _ ∅ Horder eq_refl Hthrow)
    as (v' & Hmake & Hflag & Hnur & _ & _ & Hstall).
  destruct (Hstall vm eq_refl eq_refl E)
    as (vm' & Hterm & Hcv & _ & Hnv & Hpred & Hfirst).
  destruct (Hfirst eq_refl) as (Hh & _).
  exists v', vm'. repeat (split; [assumption |]). exact Hpred.
Defined.

(** ** The ragged edge *)

Lemma cell_set_cell {A} (d : A) l i x j :
  cell d (set_cell l i x) j
  = if bool_decide (j = i ∧ 0 ≤ i < size l) then x else cell d l j.
Proof.
  case_bool_decide as Hc.
  - destruct Hc as [-> Hi]. by apply cell_set_cell_eq.
  - destruct (decide (j = i)) as [-> | Hne].
    + unfold set_cell, cell, at_index, size in *. case_bool_decide; [|done].
      rewrite list_insert_ge; [done | lia].
    + by apply cell_set_cell_ne.
Qed.

Lemma copy_cells_spec {A} (d : A) dst src offset n :
  0 ≤ offset → offset + n ≤ size dst →
  size (copy_cells d dst src offset n) = size dst
  ∧ ∀ j, cell d (copy_cells d dst src offset n) j
         = if bool_decide (offset ≤ j < offset + n) then cell d src j
           else cell d dst j.
Proof.
  intros Hoff Hfit. unfold copy_cells.
  pose (P := λ (i : Z) (dst' : list A),
    size dst' = size dst
    ∧ ∀ j, cell d dst' j
           = if bool_decide (offset ≤ j < offset + i) then cell d src j
             else cell d dst j).
  assert (H : P (Z.max 0 n)
                (for_loop n (λ i dst', set_cell dst' (offset + i) (cell d src (offset + i)))
                   dst)).
  { apply for_loop_invariant.
    - split; [done |]. intros j. rewrite bool_decide_eq_false_2; [done | lia].
    - intros i dst' Hi [Hsize Hcells]. split; [by rewrite size_set_cell |].
      intros j. rewrite cell_set_cell, Hcells, Hsize.
      destruct (decide (j = offset + i)) as [-> | Hne].
      + rewrite !bool_decide_eq_true_2 by lia. done.
      + rewrite (bool_decide_eq_false_2 (j = _ ∧ _)) by (intros [? _]; done).
        destruct (decide (offset ≤ j < offset + i)).
        * rewrite !bool_decide_eq_true_2 by lia. done.
        * rewrite !bool_decide_eq_false_2 by lia. done. }
  destruct H as [Hsize Hcells]. split; [done |].
  intros j. rewrite Hcells.
  destruct (decide (0 ≤ n)); [by rewrite Z.max_r by lia |].
  rewrite Z.max_l by lia. rewrite !bool_decide_eq_false_2; [done | lia | lia].
Qed.

(** A vector filled cell by cell from a function of the index. *)
Lemma fill_cells {A} (d : A) (f : Z → A) n :
  for_loop n (λ i l, set_cell l i (f i)) (replicate (Z.to_nat n) d)
  = f <$> seqZ 0 n.
Proof.
  pose (P := λ (i : Z) (l : list A),
    l = (f <$> seqZ 0 i) ++ replicate (Z.to_nat n - Z.to_nat i) d).
  assert (H : P (Z.max 0 n)
                (for_loop n (λ i l, set_cell l i (f i)) (replicate (Z.to_nat n) d))).
  { apply for_loop_invariant.
    - subst P. cbn. by rewrite Nat.sub_0_r.
    - intros i l Hi ->. subst P. cbn beta.
      rewrite seqZ_snoc by lia. rewrite fmap_app. cbn [fmap list_fmap].
      replace (Z.to_nat n - Z.to_nat i)%nat
        with (S (Z.to_nat n - Z.to_nat (i + 1))) by lia.
      rewrite replicate_S, <- app_assoc. cbn [app].
      apply set_cell_middle. unfold size. rewrite length_fmap, length_seqZ. lia. }
  red in H. rewrite H, seqZ_max.
  replace (Z.to_nat n - Z.to_nat (Z.max 0 n))%nat with 0%nat by lia.
  by rewrite app_nil_r.
Qed.

Lemma deliver_in_order_indices leader sg off members n vm :
  (deliver_in_order leader sg off members n vm).2
  = (λ s, cell 0 (SST.global_min (SST.row (gmsSST vm) leader)) (off + s))
    <$> seqZ 0 n.
Proof. unfold deliver_in_order. cbn [snd]. apply fill_cells. Qed.

Lemma i32_small x : - 2 ^ 31 ≤ x < 2 ^ 31 → i32 x = x.
Proof. intros Hx. unfold i32. rewrite Z.mod_small; lia. Qed.

Lemma u32_small x : 0 ≤ x < 2 ^ 32 → u32 x = x.
Proof. intros Hx. unfold u32. by rewrite Z.mod_small. Qed.

(** The last sequence number of a cut: the greatest of the senders' last
    sequence numbers, and no less than what was delivered already. *)
Lemma last_of_cut max_indices n curr :
  (∀ s, 0 ≤ s < n → - 2 ^ 31 ≤ cell 0 max_indices s * n + s < 2 ^ 31) →
  let last :=
    for_loop n
      (λ sender max_seq_num,
         Z.max max_seq_num (i32 (cell 0 max_indices sender * n + sender)))
      curr in
  curr ≤ last
  ∧ (∀ s, 0 ≤ s < n → cell 0 max_indices s * n + s ≤ last)
  ∧ (last = curr ∨ ∃ s, 0 ≤ s < n ∧ last = cell 0 max_indices s * n + s).
Proof.
  intros Hrange.
  pose (P := λ (i : Z) (last : Z),
    curr ≤ last
    ∧ (∀ s, 0 ≤ s < i → cell 0 max_indices s * n + s ≤ last)
    ∧ (last = curr ∨ ∃ s, 0 ≤ s < i ∧ last = cell 0 max_indices s * n + s)).
  assert (H : P (Z.max 0 n)
    (for_loop n
       (λ sender max_seq_num,
          Z.max max_seq_num (i32 (cell 0 max_indices sender * n + sender)))
       curr)).
  { apply for_loop_invariant.
    - split; [lia |]. split; [intros s Hs; lia | by left].
    - intros i last Hi (Hle & Hall & Hex). rewrite i32_small by auto.
      split; [lia |]. split.
      + intros s Hs. destruct (decide (s = i)) as [-> | Hne]; [lia |].
        specialize (Hall s). lia.
      + destruct (decide (last ≤ cell 0 max_indices i * n + i)).
        * right. exists i. split; [lia |]. lia.
        * rewrite Z.max_l by lia. destruct Hex as [-> | (s & Hs & ->)]; [by left |].
          right. exists s. split; [lia | done]. }
  destruct H as (Hle & Hall & Hex). split; [done |]. split.
  - intros s Hs. apply Hall. lia.
  - destruct Hex as [-> | (s & Hs & ->)]; [by left |]. right. exists s. split; [lia | done].
Qed.

Lemma with_delivered_same vm : with_delivered (delivered vm) vm = vm.
Proof. by destruct vm. Qed.

Lemma with_delivered_twice d1 d2 vm :
  with_delivered d2 (with_delivered d1 vm) = with_delivered d2 vm.
Proof. done. Qed.

(** The delivery loop of [deliver_messages_upto] delivers, in increasing
    order, the sequence numbers that it does not skip. *)
Lemma delivery_loop max_indices sg n k from vm :
  loop_from k from
    (λ seq_num vm,
       let index := i32 (u32 seq_num `div` n) in
       let sender_rank := u32 seq_num `mod` n in
       if bool_decide (index > cell 0 max_indices sender_rank)
       then vm
       else with_delivered (delivered vm ++ [(sg, seq_num)]) vm)
    vm
  = with_delivered
      (delivered vm
       ++ (pair sg
           <$> filter
                 (λ seq, i32 (u32 seq `div` n) ≤ cell 0 max_indices (u32 seq `mod` n))
                 (seqZ from (Z.of_nat k))))
      vm.
Proof.
  revert from vm. induction k as [|k IH]; intros from vm.
  - cbn [loop_from]. rewrite seqZ_nil by lia. cbn.
    by rewrite app_nil_r, with_delivered_same.
  - cbn [loop_from]. rewrite IH. rewrite (seqZ_cons from) by lia.
    replace (Z.pred (Z.of_nat (S k))) with (Z.of_nat k) by lia.
    replace (Z.succ from) with (from + 1) by lia.
    rewrite filter_cons. cbn zeta.
    destruct (decide (i32 (u32 from `div` n) ≤ cell 0 max_indices (u32 from `mod` n)))
      as [Hle | Hgt].
    + rewrite bool_decide_eq_false_2 by lia.
      rewrite with_delivered_twice. cbn [delivered with_delivered].
      by rewrite fmap_cons, <- app_assoc.
    + rewrite bool_decide_eq_true_2 by lia. done.
Qed.

Lemma within_cut_last max_indices n last seq :
  0 < n →
  (∀ s, 0 ≤ s < n → cell 0 max_indices s * n + s ≤ last) →
  within_cut max_indices n seq → seq ≤ last.
Proof.
  intros Hn Hall [Hseq Hcut].
  pose proof (Z.mod_pos_bound seq n Hn) as Hs.
  pose proof (Z.div_mod seq n ltac:(lia)) as Hdm.
  specialize (Hall (seq `mod` n) Hs). nia.
Qed.

(** What [deliver_messages_upto] does to the state: it delivers the
    sequence numbers above [delivered_num] that are within the cut, in
    increasing order, and moves [delivered_num] to the last one of the
    cut. *)
Lemma deliver_messages_upto_spec max_indices sg n vm :
  let curr := cell 0 (SST.delivered_num (my_row vm)) (Z.of_nat sg) in
  ∃ new last,
    deliver_messages_upto max_indices sg n vm
    = put (put_shard_cells sg c_delivered_num (Z.of_nat sg) 1)
        (write_row (get_local_index vm)
           (λ row,
              SST.set_delivered_num
                (set_cell (SST.delivered_num row) (Z.of_nat sg) last) row)
           (with_delivered (delivered vm ++ (pair sg <$> new)) vm))
    ∧ (0 < n < 2 ^ 31 → -1 ≤ curr < 2 ^ 31 →
       (∀ s, 0 ≤ s < n →
             -1 ≤ cell 0 max_indices s ∧ cell 0 max_indices s * n + s < 2 ^ 31) →
       StronglySorted Z.lt new
       ∧ (∀ seq, seq ∈ new ↔ curr < seq ∧ within_cut max_indices n seq)
       ∧ curr ≤ last
       ∧ (∀ seq, within_cut max_indices n seq → seq ≤ last)).
Proof.
  intros curr. unfold deliver_messages_upto. rewrite delivery_loop.
  eexists _, _. split; [reflexivity |].
  intros Hn Hcurr Hrange. fold (my_row vm). fold curr.
  destruct (last_of_cut max_indices n curr) as (Hle & Hall & Hex).
  { intros s Hs. destruct (Hrange s Hs). nia. }
  set (last := for_loop n _ curr) in *.
  assert (Hlast : last < 2 ^ 31).
  { destruct Hex as [-> | (s & Hs & ->)]; [lia |]. by apply Hrange. }
  split; [apply filter_sorted, seqZ_sorted |]. split; [|split; [done |]].
  - intros seq. rewrite list_elem_of_filter, elem_of_seqZ. unfold within_cut.
    split.
    + intros [Hcut Hseq].
      rewrite !u32_small in Hcut by lia.
      rewrite i32_small in Hcut; [lia |].
      pose proof (Z.div_pos seq n ltac:(lia) ltac:(lia)).
      pose proof (Z.div_le_upper_bound seq n seq ltac:(lia) ltac:(nia)). lia.
    + intros [Hseq Hcut].
      pose proof (within_cut_last max_indices n last seq ltac:(lia) Hall Hcut).
      rewrite !u32_small by lia.
      rewrite i32_small.
      * split; [apply Hcut | lia].
      * pose proof (Z.div_pos seq n ltac:(lia) ltac:(lia)).
        pose proof (Z.div_le_upper_bound seq n seq ltac:(lia) ltac:(nia)). lia.
  - intros seq. apply within_cut_last; [lia | done].
Qed.

Lemma list_find_snoc {A} (P : A → Prop) `{!∀ x, Decision (P x)} l x :
  snd <$> list_find P (l ++ [x])
  = match snd <$> list_find P l with
    | Some y => Some y
    | None => if decide (P x) then Some x else None
    end.
Proof.
  destruct (list_find P l) as [[i y]|] eqn:E.
  - by rewrite (list_find_app_l P l [x] i y E).
  - rewrite (list_find_app_r P l [x] E). cbn. by case_decide.
Qed.

Lemma take_cell {A} (d : A) l i :
  0 ≤ i < size l → take (Z.to_nat (i + 1)) l = take (Z.to_nat i) l ++ [cell d l i].
Proof.
  intros Hi. unfold size in Hi.
  destruct (lookup_lt_is_Some_2 l (Z.to_nat i)) as [x Hx]; [lia |].
  rewrite (cell_lookup d l i x) by (done || lia).
  replace (Z.to_nat (i + 1)) with (S (Z.to_nat i)) by lia.
  by apply take_S_r.
Qed.

(** The first loop of the leader: it inherits the cells of the first
    shard member, in the order of the shard, whose flag is set. *)
Lemma inherit_global_min_spec sg off members n vm :
  inherit_global_min sg off members n vm
  = match list_find (λ m, ready_flag vm sg m = true) members with
    | Some (_, m) =>
        (write_row (View.my_rank (curr_view vm))
           (λ row,
              SST.set_global_min
                (copy_cells 0 (SST.global_min row)
                   (SST.global_min
                      (SST.row (gmsSST vm) (View.rank_of (curr_view vm) m)))
                   off n)
                row)
           vm,
         true)
    | None => (vm, false)
    end.
Proof.
  set (W := λ m : node_id_t,
    write_row (View.my_rank (curr_view vm))
      (λ row,
         SST.set_global_min
           (copy_cells 0 (SST.global_min row)
              (SST.global_min (SST.row (gmsSST vm) (View.rank_of (curr_view vm) m)))
              off n)
           row)
      vm).
  pose (P := λ (i : Z) (st : ViewManager * bool),
    st = match snd <$> list_find (λ m, ready_flag vm sg m = true)
                         (take (Z.to_nat i) members) with
         | Some m => (W m, true)
         | None => (vm, false)
         end).
  assert (H : P (Z.max 0 (size members)) (inherit_global_min sg off members n vm)).
  { unfold inherit_global_min. apply for_loop_invariant.
    - done.
    - intros i st Hi Hst. red in Hst. red.
      rewrite (take_cell 0) by done. rewrite list_find_snoc.
      destruct (snd <$> list_find _ (take (Z.to_nat i) members)) as [m|].
      + by subst st.
      + subst st. cbn beta iota zeta.
        destruct (decide (ready_flag vm sg (cell 0 members i) = true)) as [E | E].
        * unfold ready_flag in E. by rewrite E.
        * apply not_true_is_false in E. unfold ready_flag in E. by rewrite E. }
  red in H. rewrite H. unfold size. rewrite Z.max_r, Nat2Z.id, firstn_all by lia.
  by destruct (list_find _ members) as [[i m]|].
Qed.

(** The least value of [f] over the members that are [ok], starting from
    [x0]: the inner loop of the leader's computation. *)
Lemma least_loop (members : list Z) (f : Z → Z) (ok : Z → bool) x0 :
  let x :=
    for_loop (size members)
      (λ r min,
         if ok (cell 0 members r) && bool_decide (min > f (cell 0 members r))
         then f (cell 0 members r) else min)
      x0 in
  x ≤ x0
  ∧ (∀ m, m ∈ members → ok m = true → x ≤ f m)
  ∧ (x = x0 ∨ ∃ m, m ∈ members ∧ ok m = true ∧ x = f m).
Proof.
  pose (P := λ (i : Z) (x : Z),
    x ≤ x0
    ∧ (∀ m, m ∈ take (Z.to_nat i) members → ok m = true → x ≤ f m)
    ∧ (x = x0 ∨ ∃ m, m ∈ members ∧ ok m = true ∧ x = f m)).
  assert (H : P (Z.max 0 (size members))
    (for_loop (size members)
       (λ r min,
          if ok (cell 0 members r) && bool_decide (min > f (cell 0 members r))
          then f (cell 0 members r) else min)
       x0)).
  { apply for_loop_invariant.
    - split; [lia |]. split; [|by left]. intros m Hm. by apply elem_of_nil in Hm.
    - intros i x Hi (Hle & Hall & Hex).
      pose proof (cell_elem_of members i Hi) as Hin.
      red. rewrite (take_cell 0) by done.
      destruct (ok (cell 0 members i)) eqn:Hok; cbn [andb].
      + case_bool_decide as Hgt.
        * split; [lia |]. split.
          -- intros m [Hm | Hm]%elem_of_app Hokm.
             ++ specialize (Hall m Hm Hokm). lia.
             ++ apply list_elem_of_singleton in Hm as ->. lia.
          -- right. by exists (cell 0 members i).
        * split; [done |]. split; [|done].
          intros m [Hm | Hm]%elem_of_app Hokm; [by apply Hall |].
          apply list_elem_of_singleton in Hm as ->. lia.
      + split; [done |]. split; [|done].
        intros m [Hm | Hm]%elem_of_app Hokm; [by apply Hall |].
        apply list_elem_of_singleton in Hm as ->. congruence. }
  destruct H as (Hle & Hall & Hex). split; [done |]. split; [|done].
  intros m Hm. apply Hall. unfold size. by rewrite Z.max_r, Nat2Z.id, firstn_all by lia.
Qed.

Lemma with_gmsSST_of vm vm1 t :
  vm1 = with_gmsSST (gmsSST vm1) vm → with_gmsSST t vm1 = with_gmsSST t vm.
Proof. intros H. by rewrite H. Qed.

(** The second loop of the leader: every cell of the shard's senders
    becomes the least count received over the local row and the rows of
    the non-failed shard members; nothing but the local [global_min]
    changes. *)
Lemma compute_global_min_spec off members n vm :
  let me := View.my_rank (curr_view vm) in
  let vm' := compute_global_min off members n vm in
  0 ≤ me < size (gmsSST vm) →
  0 ≤ off → off + n ≤ size (SST.global_min (my_row vm)) →
  vm' = with_gmsSST (gmsSST vm') vm
  ∧ size (gmsSST vm') = size (gmsSST vm)
  ∧ (∀ r, SST.num_received (SST.row (gmsSST vm') r)
          = SST.num_received (SST.row (gmsSST vm) r)
          ∧ SST.global_min_ready (SST.row (gmsSST vm') r)
            = SST.global_min_ready (SST.row (gmsSST vm) r)
          ∧ SST.delivered_num (SST.row (gmsSST vm') r)
            = SST.delivered_num (SST.row (gmsSST vm) r))
  ∧ size (SST.global_min (my_row vm')) = size (SST.global_min (my_row vm))
  ∧ ∀ s, 0 ≤ s < n →
         least_received vm members (off + s)
           (cell 0 (SST.global_min (my_row vm')) (off + s)).
Proof.
  intros me vm' Hme Hoff Hfit.
  pose (P := λ (i : Z) (vm1 : ViewManager),
    vm1 = with_gmsSST (gmsSST vm1) vm
    ∧ size (gmsSST vm1) = size (gmsSST vm)
    ∧ (∀ r, SST.num_received (SST.row (gmsSST vm1) r)
            = SST.num_received (SST.row (gmsSST vm) r)
            ∧ SST.global_min_ready (SST.row (gmsSST vm1) r)
              = SST.global_min_ready (SST.row (gmsSST vm) r)
            ∧ SST.delivered_num (SST.row (gmsSST vm1) r)
              = SST.delivered_num (SST.row (gmsSST vm) r))
    ∧ size (SST.global_min (SST.row (gmsSST vm1) me))
      = size (SST.global_min (my_row vm))
    ∧ ∀ s, 0 ≤ s < i →
           least_received vm members (off + s)
             (cell 0 (SST.global_min (SST.row (gmsSST vm1) me)) (off + s))).
  assert (H : P (Z.max 0 n) vm').
  { unfold vm', compute_global_min. apply for_loop_invariant.
    - red. split; [by destruct vm |]. split; [done |]. split; [done |].
      split; [done |]. intros s Hs. lia.
    - intros i vm1 Hi (Heq & Hsize & Hrows & Hgm & Hleast). red.
      fold me. set (x := for_loop (size members) _ _).
      assert (Hx : least_received vm members (off + i) x).
      { unfold least_received, received, is_live. fold me.
        destruct (Hrows me) as (<- & _).
        pose proof (least_loop members
          (λ m, cell 0 (SST.num_received
                          (SST.row (gmsSST vm1) (View.rank_of (curr_view vm) m)))
                  (off + i))
          (λ m, negb (cell false (View.failed (curr_view vm))
                        (View.rank_of (curr_view vm) m)))
          (cell 0 (SST.num_received (SST.row (gmsSST vm1) me)) (off + i)))
          as (Hle & Hall & Hex).
        cbn beta zeta in Hle, Hall, Hex. fold x in Hle, Hall, Hex.
        split; [done |]. split.
        - intros m Hm Hlive. destruct (Hrows (View.rank_of (curr_view vm) m)) as (<- & _).
          by apply Hall.
        - destruct Hex as [-> | (m & Hm & Hlive & ->)]; [by left |].
          right. exists m. destruct (Hrows (View.rank_of (curr_view vm) m)) as (<- & _).
          done. }
      clearbody x.
      split; [unfold write_row; by apply with_gmsSST_of |].
      split; [by rewrite size_write_row |]. split.
      + intros r. rewrite row_write_row.
        case_bool_decide as Hc; [|apply Hrows].
        destruct Hc as [-> _]. destruct (SST.row (gmsSST vm1) me) eqn:E.
        specialize (Hrows me). rewrite E in Hrows. apply Hrows.
      + rewrite row_write_row, bool_decide_eq_true_2 by (split; [done | lia]).
        assert (Hgm' : ∀ g, SST.global_min
                              (SST.set_global_min g (SST.row (gmsSST vm1) me)) = g).
        { intros g. by destruct (SST.row (gmsSST vm1) me). }
        rewrite Hgm'. split; [by rewrite size_set_cell |].
        intros s Hs. rewrite cell_set_cell.
        case_bool_decide as Hc.
        * destruct Hc as [Hc _]. by replace s with i by lia.
        * apply Hleast.
          destruct (decide (s = i)) as [-> | Hne]; [|lia].
          exfalso. apply Hc. split; [done |]. rewrite Hgm. lia. }
  destruct H as (Heq & Hsize & Hrows & Hgm & Hleast).
  assert (Hcv : curr_view vm' = curr_view vm) by (by rewrite Heq).
  split; [done |]. split; [done |]. split; [done |].
  unfold my_row at 1 3, get_local_index. rewrite Hcv. fold me.
  split; [exact Hgm |]. intros s Hs. apply Hleast. lia.
Qed.

Lemma cell_fmap_seqZ {A} (d : A) (f : Z → A) n s :
  0 ≤ s < n → cell d (f <$> seqZ 0 n) s = f s.
Proof.
  intros Hs. apply cell_lookup; [lia |].
  rewrite list_lookup_fmap, lookup_seqZ_lt by lia.
  rewrite Z.add_0_l, Z2Nat.id by lia. done.
Qed.

(** [deliver_in_order]: the cut is the shard leader's [global_min] cells
    as the local table shows them; it is logged when there are persistent
    objects; the sequence numbers within the cut and above the local
    [delivered_num] are delivered in increasing order; the trim itself is
    left as it is. *)
Lemma deliver_in_order_spec leader sg off members n vm :
  let cut :=
    (λ s, cell 0 (SST.global_min (SST.row (gmsSST vm) leader)) (off + s))
    <$> seqZ 0 n in
  let curr := cell 0 (SST.delivered_num (my_row vm)) (Z.of_nat sg) in
  let vm' := (deliver_in_order leader sg off members n vm).1 in
  (deliver_in_order leader sg off members n vm).2 = cut
  ∧ curr_view vm' = curr_view vm
  ∧ published vm' = published vm ++ [put_shard_cells sg c_delivered_num (Z.of_nat sg) 1]
  ∧ (∀ r, SST.global_min (SST.row (gmsSST vm') r)
          = SST.global_min (SST.row (gmsSST vm) r)
          ∧ SST.global_min_ready (SST.row (gmsSST vm') r)
            = SST.global_min_ready (SST.row (gmsSST vm) r))
  ∧ (any_persistent_objects vm = true →
     ∃ shard_num leader_id,
       saved_ragged_trims vm'
       = saved_ragged_trims vm
         ++ [mkRaggedTrim sg shard_num (View.vid (curr_view vm)) leader_id cut])
  ∧ ∃ new,
      delivered vm' = delivered vm ++ (pair sg <$> new)
      ∧ (0 < n < 2 ^ 31 → -1 ≤ curr < 2 ^ 31 →
         (∀ s, 0 ≤ s < n → -1 ≤ cell 0 cut s ∧ cell 0 cut s * n + s < 2 ^ 31) →
         StronglySorted Z.lt new
         ∧ ∀ seq, seq ∈ new ↔ curr < seq ∧ within_cut cut n seq).
Proof.
  intros cut curr vm'.
  pose proof (deliver_in_order_indices leader sg off members n vm) as Hcut.
  fold cut in Hcut. split; [done |].
  unfold vm', deliver_in_order. cbn [fst].
  rewrite fill_cells. fold cut.
  set (logged := if any_persistent_objects vm then _ else vm).
  assert (Hlog : logged = with_saved_ragged_trims (saved_ragged_trims logged) vm).
  { unfold logged. destruct (any_persistent_objects vm); by destruct vm. }
  destruct (deliver_messages_upto_spec cut sg n logged) as (new & last & -> & Hnew).
  assert (Hcurr : cell 0 (SST.delivered_num (my_row logged)) (Z.of_nat sg) = curr).
  { by rewrite Hlog. }
  rewrite Hcurr in Hnew.
  split; [by rewrite Hlog |]. split; [by rewrite Hlog |]. split.
  { intros r. cbn [put write_row with_published with_gmsSST gmsSST with_delivered].
    rewrite row_update. replace (gmsSST logged) with (gmsSST vm) by (by rewrite Hlog).
    case_bool_decide as Hc; [|done].
    destruct Hc as [-> _]. unfold get_local_index.
    replace (curr_view logged) with (curr_view vm) by (by rewrite Hlog).
    by destruct (SST.row (gmsSST vm) (View.my_rank (curr_view vm))). }
  split.
  { intros Hp. unfold logged. rewrite Hp. eexists _, _. reflexivity. }
  exists new. split; [by rewrite Hlog |].
  intros Hn Hc Hrange. destruct (Hnew Hn Hc Hrange) as (Hs & Hmem & _). done.
Qed.

(** The common end of the two cleanup functions, from a state [vm] in
    which the trim is in the local row: set the flag, publish the trim
    and the flag, deliver. *)
Lemma publish_trim_spec leader sg off members n vm :
  let me := View.my_rank (curr_view vm) in
  let flagged :=
    put (put_shard_cells sg c_global_min_ready (Z.of_nat sg) 1)
      (put (put_shard_cells sg c_global_min off n)
         (write_row me
            (λ row,
               SST.set_global_min_ready
                 (set_cell (SST.global_min_ready row) (Z.of_nat sg) true) row)
            vm)) in
  let cut :=
    (λ s, cell 0 (SST.global_min (SST.row (gmsSST vm) leader)) (off + s))
    <$> seqZ 0 n in
  let curr := cell 0 (SST.delivered_num (my_row vm)) (Z.of_nat sg) in
  let vm' := (deliver_in_order leader sg off members n flagged).1 in
  0 ≤ me < size (gmsSST vm) →
  Z.of_nat sg < size (SST.global_min_ready (my_row vm)) →
  (deliver_in_order leader sg off members n flagged).2 = cut
  ∧ curr_view vm' = curr_view vm
  ∧ (∀ r, SST.global_min (SST.row (gmsSST vm') r)
          = SST.global_min (SST.row (gmsSST vm) r))
  ∧ cell false (SST.global_min_ready (my_row vm')) (Z.of_nat sg) = true
  ∧ published vm'
    = published vm
      ++ [put_shard_cells sg c_global_min off n;
          put_shard_cells sg c_global_min_ready (Z.of_nat sg) 1;
          put_shard_cells sg c_delivered_num (Z.of_nat sg) 1]
  ∧ (any_persistent_objects vm = true →
     ∃ shard_num leader_id,
       saved_ragged_trims vm'
       = saved_ragged_trims vm
         ++ [mkRaggedTrim sg shard_num (View.vid (curr_view vm)) leader_id cut])
  ∧ ∃ new,
      delivered vm' = delivered vm ++ (pair sg <$> new)
      ∧ (0 < n < 2 ^ 31 → -1 ≤ curr < 2 ^ 31 →
         (∀ s, 0 ≤ s < n → -1 ≤ cell 0 cut s ∧ cell 0 cut s * n + s < 2 ^ 31) →
         StronglySorted Z.lt new
         ∧ ∀ seq, seq ∈ new ↔ curr < seq ∧ within_cut cut n seq).
Proof.
  intros me flagged cut curr vm' Hme Hsg.
  assert (Hrow : ∀ r,
    SST.row (gmsSST flagged) r
    = if bool_decide (r = me)
      then SST.set_global_min_ready
             (set_cell (SST.global_min_ready (SST.row (gmsSST vm) me)) (Z.of_nat sg) true)
             (SST.row (gmsSST vm) me)
      else SST.row (gmsSST vm) r).
  { intros r. unfold flagged. cbn [put with_published gmsSST].
    rewrite row_write_row.
    destruct (decide (r = me)) as [-> | Hne].
    - by rewrite !bool_decide_eq_true_2 by done.
    - rewrite !bool_decide_eq_false_2; [done | done | by intros [? _]]. }
  assert (Hgm : ∀ r, SST.global_min (SST.row (gmsSST flagged) r)
                     = SST.global_min (SST.row (gmsSST vm) r)).
  { intros r. rewrite Hrow. case_bool_decide as Hc; [|done].
    subst r. by destruct (SST.row (gmsSST vm) me). }
  destruct (deliver_in_order_spec leader sg off members n flagged)
    as (Hcut & Hcv & Hpub & Hrows & Hlog & new & Hdel & Hnew).
  fold vm' in Hcv, Hpub, Hrows, Hlog, Hdel.
  rewrite Hgm in Hcut, Hlog, Hnew. fold cut in Hcut, Hlog, Hnew.
  split; [done |]. split; [done |]. split.
  { intros r. destruct (Hrows r) as [-> _]. apply Hgm. }
  split.
  { unfold my_row, get_local_index. rewrite Hcv.
    change (View.my_rank (curr_view flagged)) with me.
    destruct (Hrows me) as [_ ->]. rewrite Hrow, bool_decide_eq_true_2 by done.
    fold (my_row vm) in *. unfold my_row, get_local_index in Hsg. fold me in Hsg.
    destruct (SST.row (gmsSST vm) me); cbn in *.
    apply cell_set_cell_eq. lia. }
  split.
  { rewrite Hpub. unfold flagged. cbn [put with_published published write_row with_gmsSST].
    by rewrite <- !app_assoc. }
  split; [exact Hlog |].
  exists new. split; [exact Hdel |].
  assert (Hcurr : cell 0 (SST.delivered_num (my_row flagged)) (Z.of_nat sg) = curr).
  { unfold my_row, get_local_index.
    change (View.my_rank (curr_view flagged)) with me.
    rewrite Hrow, bool_decide_eq_true_2 by done. unfold curr, my_row, get_local_index.
    fold me. by destruct (SST.row (gmsSST vm) me). }
  by rewrite Hcurr in Hnew.
Qed.

(** What [leader_ragged_edge_cleanup] leaves behind: the trim in the
    local row, the flag, the three writes published, the cut it returns
    and the messages it delivers. *)
Lemma leader_ragged_edge_cleanup_spec sg off members n vm :
  let me := View.my_rank (curr_view vm) in
  let vm' := (leader_ragged_edge_cleanup sg off members n vm).1 in
  let cut := (leader_ragged_edge_cleanup sg off members n vm).2 in
  let trim := λ s, cell 0 (SST.global_min (my_row vm')) (off + s) in
  let curr := cell 0 (SST.delivered_num (my_row vm)) (Z.of_nat sg) in
  0 ≤ me < size (gmsSST vm) →
  0 ≤ off → off + n ≤ size (SST.global_min (my_row vm)) →
  Z.of_nat sg < size (SST.global_min_ready (my_row vm)) →
  (∀ s, 0 ≤ s < n →
     match list_find (λ m, ready_flag vm sg m = true) members with
     | Some (_, m) =>
         trim s
         = cell 0
             (SST.global_min (SST.row (gmsSST vm) (View.rank_of (curr_view vm) m)))
             (off + s)
     | None => least_received vm members (off + s) (trim s)
     end)
  ∧ cell false (SST.global_min_ready (my_row vm')) (Z.of_nat sg) = true
  ∧ published vm'
    = published vm
      ++ [put_shard_cells sg c_global_min off n;
          put_shard_cells sg c_global_min_ready (Z.of_nat sg) 1;
          put_shard_cells sg c_delivered_num (Z.of_nat sg) 1]
  ∧ cut = trim <$> seqZ 0 n
  ∧ ∃ new,
      delivered vm' = delivered vm ++ (pair sg <$> new)
      ∧ (0 < n < 2 ^ 31 → -1 ≤ curr < 2 ^ 31 →
         (∀ s, 0 ≤ s < n → -1 ≤ cell 0 cut s ∧ cell 0 cut s * n + s < 2 ^ 31) →
         StronglySorted Z.lt new
         ∧ ∀ seq, seq ∈ new ↔ curr < seq ∧ within_cut cut n seq).
Proof.
  intros me vm' cut trim curr Hme Hoff Hfit Hsg.
  unfold trim, cut, vm', leader_ragged_edge_cleanup.
  rewrite inherit_global_min_spec. fold me.
  destruct (list_find _ members) as [[i m]|]; cbn [negb].
  - (* a member has published a trim *)
    set (src := SST.global_min (SST.row (gmsSST vm) (View.rank_of (curr_view vm) m))).
    set (vm1 := write_row me _ vm).
    assert (Hmine : SST.row (gmsSST vm1) me
                    = SST.set_global_min
                        (copy_cells 0 (SST.global_min (my_row vm)) src off n)
                        (my_row vm)).
    { unfold vm1. by rewrite row_write_row, bool_decide_eq_true_2. }
    destruct (publish_trim_spec me sg off members n vm1)
      as (Hcut & Hcv & Hgm & Hflag & Hpub & _ & new & Hdel & Hnew).
    { unfold vm1. by rewrite size_write_row. }
    { change (my_row vm1) with (SST.row (gmsSST vm1) me). rewrite Hmine.
      by destruct (my_row vm). }
    change (View.my_rank (curr_view vm1)) with me in *.
    assert (Hcurr : cell 0 (SST.delivered_num (my_row vm1)) (Z.of_nat sg) = curr).
    { change (my_row vm1) with (SST.row (gmsSST vm1) me). rewrite Hmine.
      unfold curr. by destruct (my_row vm). }
    rewrite Hcurr in Hnew. rewrite <- Hcut in Hnew.
    set (res := deliver_in_order me sg off members n _) in *.
    assert (Hcell : ∀ j, cell 0 (SST.global_min (my_row res.1)) j
                         = cell 0 (copy_cells 0 (SST.global_min (my_row vm)) src off n) j).
    { intros j. unfold my_row in *. unfold get_local_index in *. rewrite Hcv.
      change (View.my_rank (curr_view vm1)) with me.
      rewrite Hgm, Hmine. by destruct (SST.row (gmsSST vm) (View.my_rank (curr_view vm))). }
    destruct (copy_cells_spec 0 (SST.global_min (my_row vm)) src off n Hoff Hfit)
      as [_ Hcopy].
    split.
    { intros s Hs. rewrite Hcell, Hcopy, bool_decide_eq_true_2 by lia. done. }
    split; [exact Hflag |]. split; [exact Hpub |]. split.
    { rewrite Hcut. apply list_fmap_ext. intros k s Hk.
      unfold my_row at 1, get_local_index. rewrite Hcv.
      change (View.my_rank (curr_view vm1)) with me. by rewrite Hgm. }
    exists new. split; [exact Hdel | exact Hnew].
  - (* nobody has: compute the trim *)
    destruct (compute_global_min_spec off members n vm Hme Hoff Hfit)
      as (Heq & Hsize & Hrows & Hgmsize & Hleast).
    set (vm1 := compute_global_min off members n vm) in *.
    assert (Hcv1 : curr_view vm1 = curr_view vm) by (by rewrite Heq).
    assert (Hpub1 : published vm1 = published vm) by (by rewrite Heq).
    assert (Hdel1 : delivered vm1 = delivered vm) by (by rewrite Heq).
    assert (Hme1 : View.my_rank (curr_view vm1) = me) by (by rewrite Hcv1).
    destruct (publish_trim_spec me sg off members n vm1)
      as (Hcut & Hcv & Hgm & Hflag & Hpub & _ & new & Hdel & Hnew).
    { rewrite Hme1, Hsize. done. }
    { unfold my_row, get_local_index. rewrite Hme1.
      destruct (Hrows me) as (_ & -> & _). done. }
    rewrite Hme1 in *.
    assert (Hcurr : cell 0 (SST.delivered_num (my_row vm1)) (Z.of_nat sg) = curr).
    { unfold my_row, get_local_index. rewrite Hme1.
      destruct (Hrows me) as (_ & _ & ->). done. }
    rewrite Hcurr in Hnew. rewrite <- Hcut in Hnew.
    set (res := deliver_in_order me sg off members n _) in *.
    assert (Hmy : SST.global_min (my_row res.1) = SST.global_min (my_row vm1)).
    { unfold my_row, get_local_index. by rewrite Hcv, Hgm. }
    split.
    { intros s Hs. rewrite Hmy. by apply Hleast. }
    split; [exact Hflag |]. split; [by rewrite Hpub, Hpub1 |]. split.
    { rewrite Hcut, Hmy. unfold my_row, get_local_index. by rewrite Hme1. }
    exists new. split; [by rewrite Hdel, Hdel1 | exact Hnew].
Qed.

(** C3.  For a shard it leads, the leader takes the first member of the
    shard, in the order of the shard and whether it failed or not, whose
    [global_min_ready] flag for the subgroup is set, and copies that
    member's [global_min] cells of the shard's senders into its own row;
    if no member has the flag, every such cell becomes the least
    [num_received] of that sender over the local row and the rows of the
    non-failed shard members.  It then sets its own flag and publishes
    the cells and the flag to the shard, before it delivers. *)
Theorem leader_ragged_edge_cleanup_inherits_or_computes sg off members n vm :
  let me := View.my_rank (curr_view vm) in
  let vm' := (leader_ragged_edge_cleanup sg off members n vm).1 in
  let trim := λ s, cell 0 (SST.global_min (my_row vm')) (off + s) in
  0 ≤ me < size (gmsSST vm) →
  0 ≤ off → off + n ≤ size (SST.global_min (my_row vm)) →
  Z.of_nat sg < size (SST.global_min_ready (my_row vm)) →
  (∀ s, 0 ≤ s < n →
     match list_find (λ m, ready_flag vm sg m = true) members with
     | Some (_, m) =>
         trim s
         = cell 0
             (SST.global_min (SST.row (gmsSST vm) (View.rank_of (curr_view vm) m)))
             (off + s)
     | None => least_received vm members (off + s) (trim s)
     end)
  ∧ cell false (SST.global_min_ready (my_row vm')) (Z.of_nat sg) = true
  ∧ published vm'
    = published vm
      ++ [put_shard_cells sg c_global_min off n;
          put_shard_cells sg c_global_min_ready (Z.of_nat sg) 1;
          put_shard_cells sg c_delivered_num (Z.of_nat sg) 1].
Proof.
  intros me vm' trim Hme Hoff Hfit Hsg.
  destruct (leader_ragged_edge_cleanup_spec sg off members n vm Hme Hoff Hfit Hsg)
    as (Htrim & Hflag & Hpub & _).
  split; [exact Htrim |]. split; [exact Hflag | exact Hpub].
Qed.

(** At [new_shard_leader] no non-failed member of the shard has
    published a trim, and the leader takes the cells of the failed member
    1 instead of the least counts of the non-failed members. *)
Lemma leader_inherits_trim_of_failed_member :
  let vm := new_shard_leader in
  list_find (λ m, ready_flag vm 0 m = true)
    (filter (λ m, is_live vm m = true) [1; 2; 3]) = None
  ∧ cell 0 (SST.global_min (my_row (leader_ragged_edge_cleanup 0 0 [1; 2; 3] 2 vm).1)) 1
    ≠ claimed_global_min vm 0 0 [1; 2; 3] 1.
Proof.
  split; [vm_compute; reflexivity |]. vm_compute. discriminate.
Qed.

Lemma leader_ragged_edge_cleanup_inherits_or_computes_witness :
  let vm := new_shard_leader in
  let vm' := (leader_ragged_edge_cleanup 0 0 [1; 2; 3] 2 vm).1 in
  let trim := λ s, cell 0 (SST.global_min (my_row vm')) (0 + s) in
  (∀ s, 0 ≤ s < 2 →
     match list_find (λ m, ready_flag vm 0 m = true) [1; 2; 3] with
     | Some (_, m) =>
         trim s
         = cell 0
             (SST.global_min (SST.row (gmsSST vm) (View.rank_of (curr_view vm) m)))
             (0 + s)
     | None => least_received vm [1; 2; 3] (0 + s) (trim s)
     end)
  ∧ cell false (SST.global_min_ready (my_row vm')) (Z.of_nat 0) = true
  ∧ published vm'
    = published vm
      ++ [put_shard_cells 0 c_global_min 0 2;
          put_shard_cells 0 c_global_min_ready (Z.of_nat 0) 1;
          put_shard_cells 0 c_delivered_num (Z.of_nat 0) 1].
Proof.
  apply (leader_ragged_edge_cleanup_inherits_or_computes 0 0 [1; 2; 3] 2 new_shard_leader);
    vm_compute; try split; discriminate || reflexivity.
Defined.



(** ** The join handshake *)

Lemma bind_returns {A B} (m : M A) (f : A → M B) j x j' :
  m j = Returns (x, j') → (m ≫= f) j = f x j'.
Proof. intros H. unfold mbind, M_bind. by rewrite H. Qed.

Lemma bind_raises {A B} (m : M A) (f : A → M B) j e :
  m j = Raises e → (m ≫= f) j = Raises e.
Proof. intros H. unfold mbind, M_bind. by rewrite H. Qed.

Lemma bind_same {A B} (m m' : M A) (f : A → M B) j j' :
  m j = m' j' → (m ≫= f) j = (m' ≫= f) j'.
Proof. intros H. unfold mbind, M_bind. by rewrite H. Qed.

(** Runs the first statement of a sequence. *)
Ltac run_statement :=
  erewrite bind_returns; [|reflexivity];
  cbn [negb as_response as_size as_ip as_port as_view as_params as_trim as_flag].

Lemma exchange_ids_answer network my_id ip port rest up snt v p r o code leader_id :
  up = true → code ≠ ID_IN_USE → code ≠ LEADER_REDIRECT →
  exchange_ids network my_id
    (mkJoining (mkSocket ip port (w_response (code, leader_id) :: rest) up snt) v p r o)
  = Returns
      ((code, leader_id),
       mkJoining (mkSocket ip port rest up (snt ++ [w_id my_id])) v p r o).
Proof. intros -> H1 H2. by destruct network, code. Qed.

Lemma exchange_ids_in_use network my_id ip port rest up snt v p r o leader_id :
  up = true →
  exchange_ids network my_id
    (mkJoining (mkSocket ip port (w_response (ID_IN_USE, leader_id) :: rest) up snt)
       v p r o)
  = Raises id_already_in_use.
Proof. intros ->. by destruct network. Qed.

Lemma exchange_ids_redirect peer network my_id ip port k ip' port' rest up snt v p r o
    leader_id :
  up = true →
  exchange_ids (peer :: network) my_id
    (mkJoining
       (mkSocket ip port
          (w_response (LEADER_REDIRECT, leader_id)
           :: w_size k :: w_ip ip' :: w_port port' :: rest)
          up snt)
       v p r o)
  = exchange_ids network my_id
      (mkJoining (mkSocket ip' port' (peer_sends peer) (peer_stays_up peer) []) v p r o).
Proof. intros ->. done. Qed.

(** The trims that the leader sends are filed one by one. *)
Lemma receive_trims_loop local trims start tail ip port up snt v p m o :
  for_each (seq start (length trims))
    (λ _,
       size_of_ragged_trim ← read as_size;
       buffer ← read as_trim;
       let ragged_trim := default no_trim buffer in
       modify (λ j,
         with_restart_state
           (Some (map_update_at [] (trim_subgroup_id ragged_trim)
                    (map_emplace (trim_shard_num ragged_trim) ragged_trim)
                    (default [] (restart_state j))))
           j))
    (mkJoining
       (mkSocket ip port
          (flat_map (λ t, [w_size (bytes_size local (w_trim t)); w_trim t]) trims ++ tail)
          up snt)
       v p (Some m) o)
  = Returns
      ((),
       mkJoining (mkSocket ip port tail up snt) v p
         (Some (foldl
                  (λ m t,
                     map_update_at [] (trim_subgroup_id t)
                       (map_emplace (trim_shard_num t) t) m)
                  m trims))
         o).
Proof.
  revert start m. induction trims as [|t trims IH]; intros start m; [done |].
  cbn [length seq for_each flat_map foldl].
  erewrite bind_returns; [apply IH | done].
Qed.

Lemma receive_ragged_trims_spec local trims tail ip port up snt v p r o :
  receive_ragged_trims
    (mkJoining (mkSocket ip port (encode_trims local trims ++ tail) up snt) v p r o)
  = Returns
      ((), mkJoining (mkSocket ip port tail up snt) v p (Some (file_trims trims)) o).
Proof.
  unfold receive_ragged_trims, encode_trims, file_trims.
  do 2 run_statement.
  cbn [from_option as_size id]. unfold size. rewrite Nat2Z.id.
  apply (receive_trims_loop local).
Qed.

(** One round of the wait: the proposal is taken in, and the wait ends
    when it was committed. *)
Lemma await_view_round local fuel restart prop tail ip port up snt v p r o :
  await_view (S fuel) restart
    (mkJoining (mkSocket ip port (encode_proposal local restart prop ++ tail) up snt)
       v p r o)
  = let j' :=
      mkJoining (mkSocket ip port tail up snt) (Some (proposed_view prop))
        (proposed_params prop)
        (if restart then Some (file_trims (proposed_trims prop)) else r) o in
    if committed prop then Returns ((), j') else await_view fuel restart j'.
Proof.
  destruct restart.
  - unfold encode_proposal. rewrite <- !app_assoc. cbn [app await_view].
    run_statement. rewrite bool_decide_eq_true_2 by (by eexists). cbn [negb].
    do 5 run_statement.
    erewrite bind_returns; [|apply (receive_ragged_trims_spec local)].
    run_statement.
    by destruct (committed prop).
  - destruct (committed prop) eqn:E; unfold encode_proposal; rewrite E; done.
Qed.

(** The wait goes through the aborted proposals and ends at the first
    committed one. *)
Lemma await_view_commits local restart aborted final tail fuel ip port up snt v p r o :
  Forall (λ q, committed q = false) aborted → committed final = true →
  (length aborted < fuel)%nat →
  await_view fuel restart
    (mkJoining
       (mkSocket ip port
          (flat_map (encode_proposal local restart) aborted
           ++ encode_proposal local restart final ++ tail)
          up snt)
       v p r o)
  = Returns
      ((),
       mkJoining (mkSocket ip port tail up snt) (Some (proposed_view final))
         (proposed_params final)
         (if restart then Some (file_trims (proposed_trims final)) else r) o).
Proof.
  intros Haborted Hfinal. revert fuel v p r.
  induction Haborted as [|q aborted Hq _ IH]; intros fuel v p r Hfuel.
  - destruct fuel as [|fuel]; [cbn in Hfuel; lia |].
    cbn [flat_map app]. rewrite await_view_round. cbn zeta. by rewrite Hfinal.
  - destruct fuel as [|fuel]; [cbn in Hfuel; lia |].
    cbn [flat_map]. rewrite <- app_assoc, await_view_round. cbn zeta.
    rewrite Hq, IH by (cbn in Hfuel; lia). by destruct restart.
Qed.

(** When the leader goes away after aborted proposals only, the wait
    ends with an exception. *)
Lemma await_view_crash local restart aborted fuel ip port up snt v p r o :
  Forall (λ q, committed q = false) aborted →
  await_view fuel restart
    (mkJoining
       (mkSocket ip port (flat_map (encode_proposal local restart) aborted) up snt)
       v p r o)
  = Raises leader_crashed_initial_view.
Proof.
  intros Haborted. revert fuel v p r.
  induction Haborted as [|q aborted Hq _ IH]; intros fuel v p r.
  - by destruct fuel.
  - destruct fuel as [|fuel]; [done |].
    cbn [flat_map]. rewrite await_view_round. cbn zeta. by rewrite Hq, IH.
Qed.

Lemma encoded_length local restart (proposals : list Proposal) tail :
  (length proposals
   ≤ length (flat_map (encode_proposal local restart) proposals ++ tail))%nat.
Proof.
  induction proposals as [|q proposals IH]; [cbn; lia |].
  cbn [flat_map]. rewrite <- app_assoc. unfold encode_proposal at 1.
  cbn [app length]. rewrite length_app. lia.
Qed.

(** *** The wait does not depend on its fuel *)

Lemma for_each_takes {A} (l : list A) (body : A → M unit) :
  (∀ x j, ∃ j', body x j = Returns ((), j')
                ∧ (length (incoming (leader_connection j'))
                   ≤ length (incoming (leader_connection j)))%nat) →
  ∀ j, ∃ j', for_each l body j = Returns ((), j')
             ∧ (length (incoming (leader_connection j'))
                ≤ length (incoming (leader_connection j)))%nat.
Proof.
  intros Hbody. induction l as [|x l IH]; intros j.
  - exists j. split; [done | lia].
  - destruct (Hbody x j) as (j1 & Hx & Hlen1). destruct (IH j1) as (j2 & Hl & Hlen2).
    exists j2. split; [|lia]. cbn [for_each]. by erewrite bind_returns.
Qed.

(** Reading the trims of the leader takes items from the connection and
    cannot fail. *)
Lemma receive_ragged_trims_takes j :
  ∃ j', receive_ragged_trims j = Returns ((), j')
        ∧ (length (incoming (leader_connection j'))
           ≤ length (incoming (leader_connection j)))%nat.
Proof.
  unfold receive_ragged_trims.
  destruct j as [[ip port inc up snt] v p r o].
  assert (Hloop : ∀ n j, ∃ j',
    for_each (seq 0 n)
      (λ _,
         size_of_ragged_trim ← read as_size;
         buffer ← read as_trim;
         let ragged_trim := default no_trim buffer in
         modify (λ j,
           with_restart_state
             (Some (map_update_at [] (trim_subgroup_id ragged_trim)
                      (map_emplace (trim_shard_num ragged_trim) ragged_trim)
                      (default [] (restart_state j))))
             j))
      j
    = Returns ((), j')
    ∧ (length (incoming (leader_connection j'))
       ≤ length (incoming (leader_connection j)))%nat).
  { intros n. apply for_each_takes. intros _ [[ip' port' inc' up' snt'] v' p' r' o'].
    destruct inc' as [|w1 [|w2 inc']]; eexists;
      (split; [do 2 run_statement; reflexivity | cbn; lia]). }
  destruct inc as [|w inc].
  - destruct (Hloop (Z.to_nat (default 0 None))
                (mkJoining (mkSocket ip port [] up snt) v p (Some []) o))
      as (j' & Hj' & Hlen).
    exists j'. split; [|exact Hlen]. do 2 run_statement. exact Hj'.
  - destruct (Hloop (Z.to_nat (default 0 (as_size w)))
                (mkJoining (mkSocket ip port inc up snt) v p (Some []) o))
      as (j' & Hj' & Hlen).
    exists j'. split; [|cbn in *; lia]. do 2 run_statement. exact Hj'.
Qed.

(** Every round of the wait either ends it or goes on with less on the
    connection. *)
Lemma await_view_step restart j :
  ∃ next : result (() * Joining) + Joining,
    (∀ fuel,
       await_view (S fuel) restart j
       = match next with
         | inl ended => ended
         | inr j' => await_view fuel restart j'
         end)
    ∧ match next with
      | inl _ => True
      | inr j' =>
          (length (incoming (leader_connection j'))
           < length (incoming (leader_connection j)))%nat
      end.
Proof.
  assert (Hends : ∀ e, ∃ next : result (() * Joining) + Joining,
    (∀ fuel : nat,
       Raises e = match next with
                  | inl ended => ended
                  | inr j' => await_view fuel restart j'
                  end)
    ∧ match next with
      | inl _ => True
      | inr j' =>
          (length (incoming (leader_connection j'))
           < length (incoming (leader_connection j)))%nat
      end).
  { intros e. by exists (inl (Raises e)). }
  destruct j as [[ip port inc up snt] v p r o].
  destruct inc as [|w1 inc]; [apply Hends |].
  destruct w1; try apply Hends.
  destruct inc as [|w2 inc]; [apply Hends |].
  destruct w2; try apply Hends.
  destruct inc as [|w3 inc]; [apply Hends |].
  destruct inc as [|w4 inc]; [apply Hends |].
  destruct w4; try apply Hends.
  clear Hends.
  set (j4 := mkJoining (mkSocket ip port inc up snt) (Some v0) p0 r o).
  assert (Htrims : ∃ j5,
    (if restart then receive_ragged_trims else mret ()) j4 = Returns ((), j5)
    ∧ (length (incoming (leader_connection j5)) ≤ length inc)%nat).
  { destruct restart; [apply receive_ragged_trims_takes |].
    exists j4. split; [done | cbn; lia]. }
  destruct Htrims as ([[ip5 port5 inc5 up5 snt5] v5 p5 r5 o5] & Htrims & Hlen).
  cbn [leader_connection incoming] in Hlen.
  assert (Hround : ∀ fuel,
    await_view (S fuel) restart
      (mkJoining
         (mkSocket ip port (w_size n :: w_view v0 :: w3 :: w_params p0 :: inc) up snt)
         v p r o)
    = (view_confirmed ← read as_flag;
       match view_confirmed with
       | None => throw leader_crashed_initial_view
       | Some true => mret ()
       | Some false => await_view fuel restart
       end)
        (mkJoining (mkSocket ip5 port5 inc5 up5 snt5) v5 p5 r5 o5)).
  { intros fuel. cbn [await_view]. run_statement.
    rewrite bool_decide_eq_true_2 by (by eexists). cbn [negb].
    do 5 run_statement. by erewrite bind_returns; [|exact Htrims]. }
  destruct inc5 as [|w5 inc5].
  { exists (inl (Raises leader_crashed_initial_view)). split; [|done].
    intros fuel. by rewrite Hround. }
  destruct w5 as [| | | | | | | |[|]];
    try (exists (inl (Raises leader_crashed_initial_view)); split; [|done];
         intros fuel; by rewrite Hround).
  - exists (inl (Returns ((), mkJoining (mkSocket ip5 port5 inc5 up5 snt5) v5 p5 r5 o5))).
    split; [|done]. intros fuel. by rewrite Hround.
  - exists (inr (mkJoining (mkSocket ip5 port5 inc5 up5 snt5) v5 p5 r5 o5)).
    split; [|cbn in *; lia]. intros fuel. by rewrite Hround.
Qed.

(** With more fuel than the connection holds items, the wait ends as the
    loop of the source does. *)
Lemma await_view_fuel restart fuel1 fuel2 j :
  (length (incoming (leader_connection j)) < fuel1)%nat →
  (length (incoming (leader_connection j)) < fuel2)%nat →
  await_view fuel1 restart j = await_view fuel2 restart j.
Proof.
  revert fuel2 j. induction fuel1 as [|fuel1 IH]; intros fuel2 j H1 H2; [lia |].
  destruct fuel2 as [|fuel2]; [lia |].
  destruct (await_view_step restart j) as ([ended | j'] & Hstep & Hlen).
  - by rewrite !Hstep.
  - rewrite !Hstep. apply IH; lia.
Qed.

(** What a restarting node sends before its ports. *)
Lemma send_trims_loop local (stored : ragged_trim_map_t) ip port inc snt v p r o :
  for_each stored
    (λ id_to_shard_map,
       match id_to_shard_map.2 with
       | [] => mret ()
       | (_, ragged_trim) :: _ =>
           success ← write (w_size (bytes_size local (w_trim ragged_trim)));
           if negb success then throw leader_crashed_restart_view
           else
             success ← write (w_trim ragged_trim);
             if negb success then throw leader_crashed_restart_view
             else mret ()
       end)
    (mkJoining (mkSocket ip port inc true snt) v p r o)
  = Returns
      ((),
       mkJoining
         (mkSocket ip port inc true
            (snt
             ++ flat_map
                  (λ id_to_shard_map : nat * list (nat * RaggedTrim),
                     match id_to_shard_map.2 with
                     | [] => []
                     | (_, t) :: _ => [w_size (bytes_size local (w_trim t)); w_trim t]
                     end)
                  stored))
         v p r o).
Proof.
  revert snt. induction stored as [|[id shard_map] stored IH]; intros snt.
  - cbn. by rewrite app_nil_r.
  - cbn [for_each flat_map snd]. destruct shard_map as [|[shard t] shard_map].
    + erewrite bind_returns; [apply IH | done].
    + etrans; [erewrite bind_returns; [apply IH | done] |].
      cbn. by rewrite <- !app_assoc.
Qed.

Lemma send_restart_state_spec local ip port inc snt v p r o :
  send_restart_state local (mkJoining (mkSocket ip port inc true snt) v p r o)
  = Returns
      ((),
       mkJoining
         (mkSocket ip port inc true
            (snt
             ++ [w_size (bytes_size local (w_view (stored_view local)));
                 w_view (stored_view local);
                 w_size (size (stored_ragged_trim local))]
             ++ stored_trims_sent local))
         (Some (View.set_subgroup_type_order o (stored_view local))) p
         (Some (stored_ragged_trim local)) o).
Proof.
  unfold send_restart_state, stored_trims_sent.
  do 6 run_statement.
  etrans; [apply send_trims_loop |].
  cbn. by rewrite <- !app_assoc.
Qed.

(** C9.  [receive_configuration] tells four response codes apart.  On
    [ID_IN_USE] it throws.  On [LEADER_REDIRECT] it reads an address and
    a port, reconnects there and starts again with the exchange of ids.
    On [OK] it writes its four ports and takes in proposals of a view
    with its parameters until one is committed; it returns [false] then,
    and throws when the leader goes away before.  On [TOTAL_RESTART] it
    first sends its stored view and ragged trims, then does as on [OK],
    every proposal coming with the leader's ragged trims, and returns
    [true]. *)
Theorem receive_configuration_handles_four_codes local network my_id j code leader_id
    rest :
  peer_is_up (leader_connection j) = true →
  incoming (leader_connection j) = w_response (code, leader_id) :: rest →
  match code with
  | ID_IN_USE => receive_configuration local network my_id j = Raises id_already_in_use
  | LEADER_REDIRECT =>
      ∀ k ip port rest' peer network',
        rest = w_size k :: w_ip ip :: w_port port :: rest' →
        network = peer :: network' →
        receive_configuration local network my_id j
        = receive_configuration local network' my_id
            (with_leader_connection
               (mkSocket ip port (peer_sends peer) (peer_stays_up peer) []) j)
  | OK =>
      ∀ aborted,
        Forall (λ q, committed q = false) aborted →
        (∀ final unread,
           committed final = true →
           rest = flat_map (encode_proposal local false) aborted
                  ++ encode_proposal local false final ++ unread →
           receive_configuration local network my_id j
           = Returns
               (false,
                configured j (w_id my_id :: ports_sent local) unread final
                  (restart_state j)))
        ∧ (rest = flat_map (encode_proposal local false) aborted →
           receive_configuration local network my_id j
           = Raises leader_crashed_initial_view)
  | TOTAL_RESTART =>
      ∀ aborted,
        Forall (λ q, committed q = false) aborted →
        (∀ final unread,
           committed final = true →
           rest = flat_map (encode_proposal local true) aborted
                  ++ encode_proposal local true final ++ unread →
           receive_configuration local network my_id j
           = Returns
               (true,
                configured j
                  (w_id my_id
                   :: [w_size (bytes_size local (w_view (stored_view local)));
                       w_view (stored_view local);
                       w_size (size (stored_ragged_trim local))]
                   ++ stored_trims_sent local ++ ports_sent local)
                  unread final (Some (file_trims (proposed_trims final)))))
        ∧ (rest = flat_map (encode_proposal local true) aborted →
           receive_configuration local network my_id j
           = Raises leader_crashed_initial_view)
  end.
Proof.
  destruct j as [[ip port inc up snt] v p r o]. cbn [leader_connection peer_is_up incoming].
  intros -> ->. destruct code.
  - (* OK *)
    intros aborted Haborted. split.
    + intros final unread Hfinal ->. unfold receive_configuration.
      erewrite bind_returns; [|by apply exchange_ids_answer].
      cbn zeta. change (bool_decide ((OK, leader_id).1 = TOTAL_RESTART)) with false.
      cbn [negb]. do 6 run_statement.
      erewrite bind_returns;
        [|apply (await_view_commits local false aborted final unread); [done | done |]].
      * run_statement. unfold configured, ports_sent. cbn.
        by rewrite <- !app_assoc.
      * cbn. apply Nat.lt_succ_r, encoded_length.
    + intros ->. unfold receive_configuration.
      erewrite bind_returns; [|by apply exchange_ids_answer].
      cbn zeta. change (bool_decide ((OK, leader_id).1 = TOTAL_RESTART)) with false.
      cbn [negb]. do 6 run_statement.
      erewrite bind_raises; [done |].
      by apply (await_view_crash local false aborted).
  - (* TOTAL_RESTART *)
    intros aborted Haborted. split.
    + intros final unread Hfinal ->. unfold receive_configuration.
      erewrite bind_returns; [|by apply exchange_ids_answer].
      cbn zeta. change (bool_decide ((TOTAL_RESTART, leader_id).1 = TOTAL_RESTART)) with true.
      cbn [negb].
      erewrite bind_returns; [|apply send_restart_state_spec].
      do 5 run_statement.
      erewrite bind_returns;
        [|apply (await_view_commits local true aborted final unread); [done | done |]].
      * run_statement. unfold configured, ports_sent. cbn.
        by rewrite <- !app_assoc.
      * cbn. apply Nat.lt_succ_r, encoded_length.
    + intros ->. unfold receive_configuration.
      erewrite bind_returns; [|by apply exchange_ids_answer].
      cbn zeta. change (bool_decide ((TOTAL_RESTART, leader_id).1 = TOTAL_RESTART)) with true.
      cbn [negb].
      erewrite bind_returns; [|apply send_restart_state_spec].
      do 5 run_statement.
      erewrite bind_raises; [done |].
      by apply (await_view_crash local true aborted).
  - (* ID_IN_USE *)
    unfold receive_configuration. erewrite bind_raises; [done |].
    by apply exchange_ids_in_use.
  - (* LEADER_REDIRECT *)
    intros k ip' port' rest' peer network' -> ->. unfold receive_configuration.
    by apply bind_same, exchange_ids_redirect.
Qed.

(** A leader that answers [TOTAL_RESTART]: the node sends its stored view
    and trims and returns [true], which none of the three codes of the
    specification accounts for. *)
Lemma total_restart_is_a_fourth_code :
  let j :=
    joiner_connected
      (w_response (TOTAL_RESTART, 1) :: encode_proposal sample_local true committed_proposal) in
  (∃ j', receive_configuration sample_local [] 4 j = Returns (true, j')
         ∧ sent (leader_connection j')
           = [w_id 4; w_size 512; w_view (stored_view sample_local); w_size 1;
              w_size 40; w_trim sample_trim;
              w_port 23580; w_port 28366; w_port 37683; w_port 31675])
  ∧ receive_configuration sample_local [] 4 j
    ≠ claimed_receive_configuration sample_local [] 4 j.
Proof.
  split.
  - eexists. split; vm_compute; reflexivity.
  - vm_compute. discriminate.
Qed.

Lemma receive_configuration_handles_four_codes_witness :
  receive_configuration sample_local [] 4 (joiner_connected [w_response (ID_IN_USE, 1)])
  = Raises id_already_in_use
  ∧ receive_configuration sample_local [mkPeer [w_response (ID_IN_USE, 2)] true] 4
      (joiner_connected
         [w_response (LEADER_REDIRECT, 1); w_size 11; w_ip "192.168.1.2"; w_port 23580])
    = receive_configuration sample_local [] 4
        (with_leader_connection
           (mkSocket "192.168.1.2" 23580 [w_response (ID_IN_USE, 2)] true [])
           (joiner_connected
              [w_response (LEADER_REDIRECT, 1); w_size 11; w_ip "192.168.1.2";
               w_port 23580]))
  ∧ receive_configuration sample_local [] 4
      (joiner_connected
         (w_response (OK, 1)
          :: flat_map (encode_proposal sample_local false) [aborted_proposal]
             ++ encode_proposal sample_local false committed_proposal ++ []))
    = Returns
        (false,
         configured
           (joiner_connected
              (w_response (OK, 1)
               :: flat_map (encode_proposal sample_local false) [aborted_proposal]
                  ++ encode_proposal sample_local false committed_proposal ++ []))
           (w_id 4 :: ports_sent sample_local) [] committed_proposal None)
  ∧ receive_configuration sample_local [] 4
      (joiner_connected
         (w_response (TOTAL_RESTART, 1)
          :: flat_map (encode_proposal sample_local true) [aborted_proposal]))
    = Raises leader_crashed_initial_view.
Proof.
  assert (Haborted : Forall (λ q, committed q = false) [aborted_proposal])
    by (repeat constructor).
  split.
  { exact (receive_configuration_handles_four_codes sample_local [] 4
             (joiner_connected [w_response (ID_IN_USE, 1)]) ID_IN_USE 1 []
             eq_refl eq_refl). }
  split.
  { exact (receive_configuration_handles_four_codes sample_local
             [mkPeer [w_response (ID_IN_USE, 2)] true] 4
             (joiner_connected
                [w_response (LEADER_REDIRECT, 1); w_size 11; w_ip "192.168.1.2";
                 w_port 23580])
             LEADER_REDIRECT 1 _ eq_refl eq_refl
             11 "192.168.1.2" 23580 [] (mkPeer [w_response (ID_IN_USE, 2)] true) []
             eq_refl eq_refl). }
  split.
  { exact (proj1
             (receive_configuration_handles_four_codes sample_local [] 4
                (joiner_connected
                   (w_response (OK, 1)
                    :: flat_map (encode_proposal sample_local false) [aborted_proposal]
                       ++ encode_proposal sample_local false committed_proposal ++ []))
                OK 1 _ eq_refl eq_refl [aborted_proposal] Haborted)
             committed_proposal [] eq_refl eq_refl). }
  exact (proj2
           (receive_configuration_handles_four_codes sample_local [] 4
              (joiner_connected
                 (w_response (TOTAL_RESTART, 1)
                  :: flat_map (encode_proposal sample_local true) [aborted_proposal]))
              TOTAL_RESTART 1 _ eq_refl eq_refl [aborted_proposal] Haborted)
           eq_refl).
Defined.

(** * Further properties of the embedded code *)

Lemma loop_from_ext {St} (f g : Z → St → St) n from s :
  (∀ i s, from ≤ i < from + Z.of_nat n → f i s = g i s) →
  loop_from n from f s = loop_from n from g s.
Proof.
  revert from s. induction n as [|n IH]; intros from s Hext; [done |].
  cbn [loop_from]. rewrite Hext by lia. apply IH. intros i s' Hi. apply Hext. lia.
Qed.

Lemma for_loop_ext {St} (f g : Z → St → St) bound s :
  (∀ i s, 0 ≤ i < bound → f i s = g i s) →
  for_loop bound f s = for_loop bound g s.
Proof.
  intros Hext. unfold for_loop. apply loop_from_ext. intros i s' Hi. apply Hext. lia.
Qed.

(** ** Triggers settle their predicates *)

(** [min_acked] reads nothing but the [num_acked] column. *)
Lemma min_acked_ext sst sst' my failed :
  (∀ r, SST.num_acked (SST.row sst' r) = SST.num_acked (SST.row sst r)) →
  min_acked sst' my failed = min_acked sst my failed.
Proof.
  intros Hrows. unfold min_acked. rewrite Hrows.
  apply for_loop_ext. intros i m _. by rewrite !Hrows.
Qed.

(** X1.  Once [leader_commit_change] has run, [change_commit_ready] is
    false: the trigger raises [num_committed] to the least [num_acked],
    which the write leaves as it was. *)
Theorem leader_commit_change_settles vm :
  0 ≤ get_local_index vm < size (gmsSST vm) →
  change_commit_ready (leader_commit_change vm) = false
  ∧ SST.num_committed (my_row (leader_commit_change vm))
    = min_acked (gmsSST vm) (get_local_index vm) (View.failed (curr_view vm))
  ∧ published (leader_commit_change vm) = published vm ++ [put_column c_num_committed].
Proof.
  intros Hme.
  assert (Hmin : min_acked (gmsSST (leader_commit_change vm)) (get_local_index vm)
                   (View.failed (curr_view vm))
                 = min_acked (gmsSST vm) (get_local_index vm) (View.failed (curr_view vm))).
  { apply min_acked_ext. intros r. rewrite commit_rows.
    case_bool_decide as Hc; [|done]. destruct Hc as [-> _].
    unfold my_row. by destruct (SST.row (gmsSST vm) (get_local_index vm)). }
  assert (Hrow : SST.num_committed (my_row (leader_commit_change vm))
                 = min_acked (gmsSST vm) (get_local_index vm)
                     (View.failed (curr_view vm))).
  { unfold my_row at 1. change (get_local_index (leader_commit_change vm))
      with (get_local_index vm).
    rewrite commit_rows, bool_decide_eq_true_2 by done. by destruct (my_row vm). }
  split; [|split; [exact Hrow | done]].
  unfold change_commit_ready.
  change (get_local_index (leader_commit_change vm)) with (get_local_index vm).
  change (curr_view (leader_commit_change vm)) with (curr_view vm).
  rewrite Hmin, Hrow. rewrite bool_decide_eq_false_2 by lia. apply andb_false_r.
Qed.

Lemma row_put p vm r : SST.row (gmsSST (put p vm)) r = SST.row (gmsSST vm) r.
Proof. done. Qed.

Lemma size_put p vm : size (gmsSST (put p vm)) = size (gmsSST vm).
Proof. done. Qed.

Lemma local_index_put p vm : get_local_index (put p vm) = get_local_index vm.
Proof. done. Qed.

Lemma local_index_write_row r f vm :
  get_local_index (write_row r f vm) = get_local_index vm.
Proof. done. Qed.

Lemma row_wedge vm r :
  SST.row (gmsSST (wedge vm)) r
  = if bool_decide (r = get_local_index vm ∧ 0 ≤ get_local_index vm < size (gmsSST vm))
    then SST.set_wedged true (SST.row (gmsSST vm) (get_local_index vm))
    else SST.row (gmsSST vm) r.
Proof. unfold wedge. by rewrite row_put, row_write_row. Qed.

(** X2.  Once [acknowledge_proposed_change] has run, the predicate
    [leader_proposed_change] is false: the local [num_acked] equals the
    leader's [num_changes].  The member is wedged, and a member other
    than the leader holds the leader's pending changes and commit
    count. *)
Theorem acknowledge_proposed_change_settles vm :
  let my := get_local_index vm in
  let leader := View.rank_of_leader (curr_view vm) in
  let L := SST.row (gmsSST vm) leader in
  let vm' := acknowledge_proposed_change vm in
  0 ≤ my < size (gmsSST vm) →
  leader_proposed_change vm' = false
  ∧ SST.num_acked (my_row vm') = SST.num_changes L
  ∧ SST.num_changes (my_row vm') = SST.num_changes L
  ∧ SST.num_committed (my_row vm') = SST.num_committed L
  ∧ SST.wedged (my_row vm') = true
  ∧ multicast_wedged vm' = true
  ∧ ∀ i, 0 ≤ i < size (SST.changes (my_row vm)) →
         cell 0 (SST.changes (my_row vm')) i = cell 0 (SST.changes L) i.
Proof.
  intros my leader L vm' Hme.
  assert (Hview : curr_view vm' = curr_view vm) by apply acknowledge_keeps_view.
  assert (Hmy : my_row vm' = SST.row (gmsSST vm') my).
  { unfold my_row, get_local_index. by rewrite Hview. }
  set (echoed :=
    SST.set_num_committed (SST.num_committed L)
      (SST.set_joiner_rdmc_ports
         (copy_cells 0 (SST.joiner_rdmc_ports (my_row vm))
            (SST.joiner_rdmc_ports L) 0 (size (SST.joiner_rdmc_ports (my_row vm))))
         (SST.set_joiner_sst_ports
            (copy_cells 0 (SST.joiner_sst_ports (my_row vm))
               (SST.joiner_sst_ports L) 0 (size (SST.joiner_sst_ports (my_row vm))))
            (SST.set_joiner_rpc_ports
               (copy_cells 0 (SST.joiner_rpc_ports (my_row vm))
                  (SST.joiner_rpc_ports L) 0 (size (SST.joiner_rpc_ports (my_row vm))))
               (SST.set_joiner_gms_ports
                  (copy_cells 0 (SST.joiner_gms_ports (my_row vm))
                     (SST.joiner_gms_ports L) 0 (size (SST.joiner_gms_ports (my_row vm))))
                  (SST.set_joiner_ips
                     (copy_cells 0 (SST.joiner_ips (my_row vm))
                        (SST.joiner_ips L) 0 (size (SST.joiner_ips (my_row vm))))
                     (SST.set_changes
                        (copy_cells 0 (SST.changes (my_row vm))
                           (SST.changes L) 0 (size (SST.changes (my_row vm))))
                        (SST.set_num_changes (SST.num_changes L) (my_row vm))))))))).
  assert (Hmine : my_row vm'
    = SST.set_wedged true
        ((λ r, SST.set_num_acked (SST.num_changes r) r)
           (if bool_decide (my ≠ leader) then echoed else my_row vm))).
  { rewrite Hmy. unfold vm', acknowledge_proposed_change. fold my leader L.
    rewrite row_wedge, !row_put, !local_index_put, !size_put, local_index_write_row,
      size_write_row, row_write_row.
    destruct (bool_decide (my ≠ leader)) eqn:Hne.
    - rewrite local_index_write_row, size_write_row, row_write_row. fold my.
      rewrite !bool_decide_eq_true_2 by done. done.
    - fold my. rewrite !bool_decide_eq_true_2 by done. done. }
  assert (Hleads : my = leader → L = my_row vm).
  { intros Heq. unfold L. by rewrite <- Heq. }
  assert (Hcounts : SST.num_acked (my_row vm') = SST.num_changes L
                    ∧ SST.num_changes (my_row vm') = SST.num_changes L
                    ∧ SST.num_committed (my_row vm') = SST.num_committed L
                    ∧ SST.wedged (my_row vm') = true).
  { rewrite Hmine. case_bool_decide as Hne.
    - unfold echoed. by destruct (my_row vm).
    - rewrite Hleads by (destruct (decide (my = leader)); [done | by destruct Hne]).
      by destruct (my_row vm). }
  assert (Hleader : SST.num_changes (SST.row (gmsSST vm') leader) = SST.num_changes L).
  { destruct (decide (leader = my)) as [Heq | Hne].
    - rewrite Heq, <- Hmy. apply Hcounts.
    - pose proof (acknowledge_rows vm leader) as Hrows. cbn zeta in Hrows.
      rewrite bool_decide_eq_false_2 in Hrows by (intros [? _]; done).
      fold vm' in Hrows. by rewrite Hrows. }
  destruct Hcounts as (Hacked & Hchanges & Hcommitted & Hwedged).
  split.
  { unfold leader_proposed_change. rewrite Hview. fold leader.
    rewrite Hleader, Hacked. apply bool_decide_eq_false_2. lia. }
  repeat (split; [done |]).
  intros i Hi. rewrite Hmine. case_bool_decide as Hne.
  - destruct (copy_cells_spec 0 (SST.changes (my_row vm)) (SST.changes L) 0
                (size (SST.changes (my_row vm)))) as [_ Hcopy]; [lia | lia |].
    specialize (Hcopy i). rewrite bool_decide_eq_true_2 in Hcopy by lia.
    rewrite <- Hcopy. unfold echoed. by destruct (my_row vm).
  - rewrite Hleads by (destruct (decide (my = leader)); [done | by destruct Hne]).
    by destruct (my_row vm).
Qed.

(** ** Pending changes *)

Lemma changes_contains_spec vm q :
  changes_contains vm q = true
  ↔ ∃ p_index,
      0 ≤ p_index < SST.num_changes (my_row vm) - SST.num_installed (my_row vm)
      ∧ cell 0 (SST.changes (my_row vm)) p_index = q.
Proof.
  unfold changes_contains.
  set (n := SST.num_changes (my_row vm) - SST.num_installed (my_row vm)).
  pose (P := λ (i : Z) (found : bool),
    found = true ↔ ∃ p_index, 0 ≤ p_index < i
                              ∧ cell 0 (SST.changes (my_row vm)) p_index = q).
  assert (H : P (Z.max 0 n)
    (for_loop n
       (λ p_index found,
          found || bool_decide (cell 0 (SST.changes (my_row vm)) p_index = q))
       false)).
  { apply for_loop_invariant.
    - split; [done |]. intros (p & Hp & _). lia.
    - intros i found Hi IH. red. rewrite orb_true_iff, bool_decide_eq_true. red in IH.
      rewrite IH. split.
      + intros [(p & Hp & Hq) | Hq]; [exists p | exists i]; (split; [lia | done]).
      + intros (p & Hp & Hq). destruct (decide (p = i)) as [-> | Hne]; [by right |].
        left. exists p. split; [lia | done]. }
  red in H. rewrite H. split; intros (p & Hp & Hq); exists p; (split; [lia | done]).
Qed.

(** X3.  What [receive_join] does below capacity.  For an id that is in
    the view it answers [ID_IN_USE] and changes nothing.  For a new id it
    answers [OK], records the joiner and its endpoint in the next free
    cell, and wedges; the id is then among the pending changes, and at
    a leader whose [num_acked] is at most [num_changes] the predicate
    [leader_proposed_change] holds. *)
Theorem receive_join_makes_pending client_socket vm :
  let my_id := cell 0 (View.members (curr_view vm)) (View.my_rank (curr_view vm)) in
  let id := joining_client_id client_socket in
  let next_change := SST.num_changes (my_row vm) - SST.num_installed (my_row vm) in
  0 ≤ get_local_index vm < size (gmsSST vm) →
  SST.num_changes (my_row vm) - SST.num_committed (my_row vm)
  ≠ size (SST.changes (my_row vm)) →
  if bool_decide (View.rank_of (curr_view vm) id ≠ -1)
  then receive_join client_socket vm = Done (vm, [(ID_IN_USE, my_id)], false)
  else
    0 ≤ next_change < size (SST.changes (my_row vm)) →
    ∃ vm',
      receive_join client_socket vm = Done (vm', [(OK, my_id)], true)
      ∧ changes_contains vm' id = true
      ∧ SST.num_changes (my_row vm') = SST.num_changes (my_row vm) + 1
      ∧ SST.wedged (my_row vm') = true
      ∧ (next_change < size (SST.joiner_ips (my_row vm)) →
         cell 0 (SST.joiner_ips (my_row vm')) next_change
         = joiner_ip_packed client_socket)
      ∧ (View.i_am_leader (curr_view vm) = true →
         SST.num_acked (my_row vm) ≤ SST.num_changes (my_row vm) →
         leader_proposed_change vm' = true).
Proof.
  intros my_id id next_change Hmy Hroom.
  case_bool_decide as Hmember.
  { unfold receive_join. unfold my_row, get_local_index in Hroom.
    rewrite bool_decide_eq_false_2 by done. by rewrite bool_decide_eq_true_2. }
  intros Hcell. unfold receive_join.
  unfold my_row, get_local_index in Hroom.
  rewrite bool_decide_eq_false_2 by done.
  rewrite (bool_decide_eq_false_2 (View.rank_of _ _ ≠ -1)) by (intros H; by apply H).
  eexists. split; [reflexivity |].
  set (vm' := put _ _).
  assert (Hmine : my_row vm'
    = SST.set_wedged true
        (SST.set_num_changes (SST.num_changes (my_row vm) + 1)
           (SST.set_joiner_rdmc_ports
              (set_cell (SST.joiner_rdmc_ports (my_row vm)) next_change
                 (joiner_rdmc_port client_socket))
              (SST.set_joiner_sst_ports
                 (set_cell (SST.joiner_sst_ports (my_row vm)) next_change
                    (joiner_sst_port client_socket))
                 (SST.set_joiner_rpc_ports
                    (set_cell (SST.joiner_rpc_ports (my_row vm)) next_change
                       (joiner_rpc_port client_socket))
                    (SST.set_joiner_gms_ports
                       (set_cell (SST.joiner_gms_ports (my_row vm)) next_change
                          (joiner_gms_port client_socket))
                       (SST.set_joiner_ips
                          (set_cell (SST.joiner_ips (my_row vm)) next_change
                             (joiner_ip_packed client_socket))
                          (SST.set_changes
                             (set_cell (SST.changes (my_row vm)) next_change id)
                             (my_row vm))))))))).
  { unfold my_row at 1. unfold vm'.
    rewrite !local_index_put, !row_put, row_wedge, local_index_write_row,
      size_write_row, row_write_row.
    fold (get_local_index vm). rewrite !bool_decide_eq_true_2 by done. done. }
  assert (Hinstalled : SST.num_installed (my_row vm') = SST.num_installed (my_row vm)).
  { rewrite Hmine. by destruct (my_row vm). }
  assert (Hchanges : SST.num_changes (my_row vm') = SST.num_changes (my_row vm) + 1).
  { rewrite Hmine. by destruct (my_row vm). }
  split.
  { apply changes_contains_spec. exists next_change. rewrite Hinstalled, Hchanges.
    split; [unfold next_change; lia |].
    rewrite Hmine. etrans; [|apply (cell_set_cell_eq 0 (SST.changes (my_row vm)))]; [|done].
    by destruct (my_row vm). }
  split; [done |]. split; [rewrite Hmine; by destruct (my_row vm) |]. split.
  { intros Hips. rewrite Hmine.
    etrans; [|apply (cell_set_cell_eq 0 (SST.joiner_ips (my_row vm)) next_change
                       (joiner_ip_packed client_socket)); lia].
    by destruct (my_row vm). }
  intros Hleader Hacked. unfold leader_proposed_change.
  change (curr_view vm') with (curr_view vm).
  apply bool_decide_eq_true_1 in Hleader. rewrite Hleader.
  fold (get_local_index vm). change (get_local_index vm) with (get_local_index vm').
  fold (my_row vm'). rewrite Hchanges, Hmine. apply bool_decide_eq_true_2.
  assert (SST.num_acked
            (SST.set_wedged true
               (SST.set_num_changes (SST.num_changes (my_row vm) + 1)
                  (SST.set_joiner_rdmc_ports
                     (set_cell (SST.joiner_rdmc_ports (my_row vm)) next_change
                        (joiner_rdmc_port client_socket))
                     (SST.set_joiner_sst_ports
                        (set_cell (SST.joiner_sst_ports (my_row vm)) next_change
                           (joiner_sst_port client_socket))
                        (SST.set_joiner_rpc_ports
                           (set_cell (SST.joiner_rpc_ports (my_row vm)) next_change
                              (joiner_rpc_port client_socket))
                           (SST.set_joiner_gms_ports
                              (set_cell (SST.joiner_gms_ports (my_row vm)) next_change
                                 (joiner_gms_port client_socket))
                              (SST.set_joiner_ips
                                 (set_cell (SST.joiner_ips (my_row vm)) next_change
                                    (joiner_ip_packed client_socket))
                                 (SST.set_changes
                                    (set_cell (SST.changes (my_row vm)) next_change id)
                                    (my_row vm)))))))))
          = SST.num_acked (my_row vm)) as -> by (by destruct (my_row vm)).
  lia.
Qed.

(** ** Helpers of the multicast engine *)

Lemma index_of_from_spec {A} `{EqDecision A} (it : list A) elem n sz :
  0 ≤ n → n + size it = sz →
  let i := index_of_from it elem n sz in
  n ≤ i ≤ sz
  ∧ (i < sz ↔ elem ∈ it)
  ∧ (elem ∈ it → it !! Z.to_nat (i - n) = Some elem)
  ∧ ∀ j, n ≤ j < i → it !! Z.to_nat (j - n) ≠ Some elem.
Proof.
  revert n. induction it as [|x it IH]; intros n Hn Hsz; cbn [index_of_from].
  - unfold size in Hsz. cbn in Hsz. split; [lia |]. split.
    + split; [lia | by intros ?%elem_of_nil].
    + split; [by intros ?%elem_of_nil |]. intros j Hj. lia.
  - unfold size in Hsz. cbn [length] in Hsz. destruct (decide (x = elem)) as [-> | Hne].
    + split; [lia |]. split; [split; [intros _; apply list_elem_of_here | lia] |].
      split; [intros _; by replace (Z.to_nat (n - n)) with 0%nat by lia |]. intros j Hj. lia.
    + destruct (IH (n + 1)) as (Hrange & Hin & Hat & Hfirst); [lia | unfold size; lia |].
      cbn zeta in *. set (i := index_of_from it elem (n + 1) sz) in *.
      split; [lia |]. split.
      * rewrite Hin. rewrite elem_of_cons. split; [by right | by intros [-> | ?]].
      * split.
        -- intros [-> | Hel]%elem_of_cons; [done |].
           replace (Z.to_nat (i - n)) with (S (Z.to_nat (i - (n + 1)))) by lia.
           by apply Hat.
        -- intros j Hj. destruct (decide (j = n)) as [-> | Hjn].
           ++ replace (Z.to_nat (n - n)) with 0%nat by lia. cbn. congruence.
           ++ replace (Z.to_nat (j - n)) with (S (Z.to_nat (j - (n + 1)))) by lia.
              apply Hfirst. lia.
Qed.

Lemma find_rank_first elem l s k :
  s ≤ k → l !! Z.to_nat (k - s) = Some elem → find_rank elem l s ≤ k.
Proof.
  revert s k. induction l as [|m l IH]; intros s k Hks Hl; [done |].
  cbn [find_rank]. case_bool_decide as Hm; [lia |].
  destruct (decide (k = s)) as [-> | Hne].
  - replace (Z.to_nat (s - s)) with 0%nat in Hl by lia. cbn in Hl. congruence.
  - apply IH; [lia |].
    replace (Z.to_nat (k - s)) with (S (Z.to_nat (k - (s + 1)))) in Hl by lia.
    done.
Qed.

(** X4.  [index_of] returns the position of the first occurrence of the
    element, and the size of the container exactly when the element does
    not occur; for a member of a view it is the rank [View::rank_of]
    gives. *)
Theorem index_of_first_occurrence (container : list Z) (elem : Z) :
  let i := index_of container elem in
  0 ≤ i ≤ size container
  ∧ (i = size container ↔ elem ∉ container)
  ∧ (elem ∈ container →
     cell 0 container i = elem
     ∧ (∀ j, 0 ≤ j < i → cell 0 container j ≠ elem)
     ∧ i = find_rank elem container 0).
Proof.
  intros i.
  destruct (index_of_from_spec container elem 0 (size container))
    as (Hrange & Hin & Hat & Hfirst); [lia | lia |].
  fold (index_of container elem) in *. fold i in Hrange, Hin, Hat, Hfirst.
  split; [done |]. split.
  { split; [intros Heq Hel; apply Hin in Hel; lia |].
    intros Hnot. destruct (decide (i < size container)) as [Hlt |]; [|lia].
    by apply Hin in Hlt. }
  intros Hel. specialize (Hat Hel). rewrite Z.sub_0_r in Hat.
  assert (Hcell : cell 0 container i = elem) by (apply cell_lookup; [lia | done]).
  assert (Hbefore : ∀ j, 0 ≤ j < i → cell 0 container j ≠ elem).
  { intros j Hj Heq. apply (Hfirst j Hj). rewrite Z.sub_0_r.
    destruct (lookup_lt_is_Some_2 container (Z.to_nat j)) as [y Hy];
      [unfold size in Hrange; lia |].
    rewrite (cell_lookup 0 container j y) in Heq by (lia || done). by subst y. }
  split; [done |]. split; [done |].
  destruct (find_rank_present elem container 0 Hel ltac:(lia)) as [Hr Hl].
  rewrite Z.sub_0_r in Hl. set (r := find_rank elem container 0) in *.
  destruct (Z.lt_trichotomy i r) as [Hlt | [Heq | Hgt]]; [|done |].
  - pose proof (find_rank_first elem container 0 i ltac:(lia)) as Hri.
    rewrite Z.sub_0_r in Hri. specialize (Hri Hat). fold r in Hri. lia.
  - exfalso. apply (Hbefore r); [lia |]. apply cell_lookup; [lia | done].
Qed.

Lemma u64_small x : 0 ≤ x < 2 ^ 64 → u64 x = x.
Proof. intros Hx. unfold u64. by rewrite Z.mod_small. Qed.

(** X5.  With RDMC, [compute_max_msg_size] rounds the payload and its
    header up to the next multiple of the block size: the result is the
    least multiple of [block_size] that holds them.  Without RDMC it is
    the payload and its header. *)
Theorem compute_max_msg_size_rounds_up max_payload_size block_size :
  0 ≤ max_payload_size → 0 < block_size →
  max_payload_size + sizeof_header + block_size ≤ 2 ^ 64 →
  let needed := max_payload_size + sizeof_header in
  let m := compute_max_msg_size max_payload_size block_size true in
  m `mod` block_size = 0
  ∧ needed ≤ m < needed + block_size
  ∧ (∀ m', m' `mod` block_size = 0 → needed ≤ m' → m ≤ m')
  ∧ compute_max_msg_size max_payload_size block_size false = needed.
Proof.
  intros Hpayload Hblock Hfits needed m.
  assert (Hheader : sizeof_header = 17) by reflexivity.
  assert (Hneeded : u64 needed = needed) by (apply u64_small; unfold needed; lia).
  pose proof (Z.div_mod needed block_size ltac:(lia)) as Hdm.
  pose proof (Z.mod_pos_bound needed block_size Hblock) as Hmod.
  pose proof (Z.div_pos needed block_size ltac:(unfold needed; lia) Hblock) as Hdiv.
  assert (Hm : m = if bool_decide (needed `mod` block_size = 0) then needed
                   else (needed `div` block_size + 1) * block_size).
  { unfold m, compute_max_msg_size. fold needed. rewrite Hneeded.
    case_bool_decide as Hz; cbn [negb]; [done |].
    rewrite (u64_small (_ + 1)) by nia. apply u64_small. nia. }
  split; [|split; [|split]].
  - rewrite Hm. case_bool_decide; [done |]. apply Z.mod_mul. lia.
  - rewrite Hm. case_bool_decide; [lia | nia].
  - intros m' Hm' Hle. rewrite Hm. case_bool_decide as Hz; [done |].
    pose proof (Z.div_mod m' block_size ltac:(lia)) as Hdm'.
    rewrite Hm' in Hdm'.
    assert (needed `div` block_size < m' `div` block_size) by nia. nia.
  - unfold compute_max_msg_size. by fold needed.
Qed.

(** ** Intervals of received indices *)

Lemma pair_ind (P : list Z → Prop) :
  P [] → (∀ a, P [a]) → (∀ a b rest, P rest → P (a :: b :: rest)) → ∀ l, P l.
Proof.
  intros Hnil Hone Hpair.
  assert (H : ∀ n l, (length l < n)%nat → P l).
  { induction n as [|n IH]; intros l Hl; [lia |].
    destruct l as [|a [|b rest]]; [done | done |].
    apply Hpair, IH. cbn in Hl. lia. }
  intros l. apply (H (S (length l))). lia.
Qed.

Lemma intervals_above_weaken lo lo' l :
  lo' ≤ lo → intervals_above lo l → intervals_above lo' l.
Proof. destruct l as [|a [|b rest]]; cbn; [done | done |]. intros ? (? & ? & ?). repeat split; [lia | done | done]. Qed.

Lemma intervals_above_elem lo l x : intervals_above lo l → x ∈ l → lo < x.
Proof.
  revert lo. induction l as [| |a b rest IH] using pair_ind; intros lo Hl Hx.
  - by apply elem_of_nil in Hx.
  - done.
  - destruct Hl as (Ha & Hab & Hrest).
    apply elem_of_cons in Hx as [-> | Hx]; [done |].
    apply elem_of_cons in Hx as [-> | Hx]; [lia |].
    specialize (IH (b + 1) Hrest Hx). lia.
Qed.

Lemma intervals_above_covered lo l x : intervals_above lo l → covered l x → lo < x.
Proof.
  revert lo. induction l as [| |a b rest IH] using pair_ind; intros lo Hl Hx; [done | done |].
  destruct Hl as (Ha & Hab & Hrest). destruct Hx as [Hx | Hx]; [lia |].
  specialize (IH (b + 1) Hrest Hx). lia.
Qed.

Lemma bound_after_cons lo a b rest :
  bound_after lo (a :: b :: rest) = bound_after (b + 1) rest.
Proof.
  unfold bound_after. destruct rest as [|c rest]; [done |].
  rewrite !last_cons_cons. destruct (last (c :: rest)) eqn:E; [done |].
  by apply last_None in E.
Qed.

Lemma intervals_above_app lo pre l :
  intervals_above lo pre →
  intervals_above lo (pre ++ l) ↔ intervals_above (bound_after lo pre) l.
Proof.
  revert lo. induction pre as [| |a b rest IH] using pair_ind; intros lo Hpre.
  - done.
  - done.
  - destruct Hpre as (Ha & Hab & Hrest). cbn [app intervals_above].
    rewrite (IH (b + 1) Hrest).
    assert (Hbound : bound_after lo (a :: b :: rest) = bound_after (b + 1) rest).
    { apply bound_after_cons. }
    rewrite Hbound. tauto.
Qed.

Lemma covered_app lo pre l x :
  intervals_above lo pre → covered (pre ++ l) x ↔ covered pre x ∨ covered l x.
Proof.
  revert lo. induction pre as [| |a b rest IH] using pair_ind; intros lo Hpre.
  - cbn. tauto.
  - done.
  - destruct Hpre as (Ha & Hab & Hrest). cbn [app covered].
    rewrite (IH (b + 1) Hrest). tauto.
Qed.

Lemma intervals_above_even lo pre : intervals_above lo pre → Nat.Even (length pre).
Proof.
  revert lo. induction pre as [| |a b rest IH] using pair_ind; intros lo Hpre.
  - by exists 0%nat.
  - done.
  - destruct Hpre as (_ & _ & Hrest). destruct (IH _ Hrest) as [k Hk].
    exists (S k). cbn [length]. lia.
Qed.

(** Where the new index goes: after the last interval that ends below
    it. *)
Lemma intervals_split lo l index :
  intervals_above lo l → l ≠ [] → cell 0 l 0 ≤ index → ¬ covered l index →
  ∃ pre a b post,
    l = pre ++ a :: b :: post
    ∧ intervals_above lo pre
    ∧ bound_after lo pre < a ∧ a ≤ b ∧ b < index
    ∧ intervals_above (b + 1) post
    ∧ intervals_above index post.
Proof.
  revert lo. induction l as [| |a b rest IH] using pair_ind;
    intros lo Hl Hne Hfirst Hnot; [done | done |].
  destruct Hl as (Ha & Hab & Hrest).
  assert (Ha0 : a ≤ index) by exact Hfirst.
  assert (Hb : b < index) by (cbn in Hnot; lia).
  destruct rest as [|a' rest].
  { exists [], a, b, []. by repeat split. }
  destruct (decide (a' ≤ index)) as [Hle | Hgt].
  - destruct (IH (b + 1)) as (pre & a1 & b1 & post & -> & Hpre & Hbound & Hab1 & Hb1 & Hpost & Hind);
      [done | done | done | cbn in Hnot |- *; tauto |].
    exists (a :: b :: pre), a1, b1, post. split; [done |].
    split; [by repeat split |]. split; [|done].
    by rewrite bound_after_cons.
  - exists [], a, b, (a' :: rest). split; [done |]. split; [done |].
    split; [done |]. split; [done |]. split; [done |]. split; [done |].
    destruct rest as [|b' rest]; [done |]. destruct Hrest as (? & ? & ?).
    repeat split; [lia | done | done].
Qed.

Lemma scan_down_stops l index it :
  cell 0 l (Z.of_nat it) ≤ index → scan_down l index it = it.
Proof.
  intros Hle. destruct it as [|it]; [done |]. cbn [scan_down].
  by rewrite bool_decide_eq_false_2 by lia.
Qed.

Lemma scan_down_app pre a b post index :
  b ≤ index → (∀ x, x ∈ post → index < x) →
  scan_down (pre ++ a :: b :: post) index (length pre + 1 + length post)
  = S (length pre).
Proof.
  intros Hb. induction post as [|y post IH] using rev_ind; intros Hpost.
  - cbn [length]. rewrite Nat.add_0_r. replace (length pre + 1)%nat with (S (length pre)) by lia.
    apply scan_down_stops.
    rewrite (cell_lookup 0 _ _ b); [done | lia |].
    rewrite Nat2Z.id. rewrite lookup_app_r by lia.
    by replace (S (length pre) - length pre)%nat with 1%nat by lia.
  - rewrite length_app. cbn [length].
    replace (length pre + 1 + (length post + 1))%nat
      with (S (length pre + 1 + length post)) by lia.
    cbn [scan_down].
    assert (Hy : cell 0 (pre ++ a :: b :: post ++ [y])
                   (Z.of_nat (S (length pre + 1 + length post))) = y).
    { apply cell_lookup; [lia |]. rewrite Nat2Z.id.
      replace (pre ++ a :: b :: post ++ [y]) with ((pre ++ a :: b :: post) ++ [y])
        by (by rewrite <- app_assoc).
      apply list_lookup_middle. rewrite length_app. cbn [length]. lia. }
    rewrite Hy. rewrite bool_decide_eq_true_2
      by (specialize (Hpost y); rewrite elem_of_app, list_elem_of_singleton in Hpost;
          specialize (Hpost (or_intror eq_refl)); lia).
    assert (Hsame : ∀ k, (k ≤ length pre + 1 + length post)%nat →
              scan_down (pre ++ a :: b :: post ++ [y]) index k
              = scan_down (pre ++ a :: b :: post) index k).
    { induction k as [|k IHk]; intros Hk; [done |]. cbn [scan_down].
      assert (Hc : cell 0 (pre ++ a :: b :: post ++ [y]) (Z.of_nat (S k))
                   = cell 0 (pre ++ a :: b :: post) (Z.of_nat (S k))).
      { unfold cell, at_index. rewrite !bool_decide_eq_true_2 by lia.
        rewrite Nat2Z.id.
        replace (pre ++ a :: b :: post ++ [y]) with ((pre ++ a :: b :: post) ++ [y])
          by (by rewrite <- app_assoc).
        rewrite lookup_app_l; [done |]. rewrite length_app. cbn [length]. lia. }
      rewrite Hc. case_bool_decide; [apply IHk; lia | done]. }
    rewrite Hsame by lia. apply IH.
    intros x Hx. apply Hpost. rewrite elem_of_app. by left.
Qed.

Lemma insert_at_app pre k x l :
  insert_at (length pre + k) x (pre ++ l) = pre ++ insert_at k x l.
Proof.
  unfold insert_at. induction pre as [|y pre IH]; [done |].
  cbn [length Nat.add app take drop]. by rewrite IH.
Qed.

Lemma erase_at_app pre k l :
  erase_at (length pre + k) (pre ++ l) = pre ++ erase_at k l.
Proof.
  unfold erase_at. induction pre as [|y pre IH]; [done |].
  cbn [length Nat.add app take drop]. cbn [length Nat.add app take drop] in IH.
  by rewrite IH.
Qed.

Lemma cell_app_r pre l k :
  cell 0 (pre ++ l) (Z.of_nat (length pre + k)) = cell 0 l (Z.of_nat k).
Proof.
  unfold cell, at_index. rewrite !bool_decide_eq_true_2 by lia.
  rewrite !Nat2Z.id. rewrite lookup_app_r by lia.
  by replace (length pre + k - length pre)%nat with k by lia.
Qed.

(** The list that [resolve_num_received] leaves, by the place of the new
    index between the interval that ends below it and the next one. *)
Lemma resolve_num_received_split pre a b post index :
  b < index → (∀ x, x ∈ post → index < x) →
  (resolve_num_received index (pre ++ a :: b :: post)).1
  = pre
    ++ match post with
       | [] => if bool_decide (b = index - 1) then [a; index] else [a; b; index; index]
       | a' :: post' =>
           if bool_decide (b ≠ index - 1)
           then
             if bool_decide (a' ≠ index + 1)
             then a :: b :: index :: index :: a' :: post'
             else a :: b :: index :: post'
           else
             if bool_decide (a' ≠ index + 1)
             then a :: index :: a' :: post'
             else a :: post'
       end.
Proof.
  intros Hb Hpost. unfold resolve_num_received. cbn [fst].
  set (l := pre ++ a :: b :: post).
  assert (Hlen : length l = (length pre + 2 + length post)%nat).
  { unfold l. rewrite length_app. cbn [length]. lia. }
  assert (Hit : scan_down l index (length l - 1) = (length pre + 1)%nat).
  { rewrite Hlen.
    replace (length pre + 2 + length post - 1)%nat
      with (length pre + 1 + length post)%nat by lia.
    unfold l. rewrite scan_down_app by (lia || done). lia. }
  rewrite Hit.
  assert (Hderef : cell 0 l (Z.of_nat (length pre + 1)) = b).
  { unfold l. by rewrite cell_app_r. }
  rewrite Hderef.
  destruct post as [|a' post'].
  - rewrite bool_decide_eq_true_2 by (rewrite Hlen; cbn [length]; lia).
    case_bool_decide.
    + unfold l. rewrite insert_app_r. done.
    + unfold l. by rewrite <- app_assoc.
  - rewrite bool_decide_eq_false_2 by (rewrite Hlen; cbn [length]; lia).
    assert (Hnext : cell 0 l (Z.of_nat (S (length pre + 1))) = a').
    { unfold l. replace (S (length pre + 1)) with (length pre + 2)%nat by lia.
      by rewrite cell_app_r. }
    rewrite Hnext.
    replace (S (S (length pre + 1))) with (length pre + 3)%nat by lia.
    replace (S (length pre + 1)) with (length pre + 2)%nat by lia.
    unfold l. case_bool_decide; case_bool_decide;
      rewrite ?insert_at_app, ?erase_at_app; cbn;
      rewrite ?insert_at_app, ?erase_at_app; done.
Qed.

Lemma first_interval lo l :
  intervals_above lo l → l ≠ [] →
  (∀ x, cell 0 l 0 ≤ x ≤ cell 0 l 1 → covered l x)
  ∧ ¬ covered l (cell 0 l 1 + 1).
Proof.
  destruct l as [|a [|b rest]]; [done | done |]. intros (Ha & Hab & Hrest) _.
  change (cell 0 (a :: b :: rest) 0) with a. change (cell 0 (a :: b :: rest) 1) with b.
  split; [intros x Hx; by left |].
  intros [Hx | Hx]; [lia |].
  pose proof (intervals_above_covered _ _ _ Hrest Hx). lia.
Qed.

(** X6.  [resolve_num_received] adds the index to the set of received
    indices and keeps the list of interval ends in shape; it returns the
    end of the first interval, so that everything from the first end up
    to the value returned has been received, and the index after it has
    not. *)
Theorem resolve_num_received_adds lo received_intervals index :
  intervals_above lo received_intervals →
  received_intervals ≠ [] →
  cell 0 received_intervals 0 ≤ index →
  ¬ covered received_intervals index →
  let l' := (resolve_num_received index received_intervals).1 in
  let new_num_received := (resolve_num_received index received_intervals).2 in
  intervals_above lo l'
  ∧ (∀ x, covered l' x ↔ x = index ∨ covered received_intervals x)
  ∧ cell 0 l' 0 = cell 0 received_intervals 0
  ∧ (∀ x, cell 0 received_intervals 0 ≤ x ≤ new_num_received → covered l' x)
  ∧ ¬ covered l' (new_num_received + 1).
Proof.
  intros Hl Hne Hfirst Hnot l' r.
  destruct (intervals_split lo received_intervals index Hl Hne Hfirst Hnot)
    as (pre & a & b & post & -> & Hpre & Hbound & Hab & Hb & Hpost & Hindex).
  assert (Hsplit := resolve_num_received_split pre a b post index Hb
                      (λ x Hx, intervals_above_elem _ _ _ Hindex Hx)).
  fold l' in Hsplit.
  assert (Hr : r = cell 0 l' 1) by done.
  set (X := match post with
            | [] => _
            | a' :: post' => _
            end) in Hsplit.
  assert (HX : intervals_above (bound_after lo pre) X
               ∧ (∀ x, covered X x ↔ x = index ∨ covered (a :: b :: post) x)
               ∧ cell 0 X 0 = a).
  { unfold X. destruct post as [|a' [|b' post]]; [| done |].
    - case_bool_decide; cbn [intervals_above covered];
        (split; [repeat split; lia |]); (split; [intros x; intuition lia | done]).
    - destruct Hpost as (Ha' & Hab' & Hpost). destruct Hindex as (Hia' & _).
      case_bool_decide; case_bool_decide; cbn [intervals_above covered];
        (split; [repeat split; (lia || done || (eapply intervals_above_weaken; [|exact Hpost]; lia)) |]);
        (split; [intros x; intuition lia | done]). }
  destruct HX as (HXwf & HXcov & HXfirst).
  assert (Hwf : intervals_above lo l').
  { rewrite Hsplit. by apply intervals_above_app. }
  assert (Hne' : l' ≠ []).
  { rewrite Hsplit. intros [_ HXnil]%app_eq_nil. rewrite HXnil in HXfirst.
    unfold X in HXnil. destruct post as [|a' post'];
      repeat case_bool_decide; discriminate. }
  split; [done |]. split.
  { intros x. rewrite Hsplit. rewrite !(covered_app lo pre) by done.
    rewrite HXcov. tauto. }
  assert (Hsame : cell 0 l' 0 = cell 0 (pre ++ a :: b :: post) 0).
  { rewrite Hsplit. destruct pre as [|y pre]; [exact HXfirst | done]. }
  split; [done |].
  rewrite Hr, <- Hsame. by apply (first_interval lo).
Qed.

(** ** Delivering the ragged edge once more *)



(** ** What a joining node holds when [receive_configuration] returns *)

Lemma bind_inv {A B} (m : M A) (f : A → M B) j y j2 :
  (m ≫= f) j = Returns (y, j2) →
  ∃ x j1, m j = Returns (x, j1) ∧ f x j1 = Returns (y, j2).
Proof.
  unfold mbind, M_bind. destruct (m j) as [[x j1]|e]; [|done].
  intros H. by exists x, j1.
Qed.

Lemma same_but_connection_refl j : same_but_connection j j.
Proof. by destruct j. Qed.

Lemma same_but_connection_trans j1 j2 j3 :
  same_but_connection j1 j2 → same_but_connection j2 j3 → same_but_connection j1 j3.
Proof. unfold same_but_connection. intros H12 H23. rewrite H23, H12. done. Qed.

Lemma write_frame w j b j' : write w j = Returns (b, j') → same_but_connection j j'.
Proof.
  unfold write. destruct (peer_is_up (leader_connection j)); intros [= <- <-];
    by destruct j.
Qed.

Lemma read_frame {A} (decode : Wire → option A) j x j' :
  read decode j = Returns (x, j') → same_but_connection j j'.
Proof.
  unfold read. destruct (incoming (leader_connection j)); intros [= <- <-];
    by destruct j.
Qed.

Lemma exchange_ids_frame network my_id j r j' :
  exchange_ids network my_id j = Returns (r, j') → same_but_connection j j'.
Proof.
  revert j. induction network as [|peer network IH]; intros j H;
    cbn [exchange_ids] in H.
  - apply bind_inv in H as (b & j1 & Hw & H). apply write_frame in Hw.
    destruct b; cbn [negb] in H; [|done].
    apply bind_inv in H as (o & j2 & Hr & H). apply read_frame in Hr.
    destruct o as [leader_response|]; [|done].
    destruct (decide (leader_response.1 = ID_IN_USE)); [done |].
    destruct (decide (leader_response.1 = LEADER_REDIRECT)).
    + apply bind_inv in H as (? & j3 & _ & H).
      apply bind_inv in H as (? & j4 & _ & H).
      apply bind_inv in H as (? & j5 & _ & H). done.
    + injection H as <- <-. by eapply same_but_connection_trans.
  - apply bind_inv in H as (b & j1 & Hw & H). apply write_frame in Hw.
    destruct b; cbn [negb] in H; [|done].
    apply bind_inv in H as (o & j2 & Hr & H). apply read_frame in Hr.
    destruct o as [leader_response|]; [|done].
    destruct (decide (leader_response.1 = ID_IN_USE)); [done |].
    destruct (decide (leader_response.1 = LEADER_REDIRECT)).
    + apply bind_inv in H as (? & j3 & H3 & H). apply read_frame in H3.
      apply bind_inv in H as (? & j4 & H4 & H). apply read_frame in H4.
      apply bind_inv in H as (? & j5 & H5 & H). apply read_frame in H5.
      apply bind_inv in H as (? & j6 & H6 & H).
      assert (Hj6 : same_but_connection j5 j6).
      { injection H6 as _ <-. by destruct j5. }
      apply IH in H.
      repeat (eapply same_but_connection_trans; [eassumption |]).
      apply same_but_connection_refl.
    + injection H as <- <-. by eapply same_but_connection_trans.
Qed.

Lemma same_but_connection_fields j j' :
  same_but_connection j j' →
  joining_view j' = joining_view j
  ∧ restart_state j' = restart_state j
  ∧ subgroup_type_order j' = subgroup_type_order j.
Proof. intros H. rewrite H. done. Qed.

Lemma for_each_keeps {A} (Q : Joining → Prop) (l : list A) (body : A → M unit) :
  (∀ x j u j', Q j → body x j = Returns (u, j') → Q j') →
  ∀ j u j', Q j → for_each l body j = Returns (u, j') → Q j'.
Proof.
  intros Hbody. induction l as [|x l IH]; intros j u j' HQ H; cbn [for_each] in H.
  - by injection H as _ <-.
  - apply bind_inv in H as (u1 & j1 & Hx & H). eapply IH; [|exact H]. by eapply Hbody.
Qed.

Lemma receive_ragged_trims_returns j u j' :
  receive_ragged_trims j = Returns (u, j') →
  joining_view j' = joining_view j
  ∧ subgroup_type_order j' = subgroup_type_order j
  ∧ is_Some (restart_state j').
Proof.
  unfold receive_ragged_trims. intros H.
  apply bind_inv in H as (? & j1 & H1 & H). injection H1 as _ <-.
  apply bind_inv in H as (n & j2 & H2 & H).
  apply read_frame, same_but_connection_fields in H2 as (Hv2 & Hr2 & Ho2).
  pose (Q := λ j0, joining_view j0 = joining_view j
                   ∧ subgroup_type_order j0 = subgroup_type_order j
                   ∧ is_Some (restart_state j0)).
  refine (for_each_keeps Q _ _ _ j2 _ j' _ H).
  - intros _ ja ua jb (Hv & Ho & Hr) Hbody.
    apply bind_inv in Hbody as (? & jc & Hc & Hbody).
    apply read_frame, same_but_connection_fields in Hc as (Hvc & Hrc & Hoc).
    apply bind_inv in Hbody as (? & jd & Hd & Hbody).
    apply read_frame, same_but_connection_fields in Hd as (Hvd & Hrd & Hod).
    injection Hbody as _ <-. red. cbn. split; [congruence |]. split; [congruence |]. by eexists.
  - split; [by rewrite Hv2 |]. split; [by rewrite Ho2 |]. rewrite Hr2. by eexists.
Qed.

(** When the wait ends, a view has been taken in. *)
Lemma await_view_returns fuel restart j u j' :
  await_view fuel restart j = Returns (u, j') →
  is_Some (joining_view j')
  ∧ subgroup_type_order j' = subgroup_type_order j
  ∧ (restart = true → is_Some (restart_state j')).
Proof.
  revert j. induction fuel as [|fuel IH]; intros j H; [done |].
  cbn [await_view] in H.
  apply bind_inv in H as (o1 & j1 & H1 & H).
  apply read_frame, same_but_connection_fields in H1 as (Hv1 & Hr1 & Ho1).
  destruct o1 as [size_of_view|]; [|done].
  rewrite bool_decide_eq_true_2 in H by (by eexists). cbn [negb] in H.
  apply bind_inv in H as (o2 & j2 & H2 & H).
  apply read_frame, same_but_connection_fields in H2 as (Hv2 & Hr2 & Ho2).
  destruct o2 as [view|]; [|done].
  apply bind_inv in H as (? & j3 & H3 & H). injection H3 as _ <-.
  apply bind_inv in H as (o4 & j4 & H4 & H).
  apply read_frame, same_but_connection_fields in H4 as (Hv4 & Hr4 & Ho4).
  apply bind_inv in H as (o5 & j5 & H5 & H).
  apply read_frame, same_but_connection_fields in H5 as (Hv5 & Hr5 & Ho5).
  destruct o5 as [params|]; [|done].
  apply bind_inv in H as (? & j6 & H6 & H). injection H6 as _ <-.
  apply bind_inv in H as (? & j7 & H7 & H).
  assert (Hj7 : joining_view j7 = Some view
                ∧ subgroup_type_order j7 = subgroup_type_order j
                ∧ (restart = true → is_Some (restart_state j7))).
  { cbn [joining_view restart_state subgroup_type_order with_joining_view
         with_derecho_params] in *.
    destruct restart.
    - apply receive_ragged_trims_returns in H7 as (Hv7 & Ho7 & Hr7). cbn in Hv7, Ho7.
      split; [congruence |]. split; [congruence | done].
    - injection H7 as _ <-. cbn. split; [congruence |]. split; [congruence | done]. }
  destruct Hj7 as (Hv7 & Ho7 & Hr7).
  apply bind_inv in H as (o8 & j8 & H8 & H).
  apply read_frame, same_but_connection_fields in H8 as (Hv8 & Hr8 & Ho8).
  destruct o8 as [[|]|]; [| |done].
  - injection H as _ <-. split; [rewrite Hv8, Hv7; by eexists |].
    split; [congruence |]. intros Hrestart. rewrite Hr8. by apply Hr7.
  - apply IH in H as (Hv & Ho & Hr). split; [done |]. split; [congruence | done].
Qed.

Lemma send_restart_state_returns local j u j' :
  send_restart_state local j = Returns (u, j') →
  subgroup_type_order j' = subgroup_type_order j.
Proof.
  unfold send_restart_state. intros H.
  apply bind_inv in H as (? & j1 & H1 & H). injection H1 as _ <-.
  apply bind_inv in H as (b2 & j2 & H2 & H).
  apply write_frame, same_but_connection_fields in H2 as (_ & _ & Ho2).
  destruct b2; cbn [negb] in H; [|done].
  apply bind_inv in H as (b3 & j3 & H3 & H).
  apply write_frame, same_but_connection_fields in H3 as (_ & _ & Ho3).
  destruct b3; cbn [negb] in H; [|done].
  apply bind_inv in H as (? & j4 & H4 & H). injection H4 as _ <-.
  apply bind_inv in H as (? & j5 & H5 & H). injection H5 as _ <-.
  apply bind_inv in H as (b6 & j6 & H6 & H).
  apply write_frame, same_but_connection_fields in H6 as (_ & _ & Ho6).
  destruct b6; cbn [negb] in H; [|done].
  cbn in Ho2, Ho3, Ho6.
  pose (Q := λ j0, subgroup_type_order j0 = subgroup_type_order j).
  refine (for_each_keeps Q _ _ _ j6 _ j' _ H); [|red; congruence].
  intros [id [|[shard trim] shard_map]] ja ua jb HQ Hbody; cbn [snd] in Hbody.
  - by injection Hbody as _ <-.
  - apply bind_inv in Hbody as (ba & jc & Hc & Hbody).
    apply write_frame, same_but_connection_fields in Hc as (_ & _ & Hoc).
    destruct ba; cbn [negb] in Hbody; [|done].
    apply bind_inv in Hbody as (bb & jd & Hd & Hbody).
    apply write_frame, same_but_connection_fields in Hd as (_ & _ & Hod).
    destruct bb; cbn [negb] in Hbody; [|done].
    injection Hbody as _ <-. red. red in HQ. congruence.
Qed.

(** X8.  Whatever the leader and the nodes it redirects to send,
    [receive_configuration] returns only with a view taken in: the view
    carries the local [subgroup_type_order], and when the function
    returns [true] the restart state is set. *)
Theorem receive_configuration_returns_with_view local network my_id j
    is_total_restart j' :
  receive_configuration local network my_id j = Returns (is_total_restart, j') →
  (∃ view, joining_view j' = Some view
           ∧ View.subgroup_type_order view = subgroup_type_order j)
  ∧ subgroup_type_order j' = subgroup_type_order j
  ∧ (is_total_restart = true → is_Some (restart_state j')).
Proof.
  unfold receive_configuration. intros H.
  apply bind_inv in H as (leader_response & j1 & H1 & H).
  apply exchange_ids_frame, same_but_connection_fields in H1 as (_ & _ & Ho1).
  cbn zeta in H.
  apply bind_inv in H as (? & j2 & H2 & H).
  assert (Ho2 : subgroup_type_order j2 = subgroup_type_order j).
  { case_bool_decide.
    - apply send_restart_state_returns in H2. congruence.
    - injection H2 as _ <-. done. }
  apply bind_inv in H as (? & j3 & H3 & H).
  apply write_frame, same_but_connection_fields in H3 as (_ & _ & Ho3).
  apply bind_inv in H as (? & j4 & H4 & H).
  apply write_frame, same_but_connection_fields in H4 as (_ & _ & Ho4).
  apply bind_inv in H as (? & j5 & H5 & H).
  apply write_frame, same_but_connection_fields in H5 as (_ & _ & Ho5).
  apply bind_inv in H as (? & j6 & H6 & H).
  apply write_frame, same_but_connection_fields in H6 as (_ & _ & Ho6).
  apply bind_inv in H as (left & j7 & H7 & H). injection H7 as _ <-.
  apply bind_inv in H as (? & j8 & H8 & H).
  apply await_view_returns in H8 as ([view Hview] & Ho8 & Hr8).
  apply bind_inv in H as (? & j9 & H9 & H). injection H9 as _ <-.
  injection H as <- <-. cbn. rewrite Hview. cbn.
  split; [eexists; split; [reflexivity |]; cbn; congruence |].
  split; [congruence |]. intros Hrestart. by apply Hr8.
Qed.

(** ** The two sides of a join *)

Lemma commit_join_sent leader_local params new_view client_socket :
  peer_is_up client_socket = true →
  sent (commit_join leader_local params new_view client_socket)
  = sent client_socket
    ++ encode_proposal leader_local false (mkProposal new_view params [] true).
Proof.
  destruct client_socket as [ip port inc up snt]. cbn. intros ->.
  unfold commit_join, socket_write, encode_proposal. cbn.
  by rewrite <- !app_assoc.
Qed.

Lemma receive_join_accepts client_socket vm vm' responses :
  receive_join client_socket vm = Done (vm', responses, true) →
  responses
  = [(OK, cell 0 (View.members (curr_view vm)) (View.my_rank (curr_view vm)))].
Proof.
  unfold receive_join. intros Hdone. repeat case_bool_decide; by simplify_eq.
Qed.

(** X9.  A join seen from both sides.  When the leader's [receive_join]
    accepts the request and its [commit_join] later sends the next view,
    the joiner's [receive_configuration] reads exactly what the leader
    wrote: it returns [false] with the view sent, carrying the local
    [subgroup_type_order], and the leader's parameters; it has sent its
    id and its four ports, and nothing is left unread.  The sizes that
    the leader announces are read and not looked at, so that the two
    nodes need not agree on them. *)
Theorem commit_join_completes_the_join leader vm vm' responses request derecho_params
    new_view client_socket local network my_id j :
  receive_join request vm = Done (vm', responses, true) →
  peer_is_up client_socket = true →
  peer_is_up (leader_connection j) = true →
  incoming (leader_connection j)
  = (w_response <$> responses)
    ++ drop (length (sent client_socket))
         (sent (commit_join leader derecho_params new_view client_socket)) →
  receive_configuration local network my_id j
  = Returns
      (false,
       mkJoining
         (mkSocket (remote_ip (leader_connection j)) (remote_port (leader_connection j))
            [] true
            (sent (leader_connection j) ++ w_id my_id :: ports_sent local))
         (Some (View.set_subgroup_type_order (subgroup_type_order j) new_view))
         derecho_params (restart_state j) (subgroup_type_order j)).
Proof.
  intros Haccepted%receive_join_accepts Hclient. subst responses.
  rewrite commit_join_sent, drop_app_length by done.
  destruct j as [[ip port inc up snt] v p r o]. cbn [leader_connection peer_is_up incoming].
  intros -> ->. unfold receive_configuration. cbn [fmap list_fmap app].
  erewrite bind_returns; [|by apply exchange_ids_answer].
  cbn zeta.
  match goal with
  | |- context [bool_decide ((OK, ?id).1 = TOTAL_RESTART)] =>
      change (bool_decide ((OK, id).1 = TOTAL_RESTART)) with false
  end.
  cbn [negb]. do 6 run_statement.
  erewrite bind_returns;
    [|apply (await_view_commits leader false []
               (mkProposal new_view derecho_params [] true) []); [done | done |]].
  - run_statement. unfold ports_sent. cbn. by rewrite <- !app_assoc.
  - cbn. lia.
Qed.

(** ** Suspicions settle *)

Lemma for_loop_orb (p : Z → bool) bound found :
  for_loop bound (λ i found, found || p i) found = true
  ↔ found = true ∨ ∃ i, 0 ≤ i < bound ∧ p i = true.
Proof.
  pose (P := λ (k : Z) (b : bool),
    b = true ↔ found = true ∨ ∃ i, 0 ≤ i < k ∧ p i = true).
  assert (H : P (Z.max 0 bound) (for_loop bound (λ i found, found || p i) found)).
  { apply for_loop_invariant.
    - red. split; [by left |]. intros [H | (i & Hi & _)]; [done | lia].
    - intros i b Hi IH. red. red in IH. rewrite orb_true_iff, IH. split.
      + intros [[H | (k & Hk & Hp)] | Hp];
          [by left | right; exists k; split; [lia | done]
          | right; exists i; split; [lia | done]].
      + intros [H | (k & Hk & Hp)]; [by left; left |].
        destruct (decide (k = i)) as [-> | Hne]; [by right |].
        left. right. exists k. split; [lia | done]. }
  red in H. rewrite H.
  split; (intros [Hf | (i & Hi & Hp)]; [by left | right; exists i; split; [lia | done]]).
Qed.

(** [suspected_not_equal] finds a suspicion, in any row, of a member that
    [old] does not hold. *)
Lemma suspected_not_equal_spec sst suspected_size old :
  suspected_not_equal sst suspected_size old = true
  ↔ ∃ r who, 0 ≤ r < SST.get_num_rows sst ∧ 0 ≤ who < suspected_size
             ∧ suspects sst r who = true ∧ cell false old who = false.
Proof.
  unfold suspected_not_equal.
  pose (p := λ r who, suspects sst r who && negb (cell false old who)).
  pose (P := λ (k : Z) (b : bool),
    b = true ↔ ∃ r who, 0 ≤ r < k ∧ 0 ≤ who < suspected_size ∧ p r who = true).
  assert (H : P (Z.max 0 (SST.get_num_rows sst))
    (for_loop (SST.get_num_rows sst)
       (λ r found, for_loop suspected_size (λ who found, found || p r who) found)
       false)).
  { apply for_loop_invariant.
    - red. split; [done |]. intros (r & who & Hr & _). lia.
    - intros i b Hi IH. red. red in IH. rewrite for_loop_orb, IH. split.
      + intros [(r & who & Hr & Hwho & Hp) | (who & Hwho & Hp)];
          [exists r, who | exists i, who]; (split; [lia | done]).
      + intros (r & who & Hr & Hwho & Hp).
        destruct (decide (r = i)) as [-> | Hne]; [right; by exists who |].
        left. exists r, who. split; [lia | done]. }
  red in H. unfold p in H. unfold suspects in *. rewrite H.
  split; intros (r & who & Hr & Hwho & Hp); exists r, who.
  - apply andb_true_iff in Hp as [Hs Ho]. apply negb_true_iff in Ho.
    split; [lia | done].
  - destruct Hp as [Hs Ho]. split; [lia |]. split; [done |].
    by rewrite Hs, Ho.
Qed.

Lemma suspicions_grow_refl vm : suspicions_grow vm vm.
Proof. by repeat split. Qed.

Lemma suspicions_grow_trans vm1 vm2 vm3 :
  suspicions_grow vm1 vm2 → suspicions_grow vm2 vm3 → suspicions_grow vm1 vm3.
Proof.
  intros (Hr & Hn & Hs & Ho & Hz & Hm & Hl & Hk) (Hr' & Hn' & Hs' & Ho' & Hz' & Hm' & Hl' & Hk').
  rewrite Hr in *.
  split; [congruence |]. split; [congruence |]. split; [congruence |].
  split; [intros r Hne; rewrite Ho', Ho; done |].
  split; [congruence |].
  split; [intros who Hw; by apply Hm', Hm |].
  split; [congruence |]. intros who Hw. by apply Hk', Hk.
Qed.

(** A write to the local row that takes no suspicion back. *)
Lemma suspicions_grow_write f vm :
  (∀ row, size (SST.suspected (f row)) = size (SST.suspected row)) →
  (∀ row who, cell false (SST.suspected row) who = true →
              cell false (SST.suspected (f row)) who = true) →
  suspicions_grow vm (write_row (View.my_rank (curr_view vm)) f vm).
Proof.
  intros Hsize Hmono. unfold suspicions_grow, suspects.
  cbn [write_row with_gmsSST curr_view gmsSST last_suspected].
  rewrite size_update.
  split; [done |]. split; [done |]. split; [done |].
  split; [intros r Hne; rewrite row_update; by rewrite bool_decide_eq_false_2 by tauto |].
  rewrite row_update. case_bool_decide; [|done].
  split; [apply Hsize |]. split; [apply Hmono |]. done.
Qed.

Lemma suspicions_grow_suspects vm vm' r who :
  suspicions_grow vm vm' →
  suspects (gmsSST vm) r who = true → suspects (gmsSST vm') r who = true.
Proof.
  intros (_ & _ & _ & Ho & _ & Hm & _) Hs.
  destruct (decide (r = View.my_rank (curr_view vm))) as [-> | Hne]; [by apply Hm |].
  unfold suspects. by rewrite Ho.
Qed.

(** One step of the aggregation: the local row takes the suspicion of
    row [r] about [who]. *)
Lemma aggregate_step vm me r who :
  let vm' :=
    write_row me
      (λ row,
         SST.set_suspected
           (set_cell (SST.suspected row) who
              (cell false (SST.suspected row) who
               || cell false (SST.suspected (SST.row (gmsSST vm) r)) who))
           row)
      vm in
  View.my_rank (curr_view vm) = me →
  suspicions_grow vm vm'
  ∧ (0 ≤ me < size (gmsSST vm) →
     0 ≤ who < size (SST.suspected (SST.row (gmsSST vm) me)) →
     suspects (gmsSST vm) r who = true → suspects (gmsSST vm') me who = true).
Proof.
  intros vm' <-. split.
  - apply suspicions_grow_write.
    + intros row. cbn. apply size_set_cell.
    + intros row who' Hw. cbn. rewrite cell_set_cell. case_bool_decide as Hc; [|done].
      destruct Hc as [-> _]. by rewrite Hw.
  - intros Hme Hwho Hs. unfold suspects, vm'. rewrite row_write_row.
    rewrite bool_decide_eq_true_2 by done. cbn.
    rewrite cell_set_cell_eq by done. unfold suspects in Hs. rewrite Hs.
    apply orb_true_r.
Qed.

(** The first loop of [new_suspicion] takes every suspicion of every
    row into the local row. *)
Lemma aggregate_suspicions_union vm :
  let me := View.my_rank (curr_view vm) in
  let n := View.num_members (curr_view vm) in
  let vm1 := (aggregate_suspicions vm).1 in
  0 ≤ me < size (gmsSST vm) →
  n ≤ size (SST.suspected (my_row vm)) →
  suspicions_grow vm vm1
  ∧ ∀ r who, 0 ≤ r < n → 0 ≤ who < n →
             suspects (gmsSST vm) r who = true → suspects (gmsSST vm1) me who = true.
Proof.
  intros me n vm1 Hme Hsize. unfold vm1, aggregate_suspicions.
  set (body := λ (r : Z) (p : ViewManager * Z), _).
  pose (P := λ (i : Z) (p : ViewManager * Z),
    suspicions_grow vm p.1
    ∧ ∀ r who, 0 ≤ r < i → 0 ≤ who < n →
               suspects (gmsSST vm) r who = true → suspects (gmsSST p.1) me who = true).
  assert (H : P (Z.max 0 n) (for_loop n body (vm, 0))).
  { apply for_loop_invariant.
    - split; [apply suspicions_grow_refl |]. intros r who Hr. lia.
    - intros i [vm_i num_left] Hi [Hg Hall]. subst body. cbn [fst snd] in *.
      set (inner := λ (who : Z) (vm0 : ViewManager), _).
      pose (Q := λ (j : Z) (vm_j : ViewManager),
        suspicions_grow vm vm_j
        ∧ (∀ r who, 0 ≤ r < i → 0 ≤ who < n →
                    suspects (gmsSST vm) r who = true →
                    suspects (gmsSST vm_j) me who = true)
        ∧ ∀ who, 0 ≤ who < j →
                 suspects (gmsSST vm) i who = true →
                 suspects (gmsSST vm_j) me who = true).
      assert (HQ : Q (Z.max 0 (View.num_members (curr_view vm_i)))
                     (for_loop (View.num_members (curr_view vm_i)) inner vm_i)).
      { apply for_loop_invariant.
        - split; [done |]. split; [done |]. intros who Hw. lia.
        - intros j vm_j Hj (Hgj & Hallj & Hrow). subst inner. cbn beta.
          assert (Hrank : View.my_rank (curr_view vm_j) = me) by apply Hgj.
          destruct (aggregate_step vm_j me i j Hrank) as [Hstep Hnew].
          cbv zeta in Hstep, Hnew.
          assert (Hme_j : 0 ≤ me < size (gmsSST vm_j)).
          { destruct Hgj as (_ & _ & Hz & _). by rewrite Hz. }
          assert (Hsize_j : size (SST.suspected (SST.row (gmsSST vm_j) me))
                            = size (SST.suspected (my_row vm))).
          { destruct Hgj as (_ & _ & _ & _ & Hz & _). exact Hz. }
          assert (Hn_i : View.num_members (curr_view vm_i) = n) by apply Hg.
          split; [by eapply suspicions_grow_trans |].
          split.
          + intros r who Hr Hw Hs.
            eapply (suspicions_grow_suspects vm_j); [done |].
            by apply (Hallj r).
          + intros who Hw Hs. destruct (decide (who = j)) as [-> | Hne].
            * apply Hnew; [done | lia |].
              by apply (suspicions_grow_suspects vm).
            * eapply (suspicions_grow_suspects vm_j); [done |].
              apply Hrow; [lia | done]. }
      destruct HQ as (HQ1 & HQ2 & HQ3).
      assert (Hn_i : View.num_members (curr_view vm_i) = n) by apply Hg.
      split; [done |].
      intros r who Hr Hw Hs. destruct (decide (r = i)) as [-> | Hne].
      + apply HQ3; [lia | done].
      + apply (HQ2 r); [lia | done | done]. }
  destruct H as [H1 H2]. split; [done |]. intros r who Hr Hw. apply (H2 r); lia.
Qed.

Lemma loop_from_throwing_done {St} (P : Z → St → Prop) (body : Z → St → outcome St)
    n from s s' :
  loop_from_throwing n from body s = Done s' →
  P from s →
  (∀ i s s2, from ≤ i < from + Z.of_nat n → P i s → body i s = Done s2 → P (i + 1) s2) →
  P (from + Z.of_nat n) s'.
Proof.
  revert from s. induction n as [|n IH]; intros from s Hdone H0 Hstep; cbn in Hdone.
  - injection Hdone as <-. by replace (from + Z.of_nat 0) with from by lia.
  - destruct (body from s) as [s2 | e s2] eqn:Hbody; [|done].
    replace (from + Z.of_nat (S n)) with ((from + 1) + Z.of_nat n) by lia.
    apply (IH (from + 1) s2 Hdone).
    + apply (Hstep from s); [lia | done | done].
    + intros i s3 s4 Hi. apply Hstep. lia.
Qed.

(** A round of the second loop of [new_suspicion] that does not throw
    leaves the suspicions of the table as they are and records the
    suspicion of [q] in [last_suspected]. *)
Lemma new_suspicion_body_done num_left q vm vm2 :
  let me := View.my_rank (curr_view vm) in
  new_suspicion_body num_left q vm = Done vm2 →
  suspicions_grow vm vm2
  ∧ SST.suspected (SST.row (gmsSST vm2) me) = SST.suspected (SST.row (gmsSST vm) me)
  ∧ (0 ≤ q < size (last_suspected vm) →
     suspects (gmsSST vm) me q = true → cell false (last_suspected vm2) q = true).
Proof.
  intros me. unfold new_suspicion_body. fold me.
  destruct (cell false (SST.suspected (SST.row (gmsSST vm) me)) q
            && negb (cell false (last_suspected vm) q)) eqn:Hc.
  - destruct (not_in_majority _ _); [done |].
    destruct (not_in_majority _ _); [done |].
    assert (Hrow : ∀ (f : SST.Row → SST.Row) sst r,
      (∀ row, SST.suspected (f row) = SST.suspected row) →
      SST.suspected (SST.row (SST.update sst me f) r) = SST.suspected (SST.row sst r)).
    { intros f sst r Hf. rewrite row_update. case_bool_decide as Hr; [|done].
      destruct Hr as [-> _]. apply Hf. }
    assert (Hother : ∀ (f : SST.Row → SST.Row) sst r,
      r ≠ me → SST.row (SST.update sst me f) r = SST.row sst r).
    { intros f sst r Hne. rewrite row_update. by rewrite bool_decide_eq_false_2 by tauto. }
    assert (Hlast : ∀ who, cell false (last_suspected vm) who = true →
      cell false
        (set_cell (last_suspected vm) q
           (cell false (SST.suspected (SST.row (gmsSST vm) me)) q)) who = true).
    { intros who Hw. rewrite cell_set_cell. case_bool_decide as Hq; [|done].
      destruct Hq as [-> _]. by rewrite Hw in Hc; rewrite andb_false_r in Hc. }
    assert (Hset : 0 ≤ q < size (last_suspected vm) →
      cell false
        (set_cell (last_suspected vm) q
           (cell false (SST.suspected (SST.row (gmsSST vm) me)) q)) q = true).
    { intros Hq. rewrite cell_set_cell_eq by done. by apply andb_true_iff in Hc as [-> _]. }
    destruct (View.i_am_leader _ && negb _).
    + case_bool_decide; [done |]. intros [= <-].
      unfold suspicions_grow, suspects.
      cbn [put write_row with_published with_gmsSST with_curr_view with_frozen
           with_multicast_wedged with_last_suspected curr_view gmsSST last_suspected
           View.my_rank View.num_members View.set_num_failed View.set_failed].
      fold me. rewrite !size_update, !Hrow, !size_set_cell by done.
      split; [|split; [done | intros Hq _; by apply Hset]].
      split; [done |]. split; [done |]. split; [done |].
      split; [intros r Hne; by rewrite !Hother |].
      split; [done |]. split; [done |]. split; [done |]. exact Hlast.
    + intros [= <-].
      unfold suspicions_grow, suspects.
      cbn [put write_row with_published with_gmsSST with_curr_view with_frozen
           with_multicast_wedged with_last_suspected curr_view gmsSST last_suspected
           View.my_rank View.num_members View.set_num_failed View.set_failed].
      fold me. rewrite !size_update, !Hrow, !size_set_cell by done.
      split; [|split; [done | intros Hq _; by apply Hset]].
      split; [done |]. split; [done |]. split; [done |].
      split; [intros r Hne; by rewrite !Hother |].
      split; [done |]. split; [done |]. split; [done |]. exact Hlast.
  - intros [= <-]. split; [apply suspicions_grow_refl |]. split; [done |].
    intros Hq Hs. unfold suspects in Hs. rewrite Hs in Hc. cbn in Hc.
    by apply negb_false_iff in Hc.
Qed.

(** X10.  When [new_suspicion] returns, the predicate [suspected_changed]
    that triggers it is false: every suspicion that a row held of a
    member is in the local row and in [last_suspected].  The table has
    a row and a [suspected] cell for each member. *)
Theorem new_suspicion_settles vm vm' :
  let me := View.my_rank (curr_view vm) in
  let n := View.num_members (curr_view vm) in
  0 ≤ me < size (gmsSST vm) →
  SST.get_num_rows (gmsSST vm) = n →
  size (SST.suspected (my_row vm)) = n →
  n ≤ size (last_suspected vm) →
  new_suspicion vm = Done vm' →
  suspected_changed vm' = false
  ∧ ∀ r who, 0 ≤ r < n → 0 ≤ who < n →
             suspects (gmsSST vm) r who = true →
             suspects (gmsSST vm') me who = true
             ∧ cell false (last_suspected vm') who = true.
Proof.
  intros me n Hme Hrows Hsusp Hlast. unfold new_suspicion.
  destruct (aggregate_suspicions_union vm Hme) as [Hg1 Hunion];
    [fold n; lia |].
  destruct (aggregate_suspicions vm) as [vm1 num_left]. cbn [fst] in Hg1, Hunion.
  fold me n in Hunion.
  assert (Hn1 : View.num_members (curr_view vm1) = n) by apply Hg1.
  assert (Hme1 : View.my_rank (curr_view vm1) = me) by apply Hg1.
  rewrite Hn1. unfold for_loop_throwing. intros Hdone.
  pose (P := λ (q : Z) (vm_q : ViewManager),
    suspicions_grow vm1 vm_q
    ∧ SST.suspected (SST.row (gmsSST vm_q) me) = SST.suspected (SST.row (gmsSST vm1) me)
    ∧ ∀ who, 0 ≤ who < q → suspects (gmsSST vm1) me who = true →
             cell false (last_suspected vm_q) who = true).
  assert (H : P (0 + Z.of_nat (Z.to_nat n)) vm').
  { apply (loop_from_throwing_done P _ _ _ _ _ Hdone).
    - split; [apply suspicions_grow_refl |]. split; [done |]. intros who Hw. lia.
    - intros q vm_q vm2 Hq (Hg & Hsame & Hrec) Hbody.
      assert (Hme_q : View.my_rank (curr_view vm_q) = me).
      { destruct Hg as (-> & _). done. }
      destruct (new_suspicion_body_done _ _ _ _ Hbody) as (Hg2 & Hsame2 & Hnew).
      rewrite Hme_q in Hsame2, Hnew.
      split; [by eapply suspicions_grow_trans |].
      split; [congruence |].
      intros who Hw Hs. destruct (decide (who = q)) as [-> | Hne].
      + apply Hnew.
        * destruct Hg as (_ & _ & _ & _ & _ & _ & -> & _).
          destruct Hg1 as (_ & _ & _ & _ & _ & _ & -> & _). lia.
        * unfold suspects. rewrite Hsame. exact Hs.
      + destruct Hg2 as (_ & _ & _ & _ & _ & _ & _ & Hk). apply Hk.
        apply Hrec; [lia | done]. }
  destruct H as (Hg & Hsame & Hrec).
  assert (Hg' : suspicions_grow vm vm') by (by eapply suspicions_grow_trans).
  assert (Hall : ∀ r who, 0 ≤ r < n → 0 ≤ who < n →
             suspects (gmsSST vm) r who = true →
             suspects (gmsSST vm') me who = true
             ∧ cell false (last_suspected vm') who = true).
  { intros r who Hr Hw Hs. pose proof (Hunion r who Hr Hw Hs) as H1.
    split.
    - unfold suspects. rewrite Hsame. exact H1.
    - apply Hrec; [lia | done]. }
  split; [|exact Hall].
  apply not_true_is_false. unfold suspected_changed.
  rewrite suspected_not_equal_spec. intros (r & who & Hr & Hw & Hs & Hold).
  destruct Hg' as (Hrank & _ & Hsize & Hother & Hz & _).
  unfold my_row, get_local_index in Hw. rewrite Hrank, Hz in Hw.
  unfold SST.get_num_rows in Hr, Hrows. rewrite Hsize in Hr.
  fold me in Hother, Hw. unfold my_row, get_local_index in Hsusp. fold me in Hsusp.
  assert (Hlast' : cell false (last_suspected vm') who = true).
  { destruct (decide (r = me)) as [-> | Hne].
    - apply Hrec; [lia |]. unfold suspects in *. by rewrite <- Hsame.
    - apply (Hall r who); [lia | lia |]. unfold suspects in *. by rewrite <- Hother. }
  congruence.
Qed.

(** ** The layout of [num_received] *)

Lemma fold_indexed_foldl {A St} (body : nat → A → St → St) (g : St → A → St) l :
  (∀ i x s, body i x s = g s x) →
  ∀ i s, fold_indexed body i l s = foldl g s l.
Proof.
  intros Hbody. induction l as [|x l IH]; intros i s; cbn; [done |].
  by rewrite Hbody, IH.
Qed.

Lemma compute_num_received_size_foldl view :
  compute_num_received_size view
  = foldl (λ off shards, u32 (off + foldl (λ max sv, widest sv max) 0 shards)) 0
      (View.subgroup_shard_views view).
Proof.
  unfold compute_num_received_size.
  apply fold_indexed_foldl. intros i shards off. cbn beta zeta. f_equal. f_equal.
  by apply fold_indexed_foldl.
Qed.

Lemma last_match_split {A} (P : A → Prop) `{!∀ x, Decision (P x)} (l : list A) :
  Forall (λ x, ¬ P x) l
  ∨ ∃ pre x post, l = pre ++ x :: post ∧ P x ∧ Forall (λ x, ¬ P x) post.
Proof.
  induction l as [|x l IH]; [by left |].
  destruct IH as [Hnone | (pre & y & post & -> & Hy & Hpost)].
  - destruct (decide (P x)) as [Hx | Hx].
    + right. by exists [], x, l.
    + left. by constructor.
  - right. by exists (x :: pre), y, post.
Qed.

(** The loop over the shards of one subgroup. *)
Lemma derive_shards_spec my_id sg off shards :
  ∀ i st,
    let st' := fold_indexed (derive_shard my_id sg off) i shards st in
    max_shard_senders st' = foldl (λ max sv, widest sv max) (max_shard_senders st) shards
    ∧ loop_shards st' = loop_shards st ++ (with_rank_of my_id <$> shards)
    ∧ (∀ k, k ≠ sg → loop_my_subgroups st' !! k = loop_my_subgroups st !! k
                      ∧ loop_settings st' !! k = loop_settings st !! k)
    ∧ (Forall (λ sv, ¬ SubView.rank_of sv my_id ≠ -1) shards →
       loop_my_subgroups st' = loop_my_subgroups st
       ∧ loop_settings st' = loop_settings st).
Proof.
  induction shards as [|sv shards IH]; intros i st; cbn [fold_indexed].
  - cbn. rewrite app_nil_r. done.
  - specialize (IH (S i) (derive_shard my_id sg off i sv st)). cbn zeta in IH.
    destruct IH as (Hmax & Hshards & Hother & Hnone).
    assert (Hstep : max_shard_senders (derive_shard my_id sg off i sv st)
                    = widest sv (max_shard_senders st)
                    ∧ loop_shards (derive_shard my_id sg off i sv st)
                      = loop_shards st ++ [with_rank_of my_id sv]).
    { unfold derive_shard, widest, with_rank_of.
      cbn [SubView.my_rank SubView.set_my_rank]. by case_bool_decide. }
    destruct Hstep as [Hmax1 Hshards1].
    split; [by rewrite Hmax, Hmax1 |].
    split; [rewrite Hshards, Hshards1; cbn; by rewrite <- app_assoc |].
    split.
    + intros k Hk. destruct (Hother k Hk) as [-> ->].
      unfold derive_shard. cbn [SubView.my_rank SubView.set_my_rank].
      case_bool_decide; cbn; [|done]. by rewrite !lookup_insert_ne.
    + intros Hall. apply Forall_cons in Hall as [Hsv Hall].
      destruct (Hnone Hall) as [-> ->].
      unfold derive_shard. cbn [SubView.my_rank SubView.set_my_rank].
      by rewrite bool_decide_eq_false_2.
Qed.

Lemma derive_shards_last my_id sg off pre sv post i st :
  let st' := fold_indexed (derive_shard my_id sg off) i (pre ++ sv :: post) st in
  SubView.rank_of sv my_id ≠ -1 →
  Forall (λ sv, ¬ SubView.rank_of sv my_id ≠ -1) post →
  loop_my_subgroups st' !! sg = Some (i + length pre)%nat
  ∧ loop_settings st' !! sg = Some (settings_of my_id off (i + length pre) sv).
Proof.
  intros st' Hsv Hpost. subst st'. rewrite fold_indexed_app. cbn [fold_indexed].
  set (st1 := fold_indexed _ i pre st).
  destruct (derive_shards_spec my_id sg off post (S (i + length pre))
              (derive_shard my_id sg off (i + length pre) sv st1))
    as (_ & _ & _ & Hnone).
  destruct (Hnone Hpost) as [-> ->].
  unfold derive_shard, settings_of. cbn [SubView.my_rank SubView.set_my_rank].
  rewrite bool_decide_eq_true_2 by done. cbn. by rewrite !lookup_insert_eq.
Qed.

(** The loop over the subgroups: the offsets add up, every subgroup
    writes the entries of its own id only, and a subgroup of which the
    node is a member gets the settings of the last shard that holds the
    node. *)
Lemma derive_subgroups_spec subgroups :
  ∀ i off view settings,
    let my_id := cell 0 (View.members view) (View.my_rank view) in
    let offset_at := λ j,
      foldl (λ off shards, u32 (off + foldl (λ max sv, widest sv max) 0 shards)) off
        (take j subgroups) in
    let r := fold_indexed derive_subgroup i subgroups (off, view, settings) in
    r.1.1 = offset_at (length subgroups)
    ∧ same_node r.1.2 view
    ∧ length (View.subgroup_shard_views r.1.2) = length (View.subgroup_shard_views view)
    ∧ (∀ k, ¬ (i ≤ k < i + length subgroups)%nat →
            View.my_subgroups r.1.2 !! k = View.my_subgroups view !! k
            ∧ r.2 !! k = settings !! k
            ∧ View.subgroup_shard_views r.1.2 !! k = View.subgroup_shard_views view !! k)
    ∧ ∀ j shards,
        subgroups !! j = Some shards →
        ((i + j < length (View.subgroup_shard_views view))%nat →
         View.subgroup_shard_views r.1.2 !! (i + j)%nat
         = Some (with_rank_of my_id <$> shards))
        ∧ (Forall (λ sv, ¬ SubView.rank_of sv my_id ≠ -1) shards →
           View.my_subgroups r.1.2 !! (i + j)%nat = View.my_subgroups view !! (i + j)%nat
           ∧ r.2 !! (i + j)%nat = settings !! (i + j)%nat)
        ∧ (∀ pre sv post,
             shards = pre ++ sv :: post →
             SubView.rank_of sv my_id ≠ -1 →
             Forall (λ sv, ¬ SubView.rank_of sv my_id ≠ -1) post →
             View.my_subgroups r.1.2 !! (i + j)%nat = Some (length pre)
             ∧ r.2 !! (i + j)%nat
               = Some (settings_of my_id (offset_at j) (length pre) sv)).
Proof.
  induction subgroups as [|shards0 rest IH]; intros i off view settings my_id offset_at r.
  - subst r offset_at. cbn. split; [done |]. split; [done |]. split; [done |].
    split; [done |]. intros j shards Hj. done.
  - subst r. cbn [fold_indexed].
    set (st' := fold_indexed (derive_shard my_id i off) 0 shards0
                  (mkShardLoop 0 (View.my_subgroups view) settings [])).
    set (view1 :=
      View.set_subgroup_shard_views
        (<[i := loop_shards st']> (View.subgroup_shard_views view))
        (View.set_my_subgroups (loop_my_subgroups st') view)).
    change (derive_subgroup i shards0 (off, view, settings))
      with (u32 (off + max_shard_senders st'), view1, loop_settings st').
    destruct (derive_shards_spec my_id i off shards0 0
                (mkShardLoop 0 (View.my_subgroups view) settings []))
      as (Hmax & Hshards & Hother & Hnone).
    fold st' in Hmax, Hshards, Hother, Hnone.
    cbn [max_shard_senders loop_shards loop_my_subgroups loop_settings app]
      in Hmax, Hshards, Hother, Hnone.
    specialize (IH (S i) (u32 (off + max_shard_senders st')) view1 (loop_settings st')).
    cbn zeta in IH.
    change (cell 0 (View.members view1) (View.my_rank view1)) with my_id in IH.
    destruct IH as (Hoff & Hnode & Hlen & Hout & Hin).
    assert (Hlen1 : length (View.subgroup_shard_views view1)
                    = length (View.subgroup_shard_views view)).
    { subst view1. cbn. apply length_insert. }
    split.
    { rewrite Hoff. subst offset_at. cbn [length take foldl]. by rewrite Hmax. }
    split; [exact Hnode |].
    split; [by rewrite Hlen |].
    split.
    { intros k Hk. destruct (Hout k) as (-> & -> & ->); [cbn [length] in Hk; lia |].
      destruct (Hother k) as [Hm Hs]; [cbn [length] in Hk; lia |].
      split; [exact Hm |]. split; [exact Hs |].
      subst view1. cbn. apply list_lookup_insert_ne. cbn [length] in Hk. lia. }
    intros j shards Hj. destruct j as [|j]; cbn in Hj.
    + injection Hj as <-. rewrite Nat.add_0_r.
      destruct (Hout i) as (Hm & Hs & Hv); [lia |]. rewrite Hm, Hs, Hv.
      split.
      { intros Hi. subst view1. cbn. rewrite list_lookup_insert_eq by done.
        by rewrite Hshards. }
      split.
      { intros Hall. destruct (Hnone Hall) as [Hm2 Hs2]. subst view1. cbn.
        by rewrite Hm2, Hs2. }
      intros pre sv post -> Hsv Hpost.
      destruct (derive_shards_last my_id i off pre sv post 0
                  (mkShardLoop 0 (View.my_subgroups view) settings []) Hsv Hpost)
        as [Hm' Hs'].
      fold st' in Hm', Hs'. cbn in Hm', Hs'. done.
    + destruct (Hin j shards Hj) as (Hv & Hno & Hlast).
      replace (i + S j)%nat with (S i + j)%nat by lia.
      split; [intros Hi; apply Hv; lia |].
      split.
      { intros Hall. destruct (Hno Hall) as [-> ->].
        destruct (Hother (S i + j)%nat) as [Hm Hs]; [lia |]. done. }
      intros pre sv post Heq Hsv Hpost.
      destruct (Hlast pre sv post Heq Hsv Hpost) as [-> ->].
      split; [done |]. subst offset_at. cbn [take foldl]. by rewrite Hmax.
Qed.

Lemma num_senders_bound sv :
  (length (SubView.is_sender sv) ≤ length (SubView.members sv))%nat →
  0 ≤ SubView.num_senders sv ≤ size (SubView.members sv).
Proof.
  intros Hfit. unfold SubView.num_senders, size.
  pose proof (length_filter (λ b : bool, b = true) (SubView.is_sender sv)). lia.
Qed.

(** The widest shard of a subgroup, as the loops compute it: it holds the
    senders of every shard. *)
Lemma widest_fold_bounds shards :
  Forall (λ sv, (length (SubView.is_sender sv) ≤ length (SubView.members sv))%nat) shards →
  Z.of_nat (widest_shard shards) < 2 ^ 32 →
  ∀ m, 0 ≤ m →
    let w := foldl (λ max sv, widest sv max) m shards in
    m ≤ w ≤ Z.max m (Z.of_nat (widest_shard shards))
    ∧ ∀ sv, sv ∈ shards → SubView.num_senders sv ≤ w.
Proof.
  induction 1 as [|sv shards Hsv Hrest IH]; intros Hsmall m Hm w.
  - subst w. cbn. split; [lia |]. intros sv Hin. by apply elem_of_nil in Hin.
  - subst w. cbn [foldl]. unfold widest_shard in *. cbn [max_list_with] in *.
    pose proof (num_senders_bound sv Hsv) as Hn. unfold size in Hn.
    assert (Hw : Z.max m (SubView.num_senders sv) ≤ widest sv m
                 ≤ Z.max m (Z.of_nat (length (SubView.members sv)))).
    { unfold widest. case_bool_decide; [|lia].
      rewrite u32_small by (unfold size; lia). unfold size. lia. }
    destruct (IH ltac:(lia) (widest sv m) ltac:(lia)) as [Hrange Hall].
    split; [lia |].
    intros sv' Hin. apply elem_of_cons in Hin as [-> | Hin]; [lia | by apply Hall].
Qed.

Lemma columns_needed_app l1 l2 :
  columns_needed (l1 ++ l2) = (columns_needed l1 + columns_needed l2)%nat.
Proof. unfold columns_needed. induction l1 as [|x l1 IH]; cbn; [done | lia]. Qed.

(** Without wrap-around the offsets add up the widest shards. *)
Lemma offsets_add_up subgroups :
  Forall (Forall (λ sv, (length (SubView.is_sender sv) ≤ length (SubView.members sv))%nat))
    subgroups →
  ∀ off, 0 ≤ off → off + Z.of_nat (columns_needed subgroups) < 2 ^ 32 →
    let g := λ off shards, u32 (off + foldl (λ max sv, widest sv max) 0 shards) in
    off ≤ foldl g off subgroups ≤ off + Z.of_nat (columns_needed subgroups).
Proof.
  induction 1 as [|shards subgroups Hshards Hrest IH]; intros off Hoff Hsmall g.
  - cbn. unfold columns_needed. cbn. lia.
  - subst g. cbn [foldl]. unfold columns_needed in *. cbn [sum_list_with] in *.
    destruct (widest_fold_bounds shards Hshards ltac:(lia) 0 ltac:(lia)) as [Hw _].
    cbn zeta in Hw.
    set (w := foldl (λ max sv, widest sv max) 0 shards) in *.
    rewrite u32_small by lia.
    specialize (IH (off + w) ltac:(lia) ltac:(lia)). cbn zeta in IH. lia.
Qed.

Lemma offset_of_foldl view sg :
  offset_of view sg
  = foldl (λ off shards, u32 (off + foldl (λ max sv, widest sv max) 0 shards)) 0
      (take sg (View.subgroup_shard_views view)).
Proof. unfold offset_of. by rewrite compute_num_received_size_foldl. Qed.

(** The columns of a subgroup: they start at its offset, hold the
    senders of each of its shards and end where the next subgroup
    starts. *)
Lemma offsets_in_order view sg shards :
  let subgroups := View.subgroup_shard_views view in
  Forall (Forall (λ sv, (length (SubView.is_sender sv) ≤ length (SubView.members sv))%nat))
    subgroups →
  Z.of_nat (columns_needed subgroups) < 2 ^ 32 →
  subgroups !! sg = Some shards →
  0 ≤ offset_of view sg
  ∧ (∀ sv, sv ∈ shards →
           offset_of view sg + SubView.num_senders sv ≤ offset_of view (S sg))
  ∧ offset_of view (S sg) ≤ compute_num_received_size view.
Proof.
  intros subgroups Hfit Hsmall Hsg.
  rewrite !offset_of_foldl, compute_num_received_size_foldl. fold subgroups.
  pose proof (take_drop_middle _ _ _ Hsg) as Hsplit.
  assert (Hcols : (columns_needed subgroups
                   = columns_needed (take sg subgroups) + widest_shard shards
                     + columns_needed (drop (S sg) subgroups))%nat).
  { rewrite <- Hsplit at 1. rewrite columns_needed_app. unfold columns_needed.
    cbn [sum_list_with]. lia. }
  assert (Hfit1 : Forall (Forall (λ sv, (length (SubView.is_sender sv)
                                        ≤ length (SubView.members sv))%nat))
                    (take sg subgroups)) by (by apply Forall_take).
  assert (Hfit2 : Forall (λ sv, (length (SubView.is_sender sv)
                                ≤ length (SubView.members sv))%nat) shards).
  { rewrite Forall_forall in Hfit. apply Hfit. by eapply list_elem_of_lookup_2. }
  assert (Hfit3 : Forall (Forall (λ sv, (length (SubView.is_sender sv)
                                        ≤ length (SubView.members sv))%nat))
                    (drop (S sg) subgroups)) by (by apply Forall_drop).
  pose proof (offsets_add_up _ Hfit1 0 ltac:(lia) ltac:(lia)) as H1. cbn zeta in H1.
  set (g := λ off shards, u32 (off + foldl (λ max sv, widest sv max) 0 shards)) in *.
  set (off := foldl g 0 (take sg subgroups)) in *.
  destruct (widest_fold_bounds shards Hfit2 ltac:(lia) 0 ltac:(lia)) as [Hw Hall].
  cbn zeta in Hw, Hall.
  assert (Hnext : foldl g 0 (take (S sg) subgroups)
                  = off + foldl (λ max sv, widest sv max) 0 shards).
  { rewrite (take_S_r _ _ _ Hsg), foldl_app. cbn [foldl]. fold off. unfold g at 1.
    apply u32_small. lia. }
  rewrite Hnext.
  split; [lia |]. split; [intros sv Hin; specialize (Hall sv Hin); lia |].
  rewrite <- Hsplit. rewrite foldl_app. cbn [foldl]. fold off.
  assert (Hstep : g off shards = off + foldl (λ max sv, widest sv max) 0 shards).
  { unfold g at 1. apply u32_small. lia. }
  rewrite Hstep.
  pose proof (offsets_add_up _ Hfit3
                (off + foldl (λ max sv, widest sv max) 0 shards)
                ltac:(lia) ltac:(lia)) as H3.
  cbn zeta in H3. fold g in H3. lia.
Qed.

Lemma derive_subgroups_ids subgroups :
  ∀ i st,
    View.subgroup_ids_by_type_id (fold_indexed derive_subgroup i subgroups st).1.2
    = View.subgroup_ids_by_type_id st.1.2.
Proof.
  induction subgroups as [|shards subgroups IH]; intros i [[off view] settings];
    cbn [fold_indexed]; [done |].
  by rewrite IH.
Qed.

Lemma rank_of_shard sv my_id :
  SubView.rank_of sv my_id ≠ -1 ↔ my_id ∈ SubView.members sv.
Proof. apply find_rank_member. Qed.

(** What [derive_subgroup_settings] leaves for one subgroup. *)
Lemma derive_subgroup_settings_at view settings sg shards :
  let my_id := cell 0 (View.members view) (View.my_rank view) in
  let r := derive_subgroup_settings view settings in
  View.subgroup_shard_views view !! sg = Some shards →
  View.subgroup_shard_views r.1.2 !! sg = Some (with_rank_of my_id <$> shards)
  ∧ ((∀ sv, sv ∈ shards → my_id ∉ SubView.members sv)
     ∧ View.my_subgroups r.1.2 !! sg = None
     ∧ r.2 !! sg = settings !! sg
     ∨ ∃ pre sv post,
         shards = pre ++ sv :: post
         ∧ my_id ∈ SubView.members sv
         ∧ (∀ sv', sv' ∈ post → my_id ∉ SubView.members sv')
         ∧ View.my_subgroups r.1.2 !! sg = Some (length pre)
         ∧ r.2 !! sg = Some (settings_of my_id (offset_of view sg) (length pre) sv)).
Proof.
  intros my_id r Hsg. subst r. unfold derive_subgroup_settings.
  cbn [View.subgroup_shard_views View.set_my_subgroups].
  destruct (derive_subgroups_spec (View.subgroup_shard_views view) 0 0
              (View.set_my_subgroups ∅ view) settings)
    as (_ & _ & _ & _ & Hin).
  cbn [View.members View.my_rank View.set_my_subgroups View.subgroup_shard_views
       View.my_subgroups] in Hin.
  fold my_id in Hin.
  destruct (Hin sg shards Hsg) as (Hv & Hnone & Hlast). cbn [Nat.add] in *.
  split; [apply Hv; by eapply lookup_lt_Some |].
  destruct (last_match_split (λ sv, SubView.rank_of sv my_id ≠ -1) shards)
    as [Hall | (pre & sv & post & -> & Hsv & Hpost)].
  - left. destruct (Hnone Hall) as [Hm Hs].
    split; [|split; [by rewrite Hm | done]].
    intros sv Hin'. rewrite Forall_forall in Hall. rewrite <- rank_of_shard.
    by apply Hall.
  - right. exists pre, sv, post. destruct (Hlast pre sv post eq_refl Hsv Hpost) as [Hm Hs].
    split; [done |]. split; [by apply rank_of_shard |].
    split.
    { intros sv' Hin'. rewrite Forall_forall in Hpost. rewrite <- rank_of_shard.
      by apply Hpost. }
    split; [done |]. by rewrite Hs, offset_of_foldl.
Qed.

Lemma derive_subgroup_settings_beyond view settings sg :
  let r := derive_subgroup_settings view settings in
  View.subgroup_shard_views view !! sg = None →
  View.subgroup_shard_views r.1.2 !! sg = None
  ∧ View.my_subgroups r.1.2 !! sg = None
  ∧ r.2 !! sg = settings !! sg.
Proof.
  intros r Hsg. subst r. unfold derive_subgroup_settings.
  cbn [View.subgroup_shard_views View.set_my_subgroups].
  destruct (derive_subgroups_spec (View.subgroup_shard_views view) 0 0
              (View.set_my_subgroups ∅ view) settings)
    as (_ & _ & _ & Hout & _).
  pose proof Hsg as Hge. apply lookup_ge_None in Hge.
  destruct (Hout sg) as (Hm & Hs & Hv); [lia |].
  rewrite Hm, Hs, Hv. cbn. done.
Qed.

(** X11.  [derive_subgroup_settings] returns what
    [compute_num_received_size] computes, and lays the columns of
    [num_received] out in the order of the subgroups: when no shard has
    more sender flags than members and the widths fit 32 bits, the
    columns of a subgroup start at its offset, hold the senders of each
    of its shards and end at or before the offset of the next subgroup,
    within the size returned; a subgroup of the local node gets that
    offset in its settings. *)
Theorem derive_subgroup_settings_lays_out view settings :
  let my_id := cell 0 (View.members view) (View.my_rank view) in
  let subgroups := View.subgroup_shard_views view in
  let r := derive_subgroup_settings view settings in
  Forall (Forall (λ sv, (length (SubView.is_sender sv) ≤ length (SubView.members sv))%nat))
    subgroups →
  Z.of_nat (columns_needed subgroups) < 2 ^ 32 →
  r.1.1 = compute_num_received_size view
  ∧ ∀ sg shards,
      subgroups !! sg = Some shards →
      0 ≤ offset_of view sg
      ∧ (∀ sv, sv ∈ shards →
               offset_of view sg + SubView.num_senders sv ≤ offset_of view (S sg))
      ∧ offset_of view (S sg) ≤ r.1.1
      ∧ (Exists (λ sv, my_id ∈ SubView.members sv) shards →
         ∃ s, r.2 !! sg = Some s
              ∧ SubgroupSettings.num_received_offset s = offset_of view sg
              ∧ offset_of view sg
                + size (filter (λ b, b = true) (SubgroupSettings.senders s))
                ≤ offset_of view (S sg)).
Proof.
  intros my_id subgroups r Hfit Hsmall.
  assert (Htotal : r.1.1 = compute_num_received_size view).
  { subst r. unfold derive_subgroup_settings.
    cbn [View.subgroup_shard_views View.set_my_subgroups].
    destruct (derive_subgroups_spec (View.subgroup_shard_views view) 0 0
                (View.set_my_subgroups ∅ view) settings) as (Hoff & _).
    rewrite Hoff, firstn_all. by rewrite compute_num_received_size_foldl. }
  split; [exact Htotal |].
  intros sg shards Hsg.
  destruct (offsets_in_order view sg shards Hfit Hsmall Hsg) as (H0 & Hsenders & Hnext).
  split; [exact H0 |]. split; [exact Hsenders |]. split; [by rewrite Htotal |].
  intros Hmember.
  destruct (derive_subgroup_settings_at view settings sg shards Hsg)
    as [_ [(Hnone & _) | (pre & sv & post & -> & Hsv & _ & _ & Hs)]].
  - apply Exists_exists in Hmember as (sv & Hin & Hsv). by destruct (Hnone sv Hin).
  - fold my_id r in Hs. eexists. split; [exact Hs |]. split; [done |].
    cbn [settings_of SubgroupSettings.senders].
    apply (Hsenders sv). apply elem_of_app. right. apply list_elem_of_here.
Qed.

(** X12.  [derive_subgroup_settings] fills in the rank of the local node
    in every shard and leaves the members as they are.  Of a subgroup in
    which the node is in no shard, [my_subgroups] holds nothing and the
    settings given are left as they were; of any other subgroup,
    [my_subgroups] holds the last shard of which the node is a member,
    and the settings are those of that shard at the offset of the
    subgroup.  Beyond the subgroups of the view nothing is written. *)
Theorem derive_subgroup_settings_finds_my_shards view settings sg :
  let my_id := cell 0 (View.members view) (View.my_rank view) in
  let r := derive_subgroup_settings view settings in
  match View.subgroup_shard_views view !! sg with
  | Some shards =>
      View.subgroup_shard_views r.1.2 !! sg = Some (with_rank_of my_id <$> shards)
      ∧ match View.my_subgroups r.1.2 !! sg with
        | Some shard_num =>
            ∃ sv, shards !! shard_num = Some sv
                  ∧ my_id ∈ SubView.members sv
                  ∧ (∀ later sv', (shard_num < later)%nat → shards !! later = Some sv' →
                                  my_id ∉ SubView.members sv')
                  ∧ r.2 !! sg = Some (settings_of my_id (offset_of view sg) shard_num sv)
        | None =>
            (∀ sv, sv ∈ shards → my_id ∉ SubView.members sv)
            ∧ r.2 !! sg = settings !! sg
        end
  | None =>
      View.subgroup_shard_views r.1.2 !! sg = None
      ∧ View.my_subgroups r.1.2 !! sg = None
      ∧ r.2 !! sg = settings !! sg
  end.
Proof.
  intros my_id r.
  destruct (View.subgroup_shard_views view !! sg) as [shards|] eqn:Hsg.
  - destruct (derive_subgroup_settings_at view settings sg shards Hsg)
      as [Hv [(Hnone & Hm & Hs) | (pre & sv & post & -> & Hsv & Hpost & Hm & Hs)]];
      fold my_id r in Hv, Hm, Hs; (split; [exact Hv |]); rewrite Hm.
    + done.
    + exists sv. split; [by apply list_lookup_middle |]. split; [done |].
      split; [|done].
      intros later sv' Hlater Hlook. apply Hpost.
      rewrite lookup_app_r in Hlook by lia.
      destruct (later - length pre)%nat as [|k] eqn:Hk; [lia |].
      cbn in Hlook. by eapply list_elem_of_lookup_2.
  - by apply derive_subgroup_settings_beyond.
Qed.

(** X13.  After [derive_subgroup_settings], [get_subgroup_members]
    answers as before, and [get_my_shard] returns the number of a shard
    of the subgroup of which the local node is a member, or -1 when the
    node is in no shard of it. *)
Theorem get_my_shard_after_derive vm settings subgroup_type subgroup_index :
  let my_id :=
    cell 0 (View.members (curr_view vm)) (View.my_rank (curr_view vm)) in
  let vm' := with_curr_view (derive_subgroup_settings (curr_view vm) settings).1.2 vm in
  get_subgroup_members vm' subgroup_type subgroup_index
  = get_subgroup_members vm subgroup_type subgroup_index
  ∧ ∀ shard_members,
      get_subgroup_members vm subgroup_type subgroup_index = Returns shard_members →
      size shard_members < 2 ^ 31 →
      ∃ shard_num,
        get_my_shard vm' subgroup_type subgroup_index = Returns shard_num
        ∧ (shard_num = -1 ∧ (∀ ms, ms ∈ shard_members → my_id ∉ ms)
           ∨ 0 ≤ shard_num
             ∧ ∃ ms, shard_members !! Z.to_nat shard_num = Some ms ∧ my_id ∈ ms).
Proof.
  intros my_id vm'. unfold get_subgroup_members, get_my_shard. subst vm'.
  cbn [curr_view with_curr_view]. unfold derive_subgroup_settings at 1 3.
  rewrite !derive_subgroups_ids.
  cbn [fst snd View.subgroup_ids_by_type_id View.set_my_subgroups].
  fold (derive_subgroup_settings (curr_view vm) settings).
  destruct (View.subgroup_ids_by_type_id (curr_view vm) !! subgroup_type) as [ids|];
    [|done].
  destruct (ids !! subgroup_index) as [sg|]; [|done].
  destruct (View.subgroup_shard_views (curr_view vm) !! sg) as [shards|] eqn:Hsg.
  - assert (Hmembers : SubView.members <$> (with_rank_of my_id <$> shards)
                       = SubView.members <$> shards).
    { rewrite <- list_fmap_compose. by apply list_fmap_ext. }
    destruct (derive_subgroup_settings_at (curr_view vm) settings sg shards Hsg)
      as [Hv [(Hnone & Hm & _) | (pre & sv & post & -> & Hsv & _ & Hm & _)]];
      fold my_id in Hv, Hm; rewrite Hv, Hm, Hmembers; (split; [done |]);
      intros shard_members [= <-] Hsize.
    + exists (-1). split; [done |]. left. split; [done |].
      intros ms Hms. apply list_elem_of_fmap in Hms as (sv & -> & Hin). by apply Hnone.
    + unfold size in Hsize. rewrite length_fmap, length_app in Hsize. cbn in Hsize.
      exists (Z.of_nat (length pre)). split; [by rewrite i32_small by lia |].
      right. split; [lia |]. exists (SubView.members sv). split; [|done].
      rewrite Nat2Z.id, list_lookup_fmap. by rewrite list_lookup_middle.
  - destruct (derive_subgroup_settings_beyond (curr_view vm) settings sg Hsg)
      as (-> & _). done.
Qed.

(** ** Suspicions become failures *)

(** A round of the second loop of [new_suspicion] that does not throw:
    a member that the local row suspects and [last_suspected] does not
    hold is marked failed and frozen, and the local node wedges; nothing
    else changes in the failed flags. *)
Lemma new_suspicion_body_marks num_left q vm vm2 :
  let me := View.my_rank (curr_view vm) in
  let newly :=
    cell false (SST.suspected (SST.row (gmsSST vm) me)) q
    && negb (cell false (last_suspected vm) q) in
  new_suspicion_body num_left q vm = Done vm2 →
  (∀ who, who ≠ q →
          cell false (last_suspected vm2) who = cell false (last_suspected vm) who)
  ∧ size (View.failed (curr_view vm2)) = size (View.failed (curr_view vm))
  ∧ (∀ who, cell false (View.failed (curr_view vm2)) who
            = if bool_decide (who = q ∧ 0 ≤ q < size (View.failed (curr_view vm)))
              then cell false (View.failed (curr_view vm)) who || newly
              else cell false (View.failed (curr_view vm)) who)
  ∧ (∀ x, x ∈ frozen vm → x ∈ frozen vm2)
  ∧ (multicast_wedged vm = true → multicast_wedged vm2 = true)
  ∧ (SST.wedged (SST.row (gmsSST vm) me) = true →
     SST.wedged (SST.row (gmsSST vm2) me) = true)
  ∧ View.num_failed (curr_view vm) ≤ View.num_failed (curr_view vm2)
  ∧ (newly = true →
     q ∈ frozen vm2
     ∧ multicast_wedged vm2 = true
     ∧ (0 ≤ me < size (gmsSST vm) → SST.wedged (SST.row (gmsSST vm2) me) = true)
     ∧ View.num_failed (curr_view vm2) = View.num_failed (curr_view vm) + 1).
Proof.
  intros me newly. unfold new_suspicion_body. fold me. fold newly.
  destruct newly eqn:Hnewly.
  - destruct (not_in_majority _ _); [done |].
    destruct (not_in_majority _ _); [done |].
    assert (Hwedged : ∀ (f : SST.Row → SST.Row) sst,
      (∀ row, SST.wedged row = true → SST.wedged (f row) = true) →
      SST.wedged (SST.row sst me) = true →
      SST.wedged (SST.row (SST.update sst me f) me) = true).
    { intros f sst Hf Hw. rewrite row_update. case_bool_decide; [by apply Hf | done]. }
    assert (Hset : ∀ sst, 0 ≤ me < size sst →
      SST.wedged (SST.row (SST.update sst me (SST.set_wedged true)) me) = true).
    { intros sst Hme. rewrite row_update. by rewrite bool_decide_eq_true_2. }
    assert (Hfailed : ∀ who,
      cell false (set_cell (View.failed (curr_view vm)) q true) who
      = if bool_decide (who = q ∧ 0 ≤ q < size (View.failed (curr_view vm)))
        then cell false (View.failed (curr_view vm)) who || true
        else cell false (View.failed (curr_view vm)) who).
    { intros who. rewrite cell_set_cell. case_bool_decide; [|done].
      by rewrite orb_true_r. }
    destruct (View.i_am_leader _ && negb _).
    + case_bool_decide; [done |]. intros [= <-].
      cbn [put write_row with_published with_gmsSST with_curr_view with_frozen
           with_multicast_wedged with_last_suspected curr_view gmsSST last_suspected
           frozen multicast_wedged
           View.my_rank View.num_members View.num_failed View.failed
           View.set_num_failed View.set_failed].
      fold me. rewrite size_set_cell.
      split; [intros who Hne; by rewrite cell_set_cell_ne |].
      split; [done |]. split; [exact Hfailed |].
      split; [intros x Hx; apply elem_of_app; by left |].
      split; [done |].
      split; [intros Hw; apply Hwedged; [by intros [] | by apply Hwedged] |].
      split; [lia |]. intros _.
      split; [apply elem_of_app; right; apply list_elem_of_here |].
      split; [done |]. split; [|done].
      intros Hme. apply Hwedged; [by intros [] | by apply Hset].
    + intros [= <-].
      cbn [put write_row with_published with_gmsSST with_curr_view with_frozen
           with_multicast_wedged with_last_suspected curr_view gmsSST last_suspected
           frozen multicast_wedged
           View.my_rank View.num_members View.num_failed View.failed
           View.set_num_failed View.set_failed].
      fold me. rewrite size_set_cell.
      split; [intros who Hne; by rewrite cell_set_cell_ne |].
      split; [done |]. split; [exact Hfailed |].
      split; [intros x Hx; apply elem_of_app; by left |].
      split; [done |].
      split; [intros Hw; by apply Hwedged |].
      split; [lia |]. intros _.
      split; [apply elem_of_app; right; apply list_elem_of_here |].
      split; [done |]. split; [|done].
      intros Hme. by apply Hset.
  - intros [= <-]. split; [done |]. split; [done |].
    split; [intros who; case_bool_decide; [by rewrite orb_false_r | done] |].
    split; [done |]. split; [done |]. split; [done |]. split; [lia |]. done.
Qed.

(** The first loop of [new_suspicion] writes the table only. *)
Lemma aggregate_suspicions_keeps vm :
  let vm1 := (aggregate_suspicions vm).1 in
  curr_view vm1 = curr_view vm ∧ last_suspected vm1 = last_suspected vm.
Proof.
  unfold aggregate_suspicions.
  apply (for_loop_preserves
           (λ p : ViewManager * Z,
              curr_view p.1 = curr_view vm ∧ last_suspected p.1 = last_suspected vm));
    [done |].
  intros r [vm1 num_left] _ H. cbn [fst snd] in *.
  apply (for_loop_preserves
           (λ vm2, curr_view vm2 = curr_view vm ∧ last_suspected vm2 = last_suspected vm));
    [done |].
  intros who vm2 _ H2. done.
Qed.

(** The local row ends with the suspicions of the rows only. *)
Lemma aggregate_suspicions_only vm who :
  let me := View.my_rank (curr_view vm) in
  let n := View.num_members (curr_view vm) in
  let vm1 := (aggregate_suspicions vm).1 in
  0 ≤ me < n →
  suspects (gmsSST vm1) me who = true →
  ∃ r, 0 ≤ r < n ∧ suspects (gmsSST vm) r who = true.
Proof.
  intros me n vm1 Hme. subst vm1. unfold aggregate_suspicions.
  set (body := λ (r : Z) (p : ViewManager * Z), _).
  pose (P := λ (i : Z) (p : ViewManager * Z),
    suspicions_grow vm p.1
    ∧ ∀ who, suspects (gmsSST p.1) me who = true →
             suspects (gmsSST vm) me who = true
             ∨ ∃ r, 0 ≤ r < i ∧ suspects (gmsSST vm) r who = true).
  assert (H : P (Z.max 0 n) (for_loop n body (vm, 0))).
  { apply for_loop_invariant.
    - split; [apply suspicions_grow_refl |]. intros w Hw. by left.
    - intros i [vm_i num_left] Hi [Hg Hall]. subst body. cbn [fst snd] in *.
      pose (Q := λ vm_j : ViewManager,
        suspicions_grow vm vm_j
        ∧ ∀ who, suspects (gmsSST vm_j) me who = true →
                 suspects (gmsSST vm) me who = true
                 ∨ ∃ r, 0 ≤ r < i + 1 ∧ suspects (gmsSST vm) r who = true).
      apply (for_loop_preserves Q).
      + split; [done |]. intros w Hw. destruct (Hall w Hw) as [|(r & Hr & Hs)];
          [by left | right; exists r; split; [lia | done]].
      + intros j vm_j Hj [Hgj Hallj].
        assert (Hrank : View.my_rank (curr_view vm_j) = me) by apply Hgj.
        destruct (aggregate_step vm_j me i j Hrank) as [Hstep _]. cbv zeta in Hstep.
        split; [by eapply suspicions_grow_trans |].
        intros w. unfold suspects at 1. rewrite row_write_row.
        case_bool_decide as Hc; [|apply Hallj].
        cbn [SST.suspected SST.set_suspected]. rewrite cell_set_cell.
        case_bool_decide as Hw; [|apply Hallj]. destruct Hw as [-> _].
        intros Hor. apply orb_true_iff in Hor as [Hmine | Htheirs]; [by apply Hallj |].
        destruct (decide (i = me)) as [-> | Hne]; [by apply Hallj |].
        right. exists i. split; [lia |]. unfold suspects.
        destruct Hgj as (_ & _ & _ & Hother & _). by rewrite <- Hother. }
  destruct H as [_ H]. intros Hs. destruct (H who Hs) as [Hmine | (r & Hr & Hsr)].
  - exists me. done.
  - exists r. split; [lia | done].
Qed.

(** X14.  When [new_suspicion] returns, it has marked as failed the
    members that some row suspected and [last_suspected] did not hold,
    and no other; each of them is frozen, the local node is wedged and
    [num_failed] has grown. *)
Theorem new_suspicion_marks_failed vm vm' :
  let me := View.my_rank (curr_view vm) in
  let n := View.num_members (curr_view vm) in
  let newly := λ q,
    (∃ r, 0 ≤ r < n ∧ suspects (gmsSST vm) r q = true)
    ∧ cell false (last_suspected vm) q = false in
  0 ≤ me < size (gmsSST vm) →
  SST.get_num_rows (gmsSST vm) = n →
  size (SST.suspected (my_row vm)) = n →
  n ≤ size (View.failed (curr_view vm)) →
  new_suspicion vm = Done vm' →
  ∀ q, 0 ≤ q < n →
    (cell false (View.failed (curr_view vm')) q = true
     ↔ cell false (View.failed (curr_view vm)) q = true ∨ newly q)
    ∧ (newly q →
       q ∈ frozen vm'
       ∧ multicast_wedged vm' = true
       ∧ SST.wedged (my_row vm') = true
       ∧ View.num_failed (curr_view vm) < View.num_failed (curr_view vm')).
Proof.
  intros me n newly Hme Hrows Hsusp Hfailed. unfold new_suspicion.
  destruct (aggregate_suspicions_union vm Hme) as [Hg1 Hunion]; [fold n; lia |].
  pose proof (aggregate_suspicions_keeps vm) as [Hview1 Hlast1].
  assert (Hme_n : 0 ≤ me < n) by (unfold SST.get_num_rows in Hrows; lia).
  pose proof (λ who, aggregate_suspicions_only vm who Hme_n) as Honly.
  destruct (aggregate_suspicions vm) as [vm1 num_left].
  cbn [fst] in Hg1, Hunion, Hview1, Hlast1, Honly. fold me n in Hunion, Honly.
  rewrite Hview1. fold n. unfold for_loop_throwing. intros Hdone.
  pose (newly1 := λ who,
    suspects (gmsSST vm1) me who = true ∧ cell false (last_suspected vm1) who = false).
  assert (Hnewly : ∀ q, 0 ≤ q < n → newly1 q ↔ newly q).
  { intros q Hq. unfold newly1, newly. rewrite Hlast1. split.
    - intros [Hs Hl]. split; [by apply Honly | done].
    - intros [(r & Hr & Hs) Hl]. split; [by apply (Hunion r) | done]. }
  assert (Hme1 : 0 ≤ me < size (gmsSST vm1)).
  { destruct Hg1 as (_ & _ & -> & _). done. }
  pose (P := λ (q : Z) (vm_q : ViewManager),
    (View.my_rank (curr_view vm_q) = me ∧ size (gmsSST vm_q) = size (gmsSST vm1))
    ∧ SST.suspected (SST.row (gmsSST vm_q) me) = SST.suspected (SST.row (gmsSST vm1) me)
    ∧ (∀ who, q ≤ who →
              cell false (last_suspected vm_q) who = cell false (last_suspected vm1) who)
    ∧ size (View.failed (curr_view vm_q)) = size (View.failed (curr_view vm1))
    ∧ (∀ who, cell false (View.failed (curr_view vm_q)) who = true
              ↔ cell false (View.failed (curr_view vm1)) who = true
                ∨ (0 ≤ who < q ∧ newly1 who))
    ∧ View.num_failed (curr_view vm1) ≤ View.num_failed (curr_view vm_q)
    ∧ (∀ x, x ∈ frozen vm1 → x ∈ frozen vm_q)
    ∧ ∀ who, 0 ≤ who < q → newly1 who →
             who ∈ frozen vm_q
             ∧ multicast_wedged vm_q = true
             ∧ SST.wedged (SST.row (gmsSST vm_q) me) = true
             ∧ View.num_failed (curr_view vm1) < View.num_failed (curr_view vm_q)).
  assert (H : P (0 + Z.of_nat (Z.to_nat n)) vm').
  { apply (loop_from_throwing_done P _ _ _ _ _ Hdone).
    - split; [split; [by rewrite Hview1 | done] |]. split; [done |]. split; [done |].
      split; [done |]. split; [intros who; split; [by left | intros [|[? _]]; [done | lia]] |].
      split; [lia |]. split; [done |]. intros who Hw. lia.
    - intros q vm_q vm2 Hq ([Hrank Hsize] & Hsame & Hlater & Hfsize & Hf & Hnum & Hfrozen & Hmarked)
        Hbody.
      destruct (new_suspicion_body_done _ _ _ _ Hbody) as (Hg2 & Hsame2 & _).
      destruct (new_suspicion_body_marks _ _ _ _ Hbody)
        as (Hl2 & Hfs2 & Hf2 & Hfr2 & Hmw2 & Hw2 & Hn2 & Hnew2).
      rewrite Hrank in Hsame2, Hf2, Hw2, Hnew2.
      set (newly_q := cell false (SST.suspected (SST.row (gmsSST vm_q) me)) q
                      && negb (cell false (last_suspected vm_q) q)) in *.
      assert (Hnq : newly_q = true ↔ newly1 q).
      { unfold newly_q, newly1, suspects. rewrite Hsame, (Hlater q) by lia.
        rewrite andb_true_iff, negb_true_iff. done. }
      split.
      { destruct Hg2 as (Hr2 & _ & Hs2 & _). split; [congruence |].
        rewrite Hs2. done. }
      split; [congruence |].
      split; [intros who Hw; rewrite Hl2 by lia; apply Hlater; lia |].
      split; [congruence |].
      split.
      { intros who. rewrite Hf2. case_bool_decide as Hc.
        - destruct Hc as [-> _]. rewrite orb_true_iff, Hf, Hnq. split.
          + intros [[Ht | [Hr Hn]] | Hn]; [by left | right; split; [lia | done]
                                           | right; split; [lia | done]].
          + intros [Ht | [Hr Hn]]; [left; by left |]. by right.
        - rewrite Hf. split.
          + intros [Ht | [Hr Hn]]; [by left | right; split; [lia | done]].
          + intros [Ht | [Hr Hn]]; [by left |]. right. split; [|done].
            destruct (decide (who = q)) as [-> | Hne]; [|lia].
            exfalso. apply Hc. split; [done |]. rewrite Hfsize, Hview1. lia. }
      split; [lia |].
      split; [intros x Hx; by apply Hfr2, Hfrozen |].
      intros who Hw Hn. destruct (decide (who = q)) as [-> | Hne].
      + apply Hnq in Hn. destruct (Hnew2 Hn) as (Hfz & Hmw & Hwd & Hnf).
        split; [done |]. split; [done |]. split; [apply Hwd; by rewrite Hsize | lia].
      + destruct (Hmarked who ltac:(lia) Hn) as (Hfz & Hmw & Hwd & Hnf).
        split; [by apply Hfr2 |]. split; [by apply Hmw2 |].
        split; [by apply Hw2 | lia]. }
  destruct H as ([Hrank _] & _ & _ & _ & Hf & _ & _ & Hmarked).
  intros q Hq. rewrite Hview1 in Hf, Hmarked.
  split.
  - rewrite Hf. split.
    + intros [Ht | [_ Hn]]; [by left | right; by apply Hnewly].
    + intros [Ht | Hn]; [by left |]. right. split; [lia | by apply Hnewly].
  - intros Hn. unfold my_row, get_local_index. rewrite Hrank.
    apply Hmarked; [lia | by apply Hnewly].
Qed.

(** X15.  When [report_failure] returns for a member of the view, the
    local row suspects that member and nothing else has changed in the
    table or the view; if [last_suspected] does not hold the member, the
    predicate [suspected_changed] is true.  What [report_failure]
    publishes is the cell at the index where its loop ended, the size of
    [suspected], and not the cell of the member. *)
Theorem report_failure_raises_suspicion who vm vm' :
  let me := View.my_rank (curr_view vm) in
  let r := View.rank_of (curr_view vm) who in
  0 ≤ me < size (gmsSST vm) →
  0 ≤ r < size (SST.suspected (my_row vm)) →
  report_failure who vm = Done vm' →
  suspects (gmsSST vm') me r = true
  ∧ (∀ r' who', ¬ (r' = me ∧ who' = r) →
                suspects (gmsSST vm') r' who' = suspects (gmsSST vm) r' who')
  ∧ curr_view vm' = curr_view vm
  ∧ last_suspected vm' = last_suspected vm
  ∧ published vm'
    = published vm ++ [put_cells c_suspected (size (SST.suspected (my_row vm))) 1]
  ∧ (cell false (last_suspected vm) r = false → suspected_changed vm' = true).
Proof.
  intros me r Hme Hr. unfold report_failure. fold me r.
  set (vm1 := write_row me _ vm).
  assert (Hrow : SST.row (gmsSST vm1) me
                 = SST.set_suspected (set_cell (SST.suspected (my_row vm)) r true)
                     (my_row vm)).
  { subst vm1. rewrite row_write_row. by rewrite bool_decide_eq_true_2. }
  assert (Hsize : size (SST.suspected (SST.row (gmsSST vm1) me))
                  = size (SST.suspected (my_row vm))).
  { rewrite Hrow. cbn. apply size_set_cell. }
  rewrite Hsize.
  destruct (for_loop _ _ (0, 0)) as [failed_cnt rip_cnt].
  destruct (_ && _); [done |]. intros [= <-].
  assert (Hmine : suspects (gmsSST vm1) me r = true).
  { unfold suspects. rewrite Hrow. cbn. by apply cell_set_cell_eq. }
  assert (Hothers : ∀ r' who', ¬ (r' = me ∧ who' = r) →
            suspects (gmsSST vm1) r' who' = suspects (gmsSST vm) r' who').
  { intros r' who' Hne. unfold suspects. subst vm1. rewrite row_write_row.
    case_bool_decide as Hc; [|done]. destruct Hc as [-> _]. cbn.
    apply cell_set_cell_ne. intros <-. by apply Hne. }
  split; [exact Hmine |]. split; [exact Hothers |]. split; [done |]. split; [done |].
  split; [done |].
  intros Hlast. unfold suspected_changed. apply suspected_not_equal_spec.
  exists me, r. unfold SST.get_num_rows, my_row, get_local_index.
  cbn [put with_published gmsSST curr_view last_suspected].
  change (View.my_rank (curr_view vm1)) with me.
  rewrite Hsize. split; [subst vm1; by rewrite size_write_row |]. done.
Qed.

(** ** The vectors of the next view *)

(** Writing the next value behind the values written so far. *)
Lemma set_cell_next {A} (pre rest : list A) k i y :
  k = length pre → i = Z.of_nat k → (k < length rest)%nat →
  set_cell (pre ++ drop k rest) i y = (pre ++ [y]) ++ drop (S k) rest.
Proof.
  intros -> -> Hlen.
  destruct (lookup_lt_is_Some_2 rest (length pre) Hlen) as [x Hx].
  rewrite (drop_S _ _ _ Hx), (set_cell_middle _ _ x) by done.
  by rewrite <- app_assoc.
Qed.

Lemma set_cell_fill {A} (d : A) base (vals : list A) i y :
  vals !! i = Some y →
  set_cell (replicate base d ++ take i vals ++ replicate (length vals - i) d)
    (Z.of_nat base + Z.of_nat i) y
  = replicate base d ++ take (S i) vals ++ replicate (length vals - S i) d.
Proof.
  intros Hy. pose proof (lookup_lt_Some _ _ _ Hy) as Hi.
  replace (length vals - i)%nat with (S (length vals - S i)) by lia.
  rewrite replicate_S, (take_S_r _ _ _ Hy), !app_assoc.
  rewrite (set_cell_middle _ _ d); [by rewrite <- !app_assoc |].
  unfold size. rewrite length_app, length_replicate, length_take. lia.
Qed.

Section NextViewVectors.

Variable curr_view : View.t.
Variable gmsSST : list SST.Row.

Let mine := SST.row gmsSST (View.my_rank curr_view).
Let change_at := λ i : Z, cell 0 (SST.changes mine) i.

(** The joins among the first changes, by their indexes. *)
Lemma filter_changes_joins committed_count :
  (filter_changes curr_view gmsSST committed_count).2
  = filter (λ i, View.rank_of curr_view (change_at i) = -1) (seqZ 0 committed_count).
Proof.
  rewrite <- seqZ_max. unfold filter_changes.
  apply (for_loop_invariant
           (λ i (p : list Z * list Z),
              p.2 = filter (λ i, View.rank_of curr_view (change_at i) = -1) (seqZ 0 i)));
    [done |].
  intros i [lr ji] Hi Hji. cbn [fst snd] in *.
  rewrite seqZ_snoc, filter_app, filter_cons, filter_nil by lia.
  fold mine. fold (change_at i).
  case_bool_decide as Hrank; cbn [snd].
  - rewrite decide_False by done. by rewrite app_nil_r.
  - rewrite decide_True by (destruct (decide (View.rank_of curr_view (change_at i) = -1));
                            [done | by destruct Hrank]).
    by rewrite Hji.
Qed.

(** The second loop fills the cells behind the survivors with the
    joiners and their endpoints. *)
Lemma add_joiners_columns leave_ranks join_indexes nm base :
  View.num_members curr_view - size leave_ranks = Z.of_nat base →
  nm_members nm = replicate base 0 ++ replicate (length join_indexes) 0 →
  nm_member_ips_and_ports nm
  = replicate base no_endpoint ++ replicate (length join_indexes) no_endpoint →
  let nm' := add_joiners curr_view gmsSST leave_ranks join_indexes nm in
  nm_members nm' = replicate base 0 ++ (change_at <$> join_indexes)
  ∧ nm_member_ips_and_ports nm'
    = replicate base no_endpoint ++ (joiner_endpoint curr_view gmsSST <$> join_indexes)
  ∧ nm_failed nm' = nm_failed nm
  ∧ nm_new_rank nm' = nm_new_rank nm
  ∧ nm_next_unassigned_rank nm' = nm_next_unassigned_rank nm.
Proof.
  intros Hbase Hm Hips nm'. subst nm'. unfold add_joiners.
  set (joiners := change_at <$> join_indexes).
  set (endpoints := joiner_endpoint curr_view gmsSST <$> join_indexes).
  set (body := λ (i : Z) (nm : NextMembers), _).
  pose (P := λ (i : Z) (nm1 : NextMembers),
    nm_members nm1
    = replicate base 0 ++ take (Z.to_nat i) joiners
      ++ replicate (length joiners - Z.to_nat i) 0
    ∧ nm_member_ips_and_ports nm1
      = replicate base no_endpoint ++ take (Z.to_nat i) endpoints
        ++ replicate (length endpoints - Z.to_nat i) no_endpoint
    ∧ nm_failed nm1 = nm_failed nm
    ∧ nm_new_rank nm1 = nm_new_rank nm
    ∧ nm_next_unassigned_rank nm1 = nm_next_unassigned_rank nm).
  assert (Hlj : length joiners = length join_indexes) by apply length_fmap.
  assert (Hle : length endpoints = length join_indexes) by apply length_fmap.
  assert (H : P (Z.max 0 (size join_indexes)) (for_loop (size join_indexes) body nm)).
  { apply for_loop_invariant.
    - subst P. cbn. rewrite !Nat.sub_0_r, Hlj, Hle. done.
    - intros i nm1 Hi (Hm1 & Hi1 & Hf1 & Hr1 & Hn1). subst P body. cbn.
      unfold size in Hi.
      destruct (lookup_lt_is_Some_2 join_indexes (Z.to_nat i)) as [x Hx]; [lia |].
      assert (Hcell : cell 0 join_indexes i = x) by (apply cell_lookup; [lia | done]).
      rewrite Hcell.
      assert (Hjoiner : joiners !! Z.to_nat i = Some (change_at x)).
      { subst joiners. by rewrite list_lookup_fmap, Hx. }
      assert (Hendpoint : endpoints !! Z.to_nat i
                          = Some (joiner_endpoint curr_view gmsSST x)).
      { subst endpoints. by rewrite list_lookup_fmap, Hx. }
      replace (Z.to_nat (i + 1)) with (S (Z.to_nat i)) by lia.
      replace (View.num_members curr_view - size leave_ranks + i)
        with (Z.of_nat base + Z.of_nat (Z.to_nat i)) by lia.
      rewrite Hm1, Hi1.
      split; [exact (set_cell_fill 0 base joiners _ _ Hjoiner) |].
      split; [exact (set_cell_fill no_endpoint base endpoints _ _ Hendpoint) |].
      done. }
  destruct H as (Hm' & Hi' & Hf' & Hr' & Hn').
  replace (Z.to_nat (Z.max 0 (size join_indexes))) with (length join_indexes) in *
    by (unfold size; lia).
  rewrite <- Hlj in Hm' at 1. rewrite <- Hle in Hi' at 1.
  rewrite firstn_all, Hlj, Nat.sub_diag in Hm'.
  rewrite firstn_all, Hle, Nat.sub_diag in Hi'.
  cbn in Hm', Hi'. rewrite app_nil_r in Hm', Hi'. done.
Qed.

(** The third loop leaves the vectors alone. *)
Lemma add_departed_columns leave_ranks nm :
  let nm' := add_departed curr_view leave_ranks nm in
  nm_members nm' = nm_members nm
  ∧ nm_member_ips_and_ports nm' = nm_member_ips_and_ports nm
  ∧ nm_failed nm' = nm_failed nm
  ∧ nm_new_rank nm' = nm_new_rank nm.
Proof.
  unfold add_departed. revert nm.
  induction leave_ranks as [|r leave_ranks IH]; intros nm; cbn [foldl]; [done |].
  destruct (IH (mkNextMembers (nm_members nm) (nm_member_ips_and_ports nm) (nm_failed nm)
                  (nm_joined nm)
                  (nm_departed nm ++ [cell 0 (View.members curr_view) r])
                  (if bool_decide (r ≤ View.next_unassigned_rank curr_view)
                   then nm_next_unassigned_rank nm - 1
                   else nm_next_unassigned_rank nm)
                  (nm_new_rank nm))) as (-> & -> & -> & ->).
  done.
Qed.

(** The fourth loop writes the survivors, in the order of their ranks,
    from the first cell on. *)
Lemma copy_survivors_columns leave_ranks nm :
  let kept :=
    filter (λ r, set_contains leave_ranks r = false)
      (seqZ 0 (View.num_members curr_view)) in
  nm_new_rank nm = 0 →
  (length kept ≤ length (nm_members nm))%nat →
  (length kept ≤ length (nm_member_ips_and_ports nm))%nat →
  (length kept ≤ length (nm_failed nm))%nat →
  let nm' := copy_survivors curr_view leave_ranks nm in
  nm_members nm'
  = ((λ r, cell 0 (View.members curr_view) r) <$> kept)
    ++ drop (length kept) (nm_members nm)
  ∧ nm_member_ips_and_ports nm'
    = ((λ r, cell no_endpoint (View.member_ips_and_ports curr_view) r) <$> kept)
      ++ drop (length kept) (nm_member_ips_and_ports nm)
  ∧ nm_failed nm'
    = ((λ r, cell false (View.failed curr_view) r) <$> kept)
      ++ drop (length kept) (nm_failed nm)
  ∧ nm_next_unassigned_rank nm' = nm_next_unassigned_rank nm.
Proof.
  intros kept Hrank Hlm Hli Hlf nm'. subst nm'. unfold copy_survivors.
  set (n := View.num_members curr_view) in *.
  set (keep := λ r : Z, set_contains leave_ranks r = false) in *.
  set (body := λ (i : Z) (nm : NextMembers), _).
  pose (P := λ (i : Z) (nm1 : NextMembers),
    let kept_i := filter keep (seqZ 0 i) in
    nm_members nm1
    = ((λ r, cell 0 (View.members curr_view) r) <$> kept_i)
      ++ drop (length kept_i) (nm_members nm)
    ∧ nm_member_ips_and_ports nm1
      = ((λ r, cell no_endpoint (View.member_ips_and_ports curr_view) r) <$> kept_i)
        ++ drop (length kept_i) (nm_member_ips_and_ports nm)
    ∧ nm_failed nm1
      = ((λ r, cell false (View.failed curr_view) r) <$> kept_i)
        ++ drop (length kept_i) (nm_failed nm)
    ∧ nm_new_rank nm1 = size kept_i
    ∧ nm_next_unassigned_rank nm1 = nm_next_unassigned_rank nm).
  assert (Hprefix : ∀ i, 0 ≤ i < n → keep i →
            (S (length (filter keep (seqZ 0 i))) ≤ length kept)%nat).
  { intros i Hi Hk. subst kept.
    replace (seqZ 0 n) with (seqZ 0 (i + 1) ++ seqZ (i + 1) (n - (i + 1))).
    - rewrite seqZ_snoc, !filter_app, filter_cons, filter_nil by lia.
      rewrite decide_True by done. rewrite !length_app. cbn. lia.
    - pose proof (seqZ_app 0 (i + 1) (n - (i + 1)) ltac:(lia) ltac:(lia)) as Happ.
      replace (i + 1 + (n - (i + 1))) with n in Happ by lia.
      by rewrite Happ, Z.add_0_l. }
  assert (H : P (Z.max 0 n) (for_loop n body nm)).
  { apply for_loop_invariant.
    - subst P. cbn. rewrite Hrank. done.
    - intros i nm1 Hi (Hm1 & Hi1 & Hf1 & Hr1 & Hn1). subst P body. cbn zeta beta.
      destruct (set_contains leave_ranks i) eqn:Hc; cbn [negb];
        rewrite seqZ_snoc, filter_app, filter_cons, filter_nil by lia.
      + rewrite decide_False by (unfold keep; congruence). rewrite app_nil_r. done.
      + rewrite decide_True by done.
        pose proof (Hprefix i Hi Hc) as Hlen.
        set (kept_i := filter keep (seqZ 0 i)) in *.
        cbn [nm_members nm_member_ips_and_ports nm_failed nm_new_rank
             nm_next_unassigned_rank].
        rewrite Hr1, Hm1, Hi1, Hf1, !fmap_app, !length_app. cbn [fmap list_fmap length].
        replace (length kept_i + 1)%nat with (S (length kept_i)) by lia.
        rewrite !(set_cell_next _ _ (length kept_i))
          by (by rewrite length_fmap || done || lia).
        split; [done |]. split; [done |]. split; [done |].
        split; [|done]. unfold size. rewrite length_app. cbn. lia. }
  destruct H as (Hm' & Hi' & Hf' & _ & Hn'). rewrite seqZ_max in Hm', Hi', Hf'.
  done.
Qed.

End NextViewVectors.

(** The ranks that leave are ranks of the view, each counted once. *)
Lemma leave_ranks_counted v sst cc lr ji :
  View.num_members v = size (View.members v) →
  filter_changes v sst cc = (lr, ji) →
  (length (filter (λ r, set_contains lr r = false) (seqZ 0 (View.num_members v)))
   + length lr)%nat
  = Z.to_nat (View.num_members v).
Proof.
  intros Hsize Hf.
  destruct (filter_changes_spec _ _ _ _ _ Hf) as (Hsorted & Helem & _). cbn zeta in Helem.
  assert (Hin : ∀ r, r ∈ lr → 0 ≤ r < View.num_members v).
  { intros r Hr. apply Helem in Hr as (c & _ & Hrank & Hne).
    unfold View.rank_of in Hrank.
    assert (Hc : c ∈ View.members v) by (apply find_rank_member; congruence).
    destruct (find_rank_present c (View.members v) 0 Hc) as [Hrange _]; [lia |].
    rewrite Hsize. lia. }
  assert (Hlr : filter (λ r, r ∈ lr) (seqZ 0 (View.num_members v)) = lr).
  { apply sorted_lt_unique; [apply filter_sorted, seqZ_sorted | done |].
    intros r. rewrite list_elem_of_filter, elem_of_seqZ. split; [tauto |].
    intros Hr. split; [done |]. specialize (Hin r Hr). lia. }
  pose proof (filter_complement_length (λ r, r ∈ lr) (seqZ 0 (View.num_members v)))
    as Hc.
  rewrite Hlr, length_seqZ in Hc.
  rewrite (filter_ext_elem (λ r, set_contains lr r = false) (λ r, r ∉ lr)); [lia |].
  intros r _. unfold set_contains. apply bool_decide_eq_false.
Qed.

(** X16.  The vectors of the next view stay aligned.  The members that
    no committed change names keep their order, and each keeps its
    address, its ports and its failed flag at its new rank; behind them
    come the joiners in the order of their changes, not failed, each
    with the address and the ports that the local row holds at the index
    of its change.  The local node finds its own id at its new rank. *)
Theorem make_next_view_carries_members v sst v' :
  let kept := surviving_ranks v sst in
  let joins := joining_indexes v sst in
  let mine := SST.row sst (View.my_rank v) in
  View.num_members v = size (View.members v) →
  make_next_view v sst = Returns v' →
  View.members v'
  = ((λ r, cell 0 (View.members v) r) <$> kept)
    ++ ((λ i, cell 0 (SST.changes mine) i) <$> joins)
  ∧ View.member_ips_and_ports v'
    = ((λ r, cell no_endpoint (View.member_ips_and_ports v) r) <$> kept)
      ++ (joiner_endpoint v sst <$> joins)
  ∧ View.failed v'
    = ((λ r, cell false (View.failed v) r) <$> kept) ++ replicate (length joins) false
  ∧ View.num_members v' = size (View.members v')
  ∧ 0 ≤ View.my_rank v' < View.num_members v'
  ∧ cell 0 (View.members v') (View.my_rank v') = cell 0 (View.members v) (View.my_rank v)
  ∧ View.subgroup_type_order v' = View.subgroup_type_order v.
Proof.
  intros kept joins mine Hsize. unfold make_next_view.
  set (cc := SST.num_committed _ - SST.num_installed _).
  destruct (filter_changes v sst cc) as [lr ji] eqn:Hf.
  pose proof (filter_changes_joins v sst cc) as Hji. rewrite Hf in Hji. cbn [snd] in Hji.
  change (filter _ (seqZ 0 cc)) with joins in Hji. subst ji.
  pose proof (leave_ranks_counted v sst cc lr joins Hsize Hf) as Hcount.
  destruct (filter_changes_spec _ _ _ _ _ Hf) as (_ & Helem & _). cbn zeta in Helem.
  assert (Hkept : filter (λ r, set_contains lr r = false) (seqZ 0 (View.num_members v))
                  = kept).
  { apply filter_ext_elem. intros r Hr. apply elem_of_seqZ in Hr.
    unfold set_contains. rewrite bool_decide_eq_false, Helem.
    unfold committed_changes. fold cc. rewrite <- list_fmap_compose. split.
    - intros Hno Hin. apply list_elem_of_fmap in Hin as (i & Hrank & Hi).
      apply Hno. eexists. split; [apply list_elem_of_fmap; by exists i |].
      cbn in Hrank. split; [by rewrite <- Hrank | lia].
    - intros Hno (c & Hc & Hrank & _). apply Hno.
      apply list_elem_of_fmap in Hc as (i & -> & Hi).
      apply list_elem_of_fmap. exists i. by split. }
  rewrite Hkept in Hcount.
  set (base := length kept) in *.
  assert (Hbase : View.num_members v - size lr = Z.of_nat base).
  { unfold size. pose proof (length_seqZ 0 (View.num_members v)).
    assert (0 ≤ View.num_members v) by (rewrite Hsize; unfold size; lia). lia. }
  assert (Hnext : Z.to_nat (View.num_members v - size lr + size joins)
                  = (base + length joins)%nat) by (unfold size in *; lia).
  rewrite Hnext.
  set (nm0 := mkNextMembers _ _ _ _ _ _ _).
  destruct (add_joiners_columns v sst lr joins nm0 base Hbase)
    as (Hm1 & Hi1 & Hf1 & Hr1 & _);
    [subst nm0; cbn; apply replicate_add | subst nm0; cbn; apply replicate_add |].
  set (nm1 := add_joiners v sst lr joins nm0) in *.
  destruct (add_departed_columns v lr nm1) as (Hm2 & Hi2 & Hf2 & Hr2).
  set (nm2 := add_departed v lr nm1) in *.
  destruct (copy_survivors_columns v lr nm2) as (Hm3 & Hi3 & Hf3 & _).
  { by rewrite Hr2, Hr1. }
  { rewrite Hkept, Hm2, Hm1, length_app, length_replicate. fold base. lia. }
  { rewrite Hkept, Hi2, Hi1, length_app, length_replicate. fold base. lia. }
  { rewrite Hkept, Hf2, Hf1. subst nm0. cbn. rewrite length_replicate. fold base. lia. }
  rewrite Hkept in Hm3, Hi3, Hf3. fold base in Hm3, Hi3, Hf3.
  set (nm3 := copy_survivors v lr nm2) in *.
  rewrite Hm2, Hm1 in Hm3. rewrite Hi2, Hi1 in Hi3. rewrite Hf2, Hf1 in Hf3.
  subst nm0. cbn [nm_failed] in Hf3.
  rewrite drop_app_length' in Hm3 by (by rewrite length_replicate).
  rewrite drop_app_length' in Hi3 by (by rewrite length_replicate).
  rewrite replicate_add, drop_app_length' in Hf3 by (by rewrite length_replicate).
  assert (Hlen : View.num_members v - size lr + size joins = size (nm_members nm3)).
  { rewrite Hm3. unfold size in *. rewrite length_app, !length_fmap.
    unfold base in *. lia. }
  rewrite Hlen, find_my_new_rank_spec.
  set (myID := cell 0 (View.members v) (View.my_rank v)).
  case_bool_decide as Hfound; [done |]. intros [= <-].
  cbn [View.make View.set_i_know_i_am_leader View.members View.member_ips_and_ports
       View.failed View.num_members View.my_rank View.subgroup_type_order].
  split; [exact Hm3 |]. split; [exact Hi3 |]. split; [exact Hf3 |]. split; [done |].
  assert (Hin : myID ∈ nm_members nm3) by (by apply find_rank_member).
  destruct (find_rank_present myID (nm_members nm3) 0 Hin) as [Hrange Hlook]; [lia |].
  split; [lia |]. split; [|done].
  apply cell_lookup; [lia |]. by rewrite Z.sub_0_r in Hlook.
Qed.

(** ** The ragged trims that a restarting node takes in *)

Lemma map_find_below {A} k (m : list (nat * A)) :
  Forall (lt k) (m.*1) → map_find k m = None.
Proof.
  induction m as [|[k' v] m IH]; intros Hall; cbn; [done |].
  apply Forall_cons in Hall as [Hk Hall]. cbn in Hk.
  rewrite decide_False by lia. by apply IH.
Qed.

Lemma map_update_at_spec {A} (d : A) k f (m : list (nat * A)) :
  map_ordered m →
  map_ordered (map_update_at d k f m)
  ∧ (∀ k', map_find k' (map_update_at d k f m)
           = if decide (k' = k) then Some (f (default d (map_find k m)))
             else map_find k' m)
  ∧ ∀ x, x ∈ (map_update_at d k f m).*1 ↔ x = k ∨ x ∈ m.*1.
Proof.
  unfold map_ordered. induction m as [|[k0 v0] m IH]; intros Hm; cbn [map_update_at].
  - cbn. split; [repeat constructor |]. split.
    + intros k'. by destruct (decide (k' = k)).
    + intros x. rewrite list_elem_of_singleton, elem_of_nil. tauto.
  - cbn in Hm. apply StronglySorted_cons in Hm as [Hlt Hm].
    destruct (IH Hm) as (IHs & IHf & IHe).
    destruct (decide (k < k0)%nat) as [Hk | Hk].
    + cbn. split.
      { apply StronglySorted_cons. split; [|by apply StronglySorted_cons].
        apply Forall_cons. split; [done |].
        eapply Forall_impl; [exact Hlt |]. cbn. lia. }
      split.
      { intros k'. destruct (decide (k' = k)) as [-> | Hne].
        - rewrite decide_False by lia.
          rewrite map_find_below; [done |].
          eapply Forall_impl; [exact Hlt |]. cbn. lia.
        - done. }
      intros x. rewrite !elem_of_cons. done.
    + destruct (decide (k = k0)) as [-> | Hne].
      * cbn. split; [by apply StronglySorted_cons |]. split.
        { intros k'. destruct (decide (k' = k0)) as [-> | Hne']; [|done].
          by rewrite decide_True. }
        intros x. rewrite !elem_of_cons. tauto.
      * cbn. split.
        { apply StronglySorted_cons. split; [|done].
          apply Forall_forall. intros x Hx. apply IHe in Hx as [-> | Hx]; [lia |].
          rewrite Forall_forall in Hlt. by apply Hlt. }
        split.
        { intros k'. rewrite IHf.
          destruct (decide (k' = k0)) as [-> | Hne0].
          - by rewrite decide_False by lia.
          - destruct (decide (k' = k)) as [-> | Hnek]; [|done].
            by rewrite (decide_False (P := k = k0)). }
        intros x. rewrite !elem_of_cons, IHe. tauto.
Qed.

Lemma map_emplace_spec {A} k (v : A) (m : list (nat * A)) :
  map_ordered m →
  map_ordered (map_emplace k v m)
  ∧ (∀ k', map_find k' (map_emplace k v m)
           = if decide (k' = k) then Some (default v (map_find k m))
             else map_find k' m)
  ∧ ∀ x, x ∈ (map_emplace k v m).*1 ↔ x = k ∨ x ∈ m.*1.
Proof.
  unfold map_ordered. induction m as [|[k0 v0] m IH]; intros Hm; cbn [map_emplace].
  - cbn. split; [repeat constructor |]. split.
    + intros k'. by destruct (decide (k' = k)).
    + intros x. rewrite list_elem_of_singleton, elem_of_nil. tauto.
  - cbn in Hm. apply StronglySorted_cons in Hm as [Hlt Hm].
    destruct (IH Hm) as (IHs & IHf & IHe).
    destruct (decide (k < k0)%nat) as [Hk | Hk].
    + cbn. split.
      { apply StronglySorted_cons. split; [|by apply StronglySorted_cons].
        apply Forall_cons. split; [done |].
        eapply Forall_impl; [exact Hlt |]. cbn. lia. }
      split.
      { intros k'. destruct (decide (k' = k)) as [-> | Hne].
        - rewrite decide_False by lia.
          rewrite map_find_below; [done |].
          eapply Forall_impl; [exact Hlt |]. cbn. lia.
        - done. }
      intros x. rewrite !elem_of_cons. done.
    + destruct (decide (k = k0)) as [-> | Hne].
      * cbn. split; [by apply StronglySorted_cons |]. split.
        { intros k'. destruct (decide (k' = k0)) as [-> | Hne']; [|done].
          by rewrite decide_True. }
        intros x. rewrite !elem_of_cons. tauto.
      * cbn. split.
        { apply StronglySorted_cons. split; [|done].
          apply Forall_forall. intros x Hx. apply IHe in Hx as [-> | Hx]; [lia |].
          rewrite Forall_forall in Hlt. by apply Hlt. }
        split.
        { intros k'. rewrite IHf.
          destruct (decide (k' = k0)) as [-> | Hne0].
          - by rewrite decide_False by lia.
          - destruct (decide (k' = k)) as [-> | Hnek]; [|done].
            by rewrite (decide_False (P := k = k0)). }
        intros x. rewrite !elem_of_cons, IHe. tauto.
Qed.

(** Well-formed maps of trims: the subgroups and the shards of each
    subgroup are in key order. *)
Lemma file_trims_from trims :
  ∀ m,
    map_ordered m → Forall (λ entry, map_ordered entry.2) m →
    let m' :=
      foldl
        (λ m t,
           map_update_at [] (trim_subgroup_id t) (map_emplace (trim_shard_num t) t) m)
        m trims in
    map_ordered m'
    ∧ Forall (λ entry, map_ordered entry.2) m'
    ∧ ∀ sg sh,
        trim_of m' sg sh
        = match trim_of m sg sh with
          | Some t => Some t
          | None =>
              snd <$> list_find (λ t, trim_subgroup_id t = sg ∧ trim_shard_num t = sh)
                        trims
          end.
Proof.
  induction trims as [|t trims IH]; intros m Hm Hinner m'; subst m'; cbn [foldl].
  - split; [done |]. split; [done |]. intros sg sh. by destruct (trim_of m sg sh).
  - set (m1 := map_update_at [] (trim_subgroup_id t) (map_emplace (trim_shard_num t) t) m).
    destruct (map_update_at_spec [] (trim_subgroup_id t)
                (map_emplace (trim_shard_num t) t) m Hm) as (Hm1 & Hfind1 & _).
    fold m1 in Hm1, Hfind1.
    assert (Hfound : ∀ sg inner, map_find sg m = Some inner → map_ordered inner).
    { clear -Hinner. induction m as [|[k v] m IHm]; intros sg inner; cbn; [done |].
      apply Forall_cons in Hinner as [Hv Hrest]. case_decide; [|by apply IHm].
      by intros [= <-]. }
    assert (Hold : map_ordered (default [] (map_find (trim_subgroup_id t) m))).
    { destruct (map_find (trim_subgroup_id t) m) as [inner|] eqn:E; cbn.
      - by eapply Hfound.
      - constructor. }
    destruct (map_emplace_spec (trim_shard_num t) t _ Hold) as (Hnew & Hfind2 & _).
    assert (Hinner1 : Forall (λ entry, map_ordered entry.2) m1).
    { subst m1. clear -Hinner Hnew Hm.
      induction m as [|[k v] m IHm]; cbn [map_update_at].
      - apply Forall_cons. split; [exact Hnew | constructor].
      - apply Forall_cons in Hinner as [Hv Hrest].
        unfold map_ordered in Hm. cbn in Hm.
        apply StronglySorted_cons in Hm as [Hlt Hm].
        destruct (decide (trim_subgroup_id t < k)%nat) as [Hk | Hk].
        + cbn in Hnew. rewrite decide_False in Hnew by lia.
          rewrite map_find_below in Hnew
            by (eapply Forall_impl; [exact Hlt |]; cbn; lia).
          apply Forall_cons. split; [exact Hnew |]. by apply Forall_cons.
        + destruct (decide (trim_subgroup_id t = k)) as [Heq | Hne].
          * cbn in Hnew. rewrite decide_True in Hnew by done.
            apply Forall_cons. split; [exact Hnew | done].
          * cbn in Hnew. rewrite decide_False in Hnew by done.
            apply Forall_cons. split; [done |]. by apply IHm. }
    destruct (IH m1 Hm1 Hinner1) as (Hs & Hi & Hf). cbn zeta in Hf.
    split; [exact Hs |]. split; [exact Hi |].
    intros sg sh. rewrite Hf. clear Hf.
    assert (Hstep : trim_of m1 sg sh
      = match trim_of m sg sh with
        | Some t' => Some t'
        | None => if decide (trim_subgroup_id t = sg ∧ trim_shard_num t = sh)
                  then Some t else None
        end).
    { unfold trim_of. rewrite Hfind1.
      destruct (decide (sg = trim_subgroup_id t)) as [-> | Hsg].
      - cbn. rewrite Hfind2.
        destruct (decide (sh = trim_shard_num t)) as [-> | Hsh].
        + destruct (map_find (trim_subgroup_id t) m) as [inner|]; cbn.
          * destruct (map_find (trim_shard_num t) inner); [done |].
            by rewrite decide_True.
          * by rewrite decide_True.
        + destruct (map_find (trim_subgroup_id t) m) as [inner|]; cbn.
          * destruct (map_find sh inner); [done |].
            rewrite decide_False; [done |]. intros [_ ?]. congruence.
          * rewrite decide_False; [done |]. intros [_ ?]. congruence.
      - destruct (map_find sg m ≫= map_find sh); [done |].
        rewrite decide_False; [done |]. intros [? _]. congruence. }
    rewrite Hstep. destruct (trim_of m sg sh) as [t'|]; [done |].
    cbn [list_find]. case_decide; [done |].
    destruct (list_find _ trims) as [[i t'']|]; done.
Qed.

(** X17.  In a total restart the node files the ragged trims that the
    leader sends by subgroup and shard, after dropping what it held.  Of
    each shard it keeps the trim that was sent first: a later trim for
    the same shard is read and dropped.  The maps stay in key order, and
    what follows the trims on the connection is left unread. *)
Theorem receive_ragged_trims_keeps_first local trims tail j :
  incoming (leader_connection j) = encode_trims local trims ++ tail →
  ∃ m,
    receive_ragged_trims j
    = Returns
        ((),
         with_restart_state (Some m)
           (with_leader_connection
              (mkSocket (remote_ip (leader_connection j))
                 (remote_port (leader_connection j)) tail
                 (peer_is_up (leader_connection j)) (sent (leader_connection j)))
              j))
    ∧ map_ordered m
    ∧ Forall (λ entry, map_ordered entry.2) m
    ∧ ∀ subgroup_id shard_num,
        trim_of m subgroup_id shard_num
        = snd <$> list_find
                    (λ t, trim_subgroup_id t = subgroup_id ∧ trim_shard_num t = shard_num)
                    trims.
Proof.
  destruct j as [[ip port inc up snt] v p r o]. cbn. intros ->.
  exists (file_trims trims). split; [apply receive_ragged_trims_spec |].
  destruct (file_trims_from trims []) as (Hs & Hi & Hf); [constructor | constructor |].
  split; [exact Hs |]. split; [exact Hi |]. exact Hf.
Qed.

(** ** Runs of the further properties on the sample configurations *)

Lemma leader_commit_change_settles_witness :
  let vm := committing_leader in
  0 ≤ get_local_index vm < size (gmsSST vm)
  ∧ change_commit_ready (leader_commit_change vm) = false
  ∧ SST.num_committed (my_row (leader_commit_change vm))
    = min_acked (gmsSST vm) (get_local_index vm) (View.failed (curr_view vm))
  ∧ published (leader_commit_change vm) = published vm ++ [put_column c_num_committed].
Proof.
  intros vm.
  assert (H : 0 ≤ get_local_index vm < size (gmsSST vm))
    by (vm_compute; split; discriminate || reflexivity).
  split; [exact H |]. exact (leader_commit_change_settles vm H).
Defined.

Lemma acknowledge_proposed_change_settles_witness :
  let vm := follower_with_proposal in
  0 ≤ get_local_index vm < size (gmsSST vm)
  ∧ leader_proposed_change (acknowledge_proposed_change vm) = false
  ∧ SST.num_acked (my_row (acknowledge_proposed_change vm))
    = SST.num_changes (SST.row (gmsSST vm) (View.rank_of_leader (curr_view vm))).
Proof.
  intros vm.
  assert (H : 0 ≤ get_local_index vm < size (gmsSST vm))
    by (vm_compute; split; discriminate || reflexivity).
  split; [exact H |].
  destruct (acknowledge_proposed_change_settles vm H) as (H1 & H2 & _).
  split; [exact H1 | exact H2].
Defined.

Lemma receive_join_makes_pending_witness :
  let vm := idle_leader in
  let client_socket := join_request_of_node_10 in
  0 ≤ get_local_index vm < size (gmsSST vm)
  ∧ SST.num_changes (my_row vm) - SST.num_committed (my_row vm)
    ≠ size (SST.changes (my_row vm))
  ∧ 0 ≤ SST.num_changes (my_row vm) - SST.num_installed (my_row vm)
    < size (SST.changes (my_row vm))
  ∧ ∃ vm',
      receive_join client_socket vm = Done (vm', [(OK, 1)], true)
      ∧ changes_contains vm' 10 = true
      ∧ SST.num_changes (my_row vm') = SST.num_changes (my_row vm) + 1
      ∧ SST.wedged (my_row vm') = true.
Proof.
  intros vm client_socket.
  assert (H1 : 0 ≤ get_local_index vm < size (gmsSST vm))
    by (vm_compute; split; discriminate || reflexivity).
  assert (H2 : SST.num_changes (my_row vm) - SST.num_committed (my_row vm)
               ≠ size (SST.changes (my_row vm)))
    by (vm_compute; discriminate).
  assert (H3 : 0 ≤ SST.num_changes (my_row vm) - SST.num_installed (my_row vm)
               < size (SST.changes (my_row vm)))
    by (vm_compute; split; discriminate || reflexivity).
  split; [exact H1 |]. split; [exact H2 |]. split; [exact H3 |].
  pose proof (receive_join_makes_pending client_socket vm H1 H2) as H.
  cbv zeta in H.
  rewrite bool_decide_eq_false_2 in H
    by (intros Hne; apply Hne; vm_compute; reflexivity).
  destruct (H H3) as (vm' & Hdone & Hpending & Hchanges & Hwedged & _).
  exists vm'. split; [exact Hdone |]. split; [exact Hpending |].
  split; [exact Hchanges | exact Hwedged].
Defined.

Lemma compute_max_msg_size_rounds_up_witness :
  0 ≤ 10240 ∧ 0 < 1024 ∧ 10240 + sizeof_header + 1024 ≤ 2 ^ 64
  ∧ compute_max_msg_size 10240 1024 true `mod` 1024 = 0
  ∧ 10240 + sizeof_header ≤ compute_max_msg_size 10240 1024 true
    < 10240 + sizeof_header + 1024.
Proof.
  assert (H1 : 0 ≤ 10240) by lia.
  assert (H2 : 0 < 1024) by lia.
  assert (H3 : 10240 + sizeof_header + 1024 ≤ 2 ^ 64) by (vm_compute; discriminate).
  split; [exact H1 |]. split; [exact H2 |]. split; [exact H3 |].
  destruct (compute_max_msg_size_rounds_up 10240 1024 H1 H2 H3) as (Hm & Hr & _).
  split; [exact Hm | exact Hr].
Defined.

Lemma resolve_num_received_adds_witness :
  let received_intervals := [-1; 1; 3; 3] in
  intervals_above (-2) received_intervals
  ∧ received_intervals ≠ []
  ∧ cell 0 received_intervals 0 ≤ 2
  ∧ ¬ covered received_intervals 2
  ∧ intervals_above (-2) (resolve_num_received 2 received_intervals).1
  ∧ (∀ x, covered (resolve_num_received 2 received_intervals).1 x
          ↔ x = 2 ∨ covered received_intervals x).
Proof.
  intros received_intervals.
  assert (H1 : intervals_above (-2) received_intervals) by (cbn; lia).
  assert (H2 : received_intervals ≠ []) by discriminate.
  assert (H3 : cell 0 received_intervals 0 ≤ 2) by (vm_compute; discriminate).
  assert (H4 : ¬ covered received_intervals 2) by (cbn; lia).
  split; [exact H1 |]. split; [exact H2 |]. split; [exact H3 |]. split; [exact H4 |].
  destruct (resolve_num_received_adds (-2) received_intervals 2 H1 H2 H3 H4)
    as (Hshape & Hcovered & _).
  split; [exact Hshape | exact Hcovered].
Defined.


Lemma receive_configuration_returns_with_view_witness :
  let j :=
    joiner_connected
      (w_response (TOTAL_RESTART, 1) :: encode_proposal sample_local true committed_proposal) in
  ∃ j',
    receive_configuration sample_local [] 4 j = Returns (true, j')
    ∧ (∃ view, joining_view j' = Some view
               ∧ View.subgroup_type_order view = subgroup_type_order j)
    ∧ is_Some (restart_state j').
Proof.
  intros j.
  assert (H : ∃ j', receive_configuration sample_local [] 4 j = Returns (true, j'))
    by (eexists; vm_compute; reflexivity).
  destruct H as [j' H]. exists j'. split; [exact H |].
  destruct (receive_configuration_returns_with_view sample_local [] 4 j true j' H)
    as (Hview & _ & Hrestart).
  split; [exact Hview | exact (Hrestart eq_refl)].
Defined.

Lemma commit_join_completes_the_join_witness :
  let vm := idle_leader in
  let new_view := committed_proposal.(proposed_view) in
  let j :=
    joiner_connected
      (w_response (OK, 1)
       :: drop 1 (sent (commit_join sample_local sample_params new_view
                          client_socket_of_node_10))) in
  (∃ vm', receive_join join_request_of_node_10 vm = Done (vm', [(OK, 1)], true))
  ∧ peer_is_up client_socket_of_node_10 = true
  ∧ peer_is_up (leader_connection j) = true
  ∧ receive_configuration sample_local [] 10 j
    = Returns
        (false,
         mkJoining
           (mkSocket "192.168.1.1" 23580 [] true (w_id 10 :: ports_sent sample_local))
           (Some (View.set_subgroup_type_order [0%nat] new_view))
           sample_params None [0%nat]).
Proof.
  intros vm new_view j.
  assert (H1 : ∃ vm', receive_join join_request_of_node_10 vm = Done (vm', [(OK, 1)], true))
    by (eexists; vm_compute; reflexivity).
  split; [exact H1 |]. destruct H1 as [vm' H1].
  split; [reflexivity |]. split; [reflexivity |].
  exact (commit_join_completes_the_join sample_local vm vm' [(OK, 1)]
           join_request_of_node_10 sample_params new_view client_socket_of_node_10
           sample_local [] 10 j H1 eq_refl eq_refl eq_refl).
Defined.

Lemma new_suspicion_settles_witness :
  let vm := leader_hears_suspicion in
  0 ≤ View.my_rank (curr_view vm) < size (gmsSST vm)
  ∧ SST.get_num_rows (gmsSST vm) = View.num_members (curr_view vm)
  ∧ size (SST.suspected (my_row vm)) = View.num_members (curr_view vm)
  ∧ View.num_members (curr_view vm) ≤ size (last_suspected vm)
  ∧ ∃ vm', new_suspicion vm = Done vm'
           ∧ suspected_changed vm = true
           ∧ suspected_changed vm' = false
           ∧ cell false (last_suspected vm') 2 = true.
Proof.
  intros vm.
  assert (H1 : 0 ≤ View.my_rank (curr_view vm) < size (gmsSST vm))
    by (vm_compute; split; discriminate || reflexivity).
  assert (H2 : SST.get_num_rows (gmsSST vm) = View.num_members (curr_view vm))
    by reflexivity.
  assert (H3 : size (SST.suspected (my_row vm)) = View.num_members (curr_view vm))
    by reflexivity.
  assert (H4 : View.num_members (curr_view vm) ≤ size (last_suspected vm))
    by (vm_compute; discriminate).
  assert (H5 : ∃ vm', new_suspicion vm = Done vm') by (eexists; vm_compute; reflexivity).
  split; [exact H1 |]. split; [exact H2 |]. split; [exact H3 |]. split; [exact H4 |].
  destruct H5 as [vm' H5]. exists vm'. split; [exact H5 |]. split; [reflexivity |].
  destruct (new_suspicion_settles vm vm' H1 H2 H3 H4 H5) as [Hsettled Hall].
  split; [exact Hsettled |].
  exact (proj2 (Hall 1 2 ltac:(vm_compute; split; discriminate || reflexivity)
                  ltac:(vm_compute; split; discriminate || reflexivity) eq_refl)).
Defined.

Lemma derive_subgroup_settings_lays_out_witness :
  let view := laid_out_view in
  let r := derive_subgroup_settings view ∅ in
  Forall (Forall (λ sv, (length (SubView.is_sender sv) ≤ length (SubView.members sv))%nat))
    (View.subgroup_shard_views view)
  ∧ Z.of_nat (columns_needed (View.subgroup_shard_views view)) < 2 ^ 32
  ∧ r.1.1 = compute_num_received_size view
  ∧ offset_of view 1 = 2
  ∧ offset_of view 2 ≤ r.1.1
  ∧ ∃ s, r.2 !! 1%nat = Some s
         ∧ SubgroupSettings.num_received_offset s = offset_of view 1.
Proof.
  intros view r.
  assert (H1 : Forall (Forall (λ sv, (length (SubView.is_sender sv)
                                      ≤ length (SubView.members sv))%nat))
                 (View.subgroup_shard_views view))
    by (repeat constructor).
  assert (H2 : Z.of_nat (columns_needed (View.subgroup_shard_views view)) < 2 ^ 32)
    by (vm_compute; reflexivity).
  split; [exact H1 |]. split; [exact H2 |].
  destruct (derive_subgroup_settings_lays_out view ∅ H1 H2) as [Htotal Hall].
  split; [exact Htotal |]. split; [reflexivity |].
  destruct (Hall 1%nat [SubView.mk [2; 3] [true; true] ORDERED (-1) [] []] eq_refl)
    as (_ & _ & Hnext & Hmine).
  split; [exact Hnext |].
  destruct Hmine as (s & Hs & Hoff & _).
  { apply Exists_cons_hd. vm_compute. apply list_elem_of_here. }
  exists s. split; [exact Hs | exact Hoff].
Defined.

Lemma new_suspicion_marks_failed_witness :
  let vm := leader_hears_suspicion in
  0 ≤ View.my_rank (curr_view vm) < size (gmsSST vm)
  ∧ SST.get_num_rows (gmsSST vm) = View.num_members (curr_view vm)
  ∧ size (SST.suspected (my_row vm)) = View.num_members (curr_view vm)
  ∧ View.num_members (curr_view vm) ≤ size (View.failed (curr_view vm))
  ∧ ∃ vm', new_suspicion vm = Done vm'
           ∧ cell false (View.failed (curr_view vm')) 2 = true
           ∧ 2 ∈ frozen vm'
           ∧ View.num_failed (curr_view vm) < View.num_failed (curr_view vm').
Proof.
  intros vm.
  assert (H1 : 0 ≤ View.my_rank (curr_view vm) < size (gmsSST vm))
    by (vm_compute; split; discriminate || reflexivity).
  assert (H2 : SST.get_num_rows (gmsSST vm) = View.num_members (curr_view vm))
    by reflexivity.
  assert (H3 : size (SST.suspected (my_row vm)) = View.num_members (curr_view vm))
    by reflexivity.
  assert (H4 : View.num_members (curr_view vm) ≤ size (View.failed (curr_view vm)))
    by (vm_compute; discriminate).
  assert (H5 : ∃ vm', new_suspicion vm = Done vm') by (eexists; vm_compute; reflexivity).
  assert (H6 : 0 ≤ 2 < View.num_members (curr_view vm))
    by (vm_compute; split; discriminate || reflexivity).
  assert (H7 : 0 ≤ 1 < View.num_members (curr_view vm))
    by (vm_compute; split; discriminate || reflexivity).
  split; [exact H1 |]. split; [exact H2 |]. split; [exact H3 |]. split; [exact H4 |].
  destruct H5 as [vm' H5]. exists vm'. split; [exact H5 |].
  destruct (new_suspicion_marks_failed vm vm' H1 H2 H3 H4 H5 2 H6) as [Hfailed Hmarked].
  assert (Hnewly : (∃ r, 0 ≤ r < View.num_members (curr_view vm)
                         ∧ suspects (gmsSST vm) r 2 = true)
                   ∧ cell false (last_suspected vm) 2 = false).
  { split; [exists 1; split; [exact H7 | reflexivity] | reflexivity]. }
  destruct (Hmarked Hnewly) as (Hfrozen & _ & _ & Hnum).
  split; [apply Hfailed; right; exact Hnewly |]. split; [exact Hfrozen | exact Hnum].
Defined.

Lemma report_failure_raises_suspicion_witness :
  let vm := idle_leader in
  0 ≤ View.my_rank (curr_view vm) < size (gmsSST vm)
  ∧ 0 ≤ View.rank_of (curr_view vm) 3 < size (SST.suspected (my_row vm))
  ∧ ∃ vm', report_failure 3 vm = Done vm'
           ∧ suspects (gmsSST vm') 0 2 = true
           ∧ published vm' = [put_cells c_suspected 3 1]
           ∧ suspected_changed vm = false
           ∧ suspected_changed vm' = true.
Proof.
  intros vm.
  assert (H1 : 0 ≤ View.my_rank (curr_view vm) < size (gmsSST vm))
    by (vm_compute; split; discriminate || reflexivity).
  assert (H2 : 0 ≤ View.rank_of (curr_view vm) 3 < size (SST.suspected (my_row vm)))
    by (vm_compute; split; discriminate || reflexivity).
  assert (H3 : ∃ vm', report_failure 3 vm = Done vm') by (eexists; vm_compute; reflexivity).
  split; [exact H1 |]. split; [exact H2 |].
  destruct H3 as [vm' H3]. exists vm'. split; [exact H3 |].
  destruct (report_failure_raises_suspicion 3 vm vm' H1 H2 H3)
    as (Hmine & _ & _ & _ & Hpublished & Hchanged).
  split; [exact Hmine |]. split; [exact Hpublished |]. split; [reflexivity |].
  exact (Hchanged eq_refl).
Defined.

Lemma make_next_view_carries_members_witness :
  let v := sample_view 0 [false; false; true] in
  View.num_members v = size (View.members v)
  ∧ ∃ v', make_next_view v join_table = Returns v'
          ∧ View.members v' = [1; 3; 9]
          ∧ View.member_ips_and_ports v'
            = [sample_endpoint 1; sample_endpoint 3;
               (167772169, 23580, 28366, 37683, 31675)]
          ∧ View.failed v' = [false; true; false]
          ∧ View.my_rank v' = 0.
Proof.
  intros v.
  assert (H1 : View.num_members v = size (View.members v)) by reflexivity.
  assert (H2 : ∃ v', make_next_view v join_table = Returns v')
    by (eexists; vm_compute; reflexivity).
  split; [exact H1 |]. destruct H2 as [v' H2]. exists v'. split; [exact H2 |].
  destruct (make_next_view_carries_members v join_table v' H1 H2)
    as (Hmembers & Hips & Hfailed & _).
  split; [exact Hmembers |]. split; [exact Hips |]. split; [exact Hfailed |].
  vm_compute in H2. by injection H2 as <-.
Defined.

Lemma receive_ragged_trims_keeps_first_witness :
  let later := mkRaggedTrim 0 0 5 2 [4; 8] in
  let j := joiner_connected (encode_trims sample_local [sample_trim; later] ++ [w_flag true]) in
  incoming (leader_connection j)
  = encode_trims sample_local [sample_trim; later] ++ [w_flag true]
  ∧ ∃ m, receive_ragged_trims j
         = Returns
             ((),
              with_restart_state (Some m)
                (with_leader_connection
                   (mkSocket "192.168.1.1" 23580 [w_flag true] true []) j))
         ∧ trim_of m 0 0 = Some sample_trim.
Proof.
  intros later j.
  assert (H : incoming (leader_connection j)
              = encode_trims sample_local [sample_trim; later] ++ [w_flag true])
    by reflexivity.
  split; [exact H |].
  destruct (receive_ragged_trims_keeps_first sample_local [sample_trim; later]
              [w_flag true] j H) as (m & Hm & _ & _ & Hfind).
  exists m. split; [exact Hm |]. rewrite Hfind. reflexivity.
Defined.
